(* ===== verification/_CoqProject ===== *)
-Q . S2P
Prelude.v
Steps.v
Unicode.v
TextCodec.v
Machine.v
LengthGuard.v
Win32.v
CharacterEncoder.v
Flow.v
Memory.v
Pool.v
Hosts.v
Interface.v
Callers.v
Tables.v
