(* ===== verification/Prelude.v ===== *)
(** * string_extras: a verified model of [CharacterEncoder]

    ** The program

    The repository is one C++ class, [CharacterEncoder]
    (src/inc/CharacterEncoder.h, src/src/windows/CharacterEncoder.cpp), with
    two static methods and one file-local helper:

    - [stringLengthValidator<T>(size_type)] clamps a container length to
      [INT_MAX - 1], the largest length it ever hands to the operating
      system;
    - [utf8ToUtf16(const std::string&)] returns the UTF-16 form of a UTF-8
      string: empty-string fast path, clamp, a probe call of
      [::MultiByteToWideChar] that asks for the required length, a buffer of
      exactly that length, a second call that fills it; either call
      answering 0 becomes a thrown [std::exception];
    - [utf16ToUtf8(const std::wstring&)] is the reverse direction through
      [::WideCharToMultiByte], preceded by a [::GetVersionEx] query that
      decides whether the strict flag [WC_ERR_INVALID_CHARS] may be passed
      (Windows Vista and later) or must be 0.

    The three operating-system entry points are not code of this
    repository.  They are the environment of the program, and the
    development treats them as an interface.

    ** Files, in dependency order

    - [Prelude] (this file): the libraries every file loads, the [prog]
      monad (a writer of environment calls with exceptions) and its notation
      in [prog_scope], the tactics [bool_prop], [case_if], [if_lia],
      [step_cases] and [prog_simpl], the hint databases [cenc] and
      [cenc_rw], lemmas on [take] with a length given as [Z], and sums
      over lists ([sum_of]).
    - [Steps]: transition systems whose steps make environment calls.  The
      class [Machine] holds a step relation, the function that computes it
      and a measure; from the laws [MachineLaws] the file derives
      determinism, termination, an interpreter [run_from] and the induction
      principle on the reachable configurations.  [sum_machine] runs the
      one or the other of two machines; [seq_machine] runs a second
      machine on what the first one ended with.
    - [Unicode]: the specification side.  Scalar values, an encoding form
      as a record [EncodingForm] (encode one scalar, decode one scalar from
      the front of a list), the class [EncodingFormLaws] that states what
      such a pair promises, the generic decoding loop with its round-trip
      theorems, the instances [utf8] and [utf16] of the Unicode Standard,
      and the two transcoding functions [utf8_to_utf16] and
      [utf16_to_utf8], each in a strict and a lenient (U+FFFD) variant.
    - [TextCodec]: the abstract component of the specification, sections
      4.1 to 4.3 and 7: [length_guard], [decodeUtf8ToUtf16],
      [encodeUtf16ToUtf8] and the single error [EncodingError].
    - [Machine]: the integers of the C++ program kept at their width ([int]
      as a 32-bit two's complement number, [size_type] as an unsigned number
      of [size_bits] bits given by the class [DataModel], instances for
      32-bit and 64-bit Windows), the casts the source writes
      ([static_cast<int>], [static_cast<size_type>], the implicit conversion
      of an [int] operand of a comparison with a [size_type]), and the
      containers: [std::string] as the list of its bytes, [std::wstring] as
      the list of its 16-bit code units, [c_str] as that list followed by
      the terminator, [std::vector<T>(n, 0)] as [n] zeros.
    - [LengthGuard]: [stringLengthValidator] (CharacterEncoder.cpp, lines
      21 to 42), translated branch by branch.
    - [Win32]: the interface to the operating system.  The class [Win32Api]
      holds the three entry points as functions of their arguments; the
      class [ConversionLaws] states the documented contract of the two
      conversion functions for the code page [CP_UTF8], and [Win32Laws]
      adds a version query that works; [reference_api] is an executable
      instance built from [Unicode] and proved to satisfy the laws, with
      the hosts [windows_xp], [windows_vista] and [windows_10];
      [with_failing_query] gives a host whose version query fails,
      [with_reported_version] one whose query reports another version
      and [with_answer] one whose conversions break the contract.
      [OSVERSIONINFOEX] has the fields of the structure, whose sizes
      ([osvi_fields]) add up to the size the source stores in it.  Calls
      are recorded as [Win32Call] events in the trace of the [prog]
      monad.
    - [CharacterEncoder]: [utf8ToUtf16] (lines 44 to 103) and
      [utf16ToUtf8] (lines 105 to 200), statement by statement, over an
      arbitrary [Win32Api]; their theorems are proved against [Win32Laws]
      only, and the witnesses run them on [reference_api].
    - [Flow]: the same two functions as transition systems in the sense of
      [Steps].  [Utf8Point] and [Utf16Point] are the program points with
      the local variables live at each, [Utf8Step] and [Utf16Step] have
      one rule for each statement and each branch of a test, [utf8_exec]
      and [utf16_exec] compute the steps, [utf8_inv] and [utf16_inv] say
      what holds at each point.
    - [Memory]: the allocations of each function (the empty string of
      the early return, the buffer [std::vector<T>(n, 0)] and the
      returned string) as requests to a [Heap] with a state of its own.
      [utf8_request] and [utf16_request] say what the statement at a
      point asks for, [utf8_held] and [utf16_held] which blocks the local
      variables hold there; [on_heap] turns a machine of [Flow] into one
      over pairs of a heap state and a point, with the rules [Plain],
      [Granted] and [Refused] of [HeapStep]: a refused request leads to
      the point of [std::bad_alloc], and a step that leaves the function
      releases what the locals hold.  The events of a run on a heap are
      the calls and what happened to memory ([Allocated], [Denied],
      [Released]); [ledger] replays them.  The heaps are [oracle], which
      decides a request by its size, and [counting], a heap of a fixed
      number of bytes, with or without a buffer for short strings inside
      the string object.
    - [Pool]: calls made at the same time (section 5 of the
      specification).  [Call] is a call of either function and
      [call_machine] the sum of the two machines; a pool is a heap and
      the points of its threads, [PoolStep] lets one thread make one step
      of [HeapStep], [turn] computes it, [pool_run] follows a schedule.
      [same_calls] relates interleavings in which every thread makes the
      same calls.
    - [Hosts]: what the program reads of the operating system, as the
      equivalences [same_answer] and [same_host], which the two functions
      respect.
    - [Interface]: src/inc/CharacterEncoder.h.  The class
      [CharacterEncoderClass] is the declaration of the two static member
      functions, [DocumentedUtf8ToUtf16] and [DocumentedUtf16ToUtf8] are
      their documentation comments with the size from which truncation
      starts as a parameter, [implementation] is what CharacterEncoder.cpp
      defines, and [round_trip] is a caller of the class.
    - [Callers]: programs that call one function and then another, as
      machines on a heap composed with [seq_machine]: the round trip of
      section 8 ([round_trip_machine], where [hand_over] passes what
      [utf8ToUtf16] returned to [utf16ToUtf8] on the heap as the first
      call left it) and a caller that calls again after an exception
      ([retry_utf8], [retry_utf16]).
    - [Tables]: the two encoding forms once more, as the Unicode
      Standard tabulates them and as a converter that works on bits
      computes them: [utf8_bits] and [utf16_bits] (tables 3-6 and 3-5)
      write a scalar value with shifts and masks, [utf8_row] and
      [utf8_sequence] (table 3-7) find the well-formed byte sequence at
      the front of a list by the ranges of its bytes, [utf8_value] and
      [utf16_table_next] read the scalar value back.  [same_form] is the
      equivalence of encoding forms that read and write alike.

    ** How the model corresponds to the code

    A C++ function that may throw and that calls the operating system is a
    value of [prog Win32Call std_exception A]: the list of calls it made,
    in order, and either the returned value or the exception.  A local
    variable is a [let]; an early [return] or [throw] is the branch of an
    [if] that ends the computation; an out-parameter (the buffer given to
    the second call, the [OSVERSIONINFOEX] given to [GetVersionEx]) is
    passed in and returned with the call's answer.

    ** What the theorems show

    - [Unicode]: decoding inverts encoding and encoding inverts strict
      decoding, for every encoding form that satisfies [EncodingFormLaws]
      and so for UTF-8 and UTF-16 ([utf8_laws], [utf16_laws]); strict
      decoding yields scalar values only; lenient decoding is total; the
      two transcoders are mutually inverse on well-formed input
      ([utf8_to_utf16_roundtrip], [utf16_to_utf8_roundtrip]), and the
      lengths of their results are within a factor of three of each other.
    - [LengthGuard]: [stringLengthValidator] is the clamp of section 4.1
      ([stringLengthValidator_clamp]); its result is a non-negative [int]
      below [INT_MAX] that never exceeds the input
      ([stringLengthValidator_bounds]), positive on a positive input
      ([stringLengthValidator_positive]), and smaller than the input
      exactly from [INT_MAX] on ([stringLengthValidator_truncates]).
    - [Win32]: [reference_api] satisfies [Win32Laws] ([reference_laws]),
      so the laws are consistent and every theorem below has an instance
      that computes.
    - [CharacterEncoder]: the lemmas [utf8ToUtf16_run] and
      [utf16ToUtf8_run] give, for every input, the calls each function
      makes and what it returns or throws ([utf16ToUtf8_run_detected]
      does so for any answer of the version query).  From them:
      refinement of the abstract component ([utf8ToUtf16_refines],
      [utf16ToUtf8_refines]); the round trips of section 8
      ([utf8_roundtrip], [utf16_roundtrip]); memory safety of every call
      ([utf8ToUtf16_in_bounds], [utf16ToUtf8_in_bounds]); exactly when
      each function throws, and which exception ([utf8ToUtf16_throws_iff],
      [utf16ToUtf8_throws_iff]); that the empty string, and only it, makes
      no call ([utf8ToUtf16_silent_iff], [utf16ToUtf8_silent_iff]); that
      results are well-formed and hold no terminator
      ([utf8ToUtf16_well_formed], [utf16ToUtf8_well_formed],
      [utf8ToUtf16_length], [utf16ToUtf8_length]); that nothing is lost
      ([utf8ToUtf16_injective]) and ASCII text, an embedded NUL included,
      is returned as it is ([ascii_identity]); truncation
      ([utf8ToUtf16_truncates], [utf16ToUtf8_truncates]); that the two
      passes agree and the flags suit the host
      ([utf8ToUtf16_passes_agree], [utf16ToUtf8_flags],
      [utf16ToUtf8_version_once]); that neither the data model nor the
      host changes what the functions do with well-formed input
      ([conversions_portable]); that a version query which reports
      Windows Vista on a host without the strict flag makes
      [utf16ToUtf8] throw on every string but the empty one
      ([utf16ToUtf8_flag_rejected]).
    - [Flow]: the machines and the monadic definitions are equivalent on
      every host, whatever it answers: a run ends in one configuration
      only, with the calls and the outcome of the definition
      ([utf8ToUtf16_steps], [utf16ToUtf8_steps]); every run terminates,
      within 7 and 11 steps ([runs_terminate]); a run is never stuck
      before its return or throw ([runs_end]); on a host that keeps its
      contract every reachable point satisfies its invariant and every
      call made so far is in bounds ([utf8ToUtf16_invariant],
      [utf16ToUtf8_invariant]), from which the second test of
      [utf8ToUtf16] never fails ([utf8_second_test_passes]).
    - [Memory]: the machine on a heap keeps the laws of [Steps]
      ([on_heap_laws]), so it is deterministic and terminates within the
      same bounds ([heap_runs_terminate]); on a heap that grants every
      request it makes the calls of [Flow] ([granting_runs]); the whole
      run of each function on any heap, on a host that keeps its
      contract: a refused buffer ends it with [bad_alloc] after the first
      call, a refused result after the second, and the buffer is released
      on every path ([utf8ToUtf16_on_heap], [utf16ToUtf8_on_heap]); at
      every moment a call writes only to a live buffer, no block is
      released twice, and at the end the live blocks are what is handed
      to the caller ([ledger_kept]); on a heap of a fixed number of bytes,
      [4 * n + 2] free bytes are enough for [utf8ToUtf16] on [n] bytes
      and [6 * n + 1] for [utf16ToUtf8] on [n] code units
      ([memory_needed]), and the bytes in use after a run are those
      before it and those of the returned string ([memory_balance]); a
      run on a heap ends as it does without one or with [bad_alloc]
      ([utf8_on_heap_ends], [utf16_on_heap_ends]); on any host, a
      negative answer of the first call becomes a request that no heap
      grants, and the second call is not made
      ([negative_answer_refused]).
    - [Pool]: every interleaving of any number of calls is finite, with
      7 steps for a call of [utf8ToUtf16] and 11 for a call of
      [utf16ToUtf8] at most ([calls_terminate]); schedules and
      interleavings correspond ([pool_run_rtc], [pool_run_complete]); on
      a heap that grants every request, on any host, what a thread does
      is what its call does alone ([calls_independent]) and two
      interleavings that have run to the end agree on every thread
      ([schedules_agree]); a schedule that gives every thread as many
      turns as its call has steps runs every call to its end, on any
      heap and any host ([fair_schedules_finish]); on a heap of a fixed
      number of bytes, on a host that keeps its contract, the bytes in
      use are at every moment those that the threads own, and a thread
      that has finished is at its outcome or at [std::bad_alloc]
      ([calls_accounted], from the invariant [accounted] of a pool with
      a [Budget]); with room for what all the calls need, moreover,
      nothing is refused and every call ends at its outcome
      ([calls_within_budget], from the invariant [balanced]).
    - [Hosts]: hosts that agree on the returned numbers, the buffers and
      the version test make both functions make the same calls and end
      alike, whatever else they do ([hosts_respected]); so the error
      code of a failed call changes nothing ([error_code_unread]), and
      neither does the version from Windows Vista on
      ([vista_or_later_alike]).
    - [Interface]: the implementation keeps the documented contract of
      both functions exactly when truncation starts at [INT_MAX - 1]
      elements ([documented_limit]); a caller that is proved against the
      contract alone ([round_trip_documented]) gets its string back from
      the implementation after five calls in a fixed order
      ([round_trip_run]).
    - [Steps], for [seq_machine]: the composed machine keeps the laws
      ([seq_machine_laws]) and its run is the run of the first machine
      followed, where the caller goes on, by the run of the second
      ([seq_run_from]).
    - [Callers]: the round trip on any heap ends in one of four ways,
      and [utf16ToUtf8] never rejects what [utf8ToUtf16] returned; at
      the end the live blocks are the strings the caller holds
      ([round_trip_on_heap]); [4 * n + 3] free bytes are enough for the
      round trip of [n] bytes, and one byte less is not
      ([round_trip_memory], [round_trip_of_a_letter]); on a heap that
      refuses nothing the machine makes the calls of [round_trip] of
      [Interface] ([round_trip_refines]); a second attempt after an
      exception repeats the first ([second_attempt]).
    - [Tables]: the tables define the encoding forms of [Unicode], on
      every list of bytes or code units, well formed or not
      ([utf8_table_same], [utf16_table_same]); forms that agree decode,
      convert and keep their laws alike ([decode_proper],
      [transcode_same], [same_form_laws]); so the conversions of the
      program are those of the tables ([conversions_by_tables]), and the
      bytes [C0], [C1] and [F5] to [FF] are rejected by [utf8ToUtf16]
      and never returned by [utf16ToUtf8] on Windows Vista and later
      ([foreign_bytes]).

    ** Where the code and its documents differ

    - A well-formed input longer than [INT_MAX - 1] bytes is cut without
      regard to character boundaries, so [utf8ToUtf16] throws when the cut
      splits a character ([utf8ToUtf16_truncation_throws]); section 8 of
      the specification says that such a call succeeds.  The same happens
      to [utf16ToUtf8] on Windows Vista or later when the cut splits a
      surrogate pair ([utf16ToUtf8_truncation_throws]).
    - On a host older than Windows Vista [utf16ToUtf8] never throws: an
      unpaired surrogate is converted by the host's best effort
      ([utf16ToUtf8_before_vista]); section 8 states the rejection without
      condition.
    - The comparison [dwMinorVersion >= 0] of the version test holds of
      every unsigned value ([isWindowsVistaOrGreater_major]).
    - The result of [GetVersionEx] is ignored; after a failed query the
      zeroed structure reads as a host older than Windows Vista, and
      ill-formed input is no longer rejected
      ([utf16ToUtf8_query_fails]).
    - The UTF-8 form of a guarded UTF-16 input can be longer than
      [INT_MAX]; the theorems on [utf16ToUtf8] assume [fits_int], which
      holds of every input of at most [utf16_safe_length] code units
      ([safe_length_fits]).
    - The header announces truncation for a string "greater than the
      range of int in bytes"; a string of exactly [INT_MAX] elements is
      already cut, and a UTF-16 string is cut at [INT_MAX - 1] code units,
      which is about twice that many bytes ([documented_limit]).
    - The flags follow the version that the query reports, not what the
      conversion accepts ([utf16ToUtf8_flag_rejected]).
    - Section 7 of the specification has one error; the code can also
      leave with [std::bad_alloc] ([utf8ToUtf16_on_heap]).
    - Section 5 calls the two operations pure functions of their input.
      The calls share the heap of the process: with room for all of them
      the schedule does not matter ([calls_within_budget]), with less
      room the call that comes first returns and the other one ends with
      [std::bad_alloc] ([schedule_matters]).
    - The specification speaks of a probe that reports "zero / failure";
      the source tests for 0 only.  A negative answer, which the
      contract of the host excludes, is taken for a length
      ([negative_answer_refused]).
    - The comments on the arguments of the calls name bytes where the
      calls count elements (line 69), and in [utf16ToUtf8] they are the
      comments of the other function (lines 149, 177 to 186); the code
      passes what the calls require ([utf8ToUtf16_on_heap],
      [utf16ToUtf8_in_bounds]).

    ** Bounds and fuel

    The decoding loop of [Unicode] runs on fuel.  Each step consumes at
    least one element, so the length of the input is enough fuel; the
    top-level decoders pass exactly that, and [decode_fuel_enough] proves
    that more fuel changes nothing.  The interpreter of [Steps] runs on
    the measure of its starting point, 7 for [utf8ToUtf16] and 11 for
    [utf16ToUtf8]: the number of statements on the longest path, which
    every step decreases ([step_decreases]), so that the interpreter
    always reaches a final point ([run_from_spec]).  The machine on a heap
    has the measure of the machine it runs, because a refusal leads to a
    final point ([raise_below]).  A caller that runs one machine after
    another has the measure of the first, a bound on the measure of the
    second where it starts ([within_bound]: 11 for a call of
    [utf16ToUtf8], 7 for a call of [utf8ToUtf16]) and one more for the
    step between them.  A pool runs on a schedule, a list of
    thread numbers; a turn of a thread that has finished changes nothing,
    and the sum of the measures of the threads bounds the number of steps
    of every interleaving ([pool_nsteps_measure]).  No other definition
    uses fuel.
    Lengths are [Z], lists are indexed by [Z.to_nat] of a length that the
    theorems show to be non-negative, so statements about inputs longer
    than [INT_MAX - 1] are proved symbolically and never evaluated.

    ** What is not modelled

    - The inside of the allocator: a heap is an interface ([Heap]) with
      two instances, which grant, refuse and release; the addresses and
      the layout of the blocks, fragmentation, and the copy of its
      message that the constructor of [std::exception] makes are left
      out.  A request that is too large for any container is refused
      like one for which no memory is left: [std::length_error] is not
      told from [std::bad_alloc], because [max_size] is a constant of
      the standard library and not of the sources.  The theorems of
      [CharacterEncoder] and [Interface] are about a heap that grants
      every request ([granting_runs]).
    - The code of the operating system: the three entry points are an
      interface with their documented contract for the arguments the
      source passes, and an instance that computes; what they do with
      other code pages or other flags, and what a conversion answers
      when its result is longer than [INT_MAX], is left open.  The
      tables of [Tables] say which conversion the contract names, not
      how the operating system computes it.
    - The unwinding of a caller: the machines of [Callers] end where the
      second call ends, with the strings the caller holds still live.
    - Threads of the operating system: a pool interleaves the statements
      of the calls, each statement being one step; the calls into the
      operating system are taken to be atomic.
    - The signedness of [char]: a [std::string] is modelled by its object
      representation, bytes in 0..255.
    - The [GetLastError] side channel beyond the error code recorded
      with a failed call, which the source never reads
      ([error_code_unread]).
    - The protected constructor and the destructor of [CharacterEncoder],
      which the header declares and no source file defines: the class
      has no data member and no object of it is made by the sources.
    - The build: no build file is part of the sources. *)

From Stdlib Require Export ZArith List Lia Bool String.
From stdpp Require Export base tactics option list numbers strings.

#[export] Set Default Goal Selector "!".
#[global] Open Scope Z_scope.

(** [lia] also decides goals with [/] and [mod] by a constant. *)
Ltac Zify.zify_post_hook ::= Z.div_mod_to_equations.

Create HintDb cenc discriminated.
Create Rewrite HintDb cenc_rw.

(** ** Outcomes and programs *)

(** What a C++ call evaluates to: a value, or a thrown exception. *)
Inductive outcome (E A : Type) : Type :=
| Returned (a : A)
| Thrown (e : E).
Arguments Returned {E A} a.
Arguments Thrown {E A} e.

(** A terminated run: the environment calls made, oldest first, and the
    outcome. *)
Record prog (Ev E A : Type) : Type := Run {
  trace : list Ev;
  result : outcome E A
}.
Arguments Run {Ev E A} trace result.
Arguments trace {Ev E A} p.
Arguments result {Ev E A} p.

Section Prog.
Context {Ev E : Type}.

Definition ret {A} (a : A) : prog Ev E A := Run [] (Returned a).

Definition throw {A} (e : E) : prog Ev E A := Run [] (Thrown e).

(** [call ev a]: the environment call [ev], answered with [a]. *)
Definition call {A} (ev : Ev) (a : A) : prog Ev E A := Run [ev] (Returned a).

Definition bind {A B} (c : prog Ev E A) (k : A -> prog Ev E B) : prog Ev E B :=
  match result c with
  | Returned a => Run (trace c ++ trace (k a)) (result (k a))
  | Thrown e => Run (trace c) (Thrown e)
  end.

End Prog.

Declare Scope prog_scope.
Delimit Scope prog_scope with prog.
Bind Scope prog_scope with prog.
Notation "x <- c ;; k" := (bind c (fun x => k))
  (at level 100, c at next level, right associativity) : prog_scope.

#[global] Instance outcome_eq_dec {E A} `{EqDecision E, EqDecision A} :
  EqDecision (outcome E A).
Proof. solve_decision. Defined.

#[global] Instance prog_eq_dec {Ev E A} `{EqDecision Ev, EqDecision E, EqDecision A} :
  EqDecision (prog Ev E A).
Proof. solve_decision. Defined.

(** [returns c a]: the run ends normally with [a]. *)
Definition returns {Ev E A} (c : prog Ev E A) (a : A) : Prop :=
  result c = Returned a.

(** [throws c e]: the run ends with the exception [e]. *)
Definition throws {Ev E A} (c : prog Ev E A) (e : E) : Prop :=
  result c = Thrown e.

(** [silent c]: the run made no environment call. *)
Definition silent {Ev E A} (c : prog Ev E A) : Prop := trace c = [].

(** ** Lists indexed by a machine length *)

(** The first [n] elements, for a length held in an integer variable. *)
Definition takeZ {A} (n : Z) (l : list A) : list A := take (Z.to_nat n) l.

(** The length of a container, as the unbounded integer it denotes. *)
Definition lengthZ {A} (l : list A) : Z := Z.of_nat (length l).

(** ** Tactics *)

(** Boolean comparisons of the goal and the hypotheses as propositions. *)
Ltac bool_prop :=
  repeat match goal with
  | H : _ && _ = true |- _ => apply andb_true_iff in H; destruct H
  | H : _ || _ = false |- _ => apply orb_false_iff in H; destruct H
  | H : negb _ = true |- _ => apply negb_true_iff in H
  | H : negb _ = false |- _ => apply negb_false_iff in H
  | H : (_ <=? _) = true |- _ => apply Z.leb_le in H
  | H : (_ <=? _) = false |- _ => apply Z.leb_gt in H
  | H : (_ <? _) = true |- _ => apply Z.ltb_lt in H
  | H : (_ <? _) = false |- _ => apply Z.ltb_ge in H
  | H : (_ =? _) = true |- _ => apply Z.eqb_eq in H
  | H : (_ =? _) = false |- _ => apply Z.eqb_neq in H
  | H : (_ >? _) = true |- _ => rewrite Z.gtb_ltb in H
  | H : (_ >? _) = false |- _ => rewrite Z.gtb_ltb in H
  | H : (_ >=? _) = true |- _ => rewrite Z.geb_leb in H
  | H : (_ >=? _) = false |- _ => rewrite Z.geb_leb in H
  end.

(** Case analysis on the condition of the first [if] of the goal. *)
Ltac case_if :=
  match goal with
  | |- context [if ?c then _ else _] =>
      let E := fresh "Hc" in destruct c eqn:E; bool_prop
  end.

(** A boolean built from comparisons is [true] (or [false]): decided by
    turning it into arithmetic. *)
Ltac bool_true :=
  repeat (first [ apply andb_true_intro; split | apply Z.leb_le | apply Z.ltb_lt
                | apply Z.eqb_eq | apply negb_true_iff ]);
  try lia.

(** Decide the condition of the first [if] of the goal by arithmetic, and
    take the branch. *)
Ltac if_lia :=
  match goal with
  | |- context [if ?b then _ else _] =>
      first [ replace b with true by lia | replace b with false by lia ];
      cbv iota
  end.

(** Decide the test of a step from the hypothesis of its rule, or read the
    hypothesis of the rule off the test. *)
Ltac step_cases :=
  repeat match goal with
  | H : ?b = true |- context [if ?b then _ else _] => rewrite H
  | H : ?b = false |- context [if ?b then _ else _] => rewrite H
  | H : ?m <> 0 |- context [?m =? 0] =>
      rewrite (proj2 (Z.eqb_neq m 0) H)
  | H : context [if ?b then _ else _] |- _ => destruct b eqn:?
  | H : (_ =? _) = true |- _ => apply Z.eqb_eq in H
  | H : (_ =? _) = false |- _ => apply Z.eqb_neq in H
  end.

(** ** Lemmas on programs *)

Section ProgLemmas.
Context {Ev E : Type}.
Implicit Types ev : Ev.
Implicit Types e : E.

Lemma bind_ret_l {A B} (a : A) (k : A -> prog Ev E B) :
  bind (ret a) k = k a.
Proof. unfold bind; simpl. by destruct (k a). Qed.

Lemma bind_ret_r {A} (c : prog Ev E A) : bind c ret = c.
Proof.
  destruct c as [t [a|e]]; unfold bind; simpl; [|done].
  by rewrite app_nil_r.
Qed.

Lemma bind_assoc {A B C} (c : prog Ev E A)
    (k : A -> prog Ev E B) (h : B -> prog Ev E C) :
  bind (bind c k) h = bind c (fun a => bind (k a) h).
Proof.
  destruct c as [t [a|e]]; unfold bind; simpl; [|done].
  destruct (k a) as [t' [b|e']]; simpl; [|done].
  by rewrite app_assoc.
Qed.

Lemma bind_throw {A B} e (k : A -> prog Ev E B) : bind (throw e) k = throw e.
Proof. done. Qed.

Lemma bind_call {A B} ev (a : A) (k : A -> prog Ev E B) :
  bind (call ev a) k = Run (ev :: trace (k a)) (result (k a)).
Proof. done. Qed.

Lemma bind_run {A B} t (a : A) (k : A -> prog Ev E B) :
  bind (Run t (Returned a)) k = Run (t ++ trace (k a)) (result (k a)).
Proof. done. Qed.

Lemma trace_bind {A B} (c : prog Ev E A) (k : A -> prog Ev E B) a :
  returns c a -> trace (bind c k) = trace c ++ trace (k a).
Proof. unfold returns, bind. by intros ->. Qed.

Lemma result_bind {A B} (c : prog Ev E A) (k : A -> prog Ev E B) a :
  returns c a -> result (bind c k) = result (k a).
Proof. unfold returns, bind. by intros ->. Qed.

Lemma returns_ret {A} (a b : A) : returns (ret a : prog Ev E A) b <-> a = b.
Proof. unfold returns; simpl. split; [by intros [= ->] | by intros ->]. Qed.

Lemma returns_inj {A} (c : prog Ev E A) a b : returns c a -> returns c b -> a = b.
Proof. unfold returns. congruence. Qed.

Lemma returns_not_throws {A} (c : prog Ev E A) a e : returns c a -> ~ throws c e.
Proof. unfold returns, throws. congruence. Qed.

End ProgLemmas.

#[export] Hint Rewrite @bind_ret_l @bind_throw @bind_call : cenc_rw.

(** Evaluate the monadic skeleton of a program. *)
Ltac prog_simpl :=
  repeat (first [ progress autorewrite with cenc_rw
                | progress cbn [bind ret throw call trace result] ]).

(** ** Lemmas on [takeZ] and [lengthZ] *)

Section TakeZ.
Context {A : Type}.
Implicit Types l k : list A.

Lemma lengthZ_nonneg l : 0 <= lengthZ l.
Proof. unfold lengthZ. lia. Qed.

Lemma lengthZ_nil : lengthZ (@nil A) = 0.
Proof. done. Qed.

Lemma lengthZ_cons x l : lengthZ (x :: l) = 1 + lengthZ l.
Proof. unfold lengthZ. simpl. lia. Qed.

Lemma lengthZ_app l k : lengthZ (l ++ k) = lengthZ l + lengthZ k.
Proof. unfold lengthZ. rewrite length_app. lia. Qed.

Lemma lengthZ_zero l : lengthZ l = 0 <-> l = [].
Proof. unfold lengthZ. destruct l; simpl; split; (done || lia). Qed.

Lemma lengthZ_pos l : l <> [] -> 0 < lengthZ l.
Proof.
  intros Hl. pose proof (lengthZ_nonneg l).
  destruct (decide (lengthZ l = 0)) as [Hz%lengthZ_zero|]; [done | lia].
Qed.

Lemma lengthZ_replicate n (x : A) : lengthZ (replicate n x) = Z.of_nat n.
Proof. unfold lengthZ. by rewrite length_replicate. Qed.

Lemma lengthZ_takeZ n l : 0 <= n -> lengthZ (takeZ n l) = Z.min n (lengthZ l).
Proof. intros. unfold lengthZ, takeZ. rewrite length_take. lia. Qed.

Lemma takeZ_all n l : lengthZ l <= n -> takeZ n l = l.
Proof. intros. unfold takeZ. apply take_ge. unfold lengthZ in *. lia. Qed.

Lemma takeZ_lengthZ l : takeZ (lengthZ l) l = l.
Proof. by apply takeZ_all. Qed.

Lemma takeZ_replicate n m (x : A) :
  takeZ n (replicate m x) = replicate (Z.to_nat n `min` m) x.
Proof. unfold takeZ. apply take_replicate. Qed.

Lemma takeZ_app_le n l k : n <= lengthZ l -> takeZ n (l ++ k) = takeZ n l.
Proof. intros. unfold takeZ. apply take_app_le. unfold lengthZ in *. lia. Qed.

Lemma takeZ_app_lengthZ l k : takeZ (lengthZ l) (l ++ k) = l.
Proof. unfold takeZ, lengthZ. rewrite Nat2Z.id. apply take_app_length. Qed.

Lemma takeZ_nonempty n l : 0 < n -> l <> [] -> takeZ n l <> [].
Proof.
  intros Hn Hl. unfold takeZ. destruct l as [|x l]; [done|].
  destruct (Z.to_nat n) eqn:En; [lia | done].
Qed.

Lemma takeZ_prefix n l : exists k, l = takeZ n l ++ k.
Proof. exists (drop (Z.to_nat n) l). unfold takeZ. by rewrite take_drop. Qed.

Lemma Forall_takeZ (P : A -> Prop) n l : Forall P l -> Forall P (takeZ n l).
Proof. apply Forall_take. Qed.

End TakeZ.

#[export] Hint Resolve lengthZ_nonneg Forall_takeZ : cenc.
#[export] Hint Rewrite @lengthZ_nil @lengthZ_cons @lengthZ_app @lengthZ_replicate
  @takeZ_lengthZ @takeZ_app_lengthZ : cenc_rw.

(** ** Sums over lists *)

(** The sum of a quantity over the elements of a list. *)
Definition sum_of {A} (f : A -> Z) (l : list A) : Z :=
  foldr (fun x n => f x + n) 0 l.

Section SumOf.
Context {A B : Type} (f : A -> Z) (g : B -> Z).
Implicit Types (l : list A) (k : list B).

Lemma sum_of_app l l' : sum_of f (l ++ l') = sum_of f l + sum_of f l'.
Proof. induction l as [|x l IH]; simpl; lia. Qed.

(** Replacing one element changes the sum by the difference. *)
Lemma sum_of_insert l i x y :
  l !! i = Some x -> sum_of f (<[i:=y]> l) = sum_of f l - f x + f y.
Proof.
  induction l as [|z l IH] in i |- *; [done|].
  destruct i as [|i]; simpl; [intros [= ->]; lia|]. intros Hi. rewrite (IH i Hi). lia.
Qed.

(** A sum that is smaller element by element. *)
Lemma sum_of_le l k : Forall2 (fun x y => f x <= g y) l k -> sum_of f l <= sum_of g k.
Proof. induction 1; simpl; lia. Qed.

(** The same with room [d] to spare at one element. *)
Lemma sum_of_le_at l k i x y d :
  Forall2 (fun x y => f x <= g y) l k ->
  l !! i = Some x -> k !! i = Some y -> f x + d <= g y ->
  sum_of f l + d <= sum_of g k.
Proof.
  intros Hlk. induction Hlk as [|x' y' l k Hxy Hlk%sum_of_le IH] in i |- *; [done|].
  destruct i as [|i]; simpl.
  - intros [= ->] [= ->] ?. lia.
  - intros Hl Hk Hd. specialize (IH i Hl Hk Hd). lia.
Qed.

End SumOf.
