(* ===== verification/Steps.v ===== *)
(** * Steps: programs as transition systems

    A function of the program is also given statement by statement, as a
    transition system over its program points.  A step is labelled with
    the calls it makes; a configuration pairs the calls made so far with
    the current point.  The class [Machine] holds a step relation, the
    function that computes it and a measure on the points; [MachineLaws]
    says that the function decides the relation and that every step
    decreases the measure.  From the laws alone this file derives
    determinism, termination with a bound on the number of steps, an
    interpreter that reaches the final configuration, and the induction
    principle for invariants of the reachable configurations.  The
    sequences of steps are those of stdpp's [relations]: [rtc], [nsteps],
    [nf], [sn].  The sum of two machines is a machine again, and so is
    one machine run after another ([seq_machine]), whose run is made of
    the runs of the two. *)

From S2P Require Import Prelude.
From stdpp Require Export relations.

(** A transition system whose steps make calls of type [Ev]. *)
Class Machine (Ev St : Type) : Type := {
  step : St -> list Ev -> St -> Prop;
  exec : St -> option (list Ev * St);
  measure : St -> nat
}.

Class MachineLaws {Ev St : Type} (M : Machine Ev St) : Prop := {
  exec_step p evs q : step p evs q <-> exec p = Some (evs, q);
  step_decreases p evs q : step p evs q -> (measure q < measure p)%nat
}.

Section Steps.
Context {Ev St : Type} {M : Machine Ev St}.

(** The calls made so far, and the current point. *)
Definition config : Type := list Ev * St.

Inductive advance : relation config :=
| Advance t p evs q : step p evs q -> advance (t, p) (t ++ evs, q).

(** The configurations a run from [p0] passes through. *)
Definition reachable (p0 : St) (c : config) : Prop := rtc advance ([], p0) c.

(** A point without a step. *)
Definition final (p : St) : bool := bool_decide (exec p = None).

(** The interpreter: at most [fuel] steps. *)
Fixpoint run (fuel : nat) (c : config) : config :=
  match fuel with
  | O => c
  | S fuel =>
      match exec c.2 with
      | Some (evs, q) => run fuel (c.1 ++ evs, q)
      | None => c
      end
  end.

(** The whole run from a point: its measure is fuel enough. *)
Definition run_from (p0 : St) : config := run (measure p0) ([], p0).

End Steps.

Section StepsLemmas.
Context {Ev St : Type} {M : Machine Ev St} {laws : MachineLaws M}.
Implicit Types (c : @config Ev St) (p q : St) (t : list Ev).

Lemma advance_exec c c' :
  advance c c' <-> exists evs q, exec c.2 = Some (evs, q) /\ c' = (c.1 ++ evs, q).
Proof.
  split.
  - intros [t p evs q H%exec_step]. by exists evs, q.
  - intros (evs & q & H%exec_step & ->). destruct c. by constructor.
Qed.

Lemma advance_deterministic : deterministic (@advance Ev St M).
Proof.
  intros c c1 c2 (e1 & q1 & H1 & ->)%advance_exec (e2 & q2 & H2 & ->)%advance_exec.
  congruence.
Qed.

(** A configuration has no step exactly when its point is final. *)
Lemma nf_final c : nf advance c <-> final c.2 = true.
Proof.
  unfold final. rewrite bool_decide_eq_true. split.
  - intros Hnf. destruct (exec c.2) as [[evs q]|] eqn:E; [|done].
    destruct Hnf. exists (c.1 ++ evs, q). apply advance_exec. by exists evs, q.
  - intros E [c' (evs & q & H & _)%advance_exec]. congruence.
Qed.

Lemma advance_decreases c c' : advance c c' -> (measure c'.2 < measure c.2)%nat.
Proof. intros [t p evs q H]. by apply step_decreases in H. Qed.

(** Every step extends the calls made so far. *)
Lemma advance_extends c c' : advance c c' -> c.1 `prefix_of` c'.1.
Proof. intros [t p evs q _]. by exists evs. Qed.

(** ** Termination *)

(** A sequence of [n] steps uses up [n] units of the measure. *)
Lemma nsteps_measure n c c' :
  nsteps advance n c c' -> (n + measure c'.2 <= measure c.2)%nat.
Proof.
  induction 1 as [|n c1 c2 c3 H12%advance_decreases _ IH]; simpl in *; lia.
Qed.

Lemma advance_sn c : sn advance c.
Proof.
  remember (measure c.2) as n eqn:Hn. revert c Hn.
  induction n as [n IH] using lt_wf_ind. intros c ->.
  constructor. intros c' H. unfold flip in H. apply advance_decreases in H.
  by apply (IH (measure c'.2)).
Qed.

(** ** The interpreter *)

Lemma run_rtc fuel c : rtc advance c (run fuel c).
Proof.
  induction fuel as [|fuel IH] in c |- *; simpl; [done|].
  destruct (exec c.2) as [[evs q]|] eqn:E; [|done].
  eapply rtc_l; [|apply IH]. apply advance_exec. by exists evs, q.
Qed.

Lemma run_nf fuel c : (measure c.2 <= fuel)%nat -> nf advance (run fuel c).
Proof.
  induction fuel as [|fuel IH] in c |- *; simpl; intros Hm.
  - intros [c' H%advance_decreases]. lia.
  - destruct (exec c.2) as [[evs q]|] eqn:E.
    + apply IH. simpl. assert (step c.2 evs q) as H%step_decreases by by apply exec_step.
      lia.
    + apply nf_final. unfold final. by rewrite bool_decide_eq_true.
Qed.

(** A run ends in one configuration only. *)
Lemma final_unique c c1 c2 :
  rtc advance c c1 -> nf advance c1 -> rtc advance c c2 -> nf advance c2 -> c1 = c2.
Proof.
  intros H1 Hn1 H2 Hn2. revert c2 H2 Hn2.
  induction H1 as [c|c c' c3 Hstep H1 IH]; intros c2 H2 Hn2.
  - by apply rtc_nf in H2.
  - apply rtc_inv in H2 as [->|(c'' & Hstep' & H2)].
    + destruct Hn2. by exists c'.
    + rewrite <- (advance_deterministic _ _ _ Hstep Hstep') in H2. by apply IH.
Qed.

(** The run from a point ends, and ends where the interpreter says. *)
Lemma run_from_spec p0 c :
  reachable p0 c /\ nf advance c <-> c = run_from p0.
Proof.
  assert (nf advance (run_from p0)) as Hnf by by apply run_nf.
  split.
  - intros [Hr Hc]. apply (final_unique ([], p0)); [done..| apply run_rtc | done].
  - intros ->. split; [apply run_rtc | done].
Qed.

(** Wherever a run has got to, it goes on to its end. *)
Lemma reachable_continues p0 c : reachable p0 c -> rtc advance c (run_from p0).
Proof.
  intros Hc. assert (run (measure c.2) c = run_from p0) as <-; [|apply run_rtc].
  apply run_from_spec. split; [|by apply run_nf].
  unfold reachable in *. etrans; [apply Hc | apply run_rtc].
Qed.

(** What a run has done so far is the beginning of what it does in all. *)
Lemma reachable_prefix p0 c : reachable p0 c -> c.1 `prefix_of` (run_from p0).1.
Proof.
  intros Hc%reachable_continues.
  induction Hc as [|c c' c'' Hadv _ IH]; [done|].
  etrans; [by apply advance_extends | done].
Qed.

(** ** Invariants *)

(** A property of the first configuration that every step preserves holds
    of every reachable configuration. *)
Lemma reachable_ind (I : config -> Prop) p0 :
  I ([], p0) ->
  (forall c c', reachable p0 c -> I c -> advance c c' -> I c') ->
  forall c, reachable p0 c -> I c.
Proof.
  intros H0 Hstep. unfold reachable in *. apply rtc_ind_r; [done|].
  intros c c' Hc Hadv IH. by apply (Hstep c).
Qed.

(** The same for a property of the points together with a property of
    every call made so far. *)
Lemma reachable_keeps (ok : Ev -> Prop) (I : St -> Prop) p0 :
  I p0 ->
  (forall p evs q, I p -> step p evs q -> I q /\ Forall ok evs) ->
  forall c, reachable p0 c -> I c.2 /\ Forall ok c.1.
Proof.
  intros H0 Hstep. apply reachable_ind; [by split|].
  intros c c' _ Hk Hadv. destruct Hadv as [t p evs q Hpq]. destruct Hk as [Hi Hb].
  destruct (Hstep p evs q Hi Hpq). split; [done|]. by apply Forall_app.
Qed.

(** A run from [p0] has at most [measure p0] steps. *)
Lemma reachable_bound n p0 c :
  nsteps advance n ([], p0) c -> (n <= measure p0)%nat.
Proof. intros H%nsteps_measure. simpl in H. lia. Qed.

End StepsLemmas.

(** ** The sum of two machines *)

(** A machine that runs the one or the other of two machines, according
    to the point it is started from. *)
Section Sum.
Context {Ev St1 St2 : Type} (M1 : Machine Ev St1) (M2 : Machine Ev St2).

Inductive SumStep : St1 + St2 -> list Ev -> St1 + St2 -> Prop :=
| StepLeft p evs q : step p evs q -> SumStep (inl p) evs (inl q)
| StepRight p evs q : step p evs q -> SumStep (inr p) evs (inr q).

Definition sum_exec (p : St1 + St2) : option (list Ev * (St1 + St2)) :=
  match p with
  | inl p => prod_map id inl <$> exec p
  | inr p => prod_map id inr <$> exec p
  end.

Definition sum_measure (p : St1 + St2) : nat :=
  match p with inl p => measure p | inr p => measure p end.

Definition sum_machine : Machine Ev (St1 + St2) :=
  {| step := SumStep; exec := sum_exec; measure := sum_measure |}.

End Sum.

Section SumLemmas.
Context {Ev St1 St2 : Type} {M1 : Machine Ev St1} {M2 : Machine Ev St2}.
Context {laws1 : MachineLaws M1} {laws2 : MachineLaws M2}.

#[export] Instance sum_machine_laws : MachineLaws (sum_machine M1 M2).
Proof.
  split; cbn [step exec measure sum_machine].
  - intros p evs q. split.
    + intros [p' evs' q' Hs|p' evs' q' Hs]; apply exec_step in Hs; simpl; by rewrite Hs.
    + destruct p as [p|p]; simpl; destruct (exec p) as [[evs' q']|] eqn:Hs;
        intros; simplify_eq/=; constructor; by apply exec_step.
  - intros p evs q [p' evs' q' Hs|p' evs' q' Hs]; simpl; by apply step_decreases in Hs.
Qed.

Lemma final_inl (p : St1) : final (M := sum_machine M1 M2) (inl p) = final p.
Proof. unfold final. cbn. by destruct (exec p). Qed.

Lemma final_inr (p : St2) : final (M := sum_machine M1 M2) (inr p) = final p.
Proof. unfold final. cbn. by destruct (exec p). Qed.

(** A run of the sum from a point of one machine is the run of that
    machine. *)
Lemma run_inl fuel (t : list Ev) (p : St1) :
  run (M := sum_machine M1 M2) fuel (t, inl p) = prod_map id inl (run (M := M1) fuel (t, p)).
Proof.
  induction fuel as [|fuel IH] in t, p |- *; [done|]. cbn [run exec sum_machine fst snd].
  simpl. destruct (exec p) as [[evs q]|]; simpl; [apply IH | done].
Qed.

Lemma run_inr fuel (t : list Ev) (p : St2) :
  run (M := sum_machine M1 M2) fuel (t, inr p) = prod_map id inr (run (M := M2) fuel (t, p)).
Proof.
  induction fuel as [|fuel IH] in t, p |- *; [done|]. cbn [run exec sum_machine fst snd].
  simpl. destruct (exec p) as [[evs q]|]; simpl; [apply IH | done].
Qed.

End SumLemmas.

(** ** One machine after another *)

(** What was done before a run does not change the run. *)
Section Frame.
Context {Ev St : Type} {M : Machine Ev St}.

Lemma advance_frame (u : list Ev) (c c' : @config Ev St) :
  advance c c' -> advance (u ++ c.1, c.2) (u ++ c'.1, c'.2).
Proof. intros [t p evs q Hs]. simpl. rewrite app_assoc. by constructor. Qed.

Lemma rtc_advance_frame (u : list Ev) (c c' : @config Ev St) :
  rtc advance c c' -> rtc advance (u ++ c.1, c.2) (u ++ c'.1, c'.2).
Proof.
  induction 1 as [|c1 c2 c3 Hadv _ IH]; [done|].
  eapply rtc_l; [by apply advance_frame | done].
Qed.

End Frame.

(** A caller that runs a second machine on what the first one ends with:
    [next] says at which final points of the first machine the second one
    starts, and where; at the other final points the caller ends too.
    [bound] is the number of steps the second machine may need. *)
Section Seq.
Context {Ev St1 St2 : Type} (M1 : Machine Ev St1) (M2 : Machine Ev St2).
Context (next : St1 -> option St2) (bound : nat).

Inductive SeqStep : St1 + St2 -> list Ev -> St1 + St2 -> Prop :=
| StepFirst p evs q : step p evs q -> SeqStep (inl p) evs (inl q)
| StepNext p q : exec p = None -> next p = Some q -> SeqStep (inl p) [] (inr q)
| StepSecond p evs q : step p evs q -> SeqStep (inr p) evs (inr q).

Definition seq_exec (p : St1 + St2) : option (list Ev * (St1 + St2)) :=
  match p with
  | inl p =>
      match exec p with
      | Some (evs, q) => Some (evs, inl q)
      | None => (fun q => ([], inr q)) <$> next p
      end
  | inr p => prod_map id inr <$> exec p
  end.

Definition seq_measure (p : St1 + St2) : nat :=
  match p with inl p => S (measure p + bound) | inr p => measure p end.

Definition seq_machine : Machine Ev (St1 + St2) :=
  {| step := SeqStep; exec := seq_exec; measure := seq_measure |}.

(** The second machine ends within the bound wherever it is started. *)
Class Within : Prop :=
  within_bound p q : next p = Some q -> (measure q <= bound)%nat.

(** The run of the caller, from the runs of the two machines. *)
Definition seq_run (p0 : St1) : list Ev * (St1 + St2) :=
  let c1 := run_from p0 in
  match next c1.2 with
  | Some q => let c2 := run_from q in (c1.1 ++ c2.1, inr c2.2)
  | None => (c1.1, inl c1.2)
  end.

End Seq.

Section SeqLemmas.
Context {Ev St1 St2 : Type} {M1 : Machine Ev St1} {M2 : Machine Ev St2}.
Context {next : St1 -> option St2} {bound : nat}.
Context {laws1 : MachineLaws M1} {laws2 : MachineLaws M2} {within : Within M2 next bound}.

#[local] Abbreviation seq := (seq_machine M1 M2 next bound).

#[export] Instance seq_machine_laws : MachineLaws seq.
Proof.
  split; cbn [step exec measure seq_machine].
  - intros p evs q. split.
    + intros [p' evs' q' Hs|p' q' Hp Hn|p' evs' q' Hs]; simpl;
        [apply exec_step in Hs; by rewrite Hs | by rewrite Hp, Hn |
         apply exec_step in Hs; by rewrite Hs].
    + destruct p as [p|p]; simpl; destruct (exec p) as [[evs' q']|] eqn:Hs;
        try destruct (next p) as [q'|] eqn:Hn;
        intros; simplify_eq/=; try (constructor; by apply exec_step).
      by constructor.
  - intros p evs q [p' evs' q' Hs|p' q' _ Hn|p' evs' q' Hs]; simpl.
    + apply step_decreases in Hs. lia.
    + apply within in Hn. lia.
    + by apply step_decreases in Hs.
Qed.

Lemma seq_final_inl (p : St1) :
  final (M := seq) (inl p) = final p && bool_decide (next p = None).
Proof.
  unfold final. cbn. destruct (exec p) as [[evs q]|]; [done|].
  destruct (next p); simpl; by rewrite ?bool_decide_eq_true_2, ?bool_decide_eq_false_2.
Qed.

Lemma seq_final_inr (p : St2) : final (M := seq) (inr p) = final p.
Proof. unfold final. cbn. by destruct (exec p). Qed.

(** The steps of either machine are steps of the caller. *)
Lemma seq_first (c c' : @config Ev St1) :
  rtc advance c c' -> rtc (advance (M := seq)) (c.1, inl c.2) (c'.1, inl c'.2).
Proof.
  induction 1 as [|c1 c2 c3 [t p evs q Hs] _ IH]; [done|].
  eapply rtc_l; [|done]. simpl. apply (Advance (M := seq)). by constructor.
Qed.

Lemma seq_second (c c' : @config Ev St2) :
  rtc advance c c' -> rtc (advance (M := seq)) (c.1, inr c.2) (c'.1, inr c'.2).
Proof.
  induction 1 as [|c1 c2 c3 [t p evs q Hs] _ IH]; [done|].
  eapply rtc_l; [|done]. simpl. apply (Advance (M := seq)). by constructor.
Qed.

(** The caller runs the first machine to its end and then, where [next]
    says so, the second. *)
Lemma seq_run_from (p0 : St1) :
  run_from (M := seq) (inl p0) = seq_run M1 M2 next p0.
Proof.
  symmetry. apply run_from_spec. unfold seq_run.
  destruct (proj2 (run_from_spec p0 (run_from p0)) eq_refl) as [Hr1 Hn1].
  apply nf_final in Hn1. apply (seq_first ([], p0)) in Hr1.
  destruct (next (run_from p0).2) as [q|] eqn:Hq; cbn zeta; split.
  - destruct (proj2 (run_from_spec q (run_from q)) eq_refl) as [Hr2 _].
    unfold reachable. etrans; [apply Hr1|]. apply (seq_second ([], q)) in Hr2.
    apply (rtc_advance_frame (run_from p0).1) in Hr2. simpl in Hr2.
    eapply rtc_l; [|apply Hr2].
    apply (Advance (M := seq) _ (inl _) [] (inr q)). constructor; [|done].
    unfold final in Hn1. by apply bool_decide_eq_true in Hn1.
  - apply nf_final. cbn [snd]. rewrite seq_final_inr. apply nf_final. by apply run_nf.
  - done.
  - apply nf_final. cbn [snd]. rewrite seq_final_inl, Hn1, Hq. by rewrite bool_decide_eq_true_2.
Qed.

End SeqLemmas.
