(* ===== verification/Unicode.v ===== *)
(** * Unicode: scalar values, UTF-8 and UTF-16

    The specification the operating system's conversion routines are
    measured against.  Nothing here translates code of the repository: the
    definitions follow the Unicode Standard (chapter 3, definitions D76,
    D91 and D92).

    An encoding form is a pair [encode1]/[next]: the code units of one
    scalar value, and the scalar value at the front of a list of code
    units together with what follows it.  [EncodingFormLaws] states that
    the two are inverse of each other.  [decode] iterates [next] over a
    whole list, strictly (an ill-formed element fails) or leniently (an
    ill-formed element becomes U+FFFD); [encode] concatenates [encode1].
    Every theorem about [decode] and [encode] is proved once, for any
    encoding form that satisfies the laws, and holds of [utf8] and [utf16]
    through the instances at the end of the file. *)

From S2P Require Import Prelude.

(** ** Code points *)

Definition is_high_surrogate (u : Z) : bool := (0xD800 <=? u) && (u <=? 0xDBFF).

Definition is_low_surrogate (u : Z) : bool := (0xDC00 <=? u) && (u <=? 0xDFFF).

Definition is_surrogate (c : Z) : bool := (0xD800 <=? c) && (c <=? 0xDFFF).

(** D76: a Unicode scalar value is a code point that is not a surrogate. *)
Definition is_scalar (c : Z) : bool :=
  (0 <=? c) && (c <=? 0x10FFFF) && negb (is_surrogate c).

(** U+FFFD REPLACEMENT CHARACTER. *)
Definition replacement : Z := 0xFFFD.

(** ** Encoding forms *)

Record EncodingForm (U : Type) : Type := {
  encode1 : Z -> list U;
  next : list U -> option (Z * list U)
}.
Arguments encode1 {U} form c : rename.
Arguments next {U} form l : rename.

(** What an encoding form promises: [next] reads back what [encode1]
    wrote, whatever follows it; [next] accepts nothing else; and a scalar
    value takes at least one code unit. *)
Class EncodingFormLaws {U : Type} (form : EncodingForm U) : Prop := {
  next_encode1 c rest :
    is_scalar c = true -> next form (encode1 form c ++ rest) = Some (c, rest);
  next_sound l c rest :
    next form l = Some (c, rest) ->
    is_scalar c = true /\ l = encode1 form c ++ rest;
  encode1_nonempty c : is_scalar c = true -> encode1 form c <> []
}.

Section Decode.
Context {U : Type} (form : EncodingForm U).

(** The code units of a list of scalar values. *)
Definition encode (cs : list Z) : list U := flat_map (encode1 form) cs.

(** The scalar values of a list of code units, with fuel for the number of
    steps.  In strict mode an ill-formed element makes the whole list
    ill-formed; in lenient mode it is replaced by U+FFFD and skipped. *)
Fixpoint decode_fuel (strict : bool) (fuel : nat) (l : list U) : option (list Z) :=
  match l, fuel with
  | [], _ => Some []
  | _ :: _, O => None
  | _ :: t, S fuel' =>
      match next form l with
      | Some (c, rest) => cons c <$> decode_fuel strict fuel' rest
      | None =>
          if strict then None
          else cons replacement <$> decode_fuel strict fuel' t
      end
  end.

(** Every step consumes an element: the length is enough fuel. *)
Definition decode (strict : bool) (l : list U) : option (list Z) :=
  decode_fuel strict (length l) l.

(** A list of code units is well formed when strict decoding accepts it. *)
Definition well_formed (l : list U) : bool := bool_decide (is_Some (decode true l)).

End Decode.

(** Conversion between two encoding forms. *)
Definition transcode {U V : Type} (from : EncodingForm U) (to : EncodingForm V)
    (strict : bool) (l : list U) : option (list V) :=
  encode to <$> decode from strict l.

(** ** UTF-8 (D92) *)

(** A continuation byte, 10xxxxxx. *)
Definition is_cont (b : Z) : bool := (0x80 <=? b) && (b <? 0xC0).

Definition utf8_encode1 (c : Z) : list Z :=
  if c <? 0x80 then [c]
  else if c <? 0x800 then [0xC0 + c / 64; 0x80 + c mod 64]
  else if c <? 0x10000 then
    [0xE0 + c / 4096; 0x80 + (c / 64) mod 64; 0x80 + c mod 64]
  else
    [0xF0 + c / 262144; 0x80 + (c / 4096) mod 64;
     0x80 + (c / 64) mod 64; 0x80 + c mod 64].

(** The scalar value at the front of a byte sequence: the payload bits of
    the lead byte and its continuation bytes, accepted when the sequence is
    the shortest one for a scalar value. *)
Definition utf8_next (bs : list Z) : option (Z * list Z) :=
  match bs with
  | [] => None
  | b0 :: t0 =>
      if (0 <=? b0) && (b0 <? 0x80) then Some (b0, t0)
      else if (0xC0 <=? b0) && (b0 <? 0xE0) then
        match t0 with
        | b1 :: t1 =>
            let c := (b0 - 0xC0) * 64 + (b1 - 0x80) in
            if is_cont b1 && (0x80 <=? c) then Some (c, t1) else None
        | _ => None
        end
      else if (0xE0 <=? b0) && (b0 <? 0xF0) then
        match t0 with
        | b1 :: b2 :: t2 =>
            let c := (b0 - 0xE0) * 4096 + (b1 - 0x80) * 64 + (b2 - 0x80) in
            if is_cont b1 && is_cont b2 && (0x800 <=? c) && negb (is_surrogate c)
            then Some (c, t2) else None
        | _ => None
        end
      else if (0xF0 <=? b0) && (b0 <? 0xF8) then
        match t0 with
        | b1 :: b2 :: b3 :: t3 =>
            let c := (b0 - 0xF0) * 262144 + (b1 - 0x80) * 4096
                     + (b2 - 0x80) * 64 + (b3 - 0x80) in
            if is_cont b1 && is_cont b2 && is_cont b3
               && (0x10000 <=? c) && (c <=? 0x10FFFF)
            then Some (c, t3) else None
        | _ => None
        end
      else None
  end.

Definition utf8 : EncodingForm Z := {| encode1 := utf8_encode1; next := utf8_next |}.

(** ** UTF-16 (D91) *)

Definition utf16_encode1 (c : Z) : list Z :=
  if c <? 0x10000 then [c]
  else [0xD800 + (c - 0x10000) / 1024; 0xDC00 + (c - 0x10000) mod 1024].

Definition utf16_next (us : list Z) : option (Z * list Z) :=
  match us with
  | [] => None
  | u0 :: t0 =>
      if is_high_surrogate u0 then
        match t0 with
        | u1 :: t1 =>
            if is_low_surrogate u1
            then Some (0x10000 + (u0 - 0xD800) * 1024 + (u1 - 0xDC00), t1)
            else None
        | [] => None
        end
      else if (0 <=? u0) && (u0 <? 0x10000) && negb (is_low_surrogate u0)
      then Some (u0, t0)
      else None
  end.

Definition utf16 : EncodingForm Z := {| encode1 := utf16_encode1; next := utf16_next |}.

(** ** The two conversions of the program *)

Definition utf8_to_utf16 (strict : bool) (bs : list Z) : option (list Z) :=
  transcode utf8 utf16 strict bs.

Definition utf16_to_utf8 (strict : bool) (us : list Z) : option (list Z) :=
  transcode utf16 utf8 strict us.

(** Element ranges of the two containers (as in [Machine]). *)
Definition is_byte (b : Z) : bool := (0 <=? b) && (b <? 256).

Definition is_unit (u : Z) : bool := (0 <=? u) && (u <? 65536).

(** ** The decoding loop, for any encoding form *)

Abbreviation scalars := (Forall (fun c => is_scalar c = true)).

(** The characters of ASCII, and an encoding form in which each of them is
    its own single code unit. *)
Definition is_ascii (a : Z) : bool := (0 <=? a) && (a <? 0x80).

Abbreviation ascii := (Forall (fun a => is_ascii a = true)).

Class AsciiTransparent (form : EncodingForm Z) : Prop :=
  encode1_ascii a : is_ascii a = true -> encode1 form a = [a].

Lemma replacement_scalar : is_scalar replacement = true.
Proof. done. Qed.

Section DecodeLemmas.
Context {U : Type} (form : EncodingForm U) {laws : EncodingFormLaws form}.
Implicit Types (l k : list U) (cs : list Z) (strict : bool).

Lemma next_shorter l c rest :
  next form l = Some (c, rest) -> (length rest < length l)%nat.
Proof.
  intros H. apply next_sound in H as [Hc ->]. rewrite length_app.
  pose proof (encode1_nonempty c Hc). destruct (encode1 form c); [done|].
  simpl. lia.
Qed.

Lemma decode_fuel_mono strict f1 f2 l :
  (length l <= f1)%nat -> (length l <= f2)%nat ->
  decode_fuel form strict f1 l = decode_fuel form strict f2 l.
Proof.
  revert f2 l. induction f1 as [|f1 IH]; intros f2 l H1 H2.
  - destruct l; [by destruct f2 | simpl in H1; lia].
  - destruct l as [|a t]; [by destruct f2|].
    destruct f2 as [|f2]; [simpl in H2; lia|].
    simpl. destruct (next form (a :: t)) as [[c rest]|] eqn:E.
    + apply next_shorter in E. simpl in *. by rewrite (IH f2 rest) by lia.
    + destruct strict; [done|]. simpl in *. by rewrite (IH f2 t) by lia.
Qed.

(** Fuel beyond the length of the input changes nothing. *)
Lemma decode_fuel_enough strict fuel l :
  (length l <= fuel)%nat -> decode_fuel form strict fuel l = decode form strict l.
Proof. intros. unfold decode. by apply decode_fuel_mono. Qed.

Lemma decode_nil strict : decode form strict [] = Some [].
Proof. done. Qed.

Lemma decode_step strict l c rest :
  next form l = Some (c, rest) ->
  decode form strict l = cons c <$> decode form strict rest.
Proof.
  intros E. pose proof (next_shorter _ _ _ E) as Hlt.
  destruct l as [|a t]; [simpl in Hlt; lia|].
  unfold decode at 1. simpl. rewrite E.
  by rewrite decode_fuel_enough by (simpl in Hlt; lia).
Qed.

Lemma decode_reject_strict a t :
  next form (a :: t) = None -> decode form true (a :: t) = None.
Proof. intros E. unfold decode. simpl. by rewrite E. Qed.

Lemma decode_reject_lenient a t :
  next form (a :: t) = None ->
  decode form false (a :: t) = cons replacement <$> decode form false t.
Proof. intros E. unfold decode at 1. simpl. by rewrite E. Qed.

(** The three ways a non-empty list is decoded. *)
Lemma decode_cons_cases strict a t :
  (exists c rest, next form (a :: t) = Some (c, rest) /\
     (length rest <= length t)%nat /\ is_scalar c = true /\
     a :: t = encode1 form c ++ rest /\
     decode form strict (a :: t) = cons c <$> decode form strict rest) \/
  (next form (a :: t) = None /\ strict = true /\
     decode form strict (a :: t) = None) \/
  (next form (a :: t) = None /\ strict = false /\
     decode form strict (a :: t) = cons replacement <$> decode form strict t).
Proof.
  destruct (next form (a :: t)) as [[c rest]|] eqn:E.
  - left. exists c, rest. pose proof (next_shorter _ _ _ E) as Hlt.
    destruct (next_sound _ _ _ E) as [Hc Heq].
    split_and!; [done | simpl in Hlt; lia | done | done | by apply decode_step].
  - right. destruct strict; [left | right]; split_and!; try done.
    + by apply decode_reject_strict.
    + by apply decode_reject_lenient.
Qed.

(** Induction on a list along the steps of the decoder: to prove [P l] one
    may assume [P] of every shorter list. *)
Lemma decode_ind (P : list U -> Prop) :
  (forall l, (forall k, (length k < length l)%nat -> P k) -> P l) ->
  forall l, P l.
Proof.
  intros step l. remember (length l) as n eqn:Hn.
  revert l Hn. induction (lt_wf n) as [n _ IH]. intros l ->.
  apply step. intros k Hk. by apply (IH (length k)).
Qed.

(** Decoding inverts encoding. *)
Lemma decode_encode strict cs :
  scalars cs -> decode form strict (encode form cs) = Some cs.
Proof.
  induction 1 as [|c cs Hc _ IH]; [done|].
  unfold encode in *. simpl.
  rewrite (decode_step _ _ c (flat_map (encode1 form) cs)) by by apply next_encode1.
  by rewrite IH.
Qed.

(** Whatever is decoded, in either mode, is a list of scalar values. *)
Lemma decode_scalars strict l cs : decode form strict l = Some cs -> scalars cs.
Proof.
  revert cs. induction l as [l IH] using decode_ind. intros cs H.
  destruct l as [|a t]; [by injection H as <-|].
  destruct (decode_cons_cases strict a t)
    as [(c & rest & _ & Hlen & Hc & _ & Hd) | [(_ & _ & Hd) | (_ & _ & Hd)]];
    rewrite Hd in H; [| done |];
    apply fmap_Some in H as (cs' & H & ->); constructor; try done.
  - apply (IH rest); [simpl; lia | done].
  - apply (IH t); [simpl; lia | done].
Qed.

(** Encoding inverts strict decoding. *)
Lemma encode_decode l cs : decode form true l = Some cs -> encode form cs = l.
Proof.
  revert cs. induction l as [l IH] using decode_ind. intros cs H.
  destruct l as [|a t]; [by injection H as <-|].
  destruct (decode_cons_cases true a t)
    as [(c & rest & _ & Hlen & Hc & Heq & Hd) | [(_ & _ & Hd) | (_ & ? & _)]];
    [| by rewrite Hd in H | done].
  rewrite Hd in H. apply fmap_Some in H as (cs' & H & ->).
  rewrite Heq. unfold encode. simpl. f_equal.
  apply (IH rest); [simpl; lia | done].
Qed.

(** Lenient decoding accepts every list. *)
Lemma decode_lenient_total l : is_Some (decode form false l).
Proof.
  induction l as [l IH] using decode_ind.
  destruct l as [|a t]; [by eexists|].
  destruct (decode_cons_cases false a t)
    as [(c & rest & _ & Hlen & _ & _ & Hd) | [(_ & ? & _) | (_ & _ & Hd)]];
    [| done |]; rewrite Hd; apply fmap_is_Some, IH; simpl; lia.
Qed.

(** What strict decoding accepts, lenient decoding reads the same way. *)
Lemma decode_strict_lenient strict l cs :
  decode form true l = Some cs -> decode form strict l = Some cs.
Proof.
  intros H. rewrite <- (encode_decode _ _ H).
  apply decode_encode. by apply (decode_scalars true l).
Qed.

(** A well-formed prefix is decoded on its own. *)
Lemma decode_app strict l k cs :
  decode form true l = Some cs ->
  decode form strict (l ++ k) = (cs ++.) <$> decode form strict k.
Proof.
  intros H. pose proof (decode_scalars _ _ _ H) as Hs.
  rewrite <- (encode_decode _ _ H). clear H l.
  induction Hs as [|c cs Hc _ IH]; simpl.
  - by destruct (decode form strict k).
  - unfold encode in *. simpl. rewrite <- app_assoc.
    rewrite (decode_step _ _ c (flat_map (encode1 form) cs ++ k))
      by by apply next_encode1.
    rewrite IH. by destruct (decode form strict k).
Qed.

(** Encoding is injective on scalar values. *)
Lemma encode_inj cs cs' :
  scalars cs -> scalars cs' -> encode form cs = encode form cs' -> cs = cs'.
Proof.
  intros H H' Heq. apply (inj Some).
  rewrite <- (decode_encode true cs H), <- (decode_encode true cs' H').
  by rewrite Heq.
Qed.

Lemma encode_nil_inv cs : scalars cs -> encode form cs = [] -> cs = [].
Proof.
  intros Hs. destruct Hs as [|c cs' Hc _]; [done|]. unfold encode. simpl. intros Heq.
  apply app_eq_nil in Heq as [Heq _]. by apply encode1_nonempty in Heq.
Qed.

Lemma decode_nil_inv strict l : decode form strict l = Some [] -> l = [].
Proof.
  destruct l as [|a t]; [done|]. intros H.
  destruct (decode_cons_cases strict a t)
    as [(c & rest & _ & _ & _ & _ & Hd) | [(_ & _ & Hd) | (_ & _ & Hd)]];
    rewrite Hd in H; [| done |]; by apply fmap_Some in H as (? & _ & ?).
Qed.

Lemma well_formed_spec l :
  well_formed form l = true <-> exists cs, decode form true l = Some cs.
Proof. unfold well_formed. rewrite bool_decide_eq_true. done. Qed.

Lemma well_formed_false l :
  well_formed form l = false <-> decode form true l = None.
Proof.
  unfold well_formed. rewrite bool_decide_eq_false, <- eq_None_not_Some. done.
Qed.

Lemma well_formed_encode cs : scalars cs -> well_formed form (encode form cs) = true.
Proof. intros. apply well_formed_spec. exists cs. by apply decode_encode. Qed.

End DecodeLemmas.

(** ** UTF-8 and UTF-16 satisfy the laws *)

(** Unfold the range predicates, so that [lia] sees comparisons only. *)
Ltac unfold_ranges :=
  unfold is_scalar, is_surrogate, is_high_surrogate, is_low_surrogate,
    is_cont, is_byte, is_unit, replacement in *.

Lemma utf8_next_encode1 c rest :
  is_scalar c = true -> utf8_next (utf8_encode1 c ++ rest) = Some (c, rest).
Proof.
  intros Hc. unfold_ranges. unfold utf8_encode1.
  repeat case_if; cbn [app utf8_next]; unfold_ranges; cbv zeta;
    repeat if_lia; do 2 f_equal; lia.
Qed.

Lemma utf8_next_sound l c rest :
  utf8_next l = Some (c, rest) ->
  is_scalar c = true /\ l = utf8_encode1 c ++ rest.
Proof.
  unfold utf8_next, utf8_encode1. unfold_ranges. cbv zeta. intros H.
  repeat case_match; simplify_eq; (split; [lia|]);
    repeat if_lia; cbn [app]; repeat f_equal; lia.
Qed.

Lemma utf8_encode1_nonempty c : is_scalar c = true -> utf8_encode1 c <> [].
Proof. intros _. unfold utf8_encode1. by repeat case_match. Qed.

#[export] Instance utf8_laws : EncodingFormLaws utf8.
Proof.
  split; [exact utf8_next_encode1 | exact utf8_next_sound | exact utf8_encode1_nonempty].
Qed.

Lemma utf16_next_encode1 c rest :
  is_scalar c = true -> utf16_next (utf16_encode1 c ++ rest) = Some (c, rest).
Proof.
  intros Hc. unfold_ranges. unfold utf16_encode1.
  case_if; cbn [app utf16_next]; unfold_ranges;
    repeat if_lia; do 2 f_equal; lia.
Qed.

Lemma utf16_next_sound l c rest :
  utf16_next l = Some (c, rest) ->
  is_scalar c = true /\ l = utf16_encode1 c ++ rest.
Proof.
  unfold utf16_next, utf16_encode1. unfold_ranges. intros H.
  repeat case_match; simplify_eq; (split; [lia|]);
    repeat if_lia; cbn [app]; repeat f_equal; lia.
Qed.

Lemma utf16_encode1_nonempty c : is_scalar c = true -> utf16_encode1 c <> [].
Proof. intros _. unfold utf16_encode1. by case_match. Qed.

#[export] Instance utf16_laws : EncodingFormLaws utf16.
Proof.
  split; [exact utf16_next_encode1 | exact utf16_next_sound | exact utf16_encode1_nonempty].
Qed.

(** ** Conversion between two encoding forms *)

Section Transcode.
Context {U V : Type} (A : EncodingForm U) (B : EncodingForm V).
Context {lawsA : EncodingFormLaws A} {lawsB : EncodingFormLaws B}.
Implicit Types (l : list U) (k : list V) (strict : bool).

Lemma transcode_Some strict l k :
  transcode A B strict l = Some k <->
  exists cs, decode A strict l = Some cs /\ scalars cs /\ k = encode B cs.
Proof.
  unfold transcode. rewrite fmap_Some. split.
  - intros (cs & H & ->). exists cs. split_and!; [done | | done].
    by apply (decode_scalars A strict l).
  - intros (cs & H & _ & ->). by exists cs.
Qed.

Lemma transcode_None l : transcode A B true l = None <-> well_formed A l = false.
Proof. unfold transcode. by rewrite fmap_None, well_formed_false. Qed.

Lemma transcode_nil strict : transcode A B strict [] = Some [].
Proof. done. Qed.

(** Lenient conversion accepts every input. *)
Lemma transcode_lenient_total l : is_Some (transcode A B false l).
Proof. apply fmap_is_Some, decode_lenient_total, lawsA. Qed.

(** What strict conversion accepts, lenient conversion converts the same
    way. *)
Lemma transcode_strict_lenient strict l k :
  transcode A B true l = Some k -> transcode A B strict l = Some k.
Proof.
  intros (cs & H & _ & ->)%transcode_Some. unfold transcode.
  by rewrite (decode_strict_lenient A strict l cs H).
Qed.

(** The result of a conversion is well formed, in either mode. *)
Lemma transcode_well_formed strict l k :
  transcode A B strict l = Some k -> well_formed B k = true.
Proof.
  intros (cs & _ & Hs & ->)%transcode_Some. by apply well_formed_encode.
Qed.

(** Only the empty input converts to the empty output. *)
Lemma transcode_nil_inv strict l : transcode A B strict l = Some [] -> l = [].
Proof.
  intros (cs & H & Hs & Heq)%transcode_Some. symmetry in Heq.
  apply (encode_nil_inv B) in Heq; [|done]. subst cs.
  by apply (decode_nil_inv A strict).
Qed.

(** Elements of the result: whatever holds of the code units of every
    scalar value holds of the result. *)
Lemma transcode_Forall (P : V -> Prop) strict l k :
  (forall c, is_scalar c = true -> Forall P (encode1 B c)) ->
  transcode A B strict l = Some k -> Forall P k.
Proof.
  intros HP (cs & _ & Hs & ->)%transcode_Some. unfold encode.
  induction Hs as [|c cs Hc _ IH]; simpl; [done|].
  apply Forall_app. split; [by apply HP | done].
Qed.

(** Lengths: a linear bound that holds scalar by scalar, and of the
    replacement character against one ill-formed element, holds of the
    whole conversion. *)
Lemma transcode_length_le (p q : Z) strict l k :
  0 <= p -> 0 <= q ->
  (forall c, is_scalar c = true ->
     p * lengthZ (encode1 B c) <= q * lengthZ (encode1 A c)) ->
  p * lengthZ (encode1 B replacement) <= q ->
  transcode A B strict l = Some k -> p * lengthZ k <= q * lengthZ l.
Proof.
  intros Hp Hq Hone Hrep. revert k.
  induction l as [l IH] using decode_ind. intros k Hk.
  destruct l as [|a t]; [injection Hk as <-; unfold lengthZ; simpl; lia|].
  unfold transcode in Hk. apply fmap_Some in Hk as (cs & Hd & ->).
  destruct (decode_cons_cases A strict a t)
    as [(c & rest & _ & Hlen & Hc & Heq & Hd') | [(_ & _ & Hd') | (_ & _ & Hd')]];
    rewrite Hd' in Hd; [| done |]; apply fmap_Some in Hd as (cs' & Hd & ->).
  - rewrite Heq. unfold encode. simpl. rewrite !lengthZ_app.
    specialize (IH rest ltac:(simpl; lia) (encode B cs')).
    unfold transcode in IH. rewrite Hd in IH. specialize (IH eq_refl).
    specialize (Hone c Hc). unfold encode in IH.
    rewrite !Z.mul_add_distr_l. lia.
  - unfold encode. simpl. rewrite lengthZ_app, lengthZ_cons.
    specialize (IH t ltac:(simpl; lia) (encode B cs')).
    unfold transcode in IH. rewrite Hd in IH. specialize (IH eq_refl).
    unfold encode in IH. rewrite !Z.mul_add_distr_l. lia.
Qed.

Lemma transcode_length_ge (p q : Z) strict l k :
  0 <= p -> 0 <= q ->
  (forall c, is_scalar c = true ->
     p * lengthZ (encode1 A c) <= q * lengthZ (encode1 B c)) ->
  p <= q * lengthZ (encode1 B replacement) ->
  transcode A B strict l = Some k -> p * lengthZ l <= q * lengthZ k.
Proof.
  intros Hp Hq Hone Hrep. revert k.
  induction l as [l IH] using decode_ind. intros k Hk.
  destruct l as [|a t]; [injection Hk as <-; unfold lengthZ; simpl; lia|].
  unfold transcode in Hk. apply fmap_Some in Hk as (cs & Hd & ->).
  destruct (decode_cons_cases A strict a t)
    as [(c & rest & _ & Hlen & Hc & Heq & Hd') | [(_ & _ & Hd') | (_ & _ & Hd')]];
    rewrite Hd' in Hd; [| done |]; apply fmap_Some in Hd as (cs' & Hd & ->).
  - rewrite Heq. unfold encode. simpl. rewrite !lengthZ_app.
    specialize (IH rest ltac:(simpl; lia) (encode B cs')).
    unfold transcode in IH. rewrite Hd in IH. specialize (IH eq_refl).
    specialize (Hone c Hc). unfold encode in IH.
    rewrite !Z.mul_add_distr_l. lia.
  - unfold encode. simpl. rewrite lengthZ_app, lengthZ_cons.
    specialize (IH t ltac:(simpl; lia) (encode B cs')).
    unfold transcode in IH. rewrite Hd in IH. specialize (IH eq_refl).
    unfold encode in IH. rewrite !Z.mul_add_distr_l. lia.
Qed.

End Transcode.

(** Converting there and back again gives the input, whenever the way
    there is strict. *)
Lemma transcode_roundtrip {U V : Type} (A : EncodingForm U) (B : EncodingForm V)
    {lawsA : EncodingFormLaws A} {lawsB : EncodingFormLaws B} strict l k :
  transcode A B true l = Some k -> transcode B A strict k = Some l.
Proof.
  intros H. apply transcode_Some in H as (cs & H & Hs & ->); [|done].
  unfold transcode. rewrite (decode_encode B strict cs Hs). simpl. f_equal.
  by apply (encode_decode A).
Qed.

(** ** UTF-8 and UTF-16 in particular *)

Lemma utf8_encode1_bytes c :
  is_scalar c = true -> Forall (fun b => is_byte b = true) (utf8_encode1 c).
Proof.
  intros Hc. unfold_ranges. unfold utf8_encode1.
  repeat case_if; repeat constructor; lia.
Qed.

Lemma utf16_encode1_units c :
  is_scalar c = true -> Forall (fun u => is_unit u = true) (utf16_encode1 c).
Proof.
  intros Hc. unfold_ranges. unfold utf16_encode1.
  case_if; repeat constructor; lia.
Qed.

(** A scalar value takes at least as many bytes in UTF-8 as code units in
    UTF-16, and at most three times as many. *)
Lemma encode1_lengths c :
  lengthZ (utf16_encode1 c) <= lengthZ (utf8_encode1 c) <= 3 * lengthZ (utf16_encode1 c).
Proof.
  unfold utf8_encode1, utf16_encode1, lengthZ.
  repeat case_if; simpl; lia.
Qed.

Lemma utf8_to_utf16_roundtrip strict bs us :
  utf8_to_utf16 true bs = Some us -> utf16_to_utf8 strict us = Some bs.
Proof. apply transcode_roundtrip; apply _. Qed.

Lemma utf16_to_utf8_roundtrip strict us bs :
  utf16_to_utf8 true us = Some bs -> utf8_to_utf16 strict bs = Some us.
Proof. apply transcode_roundtrip; apply _. Qed.

Lemma utf8_to_utf16_length strict bs us :
  utf8_to_utf16 strict bs = Some us ->
  lengthZ us <= lengthZ bs <= 3 * lengthZ us.
Proof.
  intros H. split.
  - pose proof (transcode_length_le utf8 utf16 1 1 strict bs us) as Hle.
    rewrite !Z.mul_1_l in Hle. apply Hle; [lia | lia | | done | done].
    intros c _. pose proof (encode1_lengths c). simpl. lia.
  - pose proof (transcode_length_ge utf8 utf16 1 3 strict bs us) as Hge.
    rewrite !Z.mul_1_l in Hge. apply Hge; [lia | lia | | done | done].
    intros c _. pose proof (encode1_lengths c). simpl. lia.
Qed.

Lemma utf16_to_utf8_length strict us bs :
  utf16_to_utf8 strict us = Some bs ->
  lengthZ us <= lengthZ bs <= 3 * lengthZ us.
Proof.
  intros H. split.
  - pose proof (transcode_length_ge utf16 utf8 1 1 strict us bs) as Hge.
    rewrite !Z.mul_1_l in Hge. apply Hge; [lia | lia | | done | done].
    intros c _. pose proof (encode1_lengths c). simpl. lia.
  - pose proof (transcode_length_le utf16 utf8 1 3 strict us bs) as Hle.
    rewrite !Z.mul_1_l in Hle. apply Hle; [lia | lia | | done | done].
    intros c _. pose proof (encode1_lengths c). simpl. lia.
Qed.

Lemma utf8_to_utf16_units strict bs us :
  utf8_to_utf16 strict bs = Some us -> Forall (fun u => is_unit u = true) us.
Proof. apply (transcode_Forall utf8 utf16). exact utf16_encode1_units. Qed.

Lemma utf16_to_utf8_bytes strict us bs :
  utf16_to_utf8 strict us = Some bs -> Forall (fun b => is_byte b = true) bs.
Proof. apply (transcode_Forall utf16 utf8). exact utf8_encode1_bytes. Qed.

(** ** ASCII

    ASCII text is the same list in every ASCII-transparent encoding form,
    so a conversion leaves an ASCII prefix as it is, whatever its length. *)

Lemma is_ascii_scalar a : is_ascii a = true -> is_scalar a = true.
Proof. unfold is_ascii, is_scalar, is_surrogate. lia. Qed.

Lemma ascii_scalars p : ascii p -> scalars p.
Proof. intros Hp. eapply Forall_impl; [done | apply is_ascii_scalar]. Qed.

Lemma ascii_replicate n a : is_ascii a = true -> ascii (replicate n a).
Proof. intros Ha. by apply Forall_replicate. Qed.

Lemma encode_app {U} (form : EncodingForm U) cs ds :
  encode form (cs ++ ds) = encode form cs ++ encode form ds.
Proof. apply flat_map_app. Qed.

Lemma encode_ascii (form : EncodingForm Z) {transparent : AsciiTransparent form} p :
  ascii p -> encode form p = p.
Proof.
  induction 1 as [|a p Ha _ IH]; [done|].
  unfold encode in *. simpl. by rewrite IH, encode1_ascii.
Qed.

Section Ascii.
Context (A B : EncodingForm Z) {lawsA : EncodingFormLaws A}.
Context {asciiA : AsciiTransparent A} {asciiB : AsciiTransparent B}.
Implicit Types p l : list Z.

Lemma decode_ascii strict p : ascii p -> decode A strict p = Some p.
Proof.
  intros Hp. rewrite <- (encode_ascii A p Hp) at 1.
  apply decode_encode; [done|]. by apply ascii_scalars.
Qed.

Lemma decode_ascii_app strict p l :
  ascii p -> decode A strict (p ++ l) = (p ++.) <$> decode A strict l.
Proof. intros Hp. apply decode_app; [done|]. by apply decode_ascii. Qed.

Lemma well_formed_ascii_app p l : ascii p -> well_formed A (p ++ l) = well_formed A l.
Proof.
  intros Hp. unfold well_formed. rewrite decode_ascii_app by done.
  apply bool_decide_ext. by rewrite fmap_is_Some.
Qed.

Lemma transcode_ascii_app strict p l :
  ascii p ->
  transcode A B strict (p ++ l) = (p ++.) <$> transcode A B strict l.
Proof.
  intros Hp. unfold transcode. rewrite decode_ascii_app by done.
  destruct (decode A strict l) as [cs|]; [|done]. simpl.
  by rewrite encode_app, (encode_ascii B p).
Qed.

Lemma transcode_ascii strict p : ascii p -> transcode A B strict p = Some p.
Proof.
  intros Hp. rewrite <- (app_nil_r p) at 1.
  rewrite transcode_ascii_app by done. simpl. by rewrite app_nil_r.
Qed.

End Ascii.

#[export] Instance utf8_ascii : AsciiTransparent utf8.
Proof. intros a Ha. cbn [encode1 utf8]. unfold utf8_encode1, is_ascii in *. by if_lia. Qed.

#[export] Instance utf16_ascii : AsciiTransparent utf16.
Proof. intros a Ha. cbn [encode1 utf16]. unfold utf16_encode1, is_ascii in *. by if_lia. Qed.

Lemma well_formed_utf8_ascii p l : ascii p -> well_formed utf8 (p ++ l) = well_formed utf8 l.
Proof. apply well_formed_ascii_app; apply _. Qed.

Lemma utf8_to_utf16_ascii strict p l :
  ascii p -> utf8_to_utf16 strict (p ++ l) = (p ++.) <$> utf8_to_utf16 strict l.
Proof. apply transcode_ascii_app; apply _. Qed.

Lemma utf16_to_utf8_ascii strict p l :
  ascii p -> utf16_to_utf8 strict (p ++ l) = (p ++.) <$> utf16_to_utf8 strict l.
Proof. apply transcode_ascii_app; apply _. Qed.

Lemma utf8_to_utf16_ascii_id strict p : ascii p -> utf8_to_utf16 strict p = Some p.
Proof. apply transcode_ascii; apply _. Qed.

Lemma utf16_to_utf8_ascii_id strict p : ascii p -> utf16_to_utf8 strict p = Some p.
Proof. apply transcode_ascii; apply _. Qed.

(** ** Examples *)

(** "héllo": six bytes, five code units. *)
Example hello_utf8_to_utf16 :
  utf8_to_utf16 true [0x68; 0xC3; 0xA9; 0x6C; 0x6C; 0x6F]
  = Some [0x68; 0xE9; 0x6C; 0x6C; 0x6F].
Proof. by vm_compute. Qed.

(** U+1F600: four bytes, a surrogate pair. *)
Example grinning_utf8_to_utf16 :
  utf8_to_utf16 true [0xF0; 0x9F; 0x98; 0x80] = Some [0xD83D; 0xDE00].
Proof. by vm_compute. Qed.

Example grinning_utf16_to_utf8 :
  utf16_to_utf8 true [0xD83D; 0xDE00] = Some [0xF0; 0x9F; 0x98; 0x80].
Proof. by vm_compute. Qed.

(** Ill-formed input: an overlong form of U+0000, an encoded surrogate, a
    value above U+10FFFF, a truncated sequence, a lone surrogate. *)
Example ill_formed_utf8 :
  utf8_to_utf16 true [0xC0; 0x80] = None /\
  utf8_to_utf16 true [0xED; 0xA0; 0x80] = None /\
  utf8_to_utf16 true [0xF4; 0x90; 0x80; 0x80] = None /\
  utf8_to_utf16 true [0x41; 0xC3] = None /\
  utf16_to_utf8 true [0x41; 0xD800] = None /\
  utf16_to_utf8 true [0xDC00; 0xD800] = None.
Proof. by vm_compute. Qed.

(** The same inputs, leniently: one U+FFFD for each ill-formed element. *)
Example lenient_substitution :
  utf8_to_utf16 false [0xC0; 0x80] = Some [0xFFFD; 0xFFFD] /\
  utf16_to_utf8 false [0x41; 0xD800] = Some [0x41; 0xEF; 0xBF; 0xBD].
Proof. by vm_compute. Qed.
