(* ===== verification/TextCodec.v ===== *)
(** * TextCodec: the abstract specification

    Sections 4.1 to 4.3 and 7 of the specification, as pure functions: a
    conversion is a function from the input to either the converted
    sequence or the single error [EncodingError].  The two strictness
    settings of section 4.3 are the parameter [strict]; what "best-effort
    substitution" produces is left to a parameter, since the specification
    does not say.  [CharacterEncoder] proves that the C++ functions
    implement these. *)

From S2P Require Import Prelude Unicode.

Definition INT32_MAX : Z := 2 ^ 31 - 1.

(** Section 7: the single error kind. *)
Inductive EncodingError : Type := MalformedInput.

#[global] Instance EncodingError_eq_dec : EqDecision EncodingError.
Proof. solve_decision. Defined.

(** Section 4.1: [min(length, INT32_MAX - 1)]. *)
Definition length_guard (length : Z) : Z := Z.min length (INT32_MAX - 1).

(** The part of the input that is converted. *)
Definition guarded (input : list Z) : list Z := takeZ (length_guard (lengthZ input)) input.

(** Section 4.2. *)
Definition decodeUtf8ToUtf16 (bytes : list Z) : outcome EncodingError (list Z) :=
  if bool_decide (bytes = []) then Returned []
  else
    match utf8_to_utf16 true (guarded bytes) with
    | Some units => Returned units
    | None => Thrown MalformedInput
    end.

(** Section 4.3: strict rejection where the platform supports it, best
    effort where it does not. *)
Definition encodeUtf16ToUtf8 (strict : bool) (best_effort : list Z -> list Z)
    (units : list Z) : outcome EncodingError (list Z) :=
  if bool_decide (units = []) then Returned []
  else if strict then
    match utf16_to_utf8 true (guarded units) with
    | Some bytes => Returned bytes
    | None => Thrown MalformedInput
    end
  else Returned (best_effort (guarded units)).

(** An outcome of the implementation, seen through the abstract error. *)
Definition abstraction {E A} (o : outcome E A) : outcome EncodingError A :=
  match o with
  | Returned a => Returned a
  | Thrown _ => Thrown MalformedInput
  end.

(** ** Lemmas *)

Lemma LengthGuard_range n : 0 <= n -> 0 <= length_guard n <= n.
Proof. unfold length_guard, INT32_MAX. lia. Qed.

Lemma LengthGuard_small n : n <= INT32_MAX - 1 -> length_guard n = n.
Proof. unfold length_guard. lia. Qed.

Lemma guarded_small input : lengthZ input <= INT32_MAX - 1 -> guarded input = input.
Proof.
  intros. unfold guarded. rewrite LengthGuard_small by done. apply takeZ_lengthZ.
Qed.

Lemma guarded_prefix input : exists rest, input = guarded input ++ rest.
Proof. apply takeZ_prefix. Qed.

Lemma guarded_nonempty input : input <> [] -> guarded input <> [].
Proof.
  intros H. apply takeZ_nonempty; [|done].
  assert (0 < lengthZ input).
  { pose proof (lengthZ_nonneg input). pose proof (lengthZ_zero input). 
    destruct (decide (lengthZ input = 0)); [tauto | lia]. }
  unfold length_guard, INT32_MAX. lia.
Qed.

Lemma guarded_length input : lengthZ (guarded input) <= INT32_MAX - 1.
Proof.
  unfold guarded. pose proof (lengthZ_nonneg input).
  rewrite lengthZ_takeZ by (unfold length_guard, INT32_MAX; lia).
  unfold length_guard. lia.
Qed.

Lemma guarded_le input : lengthZ (guarded input) <= lengthZ input.
Proof.
  destruct (guarded_prefix input) as [rest Hrest]. rewrite Hrest at 2.
  rewrite lengthZ_app. pose proof (lengthZ_nonneg rest). lia.
Qed.

(** An input one element longer than the guard lets through loses its
    last element. *)
Lemma guarded_cut (p : list Z) x y :
  lengthZ p = INT32_MAX - 2 -> guarded (p ++ [x; y]) = p ++ [x].
Proof.
  intros Hp. unfold guarded.
  replace (length_guard (lengthZ (p ++ [x; y]))) with (lengthZ (p ++ [x])).
  - change (p ++ [x; y]) with (p ++ [x] ++ [y]). rewrite app_assoc.
    apply takeZ_app_lengthZ.
  - rewrite !lengthZ_app, Hp. by vm_compute.
Qed.

(** The empty-input fast path agrees with the general path: converting
    the empty sequence gives the empty sequence. *)
Lemma decodeUtf8ToUtf16_unfold bytes :
  decodeUtf8ToUtf16 bytes =
  match utf8_to_utf16 true (guarded bytes) with
  | Some units => Returned units
  | None => Thrown MalformedInput
  end.
Proof. unfold decodeUtf8ToUtf16. case_bool_decide; by subst. Qed.

(** Section 8, in the small: the examples of the specification. *)
Example decode_hello :
  decodeUtf8ToUtf16 [0x68; 0xC3; 0xA9; 0x6C; 0x6C; 0x6F]
  = Returned [0x68; 0xE9; 0x6C; 0x6C; 0x6F].
Proof. by vm_compute. Qed.

Example decode_overlong_nul : decodeUtf8ToUtf16 [0xC0; 0x80] = Thrown MalformedInput.
Proof. by vm_compute. Qed.

Example encode_lone_surrogate best_effort :
  encodeUtf16ToUtf8 true best_effort [0x41; 0xD800; 0x42] = Thrown MalformedInput.
Proof. by vm_compute. Qed.
