(* ===== verification/Machine.v ===== *)
(** * Machine: the C++ integers and containers of the program

    [int] is a 32-bit two's complement integer on every Windows target;
    [size_type] is the unsigned integer of the pointer width, which the
    class [DataModel] leaves open (instances [ilp32] and [llp64]).  Integers
    are values of [Z]; a conversion is written as the wrap-around it
    performs, and the lemmas say when it is the identity.

    A [std::string] is the list of its bytes and a [std::wstring] the list
    of its 16-bit code units; [length()] is [string_length], [c_str()] is
    [c_str], [std::vector<T>(n, 0)] is [vector_fill], and the constructor
    from an iterator range is [string_of_range]. *)

From S2P Require Import Prelude.

(** ** Integers *)

Definition INT_MAX : Z := 2147483647.

Definition INT_MIN : Z := -2147483648.

(** The values an [int] holds. *)
Definition in_int (z : Z) : bool := (INT_MIN <=? z) && (z <=? INT_MAX).

(** Conversion to [int]: reduction modulo 2^32 into the signed range (what
    [static_cast<int>] does on the targets of the program). *)
Definition to_int (z : Z) : Z := (z + 2 ^ 31) mod 2 ^ 32 - 2 ^ 31.

(** The values a [DWORD] holds, and conversion to it. *)
Definition in_DWORD (z : Z) : bool := (0 <=? z) && (z <? 2 ^ 32).

Definition to_DWORD (z : Z) : Z := z mod 2 ^ 32.

(** The width of [size_type]: at least that of [int]. *)
Class DataModel : Type := {
  size_bits : Z;
  size_bits_min : 32 <= size_bits
}.

(** 32-bit Windows. *)
Definition ilp32 : DataModel := {| size_bits := 32; size_bits_min := Z.le_refl 32 |}.

(** 64-bit Windows. *)
Definition llp64 : DataModel :=
  {| size_bits := 64; size_bits_min := ltac:(by vm_compute) |}.

Section WithDataModel.
Context {dm : DataModel}.

Definition SIZE_MAX : Z := 2 ^ size_bits - 1.

(** The values a [size_type] holds. *)
Definition in_size_type (z : Z) : bool := (0 <=? z) && (z <=? SIZE_MAX).

(** Conversion to [size_type]: reduction modulo 2^[size_bits], as in
    [static_cast<size_type>] and in the usual arithmetic conversions when
    an [int] meets a [size_type]. *)
Definition to_size_type (z : Z) : Z := z mod 2 ^ size_bits.

End WithDataModel.

(** ** Characters and containers *)

(** A byte of a [std::string]. *)
Definition is_char (c : Z) : bool := (0 <=? c) && (c <? 256).

(** A code unit of a [std::wstring] ([wchar_t] is 16 bits wide on Windows). *)
Definition is_wchar (u : Z) : bool := (0 <=? u) && (u <? 65536).

(** [s.length()]. *)
Definition string_length (s : list Z) : Z := lengthZ s.

(** [s.c_str()]: the elements followed by the terminator. *)
Definition c_str (s : list Z) : list Z := s ++ [0].

(** [s == literal], for the elements [lit] of a string literal: the
    comparison is by length and content, the literal's length being that
    up to its terminator. *)
Definition string_equals (s lit : list Z) : bool := bool_decide (s = lit).

(** [std::vector<T> v(n, x)]. *)
Definition vector_fill (n : Z) (x : Z) : list Z := replicate (Z.to_nat n) x.

(** [std::basic_string<T>(v.begin(), v.end())]. *)
Definition string_of_range (v : list Z) : list Z := v.

(** [std::exception], with the message the Microsoft constructor takes. *)
Record std_exception : Type := Exception { what : string }.

#[global] Instance std_exception_eq_dec : EqDecision std_exception.
Proof. solve_decision. Defined.

(** ** Lemmas *)

Lemma INT_MAX_eq : INT_MAX = 2 ^ 31 - 1.
Proof. done. Qed.

Lemma in_int_spec z : in_int z = true <-> INT_MIN <= z <= INT_MAX.
Proof. unfold in_int. rewrite andb_true_iff, !Z.leb_le. tauto. Qed.

Lemma to_int_in_int z : in_int (to_int z) = true.
Proof. apply in_int_spec. unfold to_int, INT_MIN, INT_MAX. lia. Qed.

(** A conversion to [int] of a value that an [int] holds changes nothing. *)
Lemma to_int_id z : INT_MIN <= z <= INT_MAX -> to_int z = z.
Proof. unfold to_int, INT_MIN, INT_MAX. lia. Qed.

Lemma to_DWORD_id z : 0 <= z < 2 ^ 32 -> to_DWORD z = z.
Proof. unfold to_DWORD. intros. by apply Z.mod_small. Qed.

Section DataModelLemmas.
Context {dm : DataModel}.

Lemma size_modulus_ge : 2 ^ 32 <= 2 ^ size_bits.
Proof. apply Z.pow_le_mono_r; [lia | apply size_bits_min]. Qed.

Lemma SIZE_MAX_ge : INT_MAX < SIZE_MAX.
Proof. unfold SIZE_MAX, INT_MAX. pose proof size_modulus_ge. lia. Qed.

Lemma in_size_type_spec z : in_size_type z = true <-> 0 <= z <= SIZE_MAX.
Proof. unfold in_size_type. rewrite andb_true_iff, !Z.leb_le. tauto. Qed.

(** A conversion to [size_type] of a value that a [size_type] holds changes
    nothing; in particular no non-negative [int] is changed. *)
Lemma to_size_type_id z : 0 <= z <= SIZE_MAX -> to_size_type z = z.
Proof. unfold to_size_type, SIZE_MAX. intros. apply Z.mod_small. lia. Qed.

Lemma to_size_type_int z : 0 <= z <= INT_MAX -> to_size_type z = z.
Proof. intros. apply to_size_type_id. pose proof SIZE_MAX_ge. lia. Qed.

(** A negative [int] wraps around to the top of the range. *)
Lemma to_size_type_negative z :
  INT_MIN <= z < 0 ->
  to_size_type z = 2 ^ size_bits + z /\ SIZE_MAX / 2 < to_size_type z.
Proof.
  unfold to_size_type, SIZE_MAX, INT_MIN. pose proof size_modulus_ge. intros Hz.
  assert (z mod 2 ^ size_bits = 2 ^ size_bits + z) as ->; [|lia].
  symmetry. apply (Z.mod_unique_pos _ _ (-1)); lia.
Qed.

Lemma to_size_type_range z : 0 <= to_size_type z <= SIZE_MAX.
Proof.
  unfold to_size_type, SIZE_MAX. pose proof size_modulus_ge.
  pose proof (Z.mod_pos_bound z (2 ^ size_bits)). lia.
Qed.

End DataModelLemmas.

Lemma string_length_nonneg s : 0 <= string_length s.
Proof. apply lengthZ_nonneg. Qed.

Lemma string_equals_spec s lit : string_equals s lit = true <-> s = lit.
Proof. unfold string_equals. apply bool_decide_eq_true. Qed.

(** [s == ""] holds of the string of length 0 and of no other. *)
Lemma string_equals_empty s : string_equals s [] = true <-> string_length s = 0.
Proof. rewrite string_equals_spec. unfold string_length. by rewrite lengthZ_zero. Qed.

Lemma string_equals_empty_false s : string_equals s [] = false <-> 0 < string_length s.
Proof.
  pose proof (string_equals_empty s) as H. pose proof (string_length_nonneg s).
  destruct (string_equals s []).
  - split; [done|]. intros. assert (string_length s = 0) by by apply H. lia.
  - split; [|done]. intros _.
    destruct (decide (string_length s = 0)) as [Hz|]; [|lia].
    by apply H in Hz.
Qed.

Lemma nonempty_string (s : list Z) : s <> [] -> string_equals s [] = false.
Proof. intros Hs. apply string_equals_empty_false. by apply lengthZ_pos. Qed.

Lemma c_str_length s : lengthZ (c_str s) = string_length s + 1.
Proof. unfold c_str, string_length. by rewrite lengthZ_app. Qed.

Lemma takeZ_c_str n s : n <= string_length s -> takeZ n (c_str s) = takeZ n s.
Proof. apply takeZ_app_le. Qed.

Lemma vector_fill_length n x : 0 <= n -> lengthZ (vector_fill n x) = n.
Proof. intros. unfold vector_fill. rewrite lengthZ_replicate. lia. Qed.

Lemma vector_fill_Forall (P : Z -> Prop) n x : P x -> Forall P (vector_fill n x).
Proof. apply Forall_replicate. Qed.

#[export] Hint Resolve to_int_in_int string_length_nonneg : cenc.
#[export] Hint Rewrite c_str_length vector_fill_length using lia : cenc_rw.
