(* ===== verification/LengthGuard.v ===== *)
(** * LengthGuard: [stringLengthValidator]

    The file-local template of CharacterEncoder.cpp that turns a container
    length into the [int] the operating system accepts.  The template
    parameter only selects [std::vector<T>::size_type], which is the same
    type for every [T]; the model takes the length as the integer it
    denotes.  The theorems relate it to [length_guard], section 4.1 of the
    specification. *)

From S2P Require Import Prelude TextCodec Machine.

Section LengthGuard.
Context {dm : DataModel}.

(** The source, branch by branch: the comparison converts its [int] operand
    to [size_type], the first branch casts the length to [int]. *)
Definition stringLengthValidator (stringLength : Z) : Z :=
  let finalLength := 0 in
  if stringLength <=? to_size_type (INT_MAX - 1) then
    let finalLength := to_int stringLength in
    finalLength
  else
    let finalLength := INT_MAX - 1 in
    finalLength.

(** Whether the validator cuts a string of this length short. *)
Definition truncates (stringLength : Z) : bool := INT_MAX - 1 <? stringLength.

(** ** Helper lemmas *)

Lemma threshold_converted : to_size_type (INT_MAX - 1) = INT_MAX - 1.
Proof. apply to_size_type_int. unfold INT_MAX. lia. Qed.

Lemma validator_small n :
  0 <= n <= INT_MAX - 1 -> stringLengthValidator n = n.
Proof.
  intros. unfold stringLengthValidator. rewrite threshold_converted.
  destruct (Z.leb_spec n (INT_MAX - 1)); [|lia].
  apply to_int_id. unfold INT_MIN, INT_MAX in *. lia.
Qed.

Lemma validator_large n :
  INT_MAX - 1 < n -> stringLengthValidator n = INT_MAX - 1.
Proof.
  intros. unfold stringLengthValidator. rewrite threshold_converted.
  destruct (Z.leb_spec n (INT_MAX - 1)); [lia | done].
Qed.

Lemma validator_cases n :
  0 <= n ->
  (n <= INT_MAX - 1 /\ stringLengthValidator n = n) \/
  (INT_MAX - 1 < n /\ stringLengthValidator n = INT_MAX - 1).
Proof.
  intros. destruct (Z.le_gt_cases n (INT_MAX - 1)).
  - left. split; [done|]. by apply validator_small.
  - right. split; [done|]. by apply validator_large.
Qed.

(** ** Properties *)

(** C4. On every length a container can report, [stringLengthValidator]
    computes the clamp of section 4.1 of the specification,
    [min(length, INT_MAX - 1)]: the conversion inside the comparison and
    the cast in the first branch change no value. *)
Theorem stringLengthValidator_clamp n :
  0 <= n -> stringLengthValidator n = length_guard n.
Proof.
  intros Hn. unfold length_guard, INT32_MAX.
  destruct (validator_cases n Hn) as [[? ->] | [? ->]]; unfold INT_MAX in *; lia.
Qed.

(** The result is an [int] that is not negative, does not exceed the
    length it was computed from, and leaves room for one more element
    below [INT_MAX] (the terminator the source's comment reserves). *)
Theorem stringLengthValidator_bounds n :
  0 <= n ->
  0 <= stringLengthValidator n <= n /\
  stringLengthValidator n + 1 <= INT_MAX /\
  in_int (stringLengthValidator n) = true.
Proof.
  intros Hn. rewrite in_int_spec.
  destruct (validator_cases n Hn) as [[? ->] | [? ->]];
    unfold INT_MIN, INT_MAX in *; lia.
Qed.

(** A container that is not empty is never reported as empty: the
    length handed to the operating system is positive, so the calls of the
    two conversion functions never pass the length 0 (an invalid
    parameter) or a negative length (a request to scan for a terminator). *)
Theorem stringLengthValidator_positive n :
  0 < n -> 0 < stringLengthValidator n.
Proof.
  intros Hn. destruct (validator_cases n) as [[? ->] | [? ->]];
    unfold INT_MAX in *; lia.
Qed.

(** The validator shortens a length exactly when it exceeds
    [INT_MAX - 1]; a length of exactly [INT_MAX], which an [int] can hold,
    is already cut. *)
Theorem stringLengthValidator_truncates n :
  0 <= n -> (stringLengthValidator n < n <-> truncates n = true).
Proof.
  intros Hn. unfold truncates. rewrite Z.ltb_lt.
  destruct (validator_cases n Hn) as [[? ->] | [? ->]]; lia.
Qed.

(** The validator is monotone and idempotent. *)
Lemma stringLengthValidator_mono n m :
  0 <= n <= m -> stringLengthValidator n <= stringLengthValidator m.
Proof.
  intros [Hn Hm].
  destruct (validator_cases n Hn) as [[? ->] | [? ->]];
    destruct (validator_cases m) as [[? ->] | [? ->]]; lia.
Qed.

Lemma stringLengthValidator_idem n :
  0 <= n -> stringLengthValidator (stringLengthValidator n) = stringLengthValidator n.
Proof.
  intros Hn. apply validator_small.
  destruct (validator_cases n Hn) as [[? ->] | [? ->]]; unfold INT_MAX in *; lia.
Qed.

End LengthGuard.

(** ** Witnesses, on the two Windows data models *)

Lemma stringLengthValidator_clamp_witness :
  @stringLengthValidator llp64 5 = length_guard 5 /\
  @stringLengthValidator ilp32 2147483647 = length_guard 2147483647.
Proof.
  split; apply stringLengthValidator_clamp; lia.
Defined.

Lemma stringLengthValidator_bounds_witness :
  0 <= @stringLengthValidator ilp32 4294967295 <= 4294967295 /\
  @stringLengthValidator ilp32 4294967295 + 1 <= INT_MAX /\
  in_int (@stringLengthValidator ilp32 4294967295) = true.
Proof.
  apply stringLengthValidator_bounds. lia.
Defined.

Lemma stringLengthValidator_positive_witness : 0 < @stringLengthValidator llp64 1.
Proof. apply stringLengthValidator_positive. lia. Defined.

Lemma stringLengthValidator_truncates_witness :
  @stringLengthValidator llp64 INT_MAX < INT_MAX <-> truncates INT_MAX = true.
Proof. apply stringLengthValidator_truncates. by vm_compute. Defined.

(** The validator computes one function under every data model. *)
Lemma validator_portable (dm1 dm2 : DataModel) n :
  0 <= n -> @stringLengthValidator dm1 n = @stringLengthValidator dm2 n.
Proof.
  intros Hn.
  destruct (@validator_cases dm1 n Hn) as [[? ->] | [? ->]];
    destruct (@validator_cases dm2 n Hn) as [[? ->] | [? ->]]; lia.
Qed.

(** The validator on a container: what it keeps of the elements. *)
Lemma takeZ_validator_short {dm : DataModel} (s : list Z) :
  lengthZ s <= INT_MAX - 1 -> takeZ (stringLengthValidator (lengthZ s)) s = s.
Proof.
  intros. rewrite validator_small by (pose proof (lengthZ_nonneg s); lia).
  apply takeZ_lengthZ.
Qed.

Lemma takeZ_validator_long {dm : DataModel} (s : list Z) :
  INT_MAX - 1 < lengthZ s ->
  takeZ (stringLengthValidator (lengthZ s)) s = takeZ (INT_MAX - 1) s.
Proof. intros. by rewrite validator_large. Qed.

(** The elements the validator keeps are those the specification keeps. *)
Lemma takeZ_validator_guarded {dm : DataModel} (s : list Z) :
  takeZ (stringLengthValidator (lengthZ s)) s = guarded s.
Proof.
  unfold guarded, length_guard, INT32_MAX. f_equal.
  destruct (validator_cases (lengthZ s) (lengthZ_nonneg s)) as [[? ->] | [? ->]];
    unfold INT_MAX in *; lia.
Qed.

(** The length the validator reports for a non-empty container. *)
Lemma validator_of_nonempty {dm : DataModel} (s : list Z) :
  0 < lengthZ s ->
  0 < stringLengthValidator (lengthZ s) <= lengthZ s /\
  stringLengthValidator (lengthZ s) <= INT_MAX - 1.
Proof.
  intros. destruct (validator_cases (lengthZ s)) as [[? ->] | [? ->]];
    unfold INT_MAX in *; lia.
Qed.

#[export] Hint Rewrite @takeZ_validator_short using lia : cenc_rw.
