(* ===== verification/Win32.v ===== *)
(** * Win32: the operating-system interface of the program

    CharacterEncoder.cpp calls three entry points of the Windows API:
    [GetVersionEx], [MultiByteToWideChar] and [WideCharToMultiByte].  Their
    code is not part of the repository.  This file states them as an
    interface:

    - [Win32Api] holds the entry points as functions from the arguments of
      a call to its answer (return value, destination buffer after the
      call, error code), together with the version the host reports and
      its best-effort conversion of ill-formed UTF-16;
    - [ConversionLaws] is the documented contract of the two conversion
      functions for the code page [CP_UTF8], in terms of the conversions
      of [Unicode]; [Win32Laws] adds that the version query works;
    - [reference_api] is an executable instance, and [reference_laws]
      proves that it satisfies the contract; [with_failing_query] turns a
      host into one whose version query fails, [with_reported_version]
      into one whose query reports another version, and [with_answer]
      into one whose conversions answer a fixed number and so break the
      contract.

    A call made by the program is recorded as a [Win32Call] in the trace
    of its run; [call_in_bounds] says that a call reads and writes inside
    the memory it was given.

    Two points of the contract are choices of this model, because the
    documentation leaves them open.  A conversion whose result does not
    fit an [int] is not constrained by the laws (the reference instance
    fails with [ERROR_INVALID_PARAMETER]).  Without
    [WC_ERR_INVALID_CHARS], ill-formed UTF-16 is converted by a function
    of the host, [api_best_effort], of which the laws only say that it
    agrees with strict conversion on well-formed input, never yields the
    empty string for a non-empty one, and stays within three bytes for a
    code unit (the reference instance substitutes U+FFFD). *)

From S2P Require Import Prelude Machine Unicode.

(** ** Constants of the Windows headers *)

Definition CP_UTF8 : Z := 65001.

Definition MB_ERR_INVALID_CHARS : Z := 0x00000008.

Definition WC_ERR_INVALID_CHARS : Z := 0x00000080.

Inductive win_error : Type :=
| ERROR_INSUFFICIENT_BUFFER
| ERROR_INVALID_FLAGS
| ERROR_INVALID_PARAMETER
| ERROR_NO_UNICODE_TRANSLATION.

#[global] Instance win_error_eq_dec : EqDecision win_error.
Proof. solve_decision. Defined.

(** The fields of [OSVERSIONINFOEX], in the order of the structure; the
    service-pack string is an array of 128 characters. *)
Record OSVERSIONINFOEX : Type := {
  dwOSVersionInfoSize : Z;
  dwMajorVersion : Z;
  dwMinorVersion : Z;
  dwBuildNumber : Z;
  dwPlatformId : Z;
  szCSDVersion : list Z;
  wServicePackMajor : Z;
  wServicePackMinor : Z;
  wSuiteMask : Z;
  wProductType : Z;
  wReserved : Z
}.

#[global] Instance OSVERSIONINFOEX_eq_dec : EqDecision OSVERSIONINFOEX.
Proof. solve_decision. Defined.

(** ** Answers and calls *)

(** The answer of a conversion call: the returned [int], the destination
    buffer as the call leaves it ([None] for a null pointer), and the error
    code of a failed call. *)
Record Answer : Type := {
  retval : Z;
  written : option (list Z);
  last_error : option win_error
}.

#[global] Instance Answer_eq_dec : EqDecision Answer.
Proof. solve_decision. Defined.

Definition answered (n : Z) (dst : option (list Z)) : Answer :=
  {| retval := n; written := dst; last_error := None |}.

Definition failed (e : win_error) (dst : option (list Z)) : Answer :=
  {| retval := 0; written := dst; last_error := Some e |}.

(** The local buffer after a call that was given a pointer to it. *)
Definition buffer_after (a : Answer) (buffer : list Z) : list Z :=
  default buffer (written a).

(** A call, with the memory behind each pointer argument. *)
Inductive Win32Call : Type :=
| Call_GetVersionEx (lpVersionInformation : OSVERSIONINFOEX)
| Call_MultiByteToWideChar (CodePage dwFlags : Z) (lpMultiByteStr : list Z)
    (cbMultiByte : Z) (lpWideCharStr : option (list Z)) (cchWideChar : Z)
| Call_WideCharToMultiByte (CodePage dwFlags : Z) (lpWideCharStr : list Z)
    (cchWideChar : Z) (lpMultiByteStr : option (list Z)) (cbMultiByte : Z)
    (lpDefaultChar : option Z) (lpUsedDefaultChar : option bool).

#[global] Instance Win32Call_eq_dec : EqDecision Win32Call.
Proof. solve_decision. Defined.

(** A conversion call stays inside its memory: it reads a positive number
    of elements that the source holds, and either probes (no destination,
    size 0) or writes into a destination at least as large as the size it
    announces. *)
Definition range_in_bounds (src : list Z) (n : Z) (dst : option (list Z)) (m : Z) : bool :=
  (0 <? n) && (n <=? lengthZ src) &&
  match dst with
  | None => m =? 0
  | Some buffer => (0 <? m) && (m <=? lengthZ buffer)
  end.

Definition call_in_bounds (c : Win32Call) : bool :=
  match c with
  | Call_GetVersionEx _ => true
  | Call_MultiByteToWideChar _ _ src cb dst cch => range_in_bounds src cb dst cch
  | Call_WideCharToMultiByte _ _ src cch dst cb _ _ => range_in_bounds src cch dst cb
  end.

(** Whether a call is a conversion, and the flags it passes. *)
Definition call_flags (c : Win32Call) : option Z :=
  match c with
  | Call_GetVersionEx _ => None
  | Call_MultiByteToWideChar _ fl _ _ _ _ => Some fl
  | Call_WideCharToMultiByte _ fl _ _ _ _ _ _ => Some fl
  end.

(** The input of a conversion call: code page, flags, source memory and
    source length. *)
Definition call_input (c : Win32Call) : option (Z * Z * list Z * Z) :=
  match c with
  | Call_GetVersionEx _ => None
  | Call_MultiByteToWideChar cp fl src cb _ _ => Some (cp, fl, src, cb)
  | Call_WideCharToMultiByte cp fl src cch _ _ _ _ => Some (cp, fl, src, cch)
  end.

Definition is_version_call (c : Win32Call) : bool :=
  match c with
  | Call_GetVersionEx _ => true
  | _ => false
  end.

(** ** The interface *)

Class Win32Api : Type := {
  (** The version the host reports. *)
  host_major : Z;
  host_minor : Z;
  (** [sizeof(OSVERSIONINFOEX)] in the character set the program is built
      for. *)
  sizeof_OSVERSIONINFOEX : Z;
  (** What the host makes of UTF-16 when asked not to fail. *)
  api_best_effort : list Z -> list Z;
  api_GetVersionEx : OSVERSIONINFOEX -> Z * OSVERSIONINFOEX;
  api_MultiByteToWideChar :
    Z -> Z -> list Z -> Z -> option (list Z) -> Z -> Answer;
  api_WideCharToMultiByte :
    Z -> Z -> list Z -> Z -> option (list Z) -> Z -> option Z -> option bool -> Answer
}.

(** The host accepts [WC_ERR_INVALID_CHARS]: Windows Vista (6.0) and
    later. *)
Definition host_is_vista_or_later {api : Win32Api} : bool := 6 <=? host_major.

(** What a conversion call must answer, given the converted text
    ([None]: the input cannot be converted), the destination and its
    announced size.  A probe answers the length; a conversion into a large
    enough buffer writes the text at its start and answers the length; a
    conversion into a smaller buffer fails.  A text longer than [INT_MAX]
    is not constrained. *)
Definition conversion_answer (converted : option (list Z))
    (dst : option (list Z)) (size : Z) (a : Answer) : Prop :=
  match converted with
  | None => retval a = 0 /\ last_error a = Some ERROR_NO_UNICODE_TRANSLATION
  | Some out =>
      lengthZ out <= INT_MAX ->
      match dst with
      | None => retval a = lengthZ out /\ written a = None
      | Some buffer =>
          if lengthZ out <=? size
          then retval a = lengthZ out /\
               written a = Some (out ++ drop (length out) buffer)
          else retval a = 0 /\ last_error a = Some ERROR_INSUFFICIENT_BUFFER
      end
  end.

(** The contract of the two conversion functions. *)
Class ConversionLaws (api : Win32Api) : Prop := {
  (** No conversion call returns a negative number. *)
  MultiByteToWideChar_nonneg cp fl src cb dst cch :
    0 <= retval (api_MultiByteToWideChar cp fl src cb dst cch);
  WideCharToMultiByte_nonneg cp fl src cch dst cb dc udc :
    0 <= retval (api_WideCharToMultiByte cp fl src cch dst cb dc udc);
  (** [MultiByteToWideChar] with [MB_ERR_INVALID_CHARS] converts the first
      [cb] bytes strictly. *)
  MultiByteToWideChar_strict src cb dst cch :
    range_in_bounds src cb dst cch = true ->
    conversion_answer (utf8_to_utf16 true (takeZ cb src)) dst cch
      (api_MultiByteToWideChar CP_UTF8 MB_ERR_INVALID_CHARS src cb dst cch);
  (** [WideCharToMultiByte] with [WC_ERR_INVALID_CHARS] converts the first
      [cch] code units strictly, on a host that knows the flag... *)
  WideCharToMultiByte_strict src cch dst cb :
    host_is_vista_or_later = true ->
    range_in_bounds src cch dst cb = true ->
    conversion_answer (utf16_to_utf8 true (takeZ cch src)) dst cb
      (api_WideCharToMultiByte CP_UTF8 WC_ERR_INVALID_CHARS src cch dst cb None None);
  (** ... and fails on a host that does not. *)
  WideCharToMultiByte_flag_unknown src cch dst cb :
    host_is_vista_or_later = false ->
    retval (api_WideCharToMultiByte CP_UTF8 WC_ERR_INVALID_CHARS src cch dst cb None None) = 0 /\
    last_error (api_WideCharToMultiByte CP_UTF8 WC_ERR_INVALID_CHARS src cch dst cb None None)
      = Some ERROR_INVALID_FLAGS;
  (** Without the flag it converts by best effort, on every host. *)
  WideCharToMultiByte_lenient src cch dst cb :
    range_in_bounds src cch dst cb = true ->
    conversion_answer (Some (api_best_effort (takeZ cch src))) dst cb
      (api_WideCharToMultiByte CP_UTF8 0 src cch dst cb None None);
  (** Best effort is the strict conversion wherever that is defined. *)
  best_effort_strict us bs :
    utf16_to_utf8 true us = Some bs -> api_best_effort us = bs;
  best_effort_nonempty us : us <> [] -> api_best_effort us <> [];
  best_effort_length us : lengthZ (api_best_effort us) <= 3 * lengthZ us;
  best_effort_bytes us : Forall (fun b => is_char b = true) (api_best_effort us)
}.

(** The whole contract: that of the conversions, and a version query that
    works. *)
Class Win32Laws (api : Win32Api) : Prop := {
  #[global] conversion_laws :: ConversionLaws api;
  host_version_range : 0 <= host_major /\ 0 <= host_minor;
  (** Given a structure whose size field is right, [GetVersionEx] succeeds
      and reports the version of the host. *)
  GetVersionEx_reports osvi :
    dwOSVersionInfoSize osvi = sizeof_OSVERSIONINFOEX ->
    fst (api_GetVersionEx osvi) <> 0 /\
    dwMajorVersion (snd (api_GetVersionEx osvi)) = host_major /\
    dwMinorVersion (snd (api_GetVersionEx osvi)) = host_minor
}.

(** ** The calls, as steps of a program *)

Section Calls.
Context {api : Win32Api}.

Definition GetVersionEx (lpVersionInformation : OSVERSIONINFOEX)
  : prog Win32Call std_exception (Z * OSVERSIONINFOEX) :=
  call (Call_GetVersionEx lpVersionInformation)
       (api_GetVersionEx lpVersionInformation).

Definition MultiByteToWideChar (CodePage dwFlags : Z) (lpMultiByteStr : list Z)
    (cbMultiByte : Z) (lpWideCharStr : option (list Z)) (cchWideChar : Z)
  : prog Win32Call std_exception Answer :=
  call (Call_MultiByteToWideChar CodePage dwFlags lpMultiByteStr cbMultiByte
          lpWideCharStr cchWideChar)
       (api_MultiByteToWideChar CodePage dwFlags lpMultiByteStr cbMultiByte
          lpWideCharStr cchWideChar).

Definition WideCharToMultiByte (CodePage dwFlags : Z) (lpWideCharStr : list Z)
    (cchWideChar : Z) (lpMultiByteStr : option (list Z)) (cbMultiByte : Z)
    (lpDefaultChar : option Z) (lpUsedDefaultChar : option bool)
  : prog Win32Call std_exception Answer :=
  call (Call_WideCharToMultiByte CodePage dwFlags lpWideCharStr cchWideChar
          lpMultiByteStr cbMultiByte lpDefaultChar lpUsedDefaultChar)
       (api_WideCharToMultiByte CodePage dwFlags lpWideCharStr cchWideChar
          lpMultiByteStr cbMultiByte lpDefaultChar lpUsedDefaultChar).

End Calls.

(** ** The reference instance *)

(** The elements of a terminated string, terminator included: what a call
    reads when it is given a negative length. *)
Fixpoint through_terminator (mem : list Z) : list Z :=
  match mem with
  | [] => []
  | x :: rest => if x =? 0 then [x] else x :: through_terminator rest
  end.

(** The source range of a conversion call. *)
Definition source_range (src : list Z) (n : Z) : list Z :=
  if n <? 0 then through_terminator src else takeZ n src.

(** The answer of a conversion call whose arguments are accepted. *)
Definition reference_answer (converted : option (list Z))
    (dst : option (list Z)) (size : Z) : Answer :=
  match converted with
  | None => failed ERROR_NO_UNICODE_TRANSLATION dst
  | Some out =>
      if INT_MAX <? lengthZ out then failed ERROR_INVALID_PARAMETER dst
      else if size =? 0 then answered (lengthZ out) dst
      else
        match dst with
        | None => failed ERROR_INVALID_PARAMETER dst
        | Some buffer =>
            if lengthZ out <=? size
            then answered (lengthZ out) (Some (out ++ drop (length out) buffer))
            else failed ERROR_INSUFFICIENT_BUFFER dst
        end
  end.

Definition reference_MultiByteToWideChar (CodePage dwFlags : Z)
    (lpMultiByteStr : list Z) (cbMultiByte : Z)
    (lpWideCharStr : option (list Z)) (cchWideChar : Z) : Answer :=
  if negb (CodePage =? CP_UTF8) then failed ERROR_INVALID_PARAMETER lpWideCharStr
  else if negb ((dwFlags =? 0) || (dwFlags =? MB_ERR_INVALID_CHARS))
  then failed ERROR_INVALID_FLAGS lpWideCharStr
  else if (cbMultiByte =? 0) || (cchWideChar <? 0)
  then failed ERROR_INVALID_PARAMETER lpWideCharStr
  else
    reference_answer
      (utf8_to_utf16 (dwFlags =? MB_ERR_INVALID_CHARS)
         (source_range lpMultiByteStr cbMultiByte))
      lpWideCharStr cchWideChar.

Definition reference_WideCharToMultiByte (major : Z) (CodePage dwFlags : Z)
    (lpWideCharStr : list Z) (cchWideChar : Z)
    (lpMultiByteStr : option (list Z)) (cbMultiByte : Z)
    (lpDefaultChar : option Z) (lpUsedDefaultChar : option bool) : Answer :=
  if negb (CodePage =? CP_UTF8) then failed ERROR_INVALID_PARAMETER lpMultiByteStr
  else if negb ((dwFlags =? 0) || ((dwFlags =? WC_ERR_INVALID_CHARS) && (6 <=? major)))
  then failed ERROR_INVALID_FLAGS lpMultiByteStr
  else if (cchWideChar =? 0) || (cbMultiByte <? 0)
          || bool_decide (is_Some lpDefaultChar)
          || bool_decide (is_Some lpUsedDefaultChar)
  then failed ERROR_INVALID_PARAMETER lpMultiByteStr
  else
    reference_answer
      (utf16_to_utf8 (dwFlags =? WC_ERR_INVALID_CHARS)
         (source_range lpWideCharStr cchWideChar))
      lpMultiByteStr cbMultiByte.

(** The sizes of the fields of [OSVERSIONINFOEX], for a character of
    [tchar] bytes: five [DWORD]s, the service-pack string, three [WORD]s
    and two [BYTE]s.  [OSVERSIONINFO] ends after the string. *)
Definition osvi_fields (tchar : Z) : list (string * Z) :=
  [("dwOSVersionInfoSize", 4); ("dwMajorVersion", 4); ("dwMinorVersion", 4);
   ("dwBuildNumber", 4); ("dwPlatformId", 4); ("szCSDVersion", 128 * tchar);
   ("wServicePackMajor", 2); ("wServicePackMinor", 2); ("wSuiteMask", 2);
   ("wProductType", 1); ("wReserved", 1)].

Definition struct_size (fields : list (string * Z)) : Z := sum_of snd fields.

(** [sizeof(OSVERSIONINFOEXW)] and [sizeof(OSVERSIONINFOW)]. *)
Definition sizeof_OSVERSIONINFOEXW : Z := struct_size (osvi_fields 2).

Definition sizeof_OSVERSIONINFOW : Z := struct_size (take 6 (osvi_fields 2)).

Definition reference_GetVersionEx (major minor : Z) (osvi : OSVERSIONINFOEX)
  : Z * OSVERSIONINFOEX :=
  if (dwOSVersionInfoSize osvi =? sizeof_OSVERSIONINFOEXW)
     || (dwOSVersionInfoSize osvi =? sizeof_OSVERSIONINFOW)
  then (1, {| dwOSVersionInfoSize := dwOSVersionInfoSize osvi;
              dwMajorVersion := major;
              dwMinorVersion := minor;
              dwBuildNumber := dwBuildNumber osvi;
              dwPlatformId := 2;
              szCSDVersion := szCSDVersion osvi;
              wServicePackMajor := wServicePackMajor osvi;
              wServicePackMinor := wServicePackMinor osvi;
              wSuiteMask := wSuiteMask osvi;
              wProductType := wProductType osvi;
              wReserved := wReserved osvi |})
  else (0, osvi).

(** A host that reports version [major].[minor] (taken as natural numbers,
    so that the version is in range by construction). *)
Definition reference_api (major minor : nat) : Win32Api := {|
  host_major := Z.of_nat major;
  host_minor := Z.of_nat minor;
  sizeof_OSVERSIONINFOEX := sizeof_OSVERSIONINFOEXW;
  api_best_effort := fun us => default [] (utf16_to_utf8 false us);
  api_GetVersionEx := reference_GetVersionEx (Z.of_nat major) (Z.of_nat minor);
  api_MultiByteToWideChar := reference_MultiByteToWideChar;
  api_WideCharToMultiByte := reference_WideCharToMultiByte (Z.of_nat major)
|}.

(** A host whose version query is replaced: the conversions stay. *)
Definition with_query (query : OSVERSIONINFOEX -> Z * OSVERSIONINFOEX)
    (api : Win32Api) : Win32Api := {|
  host_major := @host_major api;
  host_minor := @host_minor api;
  sizeof_OSVERSIONINFOEX := @sizeof_OSVERSIONINFOEX api;
  api_best_effort := @api_best_effort api;
  api_GetVersionEx := query;
  api_MultiByteToWideChar := @api_MultiByteToWideChar api;
  api_WideCharToMultiByte := @api_WideCharToMultiByte api
|}.

(** The same host with a version query that fails: it returns 0 and
    leaves the structure as it found it. *)
Definition failing_GetVersionEx (osvi : OSVERSIONINFOEX) : Z * OSVERSIONINFOEX :=
  (0, osvi).

Definition with_failing_query (api : Win32Api) : Win32Api :=
  with_query failing_GetVersionEx api.

(** The same host with a version query that reports another version, as
    a compatibility layer makes it do. *)
Definition with_reported_version (major minor : nat) (api : Win32Api) : Win32Api :=
  with_query (reference_GetVersionEx (Z.of_nat major) (Z.of_nat minor)) api.

(** A host outside the contract: its conversions answer [n] whatever
    they are asked, and write nothing. *)
Definition with_answer (n : Z) (api : Win32Api) : Win32Api := {|
  host_major := @host_major api;
  host_minor := @host_minor api;
  sizeof_OSVERSIONINFOEX := @sizeof_OSVERSIONINFOEX api;
  api_best_effort := @api_best_effort api;
  api_GetVersionEx := @api_GetVersionEx api;
  api_MultiByteToWideChar := fun _ _ _ _ dst _ => answered n dst;
  api_WideCharToMultiByte := fun _ _ _ _ dst _ _ _ => answered n dst
|}.

(** Windows XP (5.1), Windows Vista (6.0) and Windows 10 (10.0). *)
Definition windows_xp : Win32Api := reference_api 5 1.

Definition windows_vista : Win32Api := reference_api 6 0.

Definition windows_10 : Win32Api := reference_api 10 0.

(** ** Lemmas on answers and bounds *)

(** The sizes that the Windows headers give: 284 and 276 bytes with wide
    characters, 156 for [OSVERSIONINFOEXA]. *)
Example osvi_sizes :
  sizeof_OSVERSIONINFOEXW = 284 /\ sizeof_OSVERSIONINFOW = 276 /\
  struct_size (osvi_fields 1) = 156.
Proof. done. Qed.

Lemma range_in_bounds_spec src n dst m :
  range_in_bounds src n dst m = true <->
  0 < n <= lengthZ src /\
  match dst with
  | None => m = 0
  | Some buffer => 0 < m <= lengthZ buffer
  end.
Proof. unfold range_in_bounds. destruct dst; lia. Qed.

Lemma buffer_after_answered n buffer' buffer :
  buffer_after (answered n (Some buffer')) buffer = buffer'.
Proof. done. Qed.

(** Writing a text into a buffer of exactly its length leaves the text. *)
Lemma write_exact (out buffer : list Z) :
  lengthZ buffer = lengthZ out -> out ++ drop (length out) buffer = out.
Proof.
  unfold lengthZ. intros H. rewrite drop_ge by lia. apply app_nil_r.
Qed.

(** What the laws give for the two calls of a conversion function: a probe
    followed by a conversion into a buffer of the probed size. *)
Lemma conversion_answer_probe out a :
  lengthZ out <= INT_MAX ->
  conversion_answer (Some out) None 0 a -> retval a = lengthZ out.
Proof. intros Hlen H. by destruct (H Hlen). Qed.

Lemma conversion_answer_fill out buffer a :
  lengthZ out <= INT_MAX -> lengthZ buffer = lengthZ out ->
  conversion_answer (Some out) (Some buffer) (lengthZ out) a ->
  retval a = lengthZ out /\ buffer_after a buffer = out.
Proof.
  intros Hlen Hbuf H. specialize (H Hlen). simpl in H.
  rewrite Z.leb_refl in H. destruct H as [Hr Hw]. split; [done|].
  unfold buffer_after. rewrite Hw. simpl. by apply write_exact.
Qed.

Lemma conversion_answer_none dst size a :
  conversion_answer None dst size a ->
  retval a = 0 /\ last_error a = Some ERROR_NO_UNICODE_TRANSLATION.
Proof. done. Qed.

Lemma is_byte_is_char b : is_byte b = is_char b.
Proof. done. Qed.

Lemma is_unit_is_wchar u : is_unit u = is_wchar u.
Proof. done. Qed.

(** ** The reference instance satisfies the laws *)

Lemma reference_answer_nonneg converted dst size :
  0 <= retval (reference_answer converted dst size).
Proof.
  unfold reference_answer. repeat case_match; simpl; try lia; apply lengthZ_nonneg.
Qed.

Lemma reference_answer_ok converted dst size :
  match dst with None => size = 0 | Some _ => 0 < size end ->
  conversion_answer converted dst size (reference_answer converted dst size).
Proof.
  intros Hdst. unfold conversion_answer, reference_answer.
  destruct converted as [out|]; [|done]. intros Hlen.
  destruct (Z.ltb_spec INT_MAX (lengthZ out)); [lia|].
  destruct dst as [buffer|]; subst; [|done].
  destruct (Z.eqb_spec size 0); [lia|]. by case_match.
Qed.

Lemma source_range_positive src n : 0 < n -> source_range src n = takeZ n src.
Proof. intros. unfold source_range. by destruct (Z.ltb_spec n 0); [lia|]. Qed.

Lemma reference_MultiByteToWideChar_strict src cb dst cch :
  range_in_bounds src cb dst cch = true ->
  conversion_answer (utf8_to_utf16 true (takeZ cb src)) dst cch
    (reference_MultiByteToWideChar CP_UTF8 MB_ERR_INVALID_CHARS src cb dst cch).
Proof.
  intros [Hcb Hdst]%range_in_bounds_spec. unfold reference_MultiByteToWideChar.
  simpl. destruct (Z.eqb_spec cb 0); [lia|].
  destruct (Z.ltb_spec cch 0); [destruct dst; lia|]. simpl.
  rewrite source_range_positive by lia.
  apply reference_answer_ok. destruct dst; lia.
Qed.

Lemma reference_WideCharToMultiByte_accepts major fl src cch dst cb :
  range_in_bounds src cch dst cb = true ->
  (fl =? 0) || ((fl =? WC_ERR_INVALID_CHARS) && (6 <=? major)) = true ->
  conversion_answer (utf16_to_utf8 (fl =? WC_ERR_INVALID_CHARS) (takeZ cch src)) dst cb
    (reference_WideCharToMultiByte major CP_UTF8 fl src cch dst cb None None).
Proof.
  intros [Hcch Hdst]%range_in_bounds_spec Hfl.
  unfold reference_WideCharToMultiByte.
  simpl. rewrite Hfl. simpl.
  destruct (Z.eqb_spec cch 0); [lia|].
  destruct (Z.ltb_spec cb 0); [destruct dst; lia|]. simpl.
  rewrite source_range_positive by lia.
  apply reference_answer_ok. destruct dst; lia.
Qed.

Lemma reference_best_effort us :
  utf16_to_utf8 false us = Some (default [] (utf16_to_utf8 false us)).
Proof.
  destruct (transcode_lenient_total utf16 utf8 us) as [bs Hbs].
  unfold utf16_to_utf8. by rewrite Hbs.
Qed.

#[export] Instance reference_conversion_laws major minor :
  ConversionLaws (reference_api major minor).
Proof.
  split; unfold host_is_vista_or_later;
    cbn [reference_api host_major host_minor sizeof_OSVERSIONINFOEX
         api_best_effort api_GetVersionEx api_MultiByteToWideChar
         api_WideCharToMultiByte].
  - intros. unfold reference_MultiByteToWideChar.
    repeat case_match; try done; apply reference_answer_nonneg.
  - intros. unfold reference_WideCharToMultiByte.
    repeat case_match; try done; apply reference_answer_nonneg.
  - apply reference_MultiByteToWideChar_strict.
  - intros src cch dst cb Hhost Hb.
    apply (reference_WideCharToMultiByte_accepts _ WC_ERR_INVALID_CHARS); [done|].
    by rewrite Hhost.
  - intros src cch dst cb Hhost.
    unfold reference_WideCharToMultiByte. simpl. by rewrite Hhost.
  - intros src cch dst cb Hb. rewrite <- reference_best_effort.
    by apply (reference_WideCharToMultiByte_accepts _ 0).
  - intros us bs H.
    apply (transcode_strict_lenient utf16 utf8 false) in H.
    unfold utf16_to_utf8. by rewrite H.
  - intros us Hus Hnil. pose proof (reference_best_effort us) as H.
    rewrite Hnil in H. by apply (transcode_nil_inv utf16 utf8) in H.
  - intros us. pose proof (reference_best_effort us) as H.
    by apply utf16_to_utf8_length in H as [_ ?].
  - intros us. pose proof (reference_best_effort us) as H.
    by apply utf16_to_utf8_bytes in H.
Qed.

#[export] Instance reference_laws major minor : Win32Laws (reference_api major minor).
Proof.
  split; [apply _ | |];
    cbn [reference_api host_major host_minor sizeof_OSVERSIONINFOEX api_GetVersionEx].
  - lia.
  - intros osvi H. unfold reference_GetVersionEx. rewrite H. by simpl.
Qed.

(** The conversions do not depend on the version query. *)
#[export] Instance with_query_laws query api :
  ConversionLaws api -> ConversionLaws (with_query query api).
Proof. intros [????????? ?]. by split. Qed.

#[export] Instance with_failing_query_laws api :
  ConversionLaws api -> ConversionLaws (with_failing_query api).
Proof. apply with_query_laws. Qed.

#[export] Instance with_reported_version_laws major minor api :
  ConversionLaws api -> ConversionLaws (with_reported_version major minor api).
Proof. apply with_query_laws. Qed.
