(* ===== verification/CharacterEncoder.v ===== *)
(** * CharacterEncoder: [utf8ToUtf16] and [utf16ToUtf8]

    The two static methods of src/src/windows/CharacterEncoder.cpp,
    statement by statement, as programs over an arbitrary [Win32Api].
    Local variables keep their names.  The theorems assume [Win32Laws]
    and nothing else about the operating system; the witnesses run the
    programs on [reference_api].

    The helper lemmas [utf8ToUtf16_run] and [utf16ToUtf8_run] give the whole
    run of each function (the calls it makes and its outcome) for every
    input; the properties are read off them.  The section [Conversions]
    assumes the contract of the conversion functions only, so that
    [utf16ToUtf8_run_detected] also covers a version query that fails. *)

From S2P Require Import Prelude Unicode TextCodec Machine LengthGuard Win32.

#[local] Open Scope prog_scope.

Section CharacterEncoder.
Context {dm : DataModel} {api : Win32Api}.

(** The two exceptions of the source. *)
Definition utf8_error : std_exception :=
  Exception "Error processing the UTF-8 string".

Definition utf16_error : std_exception :=
  Exception "Error processing the UTF-16 string".

Definition utf8ToUtf16 (utf8String : list Z) : prog Win32Call std_exception (list Z) :=
  (* Check for the empty string first. *)
  if string_equals utf8String [] then ret []
  else
    let utf8Length := stringLengthValidator (string_length utf8String) in
    (* Get the length of the destination UTF-16 buffer with the first call. *)
    probe <- MultiByteToWideChar CP_UTF8 MB_ERR_INVALID_CHARS
               (c_str utf8String) utf8Length None 0 ;;
    let utf16Length := retval probe in
    if utf16Length =? 0 then throw utf8_error
    else
      let utf16StringBuffer := vector_fill (to_size_type utf16Length) 0 in
      (* Convert the UTF-8 string to UTF-16. *)
      conversion <- MultiByteToWideChar CP_UTF8 MB_ERR_INVALID_CHARS
                      (c_str utf8String) utf8Length
                      (Some utf16StringBuffer) utf16Length ;;
      let result := retval conversion in
      let utf16StringBuffer := buffer_after conversion utf16StringBuffer in
      if result =? 0 then throw utf8_error
      else ret (string_of_range utf16StringBuffer).

(** [std::memset(&osvi, 0, sizeof(OSVERSIONINFOEX))]. *)
Definition memset_osvi : OSVERSIONINFOEX := {|
  dwOSVersionInfoSize := 0; dwMajorVersion := 0; dwMinorVersion := 0;
  dwBuildNumber := 0; dwPlatformId := 0; szCSDVersion := replicate 128 0;
  wServicePackMajor := 0;
  wServicePackMinor := 0; wSuiteMask := 0; wProductType := 0; wReserved := 0
|}.

(** [osvi.dwOSVersionInfoSize = size]. *)
Definition set_dwOSVersionInfoSize (osvi : OSVERSIONINFOEX) (size : Z) : OSVERSIONINFOEX := {|
  dwOSVersionInfoSize := size;
  dwMajorVersion := dwMajorVersion osvi;
  dwMinorVersion := dwMinorVersion osvi;
  dwBuildNumber := dwBuildNumber osvi;
  dwPlatformId := dwPlatformId osvi;
  szCSDVersion := szCSDVersion osvi;
  wServicePackMajor := wServicePackMajor osvi;
  wServicePackMinor := wServicePackMinor osvi;
  wSuiteMask := wSuiteMask osvi;
  wProductType := wProductType osvi;
  wReserved := wReserved osvi
|}.

(** The version test of the source, on the structure [GetVersionEx]
    filled in. *)
Definition isWindowsVistaOrGreater (osvi : OSVERSIONINFOEX) : bool :=
  (dwMajorVersion osvi >? 6)
  || ((dwMajorVersion osvi =? 6) && (dwMinorVersion osvi >=? 0)).

(** The flags the source selects. *)
Definition select_flags (isWindowsVistaOrGreater : bool) : Z :=
  if isWindowsVistaOrGreater then WC_ERR_INVALID_CHARS else 0.

Definition utf16ToUtf8 (utf16String : list Z) : prog Win32Call std_exception (list Z) :=
  (* Check for the empty string first. *)
  if string_equals utf16String [] then ret []
  else
    let flags := 0 in
    let osvi := memset_osvi in
    let osvi := set_dwOSVersionInfoSize osvi sizeof_OSVERSIONINFOEX in
    version <- GetVersionEx osvi ;;
    let osvi := snd version in
    let isWindowsVistaOrGreater := isWindowsVistaOrGreater osvi in
    let flags := select_flags isWindowsVistaOrGreater in
    let utf16Length := stringLengthValidator (string_length utf16String) in
    probe <- WideCharToMultiByte CP_UTF8 flags (c_str utf16String) utf16Length
               None 0 None None ;;
    let utf8Length := retval probe in
    if utf8Length =? 0 then throw utf16_error
    else
      let utf8StringBuffer := vector_fill (to_size_type utf8Length) 0 in
      conversion <- WideCharToMultiByte CP_UTF8 flags (c_str utf16String)
                      utf16Length (Some utf8StringBuffer) utf8Length None None ;;
      let result := retval conversion in
      let utf8StringBuffer := buffer_after conversion utf8StringBuffer in
      if result =? 0 then throw utf16_error
      else ret (string_of_range utf8StringBuffer).

(** ** The calls a run is expected to make *)

Definition utf8_probe_call (s : list Z) : Win32Call :=
  Call_MultiByteToWideChar CP_UTF8 MB_ERR_INVALID_CHARS (c_str s)
    (stringLengthValidator (lengthZ s)) None 0.

Definition utf8_convert_call (s out : list Z) : Win32Call :=
  Call_MultiByteToWideChar CP_UTF8 MB_ERR_INVALID_CHARS (c_str s)
    (stringLengthValidator (lengthZ s))
    (Some (vector_fill (lengthZ out) 0)) (lengthZ out).

(** The structure the source hands to [GetVersionEx]. *)
Definition version_query : OSVERSIONINFOEX :=
  set_dwOSVersionInfoSize memset_osvi sizeof_OSVERSIONINFOEX.

Definition version_call : Win32Call := Call_GetVersionEx version_query.

(** What the source's test makes of the structure that comes back. *)
Definition detected_vista : bool :=
  isWindowsVistaOrGreater (snd (api_GetVersionEx version_query)).

Definition host_flags : Z := select_flags host_is_vista_or_later.

Definition utf16_probe_call (flags : Z) (s : list Z) : Win32Call :=
  Call_WideCharToMultiByte CP_UTF8 flags (c_str s)
    (stringLengthValidator (lengthZ s)) None 0 None None.

Definition utf16_convert_call (flags : Z) (s out : list Z) : Win32Call :=
  Call_WideCharToMultiByte CP_UTF8 flags (c_str s)
    (stringLengthValidator (lengthZ s))
    (Some (vector_fill (lengthZ out) 0)) (lengthZ out) None None.

(** What a host converts a UTF-16 string to, strictly or by its best
    effort. *)
Definition conversion_under (strict : bool) (us : list Z) : option (list Z) :=
  if strict then utf16_to_utf8 true us else Some (api_best_effort us).


(** The largest number of code units whose UTF-8 form is sure to fit an
    [int]. *)
Definition utf16_safe_length : Z := INT_MAX / 3.

(** The UTF-8 form of the guarded input can be reported as an [int]. *)
Definition fits_under (strict : bool) (s : list Z) : bool :=
  match conversion_under strict (guarded s) with
  | Some out => lengthZ out <=? INT_MAX
  | None => true
  end.

End CharacterEncoder.

(** What the host converts a UTF-16 string to under the flags the source
    selects for it when the version query works, and whether that fits an
    [int]. *)
Abbreviation host_conversion := (conversion_under host_is_vista_or_later).

Abbreviation fits_int := (fits_under host_is_vista_or_later).

(** Inputs of the examples and witnesses. *)
Definition hello : list Z := [0x68; 0xC3; 0xA9; 0x6C; 0x6C; 0x6F].

Definition hello16 : list Z := [0x68; 0xE9; 0x6C; 0x6C; 0x6F].

Definition grinning : list Z := [0xF0; 0x9F; 0x98; 0x80].

Definition overlong_nul : list Z := [0xC0; 0x80].

Definition lone_surrogate : list Z := [0x41; 0xD800; 0x42].

(** ** The run of each function *)

Section Conversions.
Context {dm : DataModel} {api : Win32Api} {laws : ConversionLaws api}.
Implicit Types s out : list Z.

Lemma nonempty_length s : string_equals s [] = false -> 0 < lengthZ s /\ s <> [].
Proof.
  intros H. apply string_equals_empty_false in H. split; [done|].
  intros ->. by vm_compute in H.
Qed.

(** The source range of both calls is the guarded input. *)
Lemma probe_in_bounds s :
  0 < lengthZ s ->
  range_in_bounds (c_str s) (stringLengthValidator (lengthZ s)) None 0 = true.
Proof.
  intros H. apply range_in_bounds_spec. rewrite c_str_length.
  destruct (validator_of_nonempty s H). unfold string_length. lia.
Qed.

Lemma convert_in_bounds s out :
  0 < lengthZ s -> 0 < lengthZ out ->
  range_in_bounds (c_str s) (stringLengthValidator (lengthZ s))
    (Some (vector_fill (lengthZ out) 0)) (lengthZ out) = true.
Proof.
  intros H Hout. apply range_in_bounds_spec. rewrite c_str_length.
  rewrite vector_fill_length by lia.
  destruct (validator_of_nonempty s H). unfold string_length. lia.
Qed.

Lemma source_guarded s :
  0 < lengthZ s ->
  takeZ (stringLengthValidator (lengthZ s)) (c_str s) = guarded s.
Proof.
  intros H. destruct (validator_of_nonempty s H).
  rewrite takeZ_c_str by (unfold string_length; lia).
  apply takeZ_validator_guarded.
Qed.

(** The two calls against a conversion that the laws describe: the probe
    answers the length of the text, and the second call fills a buffer of
    that length with the text. *)
Lemma two_pass (f : option (list Z) -> Z -> Answer) s out :
  (forall dst size,
     range_in_bounds (c_str s) (stringLengthValidator (lengthZ s)) dst size = true ->
     conversion_answer (Some out) dst size (f dst size)) ->
  0 < lengthZ s -> 0 < lengthZ out <= INT_MAX ->
  retval (f None 0) = lengthZ out /\
  retval (f (Some (vector_fill (lengthZ out) 0)) (lengthZ out)) = lengthZ out /\
  buffer_after (f (Some (vector_fill (lengthZ out) 0)) (lengthZ out))
    (vector_fill (lengthZ out) 0) = out.
Proof.
  intros Hf Hs Hlen. split.
  - apply conversion_answer_probe; [lia | by apply Hf, probe_in_bounds].
  - apply conversion_answer_fill; [lia | apply vector_fill_length; lia |].
    apply Hf, convert_in_bounds; lia.
Qed.

(** The rest of either function after a probe that answered the length of
    [out]: allocate, convert, check, return. *)
Lemma second_pass (f : option (list Z) -> Z -> Answer)
    (ev : list Z -> Win32Call) (err : std_exception) out :
  0 < lengthZ out <= INT_MAX ->
  retval (f (Some (vector_fill (lengthZ out) 0)) (lengthZ out)) = lengthZ out ->
  buffer_after (f (Some (vector_fill (lengthZ out) 0)) (lengthZ out))
    (vector_fill (lengthZ out) 0) = out ->
  (if lengthZ out =? 0 then throw err
   else
     conversion <- call (ev (vector_fill (to_size_type (lengthZ out)) 0))
                        (f (Some (vector_fill (to_size_type (lengthZ out)) 0))
                           (lengthZ out)) ;;
     if retval conversion =? 0 then throw err
     else ret (string_of_range
                 (buffer_after conversion
                    (vector_fill (to_size_type (lengthZ out)) 0))))
  = Run [ev (vector_fill (lengthZ out) 0)] (Returned out).
Proof.
  intros Hlen Hr Hb. destruct (Z.eqb_spec (lengthZ out) 0); [lia|].
  rewrite to_size_type_int by lia. rewrite bind_call. cbn [trace result].
  rewrite Hr, Hb. by destruct (Z.eqb_spec (lengthZ out) 0); [lia|].
Qed.

Lemma converted_length_utf8 s out :
  s <> [] -> utf8_to_utf16 true (guarded s) = Some out ->
  0 < lengthZ out <= INT_MAX.
Proof.
  intros Hs H. pose proof (guarded_length s) as Hg.
  apply utf8_to_utf16_length in H as Hlen. split.
  - pose proof (lengthZ_nonneg out).
    destruct (decide (lengthZ out = 0)) as [Hz|]; [|lia].
    apply lengthZ_zero in Hz. subst out.
    apply (transcode_nil_inv utf8 utf16) in H. by apply guarded_nonempty in H.
  - unfold INT32_MAX, INT_MAX in *. lia.
Qed.

(** The whole run of [utf8ToUtf16]. *)
Lemma utf8ToUtf16_run s :
  utf8ToUtf16 s =
  if string_equals s [] then Run [] (Returned [])
  else
    match utf8_to_utf16 true (guarded s) with
    | Some out =>
        Run [utf8_probe_call s; utf8_convert_call s out] (Returned out)
    | None => Run [utf8_probe_call s] (Thrown utf8_error)
    end.
Proof.
  unfold utf8ToUtf16. destruct (string_equals s []) eqn:He; [done|].
  apply nonempty_length in He as [Hlen Hs].
  unfold MultiByteToWideChar, string_length. rewrite bind_call.
  pose proof (MultiByteToWideChar_strict (c_str s)
                (stringLengthValidator (lengthZ s))) as Hlaw.
  rewrite source_guarded in Hlaw by done.
  destruct (utf8_to_utf16 true (guarded s)) as [out|] eqn:Hconv.
  - pose proof (converted_length_utf8 s out Hs Hconv) as Hout.
    destruct (two_pass _ s out Hlaw Hlen Hout) as (-> & Hr & Hb).
    by rewrite (second_pass _
      (fun buffer => Call_MultiByteToWideChar CP_UTF8 MB_ERR_INVALID_CHARS (c_str s)
                       (stringLengthValidator (lengthZ s)) (Some buffer) (lengthZ out))
      utf8_error out Hout Hr Hb).
  - by destruct (Hlaw None 0 (probe_in_bounds s Hlen)) as [-> _].
Qed.

(** The contract of [WideCharToMultiByte] under the flags the source
    selects after a version test that answered [strict], on a host that
    knows the flags it is given. *)
Lemma flags_law strict src n dst size :
  (strict = true -> host_is_vista_or_later = true) ->
  range_in_bounds src n dst size = true ->
  conversion_answer (conversion_under strict (takeZ n src)) dst size
    (api_WideCharToMultiByte CP_UTF8 (select_flags strict) src n dst size None None).
Proof.
  intros Hhost Hb. destruct strict.
  - apply WideCharToMultiByte_strict; auto.
  - by apply WideCharToMultiByte_lenient.
Qed.

Lemma conversion_under_length strict us out :
  conversion_under strict us = Some out -> lengthZ out <= 3 * lengthZ us.
Proof.
  destruct strict; simpl.
  - by intros [_ ?]%utf16_to_utf8_length.
  - intros [= <-]. apply best_effort_length.
Qed.

Lemma conversion_under_nonempty strict us out :
  us <> [] -> conversion_under strict us = Some out -> 0 < lengthZ out.
Proof.
  intros Hus H. pose proof (lengthZ_nonneg out).
  destruct (decide (lengthZ out = 0)) as [Hz|]; [|lia].
  apply lengthZ_zero in Hz. subst out. exfalso. revert H.
  destruct strict; simpl.
  - by intros H%(transcode_nil_inv utf16 utf8).
  - intros [= H]. by apply best_effort_nonempty in H.
Qed.

Lemma conversion_under_nil strict : conversion_under strict [] = Some [].
Proof. destruct strict; [done|]. simpl. f_equal. by apply best_effort_strict. Qed.

Lemma conversion_under_strict strict us bs :
  utf16_to_utf8 true us = Some bs -> conversion_under strict us = Some bs.
Proof. intros H. destruct strict; [done|]. simpl. f_equal. by apply best_effort_strict. Qed.

Lemma safe_length_fits strict s :
  lengthZ s <= utf16_safe_length -> fits_under strict s = true.
Proof.
  intros Hs. unfold fits_under.
  destruct (conversion_under strict (guarded s)) as [out|] eqn:H; [|done].
  apply conversion_under_length in H. pose proof (lengthZ_nonneg s).
  pose proof (guarded_le s). unfold utf16_safe_length, INT_MAX in *. lia.
Qed.

(** The whole run of [utf16ToUtf8], whatever the version query answers,
    as long as the flags it leads to are flags the host knows. *)
Lemma utf16ToUtf8_run_detected s :
  (detected_vista = true -> host_is_vista_or_later = true) ->
  fits_under detected_vista s = true ->
  utf16ToUtf8 s =
  if string_equals s [] then Run [] (Returned [])
  else
    match conversion_under detected_vista (guarded s) with
    | Some out =>
        Run [version_call; utf16_probe_call (select_flags detected_vista) s;
             utf16_convert_call (select_flags detected_vista) s out]
            (Returned out)
    | None =>
        Run [version_call; utf16_probe_call (select_flags detected_vista) s]
            (Thrown utf16_error)
    end.
Proof.
  intros Hknown Hfit. unfold utf16ToUtf8.
  destruct (string_equals s []) eqn:He; [done|].
  apply nonempty_length in He as [Hlen Hs].
  unfold GetVersionEx. rewrite bind_call. cbn [trace result].
  fold version_query. fold detected_vista.
  unfold WideCharToMultiByte, string_length. rewrite bind_call.
  pose proof (flags_law detected_vista (c_str s)
                (stringLengthValidator (lengthZ s))) as Hlaw.
  rewrite source_guarded in Hlaw by done. unfold fits_under in Hfit.
  destruct (conversion_under detected_vista (guarded s)) as [out|] eqn:Hconv.
  - assert (0 < lengthZ out <= INT_MAX) as Hout.
    { split; [|lia]. apply (conversion_under_nonempty detected_vista (guarded s)); [|done].
      by apply guarded_nonempty. }
    destruct (two_pass (fun dst size =>
                api_WideCharToMultiByte CP_UTF8 (select_flags detected_vista) (c_str s)
                  (stringLengthValidator (lengthZ s)) dst size None None)
              s out (fun dst size => Hlaw dst size Hknown) Hlen Hout) as (-> & Hr & Hb).
    pose proof (second_pass
      (fun dst size =>
         api_WideCharToMultiByte CP_UTF8 (select_flags detected_vista) (c_str s)
           (stringLengthValidator (lengthZ s)) dst size None None)
      (fun buffer => Call_WideCharToMultiByte CP_UTF8 (select_flags detected_vista)
                       (c_str s) (stringLengthValidator (lengthZ s)) (Some buffer)
                       (lengthZ out) None None)
      utf16_error out Hout Hr Hb) as Hrest.
    cbv beta in Hrest. by rewrite Hrest.
  - by destruct (Hlaw None 0 Hknown (probe_in_bounds s Hlen)) as [-> _].
Qed.

Lemma utf8ToUtf16_result s :
  result (utf8ToUtf16 s) =
  match utf8_to_utf16 true (guarded s) with
  | Some out => Returned out
  | None => Thrown utf8_error
  end.
Proof.
  rewrite utf8ToUtf16_run. destruct (string_equals s []) eqn:He.
  - apply string_equals_spec in He. by subst.
  - by destruct (utf8_to_utf16 true (guarded s)).
Qed.

End Conversions.

Section Runs.
Context {dm : DataModel} {api : Win32Api} {laws : Win32Laws api}.
Implicit Types s out : list Z.

(** The structure passed to [GetVersionEx] comes back with the version of
    the host, and the source's test of it tells whether the host knows
    [WC_ERR_INVALID_CHARS]. *)
Lemma version_test : detected_vista = host_is_vista_or_later.
Proof.
  destruct (GetVersionEx_reports version_query eq_refl) as (_ & Hmajor & Hminor).
  destruct host_version_range as [_ Hm].
  unfold detected_vista, isWindowsVistaOrGreater, host_is_vista_or_later.
  rewrite Hmajor, Hminor. lia.
Qed.

(** The whole run of [utf16ToUtf8] on a host whose version query works. *)
Lemma utf16ToUtf8_run s :
  fits_int s = true ->
  utf16ToUtf8 s =
  if string_equals s [] then Run [] (Returned [])
  else
    match host_conversion (guarded s) with
    | Some out =>
        Run [version_call; utf16_probe_call host_flags s;
             utf16_convert_call host_flags s out]
            (Returned out)
    | None => Run [version_call; utf16_probe_call host_flags s] (Thrown utf16_error)
    end.
Proof.
  intros Hfit. unfold host_flags. rewrite <- version_test in *.
  apply utf16ToUtf8_run_detected; [by rewrite version_test | done].
Qed.

(** The outcome of [utf16ToUtf8], the empty input included: the fast path
    returns what the general path would. *)
Lemma utf16ToUtf8_result s :
  fits_int s = true ->
  result (utf16ToUtf8 s) =
  match host_conversion (guarded s) with
  | Some out => Returned out
  | None => Thrown utf16_error
  end.
Proof.
  intros Hfit. rewrite utf16ToUtf8_run by done.
  destruct (string_equals s []) eqn:He.
  - apply string_equals_spec in He. subst.
    change (guarded []) with (@nil Z). by rewrite conversion_under_nil.
  - by destruct (host_conversion (guarded s)).
Qed.

End Runs.

(** ** Properties *)

Section Properties.
Context {dm : DataModel} {api : Win32Api} {laws : Win32Laws api}.
Implicit Types s us bs : list Z.

(** C1. [utf8ToUtf16] implements section 4.2 of the specification: for
    every input, what it returns or the fact that it throws is what
    [decodeUtf8ToUtf16] prescribes for the input cut at [INT_MAX - 1]
    bytes and converted strictly. *)
Theorem utf8ToUtf16_refines s :
  abstraction (result (utf8ToUtf16 s)) = decodeUtf8ToUtf16 s.
Proof.
  rewrite utf8ToUtf16_result, decodeUtf8ToUtf16_unfold.
  by destruct (utf8_to_utf16 true (guarded s)).
Qed.

(** C2. [utf16ToUtf8] implements section 4.3 of the specification, with
    the strictness of the host: strict conversion on Windows Vista and
    later, the host's best effort before, provided the length of the
    result can be reported as an [int]. *)
Theorem utf16ToUtf8_refines s :
  fits_int s = true ->
  abstraction (result (utf16ToUtf8 s))
  = encodeUtf16ToUtf8 host_is_vista_or_later api_best_effort s.
Proof.
  intros Hfit. rewrite utf16ToUtf8_result by done. unfold encodeUtf16ToUtf8.
  case_bool_decide as He.
  - subst. change (guarded []) with (@nil Z). by rewrite conversion_under_nil.
  - unfold conversion_under. destruct host_is_vista_or_later; [|done].
    by destruct (utf16_to_utf8 true (guarded s)).
Qed.

(** C3. Section 8, round trip: a well-formed UTF-8 string of at most
    [INT_MAX - 1] bytes is converted to UTF-16 without an exception, and
    converting the result back gives the string again, on every host. *)
Theorem utf8_roundtrip s :
  well_formed utf8 s = true -> lengthZ s <= INT_MAX - 1 ->
  exists us, returns (utf8ToUtf16 s) us /\ returns (utf16ToUtf8 us) s.
Proof.
  intros Hwf Hlen. apply well_formed_spec in Hwf as [cs Hcs].
  assert (utf8_to_utf16 true s = Some (encode utf16 cs)) as Hconv.
  { unfold utf8_to_utf16, transcode. by rewrite Hcs. }
  apply utf8_to_utf16_length in Hconv as Hle.
  apply (utf8_to_utf16_roundtrip true) in Hconv as Hback.
  apply (conversion_under_strict host_is_vista_or_later) in Hback.
  exists (encode utf16 cs). unfold returns. split.
  - by rewrite utf8ToUtf16_result, guarded_small, Hconv.
  - rewrite utf16ToUtf8_result; unfold fits_under;
      rewrite guarded_small, Hback by (unfold INT32_MAX, INT_MAX in *; lia);
      [done | lia].
Qed.

(** C9. The reverse round trip: well-formed UTF-16 of at most
    [(INT_MAX - 1) / 3] code units, whose UTF-8 form therefore has at most
    [INT_MAX - 1] bytes, is converted to UTF-8 without an exception, and
    converting the result back gives the code units again. *)
Theorem utf16_roundtrip us :
  well_formed utf16 us = true -> 3 * lengthZ us <= INT_MAX - 1 ->
  exists bs, returns (utf16ToUtf8 us) bs /\ returns (utf8ToUtf16 bs) us.
Proof.
  intros Hwf Hlen. apply well_formed_spec in Hwf as [cs Hcs].
  assert (utf16_to_utf8 true us = Some (encode utf8 cs)) as Hconv.
  { unfold utf16_to_utf8, transcode. by rewrite Hcs. }
  apply utf16_to_utf8_length in Hconv as Hle.
  apply (utf16_to_utf8_roundtrip true) in Hconv as Hback.
  apply (conversion_under_strict host_is_vista_or_later) in Hconv as Hhost.
  exists (encode utf8 cs). unfold returns. split.
  - rewrite utf16ToUtf8_result; unfold fits_under;
      rewrite guarded_small, Hhost by (unfold INT32_MAX, INT_MAX in *; lia);
      [done | lia].
  - by rewrite utf8ToUtf16_result, guarded_small, Hback
      by (unfold INT32_MAX, INT_MAX in *; lia).
Qed.

(** C5. Every call [utf8ToUtf16] makes stays inside the memory it is
    given: the source length is positive and within the string, the probe
    passes no destination and size 0, and the second call passes a buffer
    exactly as large as the size it announces. *)
Theorem utf8ToUtf16_in_bounds s :
  Forall (fun c => call_in_bounds c = true) (trace (utf8ToUtf16 s)).
Proof.
  rewrite utf8ToUtf16_run. destruct (string_equals s []) eqn:He; [done|].
  apply nonempty_length in He as [Hlen Hs].
  pose proof (converted_length_utf8 s) as Hout.
  destruct (utf8_to_utf16 true (guarded s)) as [out|]; repeat constructor.
  - by apply probe_in_bounds.
  - apply convert_in_bounds; [done|]. by apply Hout.
  - by apply probe_in_bounds.
Qed.

(** C10. Every call [utf16ToUtf8] makes stays inside the memory it is
    given. *)
Theorem utf16ToUtf8_in_bounds s :
  fits_int s = true ->
  Forall (fun c => call_in_bounds c = true) (trace (utf16ToUtf8 s)).
Proof.
  intros Hfit. rewrite utf16ToUtf8_run by done.
  destruct (string_equals s []) eqn:He; [done|].
  apply nonempty_length in He as [Hlen Hs].
  pose proof (conversion_under_nonempty host_is_vista_or_later (guarded s)) as Hout.
  destruct (host_conversion (guarded s)) as [out|]; repeat constructor.
  - by apply probe_in_bounds.
  - apply convert_in_bounds; [done|]. apply Hout; [|done]. by apply guarded_nonempty.
  - by apply probe_in_bounds.
Qed.

(** Section 8, empty input: [utf8ToUtf16] makes no call exactly when
    its input is empty, and then returns the empty string. *)
Theorem utf8ToUtf16_silent_iff s :
  silent (utf8ToUtf16 s) <-> s = [].
Proof.
  unfold silent. rewrite utf8ToUtf16_run. split.
  - destruct (string_equals s []) eqn:He; [by apply string_equals_spec in He|].
    by destruct (utf8_to_utf16 true (guarded s)).
  - intros ->. done.
Qed.

(** Section 8, empty input: [utf16ToUtf8] makes no call, not even the
    version query, exactly when its input is empty. *)
Theorem utf16ToUtf8_silent_iff s :
  fits_int s = true -> (silent (utf16ToUtf8 s) <-> s = []).
Proof.
  intros Hfit. unfold silent. rewrite utf16ToUtf8_run by done. split.
  - destruct (string_equals s []) eqn:He; [by apply string_equals_spec in He|].
    by destruct (host_conversion (guarded s)).
  - intros ->. done.
Qed.

(** C6. Section 7: [utf8ToUtf16] throws exactly when the guarded input is
    not well-formed UTF-8, and then throws the exception with the message
    of the UTF-8 direction; no other failure of the operating system can
    occur. *)
Theorem utf8ToUtf16_throws_iff s e :
  throws (utf8ToUtf16 s) e <->
  e = utf8_error /\ well_formed utf8 (guarded s) = false.
Proof.
  unfold throws. rewrite utf8ToUtf16_result.
  rewrite <- (transcode_None utf8 utf16). fold (utf8_to_utf16 true (guarded s)).
  destruct (utf8_to_utf16 true (guarded s)); split; (intros [= ->] || intros [-> ?]); done.
Qed.

(** C7. Section 7: [utf16ToUtf8] throws exactly when the host is Windows
    Vista or later and the guarded input is not well-formed UTF-16.  On
    an older host it never throws: the flag it selects there is 0. *)
Theorem utf16ToUtf8_throws_iff s e :
  fits_int s = true ->
  (throws (utf16ToUtf8 s) e <->
   e = utf16_error /\ host_is_vista_or_later = true /\
   well_formed utf16 (guarded s) = false).
Proof.
  intros Hfit. unfold throws. rewrite utf16ToUtf8_result by done.
  rewrite <- (transcode_None utf16 utf8). fold (utf16_to_utf8 true (guarded s)).
  unfold conversion_under. destruct host_is_vista_or_later.
  - destruct (utf16_to_utf8 true (guarded s)); split;
      (intros [= ->] || intros (-> & _ & ?)); done.
  - split; [done | by intros (_ & ? & _)].
Qed.

(** C36. On a host older than Windows Vista an unpaired surrogate is not
    rejected: [utf16ToUtf8] returns the host's best-effort conversion of
    any input (section 8 of the specification claims a failure). *)
Theorem utf16ToUtf8_before_vista s :
  host_is_vista_or_later = false -> fits_int s = true ->
  returns (utf16ToUtf8 s) (api_best_effort (guarded s)).
Proof.
  intros Hhost Hfit. unfold returns. rewrite utf16ToUtf8_result by done.
  unfold conversion_under. by rewrite Hhost.
Qed.

(** C34. Section 3, invariant: what [utf8ToUtf16] returns is well-formed
    UTF-16 (no unpaired surrogate) made of 16-bit code units. *)
Theorem utf8ToUtf16_well_formed s us :
  returns (utf8ToUtf16 s) us ->
  well_formed utf16 us = true /\ Forall (fun u => is_wchar u = true) us.
Proof.
  unfold returns. rewrite utf8ToUtf16_result.
  destruct (utf8_to_utf16 true (guarded s)) as [out|] eqn:H; [|done].
  intros [= <-]. split.
  - by apply (transcode_well_formed utf8 utf16 true (guarded s)).
  - by apply utf8_to_utf16_units in H.
Qed.

(** What [utf16ToUtf8] returns is made of bytes, and on Windows Vista
    and later it is well-formed UTF-8. *)
Theorem utf16ToUtf8_well_formed s bs :
  fits_int s = true -> returns (utf16ToUtf8 s) bs ->
  Forall (fun b => is_char b = true) bs /\
  (host_is_vista_or_later = true -> well_formed utf8 bs = true).
Proof.
  intros Hfit. unfold returns. rewrite utf16ToUtf8_result by done.
  unfold conversion_under. destruct host_is_vista_or_later.
  - destruct (utf16_to_utf8 true (guarded s)) as [out|] eqn:H; [|done].
    intros [= <-]. split.
    + by apply utf16_to_utf8_bytes in H.
    + intros _. by apply (transcode_well_formed utf16 utf8 true (guarded s)).
  - intros [= <-]. split; [apply best_effort_bytes | done].
Qed.

(** Lengths: the result of [utf8ToUtf16] has at most as many code
    units as the input has bytes and at most [INT_MAX - 1]; it is empty
    only for the empty input, so no terminator is part of it. *)
Theorem utf8ToUtf16_length s us :
  returns (utf8ToUtf16 s) us ->
  lengthZ us <= lengthZ s /\ lengthZ us <= INT_MAX - 1 /\ (us = [] <-> s = []).
Proof.
  unfold returns. rewrite utf8ToUtf16_result.
  destruct (utf8_to_utf16 true (guarded s)) as [out|] eqn:H; [|done].
  intros [= <-]. apply utf8_to_utf16_length in H as Hlen.
  pose proof (guarded_length s) as Hg. pose proof (guarded_le s).
  split_and!; [lia | unfold INT32_MAX, INT_MAX in *; lia |]. split.
  - intros ->. apply (transcode_nil_inv utf8 utf16) in H.
    destruct (decide (s = [])) as [|Hs]; [done|]. by apply guarded_nonempty in Hs.
  - intros ->. by injection H as <-.
Qed.

(** C35. Section 8, truncation: for an input longer than [INT_MAX - 1]
    bytes whose first [INT_MAX - 1] bytes are well-formed UTF-8,
    [utf8ToUtf16] returns the conversion of those bytes only. *)
Theorem utf8ToUtf16_truncates s us :
  truncates (lengthZ s) = true ->
  utf8_to_utf16 true (takeZ (INT_MAX - 1) s) = Some us ->
  returns (utf8ToUtf16 s) us.
Proof.
  unfold truncates, returns. intros Hlong%Z.ltb_lt Hconv.
  rewrite utf8ToUtf16_result. unfold guarded, length_guard.
  replace (Z.min (lengthZ s) (INT32_MAX - 1)) with (INT_MAX - 1)
    by (unfold INT32_MAX, INT_MAX in *; lia).
  by rewrite Hconv.
Qed.

(** C8. Section 8 claims that decoding an input longer than [INT_MAX - 1]
    bytes does not fail.  It does when the cut falls inside a character:
    [INT_MAX - 2] letters A followed by the two bytes of U+00E9 are
    well-formed UTF-8, and [utf8ToUtf16] throws. *)
Theorem utf8ToUtf16_truncation_throws (n : nat) :
  Z.of_nat n = INT_MAX - 2 ->
  well_formed utf8 (replicate n 0x41 ++ [0xC3; 0xA9]) = true /\
  truncates (lengthZ (replicate n 0x41 ++ [0xC3; 0xA9])) = true /\
  throws (utf8ToUtf16 (replicate n 0x41 ++ [0xC3; 0xA9])) utf8_error.
Proof.
  intros Hn. split_and!.
  - by rewrite well_formed_utf8_ascii by by apply ascii_replicate.
  - unfold truncates. by rewrite lengthZ_app, lengthZ_replicate, Hn.
  - unfold throws. rewrite utf8ToUtf16_result.
    rewrite guarded_cut by by rewrite lengthZ_replicate.
    by rewrite utf8_to_utf16_ascii by by apply ascii_replicate.
Qed.

(** The two passes of [utf8ToUtf16] agree: every call converts the
    same source range of the same string under the same code page and
    the same flags. *)
Theorem utf8ToUtf16_passes_agree s c1 c2 :
  In c1 (trace (utf8ToUtf16 s)) -> In c2 (trace (utf8ToUtf16 s)) ->
  call_input c1 = call_input c2 /\
  call_input c1 = Some (CP_UTF8, MB_ERR_INVALID_CHARS, c_str s,
                        stringLengthValidator (lengthZ s)).
Proof.
  rewrite utf8ToUtf16_run. destruct (string_equals s []); [done|].
  destruct (utf8_to_utf16 true (guarded s)); simpl;
    intros H1 H2; destruct_or!; by subst.
Qed.

(** The flags of [utf16ToUtf8]: every conversion call passes the
    flags selected from the version of the host, which the host accepts:
    [WC_ERR_INVALID_CHARS] is passed only to Windows Vista or later. *)
Theorem utf16ToUtf8_flags s c fl :
  fits_int s = true ->
  In c (trace (utf16ToUtf8 s)) -> call_flags c = Some fl ->
  fl = host_flags /\
  call_input c = Some (CP_UTF8, fl, c_str s, stringLengthValidator (lengthZ s)) /\
  (fl = WC_ERR_INVALID_CHARS <-> host_is_vista_or_later = true).
Proof.
  intros Hfit. rewrite utf16ToUtf8_run by done.
  assert (host_flags = WC_ERR_INVALID_CHARS <-> host_is_vista_or_later = true).
  { unfold host_flags, select_flags. by destruct host_is_vista_or_later. }
  destruct (string_equals s []); [done|].
  unfold version_call, utf16_probe_call, utf16_convert_call.
  destruct (host_conversion (guarded s)); simpl;
    intros Hin Hfl; destruct_or!; subst; simplify_eq/=; done.
Qed.

(** Section 4.3, step 3: a call of [utf16ToUtf8] on a non-empty
    string queries the version of the host exactly once, before any
    conversion call; nothing is cached between calls. *)
Theorem utf16ToUtf8_version_once s :
  fits_int s = true -> s <> [] ->
  head (trace (utf16ToUtf8 s)) = Some version_call /\
  List.filter is_version_call (trace (utf16ToUtf8 s)) = [version_call].
Proof.
  intros Hfit Hs. rewrite utf16ToUtf8_run by done.
  destruct (string_equals s []) eqn:He; [by apply string_equals_spec in He|].
  by destruct (host_conversion (guarded s)).
Qed.

(** ASCII text of at most [INT_MAX - 1] characters, the character
    NUL included, is returned as it is by both functions, on every host:
    an embedded zero does not end the conversion. *)
Theorem ascii_identity s :
  ascii s -> lengthZ s <= INT_MAX - 1 ->
  returns (utf8ToUtf16 s) s /\ returns (utf16ToUtf8 s) s.
Proof.
  intros Hs Hlen.
  assert (guarded s = s) as Hg
    by (apply guarded_small; unfold INT32_MAX, INT_MAX in *; lia).
  assert (host_conversion s = Some s) as Hhost.
  { by apply conversion_under_strict, utf16_to_utf8_ascii_id. }
  unfold returns. rewrite utf8ToUtf16_result, utf16ToUtf8_result.
  - rewrite Hg, Hhost. split; [|done].
    by rewrite utf8_to_utf16_ascii_id.
  - unfold fits_under. rewrite Hg, Hhost. unfold INT_MAX in *. lia.
Qed.

(** Lengths: the result of [utf16ToUtf8] has at most three bytes for
    each code unit of the input, and is empty only for the empty input, so
    no terminator is part of it. *)
Theorem utf16ToUtf8_length s bs :
  fits_int s = true -> returns (utf16ToUtf8 s) bs ->
  lengthZ bs <= 3 * lengthZ s /\ (bs = [] <-> s = []).
Proof.
  intros Hfit. unfold returns. rewrite utf16ToUtf8_result by done.
  destruct (host_conversion (guarded s)) as [out|] eqn:H; [|done].
  intros [= <-]. pose proof (guarded_le s).
  apply conversion_under_length in H as Hlen. split; [lia|]. split.
  - intros ->. destruct (decide (s = [])) as [|Hs]; [done|].
    apply guarded_nonempty in Hs.
    pose proof (conversion_under_nonempty _ _ _ Hs H) as Hpos. by vm_compute in Hpos.
  - intros ->. rewrite conversion_under_nil in H. by injection H as <-.
Qed.

(** [utf8ToUtf16] loses nothing of what it converts: two inputs with
    the same result agree on their first [INT_MAX - 1] bytes. *)
Theorem utf8ToUtf16_injective s1 s2 us :
  returns (utf8ToUtf16 s1) us -> returns (utf8ToUtf16 s2) us ->
  guarded s1 = guarded s2.
Proof.
  unfold returns. rewrite !utf8ToUtf16_result.
  destruct (utf8_to_utf16 true (guarded s1)) as [u1|] eqn:H1; [|done].
  destruct (utf8_to_utf16 true (guarded s2)) as [u2|] eqn:H2; [|done].
  intros [= ->] [= ->].
  apply (utf8_to_utf16_roundtrip true) in H1, H2. congruence.
Qed.

(** Truncation in the other direction: for an input longer than
    [INT_MAX - 1] code units, [utf16ToUtf8] returns what the host makes of
    the first [INT_MAX - 1] code units, as long as that fits an [int]. *)
Theorem utf16ToUtf8_truncates s bs :
  truncates (lengthZ s) = true ->
  host_conversion (takeZ (INT_MAX - 1) s) = Some bs ->
  lengthZ bs <= INT_MAX ->
  returns (utf16ToUtf8 s) bs.
Proof.
  unfold truncates, returns. intros Hlong%Z.ltb_lt Hconv Hlen.
  assert (guarded s = takeZ (INT_MAX - 1) s) as Hg.
  { unfold guarded, length_guard. f_equal. unfold INT32_MAX, INT_MAX in *. lia. }
  rewrite utf16ToUtf8_result; unfold fits_under; rewrite Hg, Hconv; [done | lia].
Qed.

(** C37. A cut inside a surrogate pair: [INT_MAX - 2] letters A followed
    by the two code units of U+1F600 are well-formed UTF-16, and on
    Windows Vista or later [utf16ToUtf8] throws, because the first
    [INT_MAX - 1] code units end in an unpaired surrogate. *)
Theorem utf16ToUtf8_truncation_throws (n : nat) :
  Z.of_nat n = INT_MAX - 2 -> host_is_vista_or_later = true ->
  well_formed utf16 (replicate n 0x41 ++ [0xD83D; 0xDE00]) = true /\
  truncates (lengthZ (replicate n 0x41 ++ [0xD83D; 0xDE00])) = true /\
  throws (utf16ToUtf8 (replicate n 0x41 ++ [0xD83D; 0xDE00])) utf16_error.
Proof.
  intros Hn Hhost.
  assert (host_conversion (replicate n 0x41 ++ [0xD83D]) = None) as Hconv.
  { unfold conversion_under. rewrite Hhost.
    by rewrite utf16_to_utf8_ascii by by apply ascii_replicate. }
  split_and!.
  - by rewrite (well_formed_ascii_app utf16) by by apply ascii_replicate.
  - unfold truncates. by rewrite lengthZ_app, lengthZ_replicate, Hn.
  - unfold throws. rewrite utf16ToUtf8_result; unfold fits_under;
      rewrite guarded_cut by (by rewrite lengthZ_replicate); by rewrite Hconv.
Qed.

End Properties.

(** The version test of the source is [6 <= dwMajorVersion]: for the
    unsigned minor version the comparison [dwMinorVersion >= 0] always
    holds, so the second disjunct only adds the major version 6. *)
Theorem isWindowsVistaOrGreater_major (osvi : OSVERSIONINFOEX) :
  in_DWORD (dwMinorVersion osvi) = true ->
  isWindowsVistaOrGreater osvi = (6 <=? dwMajorVersion osvi).
Proof. unfold in_DWORD, isWindowsVistaOrGreater. lia. Qed.

(** C33. The result of [GetVersionEx] is ignored.  When the query fails
    and leaves the structure as the source prepared it (zero but for its
    size), the version test answers "older than Windows Vista", the flags
    are 0, and [utf16ToUtf8] returns the host's best-effort conversion of
    any input, also on a host that would have rejected ill-formed input. *)
Theorem utf16ToUtf8_query_fails {dm : DataModel} {api : Win32Api}
    {laws : ConversionLaws api} (s : list Z) :
  snd (api_GetVersionEx version_query) = version_query ->
  fits_under false s = true ->
  returns (utf16ToUtf8 s) (api_best_effort (guarded s)).
Proof.
  intros Hquery Hfit.
  assert (detected_vista = false) as Hdet by (unfold detected_vista; by rewrite Hquery).
  unfold returns. rewrite utf16ToUtf8_run_detected; rewrite Hdet; [|done..].
  destruct (string_equals s []) eqn:He; [|done].
  apply string_equals_spec in He. subst. change (guarded []) with (@nil Z).
  pose proof (conversion_under_nil false) as Hnil. simpl in *.
  injection Hnil as Hnil. by rewrite Hnil.
Qed.

(** C40. When the version query reports Windows Vista or later on a host
    that does not know [WC_ERR_INVALID_CHARS], the first call of
    [WideCharToMultiByte] fails with [ERROR_INVALID_FLAGS] and
    [utf16ToUtf8] throws on every string but the empty one, well-formed
    or not, after two calls. *)
Theorem utf16ToUtf8_flag_rejected {dm : DataModel} {api : Win32Api}
    {laws : ConversionLaws api} (s : list Z) :
  detected_vista = true -> host_is_vista_or_later = false -> s <> [] ->
  utf16ToUtf8 s =
  Run [version_call; utf16_probe_call WC_ERR_INVALID_CHARS s] (Thrown utf16_error).
Proof.
  intros Hdet Hhost Hs. unfold utf16ToUtf8. rewrite nonempty_string by done.
  unfold GetVersionEx. rewrite bind_call. cbn [trace result].
  fold version_query. fold detected_vista. rewrite Hdet.
  change (select_flags true) with WC_ERR_INVALID_CHARS.
  unfold WideCharToMultiByte, string_length. rewrite bind_call.
  by destruct (WideCharToMultiByte_flag_unknown (c_str s)
                 (stringLengthValidator (lengthZ s)) None 0 Hhost) as [-> _].
Qed.

(** C38. The two functions do not depend on the platform.  Under either
    data model and on any host that keeps the contract, [utf8ToUtf16]
    makes the same calls with the same arguments and ends the same way;
    [utf16ToUtf8] gives the same result on every host, older than
    Windows Vista or not, for a string whose converted part is
    well-formed UTF-16 with a UTF-8 form that an [int] can count. *)
Theorem conversions_portable (dm1 dm2 : DataModel) (api1 api2 : Win32Api)
    {laws1 : Win32Laws api1} {laws2 : Win32Laws api2} (s bs : list Z) :
  @utf8ToUtf16 dm1 api1 s = @utf8ToUtf16 dm2 api2 s /\
  (utf16_to_utf8 true (guarded s) = Some bs -> lengthZ bs <= INT_MAX ->
   result (@utf16ToUtf8 dm1 api1 s) = result (@utf16ToUtf8 dm2 api2 s)).
Proof.
  split.
  - rewrite !utf8ToUtf16_run. unfold utf8_probe_call, utf8_convert_call.
    by rewrite (validator_portable dm1 dm2) by apply lengthZ_nonneg.
  - intros Hconv Hlen.
    pose proof (conversion_under_strict (api := api1)
                  (@host_is_vista_or_later api1) _ _ Hconv) as H1.
    pose proof (conversion_under_strict (api := api2)
                  (@host_is_vista_or_later api2) _ _ Hconv) as H2.
    rewrite !utf16ToUtf8_result; unfold fits_under; rewrite ?H1, ?H2; (done || lia).
Qed.

(** ** Runs on the reference hosts *)

Section Witnesses.
#[local] Existing Instance llp64.
#[local] Existing Instance windows_10.

(** Section 8, basic multilingual example, with the calls made. *)
Example utf8ToUtf16_hello :
  utf8ToUtf16 hello =
  Run [ Call_MultiByteToWideChar 65001 8 (hello ++ [0]) 6 None 0;
        Call_MultiByteToWideChar 65001 8 (hello ++ [0]) 6 (Some [0; 0; 0; 0; 0]) 5 ]
      (Returned hello16).
Proof. by vm_compute. Qed.

Example utf16ToUtf8_hello : result (utf16ToUtf8 hello16) = Returned hello.
Proof. by vm_compute. Qed.

(** Section 8, supplementary-plane example. *)
Example utf8ToUtf16_grinning :
  result (utf8ToUtf16 grinning) = Returned [0xD83D; 0xDE00] /\
  result (utf16ToUtf8 [0xD83D; 0xDE00]) = Returned grinning.
Proof. by vm_compute. Qed.

(** Section 8, malformed UTF-8 and unpaired surrogate. *)
Example utf8ToUtf16_overlong :
  utf8ToUtf16 overlong_nul =
  Run [Call_MultiByteToWideChar 65001 8 [0xC0; 0x80; 0] 2 None 0]
      (Thrown utf8_error).
Proof. by vm_compute. Qed.

Example utf16ToUtf8_lone_surrogate :
  result (utf16ToUtf8 lone_surrogate) = Thrown utf16_error /\
  result (@utf16ToUtf8 llp64 windows_xp lone_surrogate)
  = Returned [0x41; 0xEF; 0xBF; 0xBD; 0x42].
Proof. by vm_compute. Qed.

Lemma utf8ToUtf16_refines_witness :
  abstraction (result (utf8ToUtf16 hello)) = decodeUtf8ToUtf16 hello.
Proof. exact (utf8ToUtf16_refines hello). Defined.

Lemma utf16ToUtf8_refines_witness :
  abstraction (result (utf16ToUtf8 lone_surrogate))
  = encodeUtf16ToUtf8 host_is_vista_or_later api_best_effort lone_surrogate.
Proof. exact (utf16ToUtf8_refines lone_surrogate eq_refl). Defined.

Lemma utf8_roundtrip_witness :
  exists us, returns (utf8ToUtf16 grinning) us /\ returns (utf16ToUtf8 us) grinning.
Proof. apply utf8_roundtrip; by vm_compute. Defined.

Lemma utf16_roundtrip_witness :
  exists bs, returns (utf16ToUtf8 hello16) bs /\ returns (utf8ToUtf16 bs) hello16.
Proof. apply utf16_roundtrip; by vm_compute. Defined.

Lemma utf8ToUtf16_in_bounds_witness :
  Forall (fun c => call_in_bounds c = true) (trace (utf8ToUtf16 hello)).
Proof. exact (utf8ToUtf16_in_bounds hello). Defined.

Lemma utf16ToUtf8_in_bounds_witness :
  Forall (fun c => call_in_bounds c = true) (trace (utf16ToUtf8 hello16)).
Proof. exact (utf16ToUtf8_in_bounds hello16 eq_refl). Defined.

Lemma utf8ToUtf16_silent_iff_witness : silent (utf8ToUtf16 []) <-> [] = @nil Z.
Proof. exact (utf8ToUtf16_silent_iff []). Defined.

Lemma utf16ToUtf8_silent_iff_witness : silent (utf16ToUtf8 []) <-> [] = @nil Z.
Proof. exact (utf16ToUtf8_silent_iff [] eq_refl). Defined.

Lemma utf8ToUtf16_throws_iff_witness :
  throws (utf8ToUtf16 overlong_nul) utf8_error <->
  utf8_error = utf8_error /\ well_formed utf8 (guarded overlong_nul) = false.
Proof. exact (utf8ToUtf16_throws_iff overlong_nul utf8_error). Defined.

Lemma utf16ToUtf8_throws_iff_witness :
  throws (utf16ToUtf8 lone_surrogate) utf16_error <->
  utf16_error = utf16_error /\ host_is_vista_or_later = true /\
  well_formed utf16 (guarded lone_surrogate) = false.
Proof. exact (utf16ToUtf8_throws_iff lone_surrogate utf16_error eq_refl). Defined.

Lemma utf16ToUtf8_before_vista_witness :
  returns (@utf16ToUtf8 llp64 windows_xp lone_surrogate)
          (@api_best_effort windows_xp (guarded lone_surrogate)).
Proof.
  exact (@utf16ToUtf8_before_vista llp64 windows_xp (reference_laws 5 1)
           lone_surrogate eq_refl eq_refl).
Defined.

Lemma utf8ToUtf16_well_formed_witness :
  well_formed utf16 [0xD83D; 0xDE00] = true /\
  Forall (fun u => is_wchar u = true) [0xD83D; 0xDE00].
Proof. exact (utf8ToUtf16_well_formed grinning _ eq_refl). Defined.

Lemma utf16ToUtf8_well_formed_witness :
  Forall (fun b => is_char b = true) hello /\
  (host_is_vista_or_later = true -> well_formed utf8 hello = true).
Proof. exact (utf16ToUtf8_well_formed hello16 hello eq_refl eq_refl). Defined.

Lemma utf8ToUtf16_length_witness :
  lengthZ hello16 <= lengthZ hello /\ lengthZ hello16 <= INT_MAX - 1 /\
  (hello16 = [] <-> hello = []).
Proof. exact (utf8ToUtf16_length hello hello16 eq_refl). Defined.

Lemma utf8ToUtf16_passes_agree_witness :
  call_input (utf8_probe_call hello) = call_input (utf8_convert_call hello hello16) /\
  call_input (utf8_probe_call hello)
  = Some (CP_UTF8, MB_ERR_INVALID_CHARS, c_str hello,
          stringLengthValidator (lengthZ hello)).
Proof.
  apply (utf8ToUtf16_passes_agree hello); [by left | by right; left].
Defined.

Lemma utf16ToUtf8_flags_witness :
  WC_ERR_INVALID_CHARS = host_flags /\
  call_input (utf16_probe_call host_flags hello16)
  = Some (CP_UTF8, WC_ERR_INVALID_CHARS, c_str hello16,
          stringLengthValidator (lengthZ hello16)) /\
  (WC_ERR_INVALID_CHARS = WC_ERR_INVALID_CHARS <-> host_is_vista_or_later = true).
Proof.
  apply (utf16ToUtf8_flags hello16 (utf16_probe_call host_flags hello16));
    [done | by right; left | done].
Defined.

Lemma utf16ToUtf8_version_once_witness :
  head (trace (utf16ToUtf8 hello16)) = Some version_call /\
  List.filter is_version_call (trace (utf16ToUtf8 hello16)) = [version_call].
Proof. apply utf16ToUtf8_version_once; done. Defined.

Lemma isWindowsVistaOrGreater_major_witness :
  isWindowsVistaOrGreater (snd (api_GetVersionEx memset_osvi))
  = (6 <=? dwMajorVersion (snd (api_GetVersionEx memset_osvi))).
Proof. apply isWindowsVistaOrGreater_major. done. Defined.

Lemma ascii_identity_witness :
  returns (utf8ToUtf16 [0x61; 0; 0x62]) [0x61; 0; 0x62] /\
  returns (utf16ToUtf8 [0x61; 0; 0x62]) [0x61; 0; 0x62].
Proof. apply ascii_identity; [by repeat constructor | by vm_compute]. Defined.

Lemma utf16ToUtf8_length_witness :
  lengthZ hello <= 3 * lengthZ hello16 /\ (hello = [] <-> hello16 = []).
Proof. exact (utf16ToUtf8_length hello16 hello eq_refl eq_refl). Defined.

Lemma utf8ToUtf16_injective_witness : guarded hello = guarded hello.
Proof. exact (utf8ToUtf16_injective hello hello hello16 eq_refl eq_refl). Defined.

Lemma utf16ToUtf8_query_fails_witness :
  returns (@utf16ToUtf8 llp64 (with_failing_query windows_10) lone_surrogate)
          (@api_best_effort (with_failing_query windows_10) (guarded lone_surrogate)).
Proof.
  exact (@utf16ToUtf8_query_fails llp64 (with_failing_query windows_10) _
           lone_surrogate eq_refl eq_refl).
Defined.

(** Windows XP behind a query that reports version 6.0. *)
Lemma utf16ToUtf8_flag_rejected_witness :
  @utf16ToUtf8 llp64 (with_reported_version 6 0 windows_xp) hello16 =
  Run [@version_call (with_reported_version 6 0 windows_xp);
       utf16_probe_call WC_ERR_INVALID_CHARS hello16]
      (Thrown utf16_error).
Proof.
  by apply (@utf16ToUtf8_flag_rejected llp64 (with_reported_version 6 0 windows_xp) _).
Defined.

(** A 32-bit build on Windows XP and a 64-bit build on Windows 10. *)
Lemma conversions_portable_witness :
  @utf8ToUtf16 ilp32 windows_xp hello = @utf8ToUtf16 llp64 windows_10 hello /\
  result (@utf16ToUtf8 ilp32 windows_xp hello16) =
  result (@utf16ToUtf8 llp64 windows_10 hello16).
Proof.
  split.
  - apply (conversions_portable ilp32 llp64 windows_xp windows_10
             (laws1 := reference_laws 5 1) (laws2 := reference_laws 10 0) hello []).
  - by apply (conversions_portable ilp32 llp64 windows_xp windows_10
                (laws1 := reference_laws 5 1) (laws2 := reference_laws 10 0)
                hello16 hello).
Defined.

(** The inputs of the truncation witnesses are never evaluated: their
    length is [INT_MAX]. *)
Lemma long_ascii_input (n : nat) :
  Z.of_nat n = INT_MAX - 1 ->
  truncates (lengthZ (replicate n 0x41 ++ [0x42])) = true /\
  takeZ (INT_MAX - 1) (replicate n 0x41 ++ [0x42]) = replicate n 0x41.
Proof.
  intros Hn. split.
  - unfold truncates. by rewrite lengthZ_app, lengthZ_replicate, Hn.
  - by rewrite <- Hn, <- (lengthZ_replicate n 0x41), takeZ_app_lengthZ.
Qed.

Lemma utf8ToUtf16_truncates_witness :
  returns (utf8ToUtf16 (replicate (Z.to_nat (INT_MAX - 1)) 0x41 ++ [0x42]))
          (replicate (Z.to_nat (INT_MAX - 1)) 0x41).
Proof.
  destruct (long_ascii_input (Z.to_nat (INT_MAX - 1))) as [Hlong Hcut];
    [by apply Z2Nat.id|].
  apply utf8ToUtf16_truncates; [exact Hlong|]. rewrite Hcut. clear Hlong Hcut.
  by apply utf8_to_utf16_ascii_id, ascii_replicate.
Defined.

Lemma utf16ToUtf8_truncates_witness :
  returns (utf16ToUtf8 (replicate (Z.to_nat (INT_MAX - 1)) 0x41 ++ [0x42]))
          (replicate (Z.to_nat (INT_MAX - 1)) 0x41).
Proof.
  destruct (long_ascii_input (Z.to_nat (INT_MAX - 1))) as [Hlong Hcut];
    [by apply Z2Nat.id|].
  apply utf16ToUtf8_truncates; [exact Hlong | rewrite Hcut |]; clear Hlong Hcut.
  - by apply conversion_under_strict, utf16_to_utf8_ascii_id, ascii_replicate.
  - rewrite lengthZ_replicate, Z2Nat.id; by vm_compute.
Defined.

Lemma utf8ToUtf16_truncation_throws_witness :
  well_formed utf8 (replicate (Z.to_nat (INT_MAX - 2)) 0x41 ++ [0xC3; 0xA9]) = true /\
  truncates (lengthZ (replicate (Z.to_nat (INT_MAX - 2)) 0x41 ++ [0xC3; 0xA9])) = true /\
  throws (utf8ToUtf16 (replicate (Z.to_nat (INT_MAX - 2)) 0x41 ++ [0xC3; 0xA9]))
         utf8_error.
Proof.
  apply utf8ToUtf16_truncation_throws. apply Z2Nat.id. done.
Defined.

Lemma utf16ToUtf8_truncation_throws_witness :
  well_formed utf16 (replicate (Z.to_nat (INT_MAX - 2)) 0x41 ++ [0xD83D; 0xDE00]) = true /\
  truncates (lengthZ (replicate (Z.to_nat (INT_MAX - 2)) 0x41 ++ [0xD83D; 0xDE00])) = true /\
  throws (utf16ToUtf8 (replicate (Z.to_nat (INT_MAX - 2)) 0x41 ++ [0xD83D; 0xDE00]))
         utf16_error.
Proof.
  apply utf16ToUtf8_truncation_throws; [by apply Z2Nat.id | done].
Defined.

End Witnesses.
