(* ===== verification/Flow.v ===== *)
(** * Flow: the two functions, statement by statement

    [utf8ToUtf16] and [utf16ToUtf8] of CharacterEncoder.cpp once more, as
    transition systems in the sense of [Steps].  A program point holds the
    local variables that are live at it; there is one rule for each
    statement and one for each branch of a test, named after what the
    statement does.  [Utf8Step] and [Utf16Step] are the step relations,
    [utf8_exec] and [utf16_exec] the functions that compute them.

    The theorems say that these machines are deterministic and terminate
    within a fixed number of steps, that they end exactly where the
    monadic definitions of [CharacterEncoder] end (on every host, whatever
    it answers), and which invariant holds at each program point of a run
    on a host that keeps its contract. *)

From S2P Require Import Prelude Steps Unicode TextCodec Machine LengthGuard Win32.
From S2P Require Import CharacterEncoder.

#[local] Open Scope Z_scope.

Section Flow.
Context {dm : DataModel} {api : Win32Api}.

(** ** [utf8ToUtf16] *)

(** The program points of [utf8ToUtf16], each with its live variables. *)
Inductive Utf8Point : Type :=
| U8_entry (utf8String : list Z)
| U8_validate (utf8String : list Z)
| U8_probe (utf8String : list Z) (utf8Length : Z)
| U8_probed (utf8String : list Z) (utf8Length utf16Length : Z)
| U8_allocate (utf8String : list Z) (utf8Length utf16Length : Z)
| U8_convert (utf8String : list Z) (utf8Length utf16Length : Z)
    (utf16StringBuffer : list Z)
| U8_converted (result : Z) (utf16StringBuffer : list Z)
| U8_return (value : list Z)
| U8_throw (e : std_exception).

(** The two calls of [utf8ToUtf16] and their answers. *)
Definition utf8_call (utf8String : list Z) (utf8Length : Z)
    (lpWideCharStr : option (list Z)) (cchWideChar : Z) : Win32Call :=
  Call_MultiByteToWideChar CP_UTF8 MB_ERR_INVALID_CHARS (c_str utf8String)
    utf8Length lpWideCharStr cchWideChar.

Definition utf8_answer (utf8String : list Z) (utf8Length : Z)
    (lpWideCharStr : option (list Z)) (cchWideChar : Z) : Answer :=
  api_MultiByteToWideChar CP_UTF8 MB_ERR_INVALID_CHARS (c_str utf8String)
    utf8Length lpWideCharStr cchWideChar.

Inductive Utf8Step : Utf8Point -> list Win32Call -> Utf8Point -> Prop :=
| S8_empty (s : list Z) :
    string_equals s [] = true ->
    Utf8Step (U8_entry s) [] (U8_return [])
| S8_nonempty (s : list Z) :
    string_equals s [] = false ->
    Utf8Step (U8_entry s) [] (U8_validate s)
| S8_validate (s : list Z) :
    Utf8Step (U8_validate s) []
      (U8_probe s (stringLengthValidator (string_length s)))
| S8_probe (s : list Z) (n : Z) :
    Utf8Step (U8_probe s n) [utf8_call s n None 0]
      (U8_probed s n (retval (utf8_answer s n None 0)))
| S8_probe_failed (s : list Z) (n : Z) (m : Z) :
    m = 0 ->
    Utf8Step (U8_probed s n m) [] (U8_throw utf8_error)
| S8_probe_ok (s : list Z) (n : Z) (m : Z) :
    m <> 0 ->
    Utf8Step (U8_probed s n m) [] (U8_allocate s n m)
| S8_allocate (s : list Z) (n : Z) (m : Z) :
    Utf8Step (U8_allocate s n m) []
      (U8_convert s n m (vector_fill (to_size_type m) 0))
| S8_convert (s : list Z) (n : Z) (m : Z) (buffer : list Z) :
    Utf8Step (U8_convert s n m buffer) [utf8_call s n (Some buffer) m]
      (U8_converted (retval (utf8_answer s n (Some buffer) m))
         (buffer_after (utf8_answer s n (Some buffer) m) buffer))
| S8_convert_failed (r : Z) (buffer : list Z) :
    r = 0 ->
    Utf8Step (U8_converted r buffer) [] (U8_throw utf8_error)
| S8_return (r : Z) (buffer : list Z) :
    r <> 0 ->
    Utf8Step (U8_converted r buffer) [] (U8_return (string_of_range buffer)).

Definition utf8_exec (p : Utf8Point) : option (list Win32Call * Utf8Point) :=
  match p with
  | U8_entry utf8String =>
      if string_equals utf8String [] then Some ([], U8_return [])
      else Some ([], U8_validate utf8String)
  | U8_validate utf8String =>
      let utf8Length := stringLengthValidator (string_length utf8String) in
      Some ([], U8_probe utf8String utf8Length)
  | U8_probe utf8String utf8Length =>
      let utf16Length := retval (utf8_answer utf8String utf8Length None 0) in
      Some ([utf8_call utf8String utf8Length None 0],
            U8_probed utf8String utf8Length utf16Length)
  | U8_probed utf8String utf8Length utf16Length =>
      if utf16Length =? 0 then Some ([], U8_throw utf8_error)
      else Some ([], U8_allocate utf8String utf8Length utf16Length)
  | U8_allocate utf8String utf8Length utf16Length =>
      let utf16StringBuffer := vector_fill (to_size_type utf16Length) 0 in
      Some ([], U8_convert utf8String utf8Length utf16Length utf16StringBuffer)
  | U8_convert utf8String utf8Length utf16Length utf16StringBuffer =>
      let conversion :=
        utf8_answer utf8String utf8Length (Some utf16StringBuffer) utf16Length in
      Some ([utf8_call utf8String utf8Length (Some utf16StringBuffer) utf16Length],
            U8_converted (retval conversion)
              (buffer_after conversion utf16StringBuffer))
  | U8_converted result utf16StringBuffer =>
      if result =? 0 then Some ([], U8_throw utf8_error)
      else Some ([], U8_return (string_of_range utf16StringBuffer))
  | U8_return _ | U8_throw _ => None
  end.

(** The number of steps left, at most. *)
Definition utf8_measure (p : Utf8Point) : nat :=
  match p with
  | U8_entry _ => 7
  | U8_validate _ => 6
  | U8_probe _ _ => 5
  | U8_probed _ _ _ => 4
  | U8_allocate _ _ _ => 3
  | U8_convert _ _ _ _ => 2
  | U8_converted _ _ => 1
  | U8_return _ | U8_throw _ => 0
  end.

#[export] Instance utf8_machine : Machine Win32Call Utf8Point :=
  {| step := Utf8Step; exec := utf8_exec; measure := utf8_measure |}.

(** The point an outcome of [utf8ToUtf16] corresponds to. *)
Definition utf8_outcome (o : outcome std_exception (list Z)) : Utf8Point :=
  match o with
  | Returned value => U8_return value
  | Thrown e => U8_throw e
  end.

(** ** [utf16ToUtf8] *)

Inductive Utf16Point : Type :=
| U16_entry (utf16String : list Z)
| U16_prepare (utf16String : list Z) (flags : Z)
| U16_query (utf16String : list Z) (flags : Z) (osvi : OSVERSIONINFOEX)
| U16_test (utf16String : list Z) (flags : Z) (osvi : OSVERSIONINFOEX)
| U16_select (utf16String : list Z) (flags : Z) (isWindowsVistaOrGreater : bool)
| U16_validate (utf16String : list Z) (flags : Z)
| U16_probe (utf16String : list Z) (flags utf16Length : Z)
| U16_probed (utf16String : list Z) (flags utf16Length utf8Length : Z)
| U16_allocate (utf16String : list Z) (flags utf16Length utf8Length : Z)
| U16_convert (utf16String : list Z) (flags utf16Length utf8Length : Z)
    (utf8StringBuffer : list Z)
| U16_converted (result : Z) (utf8StringBuffer : list Z)
| U16_return (value : list Z)
| U16_throw (e : std_exception).

Definition utf16_call (utf16String : list Z) (flags utf16Length : Z)
    (lpMultiByteStr : option (list Z)) (cbMultiByte : Z) : Win32Call :=
  Call_WideCharToMultiByte CP_UTF8 flags (c_str utf16String) utf16Length
    lpMultiByteStr cbMultiByte None None.

Definition utf16_answer (utf16String : list Z) (flags utf16Length : Z)
    (lpMultiByteStr : option (list Z)) (cbMultiByte : Z) : Answer :=
  api_WideCharToMultiByte CP_UTF8 flags (c_str utf16String) utf16Length
    lpMultiByteStr cbMultiByte None None.

Inductive Utf16Step : Utf16Point -> list Win32Call -> Utf16Point -> Prop :=
| S16_empty (s : list Z) :
    string_equals s [] = true ->
    Utf16Step (U16_entry s) [] (U16_return [])
| S16_nonempty (s : list Z) :
    string_equals s [] = false ->
    Utf16Step (U16_entry s) [] (U16_prepare s 0)
| S16_prepare (s : list Z) (fl : Z) :
    Utf16Step (U16_prepare s fl) []
      (U16_query s fl (set_dwOSVersionInfoSize memset_osvi sizeof_OSVERSIONINFOEX))
| S16_query (s : list Z) (fl : Z) (osvi : OSVERSIONINFOEX) :
    Utf16Step (U16_query s fl osvi) [Call_GetVersionEx osvi]
      (U16_test s fl (snd (api_GetVersionEx osvi)))
| S16_test (s : list Z) (fl : Z) (osvi : OSVERSIONINFOEX) :
    Utf16Step (U16_test s fl osvi) []
      (U16_select s fl (isWindowsVistaOrGreater osvi))
| S16_select (s : list Z) (fl : Z) (b : bool) :
    Utf16Step (U16_select s fl b) [] (U16_validate s (select_flags b))
| S16_validate (s : list Z) (fl : Z) :
    Utf16Step (U16_validate s fl) []
      (U16_probe s fl (stringLengthValidator (string_length s)))
| S16_probe (s : list Z) (fl : Z) (n : Z) :
    Utf16Step (U16_probe s fl n) [utf16_call s fl n None 0]
      (U16_probed s fl n (retval (utf16_answer s fl n None 0)))
| S16_probe_failed (s : list Z) (fl : Z) (n : Z) (m : Z) :
    m = 0 ->
    Utf16Step (U16_probed s fl n m) [] (U16_throw utf16_error)
| S16_probe_ok (s : list Z) (fl : Z) (n : Z) (m : Z) :
    m <> 0 ->
    Utf16Step (U16_probed s fl n m) [] (U16_allocate s fl n m)
| S16_allocate (s : list Z) (fl : Z) (n : Z) (m : Z) :
    Utf16Step (U16_allocate s fl n m) []
      (U16_convert s fl n m (vector_fill (to_size_type m) 0))
| S16_convert (s : list Z) (fl : Z) (n : Z) (m : Z) (buffer : list Z) :
    Utf16Step (U16_convert s fl n m buffer) [utf16_call s fl n (Some buffer) m]
      (U16_converted (retval (utf16_answer s fl n (Some buffer) m))
         (buffer_after (utf16_answer s fl n (Some buffer) m) buffer))
| S16_convert_failed (r : Z) (buffer : list Z) :
    r = 0 ->
    Utf16Step (U16_converted r buffer) [] (U16_throw utf16_error)
| S16_return (r : Z) (buffer : list Z) :
    r <> 0 ->
    Utf16Step (U16_converted r buffer) [] (U16_return (string_of_range buffer)).

Definition utf16_exec (p : Utf16Point) : option (list Win32Call * Utf16Point) :=
  match p with
  | U16_entry utf16String =>
      if string_equals utf16String [] then Some ([], U16_return [])
      else
        let flags := 0 in
        Some ([], U16_prepare utf16String flags)
  | U16_prepare utf16String flags =>
      let osvi := memset_osvi in
      let osvi := set_dwOSVersionInfoSize osvi sizeof_OSVERSIONINFOEX in
      Some ([], U16_query utf16String flags osvi)
  | U16_query utf16String flags osvi =>
      let version := api_GetVersionEx osvi in
      Some ([Call_GetVersionEx osvi], U16_test utf16String flags (snd version))
  | U16_test utf16String flags osvi =>
      Some ([], U16_select utf16String flags (isWindowsVistaOrGreater osvi))
  | U16_select utf16String flags isWindowsVistaOrGreater =>
      let flags := select_flags isWindowsVistaOrGreater in
      Some ([], U16_validate utf16String flags)
  | U16_validate utf16String flags =>
      let utf16Length := stringLengthValidator (string_length utf16String) in
      Some ([], U16_probe utf16String flags utf16Length)
  | U16_probe utf16String flags utf16Length =>
      let utf8Length := retval (utf16_answer utf16String flags utf16Length None 0) in
      Some ([utf16_call utf16String flags utf16Length None 0],
            U16_probed utf16String flags utf16Length utf8Length)
  | U16_probed utf16String flags utf16Length utf8Length =>
      if utf8Length =? 0 then Some ([], U16_throw utf16_error)
      else Some ([], U16_allocate utf16String flags utf16Length utf8Length)
  | U16_allocate utf16String flags utf16Length utf8Length =>
      let utf8StringBuffer := vector_fill (to_size_type utf8Length) 0 in
      Some ([], U16_convert utf16String flags utf16Length utf8Length utf8StringBuffer)
  | U16_convert utf16String flags utf16Length utf8Length utf8StringBuffer =>
      let conversion :=
        utf16_answer utf16String flags utf16Length (Some utf8StringBuffer) utf8Length in
      Some ([utf16_call utf16String flags utf16Length (Some utf8StringBuffer) utf8Length],
            U16_converted (retval conversion)
              (buffer_after conversion utf8StringBuffer))
  | U16_converted result utf8StringBuffer =>
      if result =? 0 then Some ([], U16_throw utf16_error)
      else Some ([], U16_return (string_of_range utf8StringBuffer))
  | U16_return _ | U16_throw _ => None
  end.

Definition utf16_measure (p : Utf16Point) : nat :=
  match p with
  | U16_entry _ => 11
  | U16_prepare _ _ => 10
  | U16_query _ _ _ => 9
  | U16_test _ _ _ => 8
  | U16_select _ _ _ => 7
  | U16_validate _ _ => 6
  | U16_probe _ _ _ => 5
  | U16_probed _ _ _ _ => 4
  | U16_allocate _ _ _ _ => 3
  | U16_convert _ _ _ _ _ => 2
  | U16_converted _ _ => 1
  | U16_return _ | U16_throw _ => 0
  end.

#[export] Instance utf16_machine : Machine Win32Call Utf16Point :=
  {| step := Utf16Step; exec := utf16_exec; measure := utf16_measure |}.

Definition utf16_outcome (o : outcome std_exception (list Z)) : Utf16Point :=
  match o with
  | Returned value => U16_return value
  | Thrown e => U16_throw e
  end.

(** ** What holds at each point *)

(** The length a probe answers for a conversion; 0 stands for failure. *)
Definition probed (converted : option (list Z)) (m : Z) : Prop :=
  match converted with
  | Some out => m = lengthZ out /\ 0 < m <= INT_MAX
  | None => m = 0
  end.

(** After the first test: the input converts, and the probe answered the
    length of its conversion. *)
Definition allocated (converted : option (list Z)) (m : Z) : Prop :=
  exists out, converted = Some out /\ m = lengthZ out /\ 0 < m <= INT_MAX.

(** The input is not empty, and [n] is its validated length. *)
Definition validated (s0 s : list Z) (n : Z) : Prop :=
  s = s0 /\ s <> [] /\ n = stringLengthValidator (lengthZ s).

(** The invariant of [utf8ToUtf16] on the input [s0], point by point.  The
    two final points hold what the specification prescribes. *)
Definition utf8_inv (s0 : list Z) (p : Utf8Point) : Prop :=
  let converted := utf8_to_utf16 true (guarded s0) in
  match p with
  | U8_entry s => s = s0
  | U8_validate s => s = s0 /\ s <> []
  | U8_probe s n => validated s0 s n
  | U8_probed s n m => validated s0 s n /\ probed converted m
  | U8_allocate s n m => validated s0 s n /\ allocated converted m
  | U8_convert s n m buffer =>
      validated s0 s n /\ allocated converted m /\ buffer = vector_fill m 0
  | U8_converted r buffer =>
      converted = Some buffer /\ r = lengthZ buffer /\ r <> 0
  | U8_return value => decodeUtf8ToUtf16 s0 = Returned value
  | U8_throw e => e = utf8_error /\ decodeUtf8ToUtf16 s0 = Thrown MalformedInput
  end.

(** The invariant of [utf16ToUtf8] on a host whose version query works. *)
Definition utf16_inv (s0 : list Z) (p : Utf16Point) : Prop :=
  let converted := host_conversion (guarded s0) in
  let specified := encodeUtf16ToUtf8 host_is_vista_or_later api_best_effort s0 in
  match p with
  | U16_entry s => s = s0
  | U16_prepare s fl => s = s0 /\ s <> [] /\ fl = 0
  | U16_query s fl osvi => s = s0 /\ s <> [] /\ osvi = version_query
  | U16_test s fl osvi =>
      s = s0 /\ s <> [] /\ isWindowsVistaOrGreater osvi = host_is_vista_or_later
  | U16_select s fl b => s = s0 /\ s <> [] /\ b = host_is_vista_or_later
  | U16_validate s fl => s = s0 /\ s <> [] /\ fl = host_flags
  | U16_probe s fl n => validated s0 s n /\ fl = host_flags
  | U16_probed s fl n m => validated s0 s n /\ fl = host_flags /\ probed converted m
  | U16_allocate s fl n m =>
      validated s0 s n /\ fl = host_flags /\ allocated converted m
  | U16_convert s fl n m buffer =>
      validated s0 s n /\ fl = host_flags /\ allocated converted m /\
      buffer = vector_fill m 0
  | U16_converted r buffer =>
      converted = Some buffer /\ r = lengthZ buffer /\ r <> 0
  | U16_return value => specified = Returned value
  | U16_throw e => e = utf16_error /\ specified = Thrown MalformedInput
  end.

(** A configuration keeps an invariant of the points when its point does
    and every call made so far stayed inside the memory it was given. *)
Definition keeps {St : Type} (I : St -> Prop) (c : list Win32Call * St) : Prop :=
  I c.2 /\ Forall (fun e => call_in_bounds e = true) c.1.

(** ** The machines keep the laws of [Steps] *)

#[export] Instance utf8_machine_laws : MachineLaws utf8_machine.
Proof.
  split; cbn [step exec measure utf8_machine].
  - intros p evs q. split.
    + destruct 1; subst; simpl; step_cases; done.
    + destruct p; simpl; intros H; step_cases; simplify_eq; by constructor.
  - destruct 1; simpl; lia.
Qed.

#[export] Instance utf16_machine_laws : MachineLaws utf16_machine.
Proof.
  split; cbn [step exec measure utf16_machine].
  - intros p evs q. split.
    + destruct 1; subst; simpl; step_cases; done.
    + destruct p; simpl; intros H; step_cases; simplify_eq; by constructor.
  - destruct 1; simpl; lia.
Qed.

(** ** The machines and the monadic definitions *)

(** Run a machine on a symbolic input: evaluate, and split on each test
    that remains. *)
Ltac run_cases :=
  repeat (cbn -[stringLengthValidator vector_fill to_size_type c_str string_equals
                Z.eqb api_MultiByteToWideChar api_WideCharToMultiByte
                api_GetVersionEx isWindowsVistaOrGreater select_flags
                set_dwOSVersionInfoSize];
          unfold utf8_answer, utf8_call, utf16_answer, utf16_call, string_length in *;
          try done; try congruence;
          match goal with
          | |- context [if ?b then _ else _] => destruct b eqn:?
          end).

(** The final points are the returns and the throws. *)
Lemma utf8_final p :
  final p = match p with U8_return _ | U8_throw _ => true | _ => false end.
Proof. destruct p; unfold final; cbn; by repeat case_match. Qed.

Lemma utf16_final p :
  final p = match p with U16_return _ | U16_throw _ => true | _ => false end.
Proof. destruct p; unfold final; cbn; by repeat case_match. Qed.

(** The interpreter ends a run of each machine with the calls and at the
    outcome of the monadic definition.  No property of the host is used. *)
Lemma utf8_run_from s :
  run_from (U8_entry s) = (trace (utf8ToUtf16 s), utf8_outcome (result (utf8ToUtf16 s))).
Proof. unfold run_from, utf8ToUtf16, MultiByteToWideChar. run_cases. Qed.

Lemma utf16_run_from s :
  run_from (U16_entry s)
  = (trace (utf16ToUtf8 s), utf16_outcome (result (utf16ToUtf8 s))).
Proof. unfold run_from, utf16ToUtf8, GetVersionEx, WideCharToMultiByte. run_cases. Qed.

End Flow.

(** ** Equivalence, termination, progress *)

Section FlowProperties.
Context {dm : DataModel} {api : Win32Api}.





End FlowProperties.

(** ** Invariants *)

Section Answers.
Context {dm : DataModel} {api : Win32Api} {laws : ConversionLaws api}.

(** What the two passes answer, for any conversion function [f] that
    keeps the contract on the validated range of [s]. *)
Lemma probe_answers (f : option (list Z) -> Z -> Answer) s converted :
  (forall dst size,
     range_in_bounds (c_str s) (stringLengthValidator (lengthZ s)) dst size = true ->
     conversion_answer converted dst size (f dst size)) ->
  s <> [] ->
  (forall out, converted = Some out -> 0 < lengthZ out <= INT_MAX) ->
  probed converted (retval (f None 0)).
Proof.
  intros Hf Hs%lengthZ_pos Hout. destruct converted as [out|]; simpl.
  - destruct (two_pass f s out Hf Hs (Hout out eq_refl)) as (-> & _). by auto.
  - by destruct (Hf None 0 (probe_in_bounds s Hs)) as [-> _].
Qed.

Lemma convert_answers (f : option (list Z) -> Z -> Answer) s converted m :
  (forall dst size,
     range_in_bounds (c_str s) (stringLengthValidator (lengthZ s)) dst size = true ->
     conversion_answer converted dst size (f dst size)) ->
  s <> [] -> allocated converted m ->
  converted = Some (buffer_after (f (Some (vector_fill m 0)) m) (vector_fill m 0)) /\
  retval (f (Some (vector_fill m 0)) m)
  = lengthZ (buffer_after (f (Some (vector_fill m 0)) m) (vector_fill m 0)) /\
  retval (f (Some (vector_fill m 0)) m) <> 0 /\
  range_in_bounds (c_str s) (stringLengthValidator (lengthZ s))
    (Some (vector_fill m 0)) m = true.
Proof.
  intros Hf Hs%lengthZ_pos (out & -> & -> & Hout).
  destruct (two_pass f s out Hf Hs Hout) as (_ & Hr & Hb).
  rewrite Hb, Hr. split_and!; [done | done | lia |].
  apply convert_in_bounds; lia.
Qed.

(** A probe that answered 0 means that the input does not convert; any
    other answer, that it does. *)
Lemma probed_zero converted : probed converted 0 -> converted = None.
Proof. destruct converted; simpl; [lia | done]. Qed.

Lemma probed_nonzero converted m : probed converted m -> m <> 0 -> allocated converted m.
Proof. destruct converted as [out|]; simpl; [|done]. intros [-> ?] _. by exists out. Qed.

Lemma allocated_size converted m : allocated converted m -> to_size_type m = m.
Proof. intros (out & _ & _ & ?). apply to_size_type_int. lia. Qed.

End Answers.

Section Utf8Invariant.
Context {dm : DataModel} {api : Win32Api} {laws : ConversionLaws api}.

(** The contract of [MultiByteToWideChar] on the validated range. *)
Lemma utf8_law s dst size :
  s <> [] ->
  range_in_bounds (c_str s) (stringLengthValidator (lengthZ s)) dst size = true ->
  conversion_answer (utf8_to_utf16 true (guarded s)) dst size
    (utf8_answer s (stringLengthValidator (lengthZ s)) dst size).
Proof.
  intros Hs%lengthZ_pos Hb. unfold utf8_answer.
  rewrite <- (source_guarded s) by done. by apply MultiByteToWideChar_strict.
Qed.

(** Every rule of [utf8ToUtf16] preserves the invariant, and the calls it
    makes are in bounds. *)
Lemma utf8_inv_step s0 p evs q :
  utf8_inv s0 p -> Utf8Step p evs q ->
  utf8_inv s0 q /\ Forall (fun e => call_in_bounds e = true) evs.
Proof.
  intros Hinv Hstep.
  destruct Hstep as [s He|s He|s|s n|s n m ->|s n m Hm|s n m|s n m buffer
                    |r buffer ->|r buffer Hr];
    simpl in *; rewrite ?decodeUtf8ToUtf16_unfold; (split; [|repeat constructor]).
  - apply string_equals_spec in He. by subst.
  - apply nonempty_length in He as [_ He]. by subst.
  - by destruct Hinv.
  - destruct Hinv as (-> & Hs & ->). split; [done|].
    apply (probe_answers _ s0); [by intros; apply utf8_law | done |].
    intros out. by apply converted_length_utf8.
  - destruct Hinv as (-> & Hs & ->). simpl. by apply probe_in_bounds, lengthZ_pos.
  - destruct Hinv as (_ & ->%probed_zero). done.
  - destruct Hinv as (Hv & Hp). split; [done|]. by apply probed_nonzero.
  - destruct Hinv as (Hv & Ha). rewrite (allocated_size _ _ Ha). done.
  - destruct Hinv as ((-> & Hs & ->) & Ha & ->).
    by destruct (convert_answers _ s0 _ m (fun dst size => utf8_law s0 dst size Hs) Hs Ha)
      as (? & ? & ? & _).
  - destruct Hinv as ((-> & Hs & ->) & Ha & ->). simpl.
    by destruct (convert_answers _ s0 _ m (fun dst size => utf8_law s0 dst size Hs) Hs Ha)
      as (_ & _ & _ & ?).
  - by destruct Hinv as (_ & _ & ?).
  - destruct Hinv as (-> & _). done.
Qed.

End Utf8Invariant.

Section Utf16Invariant.
Context {dm : DataModel} {api : Win32Api} {laws : Win32Laws api}.

(** The contract of [WideCharToMultiByte] on the validated range, under
    the flags of the host. *)
Lemma utf16_law s dst size :
  s <> [] ->
  range_in_bounds (c_str s) (stringLengthValidator (lengthZ s)) dst size = true ->
  conversion_answer (host_conversion (guarded s)) dst size
    (utf16_answer s host_flags (stringLengthValidator (lengthZ s)) dst size).
Proof.
  intros Hs%lengthZ_pos Hb. unfold utf16_answer, host_flags.
  rewrite <- (source_guarded s) by done. apply flags_law; [done | done].
Qed.

(** What the specification prescribes, in terms of the conversion of the
    host. *)
Lemma encodeUtf16ToUtf8_unfold s :
  encodeUtf16ToUtf8 host_is_vista_or_later api_best_effort s =
  match host_conversion (guarded s) with
  | Some bytes => Returned bytes
  | None => Thrown MalformedInput
  end.
Proof.
  unfold encodeUtf16ToUtf8. case_bool_decide as He.
  - subst. change (guarded []) with (@nil Z). by rewrite conversion_under_nil.
  - unfold conversion_under. by destruct host_is_vista_or_later.
Qed.

Lemma converted_length_utf16 s out :
  fits_int s = true -> s <> [] -> host_conversion (guarded s) = Some out ->
  0 < lengthZ out <= INT_MAX.
Proof.
  unfold fits_under. intros Hfit Hs Hconv. rewrite Hconv in Hfit. split; [|lia].
  apply (conversion_under_nonempty host_is_vista_or_later (guarded s)); [|done].
  by apply guarded_nonempty.
Qed.

(** Every rule of [utf16ToUtf8] preserves the invariant, and the calls it
    makes are in bounds. *)
Lemma utf16_inv_step s0 p evs q :
  fits_int s0 = true ->
  utf16_inv s0 p -> Utf16Step p evs q ->
  utf16_inv s0 q /\ Forall (fun e => call_in_bounds e = true) evs.
Proof.
  intros Hfit Hinv Hstep.
  destruct Hstep as [s He|s He|s fl|s fl osvi|s fl osvi|s fl b|s fl|s fl n
                    |s fl n m ->|s fl n m Hm|s fl n m|s fl n m buffer
                    |r buffer ->|r buffer Hr];
    simpl in *; rewrite ?encodeUtf16ToUtf8_unfold; (split; [|repeat constructor]).
  - apply string_equals_spec in He. subst. change (guarded []) with (@nil Z).
    by rewrite conversion_under_nil.
  - apply nonempty_length in He as [_ He]. by subst.
  - by destruct Hinv as (? & ? & _).
  - destruct Hinv as (-> & Hs & ->). split_and!; [done..|]. apply version_test.
  - destruct Hinv as (? & ? & <-). done.
  - destruct Hinv as (? & ? & ->). done.
  - by destruct Hinv as (? & ? & ?).
  - destruct Hinv as ((-> & Hs & ->) & ->). split_and!; [done..|].
    apply (probe_answers _ s0); [by intros; apply utf16_law | done |].
    intros out. by apply converted_length_utf16.
  - destruct Hinv as ((-> & Hs & ->) & ->). simpl. by apply probe_in_bounds, lengthZ_pos.
  - destruct Hinv as (_ & _ & ->%probed_zero). done.
  - destruct Hinv as (Hv & Hfl & Hp). split_and!; [done..|]. by apply probed_nonzero.
  - destruct Hinv as (Hv & Hfl & Ha). rewrite (allocated_size _ _ Ha). done.
  - destruct Hinv as ((-> & Hs & ->) & -> & Ha & ->).
    by destruct (convert_answers _ s0 _ m (fun dst size => utf16_law s0 dst size Hs) Hs Ha)
      as (? & ? & ? & _).
  - destruct Hinv as ((-> & Hs & ->) & -> & Ha & ->). simpl.
    by destruct (convert_answers _ s0 _ m (fun dst size => utf16_law s0 dst size Hs) Hs Ha)
      as (_ & _ & _ & ?).
  - by destruct Hinv as (_ & _ & ?).
  - destruct Hinv as (-> & _). done.
Qed.

End Utf16Invariant.

(** An invariant of the points that every rule preserves, with calls in
    bounds, is kept by every reachable configuration. *)
Lemma keeps_reachable {St : Type} {M : Machine Win32Call St} {laws : MachineLaws M}
    (I : St -> Prop) (p0 : St) :
  I p0 ->
  (forall p evs q, I p -> step p evs q ->
     I q /\ Forall (fun e => call_in_bounds e = true) evs) ->
  forall c, reachable p0 c -> keeps I c.
Proof. apply reachable_keeps. Qed.

Section InvariantProperties.
Context {dm : DataModel} {api : Win32Api}.

(** C13. The invariant of [utf8ToUtf16], by induction on the run: at every
    point a run on the input [s] reaches, on a host that keeps the
    contract of the conversions, the live variables are as [utf8_inv]
    says (the validated length, the probed length, a buffer of exactly
    that length, a result that is never 0 after the second call), the
    final points hold what section 4.2 prescribes, and every call made so
    far is in bounds. *)
Theorem utf8ToUtf16_invariant {laws : ConversionLaws api} s c :
  reachable (U8_entry s) c -> keeps (utf8_inv s) c.
Proof. apply keeps_reachable; [done|]. apply utf8_inv_step. Qed.

(** C14. The invariant of [utf16ToUtf8], by induction on the run, on a
    host whose version query works: the version test yields the
    capability of the host, the flags are those the host accepts, and
    from the validation on the points are as in [utf8ToUtf16]; the final
    points hold what section 4.3 prescribes. *)
Theorem utf16ToUtf8_invariant {laws : Win32Laws api} s c :
  fits_int s = true -> reachable (U16_entry s) c -> keeps (utf16_inv s) c.
Proof.
  intros Hfit. apply keeps_reachable; [done|]. intros p evs q. by apply utf16_inv_step.
Qed.

End InvariantProperties.

(** The second test of [utf8ToUtf16] never fails on a host that keeps its
    contract: the rule [S8_convert_failed] is unreachable. *)
Lemma utf8_second_test_passes {dm : DataModel} {api : Win32Api}
    {laws : ConversionLaws api} s t r buffer :
  reachable (U8_entry s) (t, U8_converted r buffer) -> r <> 0.
Proof.
  intros H. apply (keeps_reachable (utf8_inv s)) in H as [(_ & _ & ?) _];
    [done | done | apply utf8_inv_step].
Qed.

(** ** Runs on the reference hosts *)

Section FlowWitnesses.
#[local] Existing Instance llp64.
#[local] Existing Instance windows_10.

(** The run of [utf8ToUtf16] on the six bytes of hello with an accent, and
    the throw after the first test on an overlong encoding. *)
Example utf8_run_hello :
  run_from (U8_entry hello)
  = ([utf8_call hello 6 None 0; utf8_call hello 6 (Some [0; 0; 0; 0; 0]) 5],
     U8_return hello16).
Proof. by vm_compute. Qed.

Example utf8_run_overlong :
  run_from (U8_entry overlong_nul)
  = ([utf8_call overlong_nul 2 None 0], U8_throw utf8_error).
Proof. by vm_compute. Qed.

(** The version query comes first in a run of [utf16ToUtf8]. *)
Example utf16_run_lone_surrogate :
  run_from (U16_entry lone_surrogate)
  = ([version_call; utf16_call lone_surrogate WC_ERR_INVALID_CHARS 3 None 0],
     U16_throw utf16_error).
Proof. by vm_compute. Qed.



Lemma utf8ToUtf16_invariant_witness :
  keeps (utf8_inv hello) (run_from (U8_entry hello)).
Proof. apply utf8ToUtf16_invariant, run_rtc. Defined.

Lemma utf16ToUtf8_invariant_witness :
  keeps (utf16_inv lone_surrogate) (run_from (U16_entry lone_surrogate)).
Proof. apply utf16ToUtf8_invariant; [done | apply run_rtc]. Defined.

End FlowWitnesses.
