(* ===== verification/Memory.v ===== *)
(** * Memory: the two functions on a heap

    CharacterEncoder.cpp allocates twice in each function: the buffer
    [std::vector<T>(n, 0)] between the two calls, and the string it
    returns (also the empty string of the early return).  The buffer is
    a local variable: its destructor releases it when the function is
    left, by [return] or by an exception.  The source has no statement
    for a failed allocation: the constructor throws [std::bad_alloc],
    which leaves the function.

    This file adds the heap to the machines of [Flow].  A [Heap] has a
    state of its own and decides each [Request]; an [Allocation] says,
    for each program point, what the statement there asks for and which
    blocks the local variables hold.  [on_heap] turns a machine into one
    over pairs of a heap state and a point, whose steps also record what
    happened to memory ([Allocated], [Denied], [Released]) among the
    calls.  A refused request leads to the point of the exception.

    Two heaps are given: [oracle], which decides each request by its size
    alone, and [counting], a heap of a fixed number of bytes of which the
    live blocks use up a part.

    The theorems give the whole run of each function on any heap on a
    host that keeps its contract, and from it: what is released and what
    is handed to the caller (nothing leaks, nothing is released twice),
    that a call only writes to a buffer that is live, how many bytes a
    call needs at once, and that the run is the run of [Flow] when
    nothing is refused.  One theorem is about every host: a negative
    answer of the first call is turned by the conversion to [size_type]
    into a request that is refused. *)

From S2P Require Import Prelude Steps Unicode TextCodec Machine LengthGuard Win32.
From S2P Require Import CharacterEncoder Flow.

#[local] Open Scope Z_scope.

(** ** Requests, memory events and heaps *)

Inductive ElementType : Type := char | wchar_t.

(** On Windows. *)
Definition sizeof (e : ElementType) : Z :=
  match e with char => 1 | wchar_t => 2 end.

(** [VectorOf e n] is [std::vector<e>(n, 0)]; [StringOf e n] is a
    [std::basic_string<e>] of [n] elements. *)
Inductive Request : Type :=
| VectorOf (e : ElementType) (n : Z)
| StringOf (e : ElementType) (n : Z).

#[global] Instance ElementType_eq_dec : EqDecision ElementType.
Proof. solve_decision. Defined.

#[global] Instance Request_eq_dec : EqDecision Request.
Proof. solve_decision. Defined.

(** What happens to memory during a run. *)
Inductive MemEvent : Type :=
| Allocated (r : Request)
| Denied (r : Request)
| Released (r : Request).

(** The events of a run on a heap: the calls of the program, and what
    happened to memory between them. *)
Inductive HeapEvent (Ev : Type) : Type :=
| Os (ev : Ev)
| Mem (m : MemEvent).

Arguments Os {Ev} ev.
Arguments Mem {Ev} m.

(** The allocator of the standard library: its state, whether it grants
    a request in a state, and the state after a release. *)
Class Heap : Type := {
  heap : Type;
  heap_alloc : heap -> Request -> option heap;
  heap_free : heap -> Request -> heap
}.

(** What [std::bad_alloc::what] returns. *)
Definition bad_alloc : std_exception := Exception "bad allocation".

(** A heap without state, which decides a request by its size. *)
Definition oracle (allows : Request -> bool) : Heap := {|
  heap := unit;
  heap_alloc := fun h r => if allows r then Some h else None;
  heap_free := fun h _ => h
|}.

Definition unlimited : Heap := oracle (fun _ => true).

(** The bytes a block takes.  A string holds a terminator after its
    elements; a string of fewer than [inline e] elements lies inside the
    string object and takes nothing from the heap. *)
Definition request_bytes (inline : ElementType -> Z) (r : Request) : Z :=
  match r with
  | VectorOf e n => n * sizeof e
  | StringOf e n => if n <? inline e then 0 else (n + 1) * sizeof e
  end.

(** A heap of [capacity] bytes; its state is the number of bytes in use. *)
Definition counting (inline : ElementType -> Z) (capacity : Z) : Heap := {|
  heap := Z;
  heap_alloc := fun used r =>
    if used + request_bytes inline r <=? capacity
    then Some (used + request_bytes inline r) else None;
  heap_free := fun used r => used - request_bytes inline r
|}.

(** No string lies inside its object; strings lie inside a buffer of 16
    bytes, as in the standard library the source is written for. *)
Definition no_inline (e : ElementType) : Z := 0.

Definition inline16 (e : ElementType) : Z := 16 / sizeof e.

(** ** A machine on a heap *)

(** What the statement at a point asks the heap for, the blocks that the
    local variables hold at a point, and the point that a refusal at a
    point leads to. *)
Class Allocation {Ev St : Type} (M : Machine Ev St) : Type := {
  request : St -> option Request;
  held : St -> list Request;
  raise : St -> St
}.

Class AllocationLaws {Ev St : Type} {M : Machine Ev St} (A : Allocation M) : Prop := {
  raise_final p : exec (raise p) = None;
  raise_below p r : request p = Some r -> (measure (raise p) < measure p)%nat;
  (** Only a statement asks for memory: a final point asks for none. *)
  request_live p r : request p = Some r -> is_Some (exec p)
}.

Section OnHeap.
Context {Ev St : Type} {M : Machine Ev St} {A : Allocation M} {H : Heap}.

(** A step that leaves the function releases what the locals hold. *)
Definition release (p q : St) : list Request := if final q then held p else [].

Definition free_all (rs : list Request) (h : heap) : heap := foldl heap_free h rs.

Definition released (rs : list Request) : list (HeapEvent Ev) :=
  (fun r => Mem (Released r)) <$> rs.

Inductive HeapStep : heap * St -> list (HeapEvent Ev) -> heap * St -> Prop :=
| Plain (h : heap) p evs q :
    request p = None -> step p evs q ->
    HeapStep (h, p) ((Os <$> evs) ++ released (release p q))
      (free_all (release p q) h, q)
| Granted (h h' : heap) p r evs q :
    request p = Some r -> heap_alloc h r = Some h' -> step p evs q ->
    HeapStep (h, p) (Mem (Allocated r) :: (Os <$> evs) ++ released (release p q))
      (free_all (release p q) h', q)
| Refused (h : heap) p r :
    request p = Some r -> heap_alloc h r = None ->
    HeapStep (h, p) (Mem (Denied r) :: released (held p)) (free_all (held p) h, raise p).

(** The statement at [p], after its request was dealt with. *)
Definition proceed (h : heap) (before : list (HeapEvent Ev)) (p : St)
  : option (list (HeapEvent Ev) * (heap * St)) :=
  match exec p with
  | Some (evs, q) =>
      Some (before ++ (Os <$> evs) ++ released (release p q),
            (free_all (release p q) h, q))
  | None => None
  end.

Definition heap_exec (c : heap * St) : option (list (HeapEvent Ev) * (heap * St)) :=
  match request c.2 with
  | None => proceed c.1 [] c.2
  | Some r =>
      match heap_alloc c.1 r with
      | Some h' => proceed h' [Mem (Allocated r)] c.2
      | None =>
          Some (Mem (Denied r) :: released (held c.2), (free_all (held c.2) c.1, raise c.2))
      end
  end.

Definition on_heap : Machine (HeapEvent Ev) (heap * St) :=
  {| step := HeapStep; exec := heap_exec; measure := fun c => measure c.2 |}.

End OnHeap.

Arguments on_heap {Ev St} M {A H}.

Section OnHeapLemmas.
Context {Ev St : Type} {M : Machine Ev St} {A : Allocation M} {H : Heap}.
Context {laws : MachineLaws M} {alaws : AllocationLaws A}.

#[export] Instance on_heap_laws : MachineLaws (on_heap M).
Proof.
  split; cbn [step exec measure on_heap]; unfold heap_exec, proceed.
  - intros [h p] evs [h' q]. split.
    + intros Hstep. inversion Hstep as [? ? ? ? Hr Hs|? ? ? ? ? ? Hr Ha Hs|? ? ? Hr Ha];
        subst; simpl; rewrite Hr, ?Ha; [| |done];
        apply exec_step in Hs; by rewrite Hs.
    + simpl. destruct (request p) as [r|] eqn:Hr;
        [destruct (heap_alloc h r) as [h1|] eqn:Ha|];
        [| intros; simplify_eq; by constructor |];
        (destruct (exec p) as [[evs' q']|] eqn:Hs; [|done]);
        apply exec_step in Hs; intros; simplify_eq; by constructor.
  - intros c evs c' Hstep. destruct Hstep as [? ? ? ? _ Hs|? ? ? ? ? ? _ _ Hs|? ? ? Hr _];
      simpl; [by apply step_decreases in Hs..|by apply raise_below in Hr].
Qed.

(** A point is final on a heap exactly when it is final without one. *)
Lemma heap_final (h : heap) p : final (M := on_heap M) (h, p) = final p.
Proof.
  unfold final. apply bool_decide_ext. cbn [exec on_heap]. unfold heap_exec, proceed.
  cbn [fst snd]. destruct (request p) as [r|] eqn:Hr.
  - destruct (request_live p r Hr) as [[evs q] Hq]. rewrite Hq.
    by destruct (heap_alloc h r).
  - by destruct (exec p) as [[evs q]|].
Qed.

End OnHeapLemmas.

(** ** Heaps that never refuse *)

(** The calls among the events of a run. *)
Definition calls {Ev : Type} (t : list (HeapEvent Ev)) : list Ev :=
  omap (fun ev => match ev with Os c => Some c | Mem _ => None end) t.

Lemma calls_app {Ev : Type} (t u : list (HeapEvent Ev)) :
  calls (t ++ u) = calls t ++ calls u.
Proof. apply omap_app. Qed.

Lemma calls_os {Ev : Type} (evs : list Ev) : calls (Os <$> evs) = evs.
Proof. induction evs as [|ev evs IH]; [done|]. simpl. f_equal. apply IH. Qed.

Lemma calls_released {Ev : Type} (rs : list Request) : calls (Ev := Ev) (released rs) = [].
Proof. by induction rs. Qed.

Class Granting (H : Heap) : Prop :=
  granting h r : is_Some (heap_alloc h r).

#[export] Instance unlimited_granting : Granting unlimited.
Proof. intros h r. by eexists. Qed.

Section GrantingRuns.
Context {Ev St : Type} {M : Machine Ev St} {A : Allocation M} {H : Heap}.
Context {granting : Granting H}.

(** On a heap that grants every request, the calls of a run and the
    points it passes are those of the machine without a heap. *)
Lemma run_granting fuel t (h : heap) p :
  let c := run (M := on_heap M) fuel (t, (h, p)) in
  (calls c.1, c.2.2) = run (M := M) fuel (calls t, p).
Proof.
  induction fuel as [|fuel IH] in t, h, p |- *; [done|].
  cbn [run exec on_heap fst snd]. unfold heap_exec, proceed. cbn [fst snd].
  destruct (request p) as [r|];
    [destruct (granting h r) as [h1 ->]|];
    (destruct (exec p) as [[evs q]|]; [|done]);
    rewrite IH, !calls_app, ?calls_os, ?calls_released; simpl;
    by rewrite ?app_nil_r.
Qed.

Lemma run_from_granting (h : heap) p :
  let c := run_from (M := on_heap M) (h, p) in
  (calls c.1, c.2.2) = run_from (M := M) p.
Proof. apply (run_granting _ []). Qed.

End GrantingRuns.

(** ** The requests of the two functions *)

Section Requests.
Context {dm : DataModel} {api : Win32Api}.

(** [utf8ToUtf16]: the empty string of line 49, the buffer of line 77
    and the string of line 102. *)
Definition utf8_request (p : Utf8Point) : option Request :=
  match p with
  | U8_entry utf8String =>
      if string_equals utf8String [] then Some (StringOf wchar_t 0) else None
  | U8_allocate _ _ utf16Length => Some (VectorOf wchar_t (to_size_type utf16Length))
  | U8_converted result utf16StringBuffer =>
      if result =? 0 then None
      else Some (StringOf wchar_t (lengthZ utf16StringBuffer))
  | _ => None
  end.

(** The buffer is in scope from its declaration to the end of the
    function. *)
Definition utf8_held (p : Utf8Point) : list Request :=
  match p with
  | U8_convert _ _ _ utf16StringBuffer | U8_converted _ utf16StringBuffer =>
      [VectorOf wchar_t (lengthZ utf16StringBuffer)]
  | _ => []
  end.

#[export] Instance utf8_allocation : Allocation utf8_machine :=
  {| request := utf8_request; held := utf8_held; raise := fun _ => U8_throw bad_alloc |}.

(** [utf16ToUtf8]: the empty string of line 110, the buffer of line 171
    and the string of line 199. *)
Definition utf16_request (p : Utf16Point) : option Request :=
  match p with
  | U16_entry utf16String =>
      if string_equals utf16String [] then Some (StringOf char 0) else None
  | U16_allocate _ _ _ utf8Length => Some (VectorOf char (to_size_type utf8Length))
  | U16_converted result utf8StringBuffer =>
      if result =? 0 then None
      else Some (StringOf char (lengthZ utf8StringBuffer))
  | _ => None
  end.

Definition utf16_held (p : Utf16Point) : list Request :=
  match p with
  | U16_convert _ _ _ _ utf8StringBuffer | U16_converted _ utf8StringBuffer =>
      [VectorOf char (lengthZ utf8StringBuffer)]
  | _ => []
  end.

#[export] Instance utf16_allocation : Allocation utf16_machine :=
  {| request := utf16_request; held := utf16_held; raise := fun _ => U16_throw bad_alloc |}.

#[export] Instance utf8_allocation_laws : AllocationLaws utf8_allocation.
Proof.
  split; [done| |]; intros [] r; simpl; try done; intros; try lia;
    repeat case_match; by eexists.
Qed.

#[export] Instance utf16_allocation_laws : AllocationLaws utf16_allocation.
Proof.
  split; [done| |]; intros [] r; simpl; try done; intros; try lia;
    repeat case_match; by eexists.
Qed.

End Requests.

(** ** The runs on a heap *)

Section Outcomes.
Context {dm : DataModel} {H : Heap} {St : Type}.
Context (e : ElementType) (ret : list Z -> St) (thrown : std_exception -> St).

(** The early return: an empty string is made. *)
Definition empty_on_heap (h : heap) : list (HeapEvent Win32Call) * (heap * St) :=
  match heap_alloc h (StringOf e 0) with
  | Some h' => ([Mem (Allocated (StringOf e 0))], (h', ret []))
  | None => ([Mem (Denied (StringOf e 0))], (h, thrown bad_alloc))
  end.

(** The two passes of a conversion function [f] after the events
    [before], which end with the first call, whatever [f] answers. *)
Definition two_pass_on_heap (f : option (list Z) -> Z -> Answer)
    (call : option (list Z) -> Z -> Win32Call) (err : std_exception)
    (h : heap) (before : list (HeapEvent Win32Call))
  : list (HeapEvent Win32Call) * (heap * St) :=
  let m := retval (f None 0) in
  if m =? 0 then (before, (h, thrown err))
  else
    let vector := VectorOf e (to_size_type m) in
    match heap_alloc h vector with
    | None => (before ++ [Mem (Denied vector)], (h, thrown bad_alloc))
    | Some h1 =>
        let buffer := vector_fill (to_size_type m) 0 in
        let conversion := f (Some buffer) m in
        let buffer := buffer_after conversion buffer in
        let local := VectorOf e (lengthZ buffer) in
        let second := Os (call (Some (vector_fill (to_size_type m) 0)) m) in
        if retval conversion =? 0
        then (before ++ [Mem (Allocated vector); second; Mem (Released local)],
              (heap_free h1 local, thrown err))
        else
          let string := StringOf e (lengthZ buffer) in
          match heap_alloc h1 string with
          | None =>
              (before ++ [Mem (Allocated vector); second;
                          Mem (Denied string); Mem (Released local)],
               (heap_free h1 local, thrown bad_alloc))
          | Some h2 =>
              (before ++ [Mem (Allocated vector); second;
                          Mem (Allocated string); Mem (Released local)],
               (heap_free h2 local, ret buffer))
          end
    end.

(** The two passes on a host that keeps its contract, for an input that
    converts to [out]: the buffer is asked for, filled by the second
    call [convert] and released; the string is asked for before the
    buffer is released. *)
Definition converted_on_heap (convert : Win32Call) (out : list Z)
    (h : heap) (before : list (HeapEvent Win32Call))
  : list (HeapEvent Win32Call) * (heap * St) :=
  let vector := VectorOf e (lengthZ out) in
  let string := StringOf e (lengthZ out) in
  match heap_alloc h vector with
  | None => (before ++ [Mem (Denied vector)], (h, thrown bad_alloc))
  | Some h1 =>
      match heap_alloc h1 string with
      | None =>
          (before ++ [Mem (Allocated vector); Os convert;
                      Mem (Denied string); Mem (Released vector)],
           (heap_free h1 vector, thrown bad_alloc))
      | Some h2 =>
          (before ++ [Mem (Allocated vector); Os convert;
                      Mem (Allocated string); Mem (Released vector)],
           (heap_free h2 vector, ret out))
      end
  end.

(** A heap adds one way to end: [std::bad_alloc]. *)
Lemma empty_on_heap_ends h :
  (empty_on_heap h).2.2 = ret [] \/ (empty_on_heap h).2.2 = thrown bad_alloc.
Proof. unfold empty_on_heap. destruct (heap_alloc h _); auto. Qed.

Lemma converted_on_heap_ends convert out h before :
  let c := converted_on_heap convert out h before in
  c.2.2 = ret out \/ c.2.2 = thrown bad_alloc.
Proof.
  unfold converted_on_heap.
  destruct (heap_alloc h _) as [h1|]; [destruct (heap_alloc h1 _)|]; auto.
Qed.

Lemma two_pass_on_heap_some f call err s out h before :
  (forall dst size,
     range_in_bounds (c_str s) (stringLengthValidator (lengthZ s)) dst size = true ->
     conversion_answer (Some out) dst size (f dst size)) ->
  0 < lengthZ s -> 0 < lengthZ out <= INT_MAX ->
  two_pass_on_heap f call err h before =
  converted_on_heap (call (Some (vector_fill (lengthZ out) 0)) (lengthZ out)) out h before.
Proof.
  intros Hf Hs Hout. destruct (two_pass f s out Hf Hs Hout) as (Hp & Hr & Hb).
  unfold two_pass_on_heap, converted_on_heap.
  rewrite Hp, to_size_type_int by lia. rewrite Hr, Hb.
  by destruct (Z.eqb_spec (lengthZ out) 0); [lia|].
Qed.

Lemma two_pass_on_heap_none f call err s h before :
  (forall dst size,
     range_in_bounds (c_str s) (stringLengthValidator (lengthZ s)) dst size = true ->
     conversion_answer None dst size (f dst size)) ->
  0 < lengthZ s ->
  two_pass_on_heap f call err h before = (before, (h, thrown err)).
Proof.
  intros Hf Hs. unfold two_pass_on_heap.
  by destruct (Hf None 0 (probe_in_bounds s Hs)) as [-> _].
Qed.

End Outcomes.

(** Run a machine on a heap on a symbolic input: evaluate, and split on
    each test and each request that remains. *)
Ltac heap_cases :=
  repeat (cbn -[stringLengthValidator vector_fill to_size_type c_str string_equals
                Z.eqb api_MultiByteToWideChar api_WideCharToMultiByte
                api_GetVersionEx isWindowsVistaOrGreater select_flags
                set_dwOSVersionInfoSize heap_alloc heap_free];
          unfold empty_on_heap, two_pass_on_heap, heap_exec, proceed, release, final,
            utf8_answer, utf8_call, utf16_answer, utf16_call, string_length in *;
          try done; try congruence;
          match goal with
          | |- context [if ?b then _ else _] => destruct b eqn:?
          | |- context [match heap_alloc ?h ?r with _ => _ end] =>
              destruct (heap_alloc h r) eqn:?
          end).

Section Runs.
Context {dm : DataModel} {api : Win32Api} {H : Heap}.

(** Whatever the host answers. *)
Lemma utf8_heap_cases (h : heap) s :
  run_from (M := on_heap utf8_machine) (h, U8_entry s) =
  let n := stringLengthValidator (lengthZ s) in
  if string_equals s [] then empty_on_heap wchar_t U8_return U8_throw h
  else
    two_pass_on_heap wchar_t U8_return U8_throw (utf8_answer s n) (utf8_call s n)
      utf8_error h [Os (utf8_call s n None 0)].
Proof. unfold run_from. heap_cases. Qed.

Lemma utf16_heap_cases (h : heap) s :
  run_from (M := on_heap utf16_machine) (h, U16_entry s) =
  let flags := select_flags detected_vista in
  let n := stringLengthValidator (lengthZ s) in
  if string_equals s [] then empty_on_heap char U16_return U16_throw h
  else
    two_pass_on_heap char U16_return U16_throw (utf16_answer s flags n)
      (utf16_call s flags n) utf16_error h
      [Os version_call; Os (utf16_call s flags n None 0)].
Proof. unfold run_from, detected_vista, version_call, version_query. heap_cases. Qed.

End Runs.

(** ** The ledger of a run *)

(** The vector a call writes to. *)
Definition destination (c : Win32Call) : option Request :=
  match c with
  | Call_MultiByteToWideChar _ _ _ _ (Some buffer) _ =>
      Some (VectorOf wchar_t (lengthZ buffer))
  | Call_WideCharToMultiByte _ _ _ _ (Some buffer) _ _ _ =>
      Some (VectorOf char (lengthZ buffer))
  | _ => None
  end.

(** Take one block from the live blocks, if it is there. *)
Fixpoint take_block (r : Request) (live : list Request) : option (list Request) :=
  match live with
  | [] => None
  | x :: live =>
      if decide (x = r) then Some live
      else match take_block r live with
           | Some live => Some (x :: live)
           | None => None
           end
  end.

(** The blocks that are live after the events [t] of a run that started
    with the blocks [live].  There is no answer when a block is released
    that is not live, or when a call writes to a vector that is not
    live. *)
Fixpoint ledger (live : list Request) (t : list (HeapEvent Win32Call))
  : option (list Request) :=
  match t with
  | [] => Some live
  | Mem (Allocated r) :: t => ledger (r :: live) t
  | Mem (Denied _) :: t => ledger live t
  | Mem (Released r) :: t =>
      match take_block r live with
      | Some live => ledger live t
      | None => None
      end
  | Os c :: t =>
      match destination c with
      | Some vector => if decide (vector ∈ live) then ledger live t else None
      | None => ledger live t
      end
  end.

(** What a final point hands to the caller. *)
Definition utf8_handed (p : Utf8Point) : list Request :=
  match p with
  | U8_return value => [StringOf wchar_t (lengthZ value)]
  | _ => []
  end.

Definition utf16_handed (p : Utf16Point) : list Request :=
  match p with
  | U16_return value => [StringOf char (lengthZ value)]
  | _ => []
  end.

Section Ledger.
Implicit Types (live : list Request) (t u : list (HeapEvent Win32Call)).

Lemma take_block_head r live : take_block r (r :: live) = Some live.
Proof. simpl. by rewrite decide_True. Qed.

Lemma ledger_app live t u :
  ledger live (t ++ u) =
  match ledger live t with
  | Some live => ledger live u
  | None => None
  end.
Proof.
  induction t as [|[c|[r|r|r]] t IH] in live |- *; simpl; [done| |done..|].
  - destruct (destination c); [case_decide|]; done.
  - by destruct (take_block r live).
Qed.

(** A run that kept its ledger kept it at every moment. *)
Lemma ledger_prefix live t u : is_Some (ledger live (t ++ u)) -> is_Some (ledger live t).
Proof. rewrite ledger_app. destruct (ledger live t); [by eexists | by intros [? ?]]. Qed.

Lemma ledger_allocated r live t :
  ledger live (Mem (Allocated r) :: t) = ledger (r :: live) t.
Proof. done. Qed.

Lemma ledger_denied r live t : ledger live (Mem (Denied r) :: t) = ledger live t.
Proof. done. Qed.

Lemma ledger_backed live (c : Win32Call) vector t :
  destination c = Some vector -> vector ∈ live ->
  ledger live (Os c :: t) = ledger live t.
Proof. intros Hc Hv. simpl. by rewrite Hc, decide_True. Qed.

Lemma ledger_released r live t :
  ledger (r :: live) (Mem (Released r) :: t) = ledger live t.
Proof. cbn [ledger]. by rewrite take_block_head. Qed.

(** A run keeps its ledger beside blocks that were live before it. *)
Lemma take_block_app r live live' rest :
  take_block r live = Some live' -> take_block r (live ++ rest) = Some (live' ++ rest).
Proof.
  induction live as [|x live IH] in live' |- *; simpl; [done|].
  case_decide; [by intros [= <-]|].
  destruct (take_block r live) as [l|]; [|done]. intros [= <-]. by rewrite (IH l).
Qed.

Lemma ledger_frame rest live live' t :
  ledger live t = Some live' -> ledger (live ++ rest) t = Some (live' ++ rest).
Proof.
  induction t as [|[c|[r|r|r]] t IH] in live |- *; simpl.
  - by intros [= ->].
  - destruct (destination c) as [vector|]; [|apply IH].
    case_decide; [|done]. rewrite decide_True by set_solver. apply IH.
  - apply (IH (r :: live)).
  - apply IH.
  - destruct (take_block r live) as [l|] eqn:Hl; [|done].
    rewrite (take_block_app _ _ _ _ Hl). apply IH.
Qed.

(** One block is released from under another that was allocated last. *)
Lemma ledger_released_second r r' live t :
  r <> r' -> ledger (r :: r' :: live) (Mem (Released r') :: t) = ledger (r :: live) t.
Proof. intros Hr. cbn [ledger take_block]. by rewrite decide_False, decide_True. Qed.

End Ledger.

Section OutcomeLedger.
Context {dm : DataModel} {H : Heap} {St : Type}.
Context (e : ElementType) (ret : list Z -> St) (thrown : std_exception -> St).
Context (handed : St -> list Request).
Context (handed_ret : forall value, handed (ret value) = [StringOf e (lengthZ value)]).
Context (handed_thrown : forall ex, handed (thrown ex) = []).

Lemma empty_on_heap_ledger (h : heap) :
  let c := empty_on_heap e ret thrown h in
  ledger [] c.1 = Some (handed c.2.2).
Proof.
  unfold empty_on_heap. destruct (heap_alloc h _); simpl;
    by rewrite ?handed_ret, ?handed_thrown.
Qed.

Lemma converted_on_heap_ledger convert out (h : heap) before :
  destination convert = Some (VectorOf e (lengthZ out)) ->
  ledger [] before = Some [] ->
  let c := converted_on_heap e ret thrown convert out h before in
  ledger [] c.1 = Some (handed c.2.2).
Proof.
  intros Hc Hbefore. unfold converted_on_heap.
  destruct (heap_alloc h _) as [h1|]; [destruct (heap_alloc h1 _)|];
    cbn [fst snd]; rewrite ledger_app, Hbefore, ?handed_ret, ?handed_thrown; [| |done];
    rewrite ledger_allocated, (ledger_backed _ _ _ _ Hc) by set_solver.
  - by rewrite ledger_allocated, ledger_released_second.
  - by rewrite ledger_denied, ledger_released.
Qed.

End OutcomeLedger.

(** ** The counting heap *)

Lemma sizeof_range e : 1 <= sizeof e <= 2.
Proof. destruct e; simpl; lia. Qed.

Lemma request_bytes_string inline e n :
  0 <= n -> 0 <= request_bytes inline (StringOf e n) <= (n + 1) * sizeof e.
Proof. intros. pose proof (sizeof_range e). simpl. case_match; nia. Qed.

Section OutcomeCounting.
Context {dm : DataModel} {St : Type} (inline : ElementType -> Z) (capacity : Z).
Context (e : ElementType) (ret : list Z -> St) (thrown : std_exception -> St).

(** The early return takes the bytes of the empty string. *)
Lemma empty_on_heap_counting (used : Z) :
  let bytes := request_bytes inline (StringOf e 0) in
  (empty_on_heap (H := counting inline capacity) e ret thrown used).2 =
  if used + bytes <=? capacity then (used + bytes, ret []) else (used, thrown bad_alloc).
Proof.
  intros bytes. unfold empty_on_heap. cbn [heap_alloc counting]. fold bytes.
  by destruct (used + bytes <=? capacity).
Qed.

(** The two passes succeed when the buffer and the string fit together,
    and leave the string behind. *)
Lemma converted_on_heap_counting convert out (used : Z) before :
  let vector := request_bytes inline (VectorOf e (lengthZ out)) in
  let string := request_bytes inline (StringOf e (lengthZ out)) in
  (converted_on_heap (H := counting inline capacity) e ret thrown convert out used before).2 =
  if used + vector + string <=? capacity then (used + string, ret out)
  else (used, thrown bad_alloc).
Proof.
  intros vector string.
  assert (0 <= vector /\ 0 <= string) as [? ?].
  { pose proof (request_bytes_string inline e (lengthZ out) (lengthZ_nonneg out)).
    pose proof (sizeof_range e). pose proof (lengthZ_nonneg out).
    unfold vector, string. simpl in *. split; [nia | lia]. }
  unfold converted_on_heap. cbn [heap_alloc heap_free counting]. fold vector string.
  clearbody vector string.
  repeat (match goal with
          | |- context [?a <=? ?b] => destruct (Z.leb_spec a b)
          end; cbn beta iota);
    cbn [snd]; first [lia | f_equal; lia].
Qed.

End OutcomeCounting.

(** A run that fits ends well and keeps what it hands over. *)
Lemma fits_then {St : Type} (fits : bool) (used kept limit : Z) (good bad : St) :
  fits = true -> 0 <= kept /\ used + kept <= limit ->
  let c := if fits then (used + kept, good) else (used, bad) in
  c.2 = good /\ used <= c.1 <= limit.
Proof. intros -> ?. simpl. split; [done | lia]. Qed.

(** ** The runs on a host that keeps its contract *)

Section LawfulRuns.
Context {dm : DataModel} {api : Win32Api} {H : Heap}.

(** Where [utf8ToUtf16] ends on a heap [h], and what happened on the
    way. *)
Definition utf8_on_heap (h : heap) (s : list Z)
  : list (HeapEvent Win32Call) * (heap * Utf8Point) :=
  if string_equals s [] then empty_on_heap wchar_t U8_return U8_throw h
  else
    match utf8_to_utf16 true (guarded s) with
    | None => ([Os (utf8_probe_call s)], (h, U8_throw utf8_error))
    | Some out =>
        converted_on_heap wchar_t U8_return U8_throw (utf8_convert_call s out) out
          h [Os (utf8_probe_call s)]
    end.

(** The same for [utf16ToUtf8], which asks for the version first. *)
Definition utf16_on_heap (h : heap) (s : list Z)
  : list (HeapEvent Win32Call) * (heap * Utf16Point) :=
  if string_equals s [] then empty_on_heap char U16_return U16_throw h
  else
    match host_conversion (guarded s) with
    | None =>
        ([Os version_call; Os (utf16_probe_call host_flags s)],
         (h, U16_throw utf16_error))
    | Some out =>
        converted_on_heap char U16_return U16_throw
          (utf16_convert_call host_flags s out) out
          h [Os version_call; Os (utf16_probe_call host_flags s)]
    end.

Lemma utf8_run_on_heap {laws : ConversionLaws api} (h : heap) s :
  run_from (M := on_heap utf8_machine) (h, U8_entry s) = utf8_on_heap h s.
Proof.
  unfold utf8_on_heap.
  rewrite utf8_heap_cases. cbv zeta.
  destruct (string_equals s []) eqn:He; [done|].
  apply nonempty_length in He as [Hlen Hs].
  pose proof (fun dst size => utf8_law s dst size Hs) as Hlaw.
  destruct (utf8_to_utf16 true (guarded s)) as [out|] eqn:Hconv.
  - by rewrite (two_pass_on_heap_some _ _ _ _ _ _ s out _ _ Hlaw Hlen
                  (converted_length_utf8 s out Hs Hconv)).
  - by rewrite (two_pass_on_heap_none _ _ _ _ _ _ s _ _ Hlaw Hlen).
Qed.

Lemma utf16_run_on_heap {laws : Win32Laws api} (h : heap) s :
  fits_int s = true ->
  run_from (M := on_heap utf16_machine) (h, U16_entry s) = utf16_on_heap h s.
Proof.
  intros Hfit. unfold utf16_on_heap. rewrite utf16_heap_cases, version_test. cbv zeta. fold host_flags.
  destruct (string_equals s []) eqn:He; [done|].
  apply nonempty_length in He as [Hlen Hs].
  pose proof (fun dst size => utf16_law s dst size Hs) as Hlaw.
  destruct (host_conversion (guarded s)) as [out|] eqn:Hconv.
  - by rewrite (two_pass_on_heap_some _ _ _ _ _ _ s out _ _ Hlaw Hlen
                  (converted_length_utf16 s out Hfit Hs Hconv)).
  - by rewrite (two_pass_on_heap_none _ _ _ _ _ _ s _ _ Hlaw Hlen).
Qed.

(** On a heap a run ends as it does without one, or with
    [std::bad_alloc]. *)
Lemma utf8_on_heap_ends {laws : ConversionLaws api} (h : heap) s :
  (utf8_on_heap h s).2.2 = utf8_outcome (result (utf8ToUtf16 s)) \/
  (utf8_on_heap h s).2.2 = U8_throw bad_alloc.
Proof.
  unfold utf8_on_heap. rewrite utf8ToUtf16_result.
  destruct (string_equals s []) eqn:He.
  - apply string_equals_spec in He as ->. apply (empty_on_heap_ends _ U8_return).
  - destruct (utf8_to_utf16 true (guarded s));
      [apply (converted_on_heap_ends _ U8_return) | by left].
Qed.

Lemma utf16_on_heap_ends {laws : Win32Laws api} (h : heap) s :
  fits_int s = true ->
  (utf16_on_heap h s).2.2 = utf16_outcome (result (utf16ToUtf8 s)) \/
  (utf16_on_heap h s).2.2 = U16_throw bad_alloc.
Proof.
  intros Hfit. unfold utf16_on_heap. rewrite utf16ToUtf8_result by done.
  destruct (string_equals s []) eqn:He.
  - apply string_equals_spec in He as ->. change (guarded []) with (@nil Z).
    rewrite conversion_under_nil. apply (empty_on_heap_ends _ U16_return).
  - destruct (host_conversion (guarded s));
      [apply (converted_on_heap_ends _ U16_return) | by left].
Qed.

(** The ledger at the end of a run. *)
Lemma utf8_on_heap_ledger (h : heap) s :
  ledger [] (utf8_on_heap h s).1 = Some (utf8_handed (utf8_on_heap h s).2.2).
Proof.
  unfold utf8_on_heap. destruct (string_equals s []); [by apply empty_on_heap_ledger|].
  destruct (utf8_to_utf16 true (guarded s)) as [out|]; [|done].
  apply converted_on_heap_ledger; try done. simpl.
  by rewrite vector_fill_length by apply lengthZ_nonneg.
Qed.

Lemma utf16_on_heap_ledger (h : heap) s :
  ledger [] (utf16_on_heap h s).1 = Some (utf16_handed (utf16_on_heap h s).2.2).
Proof.
  unfold utf16_on_heap. destruct (string_equals s []); [by apply empty_on_heap_ledger|].
  destruct (host_conversion (guarded s)) as [out|]; [|done].
  apply converted_on_heap_ledger; try done. simpl.
  by rewrite vector_fill_length by apply lengthZ_nonneg.
Qed.

End LawfulRuns.

(** The blocks fit: the test of the heap succeeds, and what stays in use
    is within the bound. *)
Ltac fits := apply fits_then; [apply Z.leb_le|]; simpl in *; lia.

(** ** Runs and the step relation *)

(** A run whose ledger is right at the end kept it at every moment. *)
Lemma ledger_throughout {St : Type} {M : Machine (HeapEvent Win32Call) St}
    {laws : MachineLaws M} (holds : St -> list Request) p0 :
  (let c := run_from p0 in ledger [] c.1 = Some (holds c.2)) ->
  forall c, reachable p0 c ->
    is_Some (ledger [] c.1) /\ (nf advance c -> ledger [] c.1 = Some (holds c.2)).
Proof.
  intros Hend c Hc. split.
  - apply reachable_prefix in Hc as [u Hu]. apply (ledger_prefix _ _ u).
    rewrite <- Hu. by eexists.
  - intros Hnf. by assert (c = run_from p0) as -> by by apply run_from_spec.
Qed.

Section LedgerRuns.
Context {St : Type} {M : Machine Win32Call St} {A : Allocation M} {H : Heap}.
Context {laws : MachineLaws M} {alaws : AllocationLaws A}.

Lemma ledger_at_every_moment (handed : St -> list Request) (h : heap) p0 :
  (let c := run_from (M := on_heap M) (h, p0) in ledger [] c.1 = Some (handed c.2.2)) ->
  forall c, reachable (M := on_heap M) (h, p0) c ->
    is_Some (ledger [] c.1) /\
    (nf (advance (M := on_heap M)) c -> ledger [] c.1 = Some (handed c.2.2)).
Proof. apply (ledger_throughout (M := on_heap M) (fun c => handed c.2)). Qed.

End LedgerRuns.

(** The empty string has no elements. *)
Ltac empty_length := change (lengthZ (@nil Z)) with 0 in *.

(** ** The counting heap: what a call needs and what it leaves *)

Section CountingRuns.
Context {dm : DataModel} {api : Win32Api} (inline : ElementType -> Z) (capacity : Z).
Implicit Types (used : Z) (s : list Z).


(** The bytes of some blocks together. *)
Definition bytes_of (rs : list Request) : Z := sum_of (request_bytes inline) rs.

Lemma free_all_counting rs used :
  free_all (H := counting inline capacity) rs used = used - bytes_of rs.
Proof.
  unfold free_all, bytes_of. induction rs as [|r rs IH] in used |- *; simpl; [lia|].
  rewrite IH. lia.
Qed.

(** Where a run of an input that converts to [out] ends: the buffer and
    the string fit together and the string stays, or the run ends with
    [std::bad_alloc] and nothing stays. *)
Lemma utf8_on_heap_counting used s out :
  utf8_to_utf16 true (guarded s) = Some out ->
  let vector := request_bytes inline (VectorOf wchar_t (lengthZ out)) in
  let string := request_bytes inline (StringOf wchar_t (lengthZ out)) in
  (utf8_on_heap (H := counting inline capacity) used s).2 =
  if used + vector + string <=? capacity then (used + string, U8_return out)
  else (used, U8_throw bad_alloc).
Proof.
  intros Hconv. cbv zeta. unfold utf8_on_heap. destruct (string_equals s []) eqn:He.
  - apply string_equals_spec in He as ->. injection Hconv as <-.
    rewrite empty_on_heap_counting. empty_length. by rewrite Z.add_0_r.
  - rewrite Hconv. apply converted_on_heap_counting.
Qed.

Lemma utf16_on_heap_counting {laws : ConversionLaws api} used s out :
  host_conversion (guarded s) = Some out ->
  let vector := request_bytes inline (VectorOf char (lengthZ out)) in
  let string := request_bytes inline (StringOf char (lengthZ out)) in
  (utf16_on_heap (H := counting inline capacity) used s).2 =
  if used + vector + string <=? capacity then (used + string, U16_return out)
  else (used, U16_throw bad_alloc).
Proof.
  intros Hconv. cbv zeta. unfold utf16_on_heap. destruct (string_equals s []) eqn:He.
  - apply string_equals_spec in He as ->. change (guarded []) with (@nil Z) in Hconv.
    rewrite conversion_under_nil in Hconv. injection Hconv as <-.
    rewrite empty_on_heap_counting. empty_length. by rewrite Z.add_0_r.
  - rewrite Hconv. apply converted_on_heap_counting.
Qed.

(** The bytes in use after a run are those before it and those of what
    is handed to the caller, whether the run ends well or not. *)
Lemma utf8_on_heap_balance used s :
  let c := utf8_on_heap (H := counting inline capacity) used s in c.2.1 = used + bytes_of (utf8_handed c.2.2).
Proof.
  cbv zeta. unfold utf8_on_heap. destruct (string_equals s []).
  - rewrite empty_on_heap_counting. case_match; cbn -[request_bytes]; empty_length; lia.
  - destruct (utf8_to_utf16 true (guarded s)) as [out|]; [|simpl; lia].
    rewrite converted_on_heap_counting. case_match; cbn -[request_bytes]; lia.
Qed.

Lemma utf16_on_heap_balance used s :
  let c := utf16_on_heap (H := counting inline capacity) used s in c.2.1 = used + bytes_of (utf16_handed c.2.2).
Proof.
  cbv zeta. unfold utf16_on_heap. destruct (string_equals s []).
  - rewrite empty_on_heap_counting. case_match; cbn -[request_bytes]; empty_length; lia.
  - destruct (host_conversion (guarded s)) as [out|]; [|simpl; lia].
    rewrite converted_on_heap_counting. case_match; cbn -[request_bytes]; lia.
Qed.

(** With room for the buffer and the string together the run ends as it
    does without a heap. *)
Lemma utf8_on_heap_fits {laws : ConversionLaws api} used s :
  used + 4 * lengthZ s + 2 <= capacity ->
  let c := utf8_on_heap (H := counting inline capacity) used s in
  c.2.2 = utf8_outcome (result (utf8ToUtf16 s)) /\
  used <= c.2.1 <= used + 2 * lengthZ s + 2.
Proof.
  pose proof (lengthZ_nonneg s) as Hs. pose proof (guarded_le s) as Hg.
  intros Hcap. cbv zeta. unfold utf8_on_heap. rewrite utf8ToUtf16_result.
  destruct (string_equals s []) eqn:He.
  - apply string_equals_spec in He as ->. change (guarded []) with (@nil Z).
    rewrite empty_on_heap_counting.
    pose proof (request_bytes_string inline wchar_t 0 (Z.le_refl 0)).
    empty_length.
    fits.
  - destruct (utf8_to_utf16 true (guarded s)) as [out|] eqn:Hconv; [|simpl; split; [done|lia]].
    apply utf8_to_utf16_length in Hconv as Hlen.
    pose proof (request_bytes_string inline wchar_t (lengthZ out) (lengthZ_nonneg out)).
    rewrite converted_on_heap_counting.
    fits.
Qed.

Lemma utf16_on_heap_fits {laws : Win32Laws api} used s :
  fits_int s = true -> used + 6 * lengthZ s + 1 <= capacity ->
  let c := utf16_on_heap (H := counting inline capacity) used s in
  c.2.2 = utf16_outcome (result (utf16ToUtf8 s)) /\
  used <= c.2.1 <= used + 3 * lengthZ s + 1.
Proof.
  pose proof (lengthZ_nonneg s) as Hs. pose proof (guarded_le s) as Hg.
  intros Hfit Hcap. cbv zeta. unfold utf16_on_heap. rewrite utf16ToUtf8_result by done.
  destruct (string_equals s []) eqn:He.
  - apply string_equals_spec in He as ->. change (guarded []) with (@nil Z).
    rewrite empty_on_heap_counting, conversion_under_nil.
    pose proof (request_bytes_string inline char 0 (Z.le_refl 0)).
    empty_length.
    fits.
  - destruct (host_conversion (guarded s)) as [out|] eqn:Hconv; [|simpl; split; [done|lia]].
    apply conversion_under_length in Hconv as Hlen.
    pose proof (request_bytes_string inline char (lengthZ out) (lengthZ_nonneg out)).
    rewrite converted_on_heap_counting.
    fits.
Qed.

End CountingRuns.

(** ** Properties *)

Section MemoryProperties.
Context {dm : DataModel} {api : Win32Api}.

(** C18. [utf8ToUtf16] on a heap, on a host that keeps the contract of the
    conversions: every run of the step relation ends in one
    configuration.  On the empty string only the empty result is asked
    for.  A string that does not convert asks for nothing.  For a string
    that converts to [out], the buffer of [lengthZ out] code units is
    asked for after the first call, and a refusal ends the run with
    [std::bad_alloc] before the second call is made; the returned string
    is asked for after the second call and before the buffer is
    released, and the buffer is released also when the string is
    refused. *)
Theorem utf8ToUtf16_on_heap {H : Heap} {laws : ConversionLaws api} (h : heap) s c :
  reachable (M := on_heap utf8_machine) (h, U8_entry s) c /\
  nf (advance (M := on_heap utf8_machine)) c <->
  c = if string_equals s [] then empty_on_heap wchar_t U8_return U8_throw h
      else
        match utf8_to_utf16 true (guarded s) with
        | None => ([Os (utf8_probe_call s)], (h, U8_throw utf8_error))
        | Some out =>
            converted_on_heap wchar_t U8_return U8_throw (utf8_convert_call s out) out
              h [Os (utf8_probe_call s)]
        end.
Proof. by rewrite run_from_spec, utf8_run_on_heap. Qed.

(** C19. [utf16ToUtf8] on a heap, on a host that keeps its contract, for a
    string whose UTF-8 form an [int] can count: as for [utf8ToUtf16],
    with the version query before the first call and a buffer of
    [lengthZ out] bytes. *)
Theorem utf16ToUtf8_on_heap {H : Heap} {laws : Win32Laws api} (h : heap) s c :
  fits_int s = true ->
  reachable (M := on_heap utf16_machine) (h, U16_entry s) c /\
  nf (advance (M := on_heap utf16_machine)) c <->
  c = if string_equals s [] then empty_on_heap char U16_return U16_throw h
      else
        match host_conversion (guarded s) with
        | None =>
            ([Os version_call; Os (utf16_probe_call host_flags s)],
             (h, U16_throw utf16_error))
        | Some out =>
            converted_on_heap char U16_return U16_throw
              (utf16_convert_call host_flags s out) out
              h [Os version_call; Os (utf16_probe_call host_flags s)]
        end.
Proof. intros Hfit. by rewrite run_from_spec, utf16_run_on_heap. Qed.


(** C26. The memory a call needs, on a heap of [capacity] bytes of which
    [used] are in use.  With [4 * n + 2] bytes free, [utf8ToUtf16] on a
    string of [n] bytes ends as it does without a heap, never with
    [std::bad_alloc], and leaves at most [2 * n + 2] more bytes in use
    than it found (the returned string); [utf16ToUtf8] on [n] code units
    needs [6 * n + 1] bytes and leaves at most [3 * n + 1]. *)
Theorem memory_needed {laws : Win32Laws api} inline capacity (used : Z) s :
  (used + 4 * lengthZ s + 2 <= capacity ->
   let c := run_from (M := on_heap (H := counting inline capacity) utf8_machine)
              ((used : @heap (counting inline capacity)), U8_entry s) in
   c.2.2 = utf8_outcome (result (utf8ToUtf16 s)) /\
   used <= c.2.1 <= used + 2 * lengthZ s + 2) /\
  (fits_int s = true -> used + 6 * lengthZ s + 1 <= capacity ->
   let c := run_from (M := on_heap (H := counting inline capacity) utf16_machine)
              ((used : @heap (counting inline capacity)), U16_entry s) in
   c.2.2 = utf16_outcome (result (utf16ToUtf8 s)) /\
   used <= c.2.1 <= used + 3 * lengthZ s + 1).
Proof.
  split; [intros Hcap | intros Hfit Hcap]; cbv zeta.
  - rewrite (utf8_run_on_heap (H := counting inline capacity) used s).
    apply (utf8_on_heap_fits inline capacity used s Hcap).
  - rewrite (utf16_run_on_heap (H := counting inline capacity) used s Hfit).
    apply (utf16_on_heap_fits inline capacity used s Hfit Hcap).
Qed.

(** Nothing is lost on a heap that counts its bytes: when a run has
    ended, the bytes in use are those in use before it and those of the
    string handed to the caller; after an exception, [std::bad_alloc]
    included, they are those in use before. *)
Theorem memory_balance {laws : Win32Laws api} inline capacity (used : Z) s :
  (let c := run_from (M := on_heap (H := counting inline capacity) utf8_machine)
              ((used : @heap (counting inline capacity)), U8_entry s) in
   c.2.1 = used + bytes_of inline (utf8_handed c.2.2)) /\
  (fits_int s = true ->
   let c := run_from (M := on_heap (H := counting inline capacity) utf16_machine)
              ((used : @heap (counting inline capacity)), U16_entry s) in
   c.2.1 = used + bytes_of inline (utf16_handed c.2.2)).
Proof.
  split; [|intros Hfit]; cbv zeta.
  - rewrite (utf8_run_on_heap (H := counting inline capacity) used s).
    apply (utf8_on_heap_balance inline capacity).
  - rewrite (utf16_run_on_heap (H := counting inline capacity) used s Hfit).
    apply (utf16_on_heap_balance inline capacity).
Qed.

End MemoryProperties.

(** ** A host that answers a negative number *)

Section NegativeAnswers.
Context {dm : DataModel} {api : Win32Api}.
Context (inline : ElementType -> Z) (capacity : Z).

(** The two passes after a first call that answered a negative number:
    the number is taken for a length, its conversion to [size_type] is
    more than half of what a [size_type] can count, and a heap of fewer
    bytes refuses the buffer. *)
Lemma two_pass_negative {St : Type} e (ret : list Z -> St) thrown f call err
    (used : Z) before :
  let m := retval (f None 0) in
  INT_MIN <= m < 0 -> 0 <= used -> capacity <= SIZE_MAX / 2 * sizeof e ->
  two_pass_on_heap (H := counting inline capacity) e ret thrown f call err used before =
  (before ++ [Mem (Denied (VectorOf e (2 ^ size_bits + m)))], (used, thrown bad_alloc)).
Proof.
  cbv zeta. intros Hm Hused Hcap. unfold two_pass_on_heap.
  destruct (to_size_type_negative _ Hm) as [Hwrap Hhalf]. rewrite <- Hwrap.
  destruct (Z.eqb_spec (retval (f None 0)) 0); [lia|].
  cbn [heap_alloc counting request_bytes].
  pose proof (sizeof_range e). rewrite (proj2 (Z.leb_gt _ _)); [done | nia].
Qed.

(** C29. What the conversions of lines 77 and 171 make of a negative
    answer, on any host.  The source compares the answer of the first
    call with 0 only; a negative [int] is taken for a length, and
    [static_cast<size_type>] turns it into [2 ^ size_bits] minus its
    magnitude, which is more than half of what a [size_type] counts.  On
    a heap of fewer bytes the buffer is refused: the function is left
    with the exception of the refused request (the model does not tell
    [std::length_error] from [std::bad_alloc]) after one conversion
    call, and no call is made with a negative size. *)
Theorem negative_answer_refused (used : Z) s :
  s <> [] -> 0 <= used ->
  (let n := stringLengthValidator (lengthZ s) in
   let m := retval (utf8_answer s n None 0) in
   INT_MIN <= m < 0 -> capacity < SIZE_MAX ->
   run_from (M := on_heap (H := counting inline capacity) utf8_machine)
     ((used : @heap (counting inline capacity)), U8_entry s) =
   ([Os (utf8_call s n None 0); Mem (Denied (VectorOf wchar_t (2 ^ size_bits + m)))],
    (used, U8_throw bad_alloc))) /\
  (let flags := select_flags detected_vista in
   let n := stringLengthValidator (lengthZ s) in
   let m := retval (utf16_answer s flags n None 0) in
   INT_MIN <= m < 0 -> capacity <= SIZE_MAX / 2 ->
   run_from (M := on_heap (H := counting inline capacity) utf16_machine)
     ((used : @heap (counting inline capacity)), U16_entry s) =
   ([Os version_call; Os (utf16_call s flags n None 0);
     Mem (Denied (VectorOf char (2 ^ size_bits + m)))],
    (used, U16_throw bad_alloc))).
Proof.
  intros Hs%nonempty_string Hused. split; cbv zeta; intros Hm Hcap.
  - rewrite (utf8_heap_cases (H := counting inline capacity)). cbv zeta. rewrite Hs.
    apply two_pass_negative; [done..|]. cbn [sizeof]. lia.
  - rewrite (utf16_heap_cases (H := counting inline capacity)). cbv zeta. rewrite Hs.
    apply two_pass_negative; [done..|]. cbn [sizeof]. lia.
Qed.

End NegativeAnswers.

(** ** Corollaries *)

Section MemoryCorollaries.
Context {dm : DataModel} {api : Win32Api} {H : Heap}.

(** On a heap that grants every request a run makes the calls of the
    definition and ends at its outcome, on every host. *)
Lemma granting_runs {granting : Granting H} (h : heap) s :
  (let c := run_from (M := on_heap utf8_machine) (h, U8_entry s) in
   (calls c.1, c.2.2) = (trace (utf8ToUtf16 s), utf8_outcome (result (utf8ToUtf16 s)))) /\
  (let c := run_from (M := on_heap utf16_machine) (h, U16_entry s) in
   (calls c.1, c.2.2) = (trace (utf16ToUtf8 s), utf16_outcome (result (utf16ToUtf8 s)))).
Proof.
  split; cbv zeta; [rewrite <- utf8_run_from | rewrite <- utf16_run_from];
    apply run_from_granting.
Qed.

(** A run on a heap terminates within the bounds of [Flow]: a refusal
    only shortens it. *)
Lemma heap_runs_terminate (h : heap) s n :
  (forall c, nsteps (advance (M := on_heap utf8_machine)) n ([], (h, U8_entry s)) c ->
     (n <= 7)%nat) /\
  (forall c, nsteps (advance (M := on_heap utf16_machine)) n ([], (h, U16_entry s)) c ->
     (n <= 11)%nat).
Proof.
  split; intros c Hn; by apply (reachable_bound (M := on_heap _)) in Hn.
Qed.

End MemoryCorollaries.

(** ** Witnesses: the six bytes of hello on heaps of a few bytes *)

Section MemoryWitnesses.
#[local] Existing Instance llp64.
#[local] Existing Instance windows_10.

(** Five code units take ten bytes as a vector and twelve as a string.
    On eight bytes the buffer is refused; on twenty the string is, and
    the buffer is released; on twenty-two the call succeeds and leaves
    the twelve bytes of the string in use.  Where short strings lie
    inside the string object, ten bytes are enough and none stays in
    use. *)
Example hello_on_heaps :
  let vector := VectorOf wchar_t 5 in
  let string := StringOf wchar_t 5 in
  let probe := Os (utf8_probe_call hello) in
  let convert := Os (utf8_convert_call hello hello16) in
  run_from (M := on_heap (H := counting no_inline 8) utf8_machine) (0, U8_entry hello)
  = ([probe; Mem (Denied vector)], (0, U8_throw bad_alloc)) /\
  run_from (M := on_heap (H := counting no_inline 20) utf8_machine) (0, U8_entry hello)
  = ([probe; Mem (Allocated vector); convert; Mem (Denied string); Mem (Released vector)],
     (0, U8_throw bad_alloc)) /\
  run_from (M := on_heap (H := counting no_inline 22) utf8_machine) (0, U8_entry hello)
  = ([probe; Mem (Allocated vector); convert; Mem (Allocated string); Mem (Released vector)],
     (12, U8_return hello16)) /\
  run_from (M := on_heap (H := counting inline16 10) utf8_machine) (0, U8_entry hello)
  = ([probe; Mem (Allocated vector); convert; Mem (Allocated string); Mem (Released vector)],
     (0, U8_return hello16)).
Proof. by vm_compute. Qed.

(** The early return asks for the empty string: on a heap that is full
    and keeps no string inside its object, the call on the empty string
    ends with [std::bad_alloc]. *)
Example empty_on_full_heap :
  run_from (M := on_heap (H := counting no_inline 0) utf8_machine) (0, U8_entry [])
  = ([Mem (Denied (StringOf wchar_t 0))], (0, U8_throw bad_alloc)) /\
  run_from (M := on_heap (H := counting inline16 0) utf8_machine) (0, U8_entry [])
  = ([Mem (Allocated (StringOf wchar_t 0))], (0, U8_return [])).
Proof. by vm_compute. Qed.

Lemma utf8ToUtf16_on_heap_witness :
  let c := ([Os (utf8_probe_call hello); Mem (Denied (VectorOf wchar_t 5))],
            (0, U8_throw bad_alloc)) in
  reachable (M := on_heap (H := counting no_inline 8) utf8_machine) (0, U8_entry hello) c /\
  nf (advance (M := on_heap (H := counting no_inline 8) utf8_machine)) c.
Proof.
  cbv zeta. apply (utf8ToUtf16_on_heap (H := counting no_inline 8) 0 hello).
  vm_compute. reflexivity.
Defined.

Lemma utf16ToUtf8_on_heap_witness :
  let c := ([Os version_call; Os (utf16_probe_call host_flags hello16);
             Mem (Allocated (VectorOf char 6));
             Os (utf16_convert_call host_flags hello16 hello);
             Mem (Denied (StringOf char 6)); Mem (Released (VectorOf char 6))],
            (0, U16_throw bad_alloc)) in
  reachable (M := on_heap (H := counting no_inline 10) utf16_machine) (0, U16_entry hello16) c /\
  nf (advance (M := on_heap (H := counting no_inline 10) utf16_machine)) c.
Proof.
  cbv zeta. apply (utf16ToUtf8_on_heap (H := counting no_inline 10) 0 hello16);
    vm_compute; reflexivity.
Defined.


Lemma memory_needed_witness :
  let c := run_from (M := on_heap (H := counting no_inline 26) utf8_machine)
             (0, U8_entry hello) in
  c.2.2 = utf8_outcome (result (utf8ToUtf16 hello)) /\ 0 <= c.2.1 <= 0 + 2 * lengthZ hello + 2.
Proof. apply (memory_needed no_inline 26 0 hello). by vm_compute. Defined.

Lemma negative_answer_refused_witness :
  run_from (M := on_heap (H := counting no_inline 1000)
                   (utf8_machine (api := with_answer (-1) windows_10)))
    (0, U8_entry hello) =
  ([Os (utf8_call hello 6 None 0); Mem (Denied (VectorOf wchar_t (2 ^ 64 + -1)))],
   (0, U8_throw bad_alloc)).
Proof.
  by apply (proj1 (negative_answer_refused (api := with_answer (-1) windows_10)
                     no_inline 1000 0 hello ltac:(done) ltac:(done))).
Defined.

Lemma memory_balance_witness :
  let c := run_from (M := on_heap (H := counting no_inline 20) utf16_machine)
             (0, U16_entry hello16) in
  c.2.1 = 0 + bytes_of no_inline (utf16_handed c.2.2).
Proof. by apply (memory_balance no_inline 20 0 hello16). Defined.

End MemoryWitnesses.
