(* ===== verification/Pool.v ===== *)
(** * Pool: calls made at the same time

    The two functions are static and keep no state of their own; what
    calls made by several threads share is the heap.  This file runs any
    number of calls on one heap, one step of one call at a time, in any
    order: the steps are those of [Memory], the order is the schedule.
    The host is a function of the arguments of a call, so calls of
    several threads into it do not interfere: this is what section 5 of
    the specification asks of the capability query.

    [sum_allocation] and [call_machine] make one machine of the two
    functions, so that a pool may hold calls of both.  [PoolStep] is the
    step relation of a pool, [turn] the function that computes the step
    of one thread, [pool_run] the interpreter that follows a schedule.
    [same_calls] is the equivalence of interleavings in which every
    thread makes the same calls; a [Budget] says what a call owns at a
    point and what it needs at most.

    The theorems: every interleaving is finite, with a bound on its
    length; a schedule that gives every thread its turns runs every call
    to its end; on a heap that grants every request, what a thread does
    in any interleaving is what its call does alone, and interleavings
    that have run to the end are equivalent; on a heap of a fixed number
    of bytes the bytes in use are at every moment those that the threads
    own, also when requests are refused; with room for what all the
    calls need at once nothing is refused and every call ends at its
    outcome; with less room, the outcome of a call depends on the
    schedule. *)

From S2P Require Import Prelude Steps Unicode TextCodec Machine LengthGuard Win32.
From S2P Require Import CharacterEncoder Flow Memory.

#[local] Open Scope Z_scope.

(** ** The sum of two machines on a heap *)

Section SumAllocation.
Context {Ev St1 St2 : Type} {M1 : Machine Ev St1} {M2 : Machine Ev St2}.
Context (A1 : Allocation M1) (A2 : Allocation M2).

Definition sum_allocation : Allocation (sum_machine M1 M2) := {|
  request := fun p => match p with inl p => request p | inr p => request p end;
  held := fun p => match p with inl p => held p | inr p => held p end;
  raise := fun p => match p with inl p => inl (raise p) | inr p => inr (raise p) end
|}.

#[export] Instance sum_allocation_laws :
  AllocationLaws A1 -> AllocationLaws A2 -> AllocationLaws sum_allocation.
Proof.
  intros laws1 laws2. split.
  - intros [p|p]; simpl; by rewrite raise_final.
  - intros [p|p] r; simpl; apply raise_below.
  - intros [p|p] r Hr; simpl in *; destruct (request_live p r Hr) as [[evs q] ->];
      by eexists.
Qed.

End SumAllocation.

(** ** A pool of threads on one heap *)

Section Pool.
Context {Ev St : Type} {M : Machine Ev St} {A : Allocation M} {H : Heap}.

(** The heap and the point of each thread; the events of a run carry the
    number of the thread. *)
Definition pool : Type := heap * list St.

Definition pool_config : Type := list (nat * HeapEvent Ev) * pool.

(** One thread makes one step on the heap as it is. *)
Inductive PoolStep : pool -> list (nat * HeapEvent Ev) -> pool -> Prop :=
| Turn (i : nat) (h h' : heap) (ps : list St) (p p' : St) (evs : list (HeapEvent Ev)) :
    ps !! i = Some p ->
    HeapStep (h, p) evs (h', p') ->
    PoolStep (h, ps) (pair i <$> evs) (h', <[i := p']> ps).

Definition turn (i : nat) (c : pool) : option (list (nat * HeapEvent Ev) * pool) :=
  match c.2 !! i with
  | Some p =>
      match heap_exec (c.1, p) with
      | Some (evs, (h', p')) => Some (pair i <$> evs, (h', <[i := p']> c.2))
      | None => None
      end
  | None => None
  end.

Inductive pool_advance : relation pool_config :=
| PoolAdvance t c evs c' : PoolStep c evs c' -> pool_advance (t, c) (t ++ evs, c').

(** The configurations that the interleavings from a pool pass through. *)
Definition pool_reachable (c0 : pool) (c : pool_config) : Prop :=
  rtc pool_advance ([], c0) c.

(** The interpreter follows a schedule: the thread whose turn it is makes
    a step, or has none to make. *)
Fixpoint pool_run (schedule : list nat) (c : pool_config) : pool_config :=
  match schedule with
  | [] => c
  | i :: schedule =>
      match turn i c.2 with
      | Some (evs, c') => pool_run schedule (c.1 ++ evs, c')
      | None => pool_run schedule c
      end
  end.

(** The steps that are left at most, in all threads together. *)
Definition pool_measure (c : pool) : nat := sum_list_with measure c.2.

(** All the threads have finished. *)
Definition finished (ps : list St) : bool := forallb final ps.

(** The turns of the thread [i] in a schedule. *)
Definition turns (i : nat) (schedule : list nat) : nat :=
  length (filter (fun j => j = i) schedule).

(** What the thread [i] did among the events of a run. *)
Definition of_thread (i : nat) (t : list (nat * HeapEvent Ev)) : list (HeapEvent Ev) :=
  omap (fun e => if decide (e.1 = i) then Some e.2 else None) t.

(** No request was refused. *)
Definition granted (t : list (HeapEvent Ev)) : Prop :=
  Forall (fun e => forall r, e <> Mem (Denied r)) t.

Lemma plain_granted (evs : list Ev) (rs : list Request) :
  granted ((Os <$> evs) ++ released rs).
Proof. apply Forall_app. split; apply Forall_fmap; by apply Forall_true. Qed.

End Pool.

(** ** Schedules, termination, and what one thread sees *)

Section PoolLemmas.
Context {Ev St : Type} {M : Machine Ev St} {A : Allocation M} {H : Heap}.
Context {laws : MachineLaws M} {alaws : AllocationLaws A}.
Implicit Types (c : @pool St H) (ps : list St) (t : list (nat * HeapEvent Ev)).

(** [turn] computes the steps of the relation. *)
Lemma turn_step i c evs c' : turn i c = Some (evs, c') -> PoolStep c evs c'.
Proof.
  destruct c as [h ps]. unfold turn. cbn [fst snd].
  destruct (ps !! i) as [p|] eqn:Hp; [|done].
  destruct (heap_exec (h, p)) as [[evs' [h' p']]|] eqn:Hs; [|done].
  intros [= <- <-]. apply (Turn i h h' ps p p'); [done|].
  by apply (exec_step (M := on_heap M)).
Qed.

Lemma step_turn c evs c' : PoolStep c evs c' -> exists i, turn i c = Some (evs, c').
Proof.
  intros [i h h' ps p p' evs' Hp Hs]. exists i. unfold turn. cbn [fst snd].
  apply (exec_step (M := on_heap M)) in Hs. cbn [exec on_heap] in Hs. by rewrite Hp, Hs.
Qed.

(** Every schedule gives an interleaving, and every interleaving comes
    from a schedule. *)
Lemma pool_run_rtc schedule (c : pool_config) : rtc pool_advance c (pool_run schedule c).
Proof.
  induction schedule as [|i schedule IH] in c |- *; [done|]. simpl.
  destruct (turn i c.2) as [[evs c']|] eqn:Hturn; [|apply IH].
  eapply rtc_l; [|apply IH]. destruct c as [t c]. constructor. by apply turn_step in Hturn.
Qed.

Lemma pool_run_complete (c c' : pool_config) :
  rtc pool_advance c c' -> exists schedule, pool_run schedule c = c'.
Proof.
  induction 1 as [c|c c1 c' Hadv _ [schedule IH]]; [by exists []|].
  destruct Hadv as [t c evs c1 [i Hturn]%step_turn].
  exists (i :: schedule). simpl. by rewrite Hturn.
Qed.

Lemma sum_list_with_insert (f : St -> nat) ps i p q :
  ps !! i = Some p ->
  (sum_list_with f (<[i:=q]> ps) + f p = sum_list_with f ps + f q)%nat.
Proof.
  induction ps as [|z ps IH] in i |- *; [done|].
  destruct i as [|i]; simpl; [intros [= ->]; lia|]. intros Hi. specialize (IH i Hi). lia.
Qed.

(** Every step of a pool uses up one of the steps that are left. *)
Lemma pool_step_decreases c evs c' :
  PoolStep c evs c' -> (pool_measure c' < pool_measure c)%nat.
Proof.
  intros [i h h' ps p p' evs' Hp Hs]. unfold pool_measure. cbn [snd].
  apply (step_decreases (M := on_heap M)) in Hs. cbn [measure on_heap snd] in Hs.
  pose proof (sum_list_with_insert measure ps i p p' Hp). lia.
Qed.

Lemma pool_nsteps_measure n (c c' : pool_config) :
  nsteps pool_advance n c c' -> (n + pool_measure c'.2 <= pool_measure c.2)%nat.
Proof.
  induction 1 as [|n c c1 c' Hadv _ IH]; [lia|].
  destruct Hadv as [t c evs c1 Hs%pool_step_decreases]. simpl in *. lia.
Qed.

Lemma pool_sn (c : pool_config) : sn pool_advance c.
Proof.
  remember (pool_measure c.2) as n eqn:Hn. revert c Hn.
  induction n as [n IH] using lt_wf_ind. intros c ->.
  constructor. intros c' Hadv. unfold flip in Hadv.
  destruct Hadv as [t c evs c' Hs%pool_step_decreases]. by apply (IH (pool_measure c')).
Qed.

(** *** The view of one thread *)

Lemma of_thread_app i t u : of_thread i (t ++ u) = of_thread i t ++ of_thread i u.
Proof. apply omap_app. Qed.

Lemma of_thread_tagged i j (evs : list (HeapEvent Ev)) :
  of_thread i (pair j <$> evs) = if decide (j = i) then evs else [].
Proof.
  unfold of_thread. destruct (decide (j = i)) as [->|Hne];
    (induction evs as [|e evs IH]; simpl; [done|]).
  - rewrite decide_True by done. f_equal. apply IH.
  - rewrite decide_False by done. apply IH.
Qed.

(** What was granted to all was granted to each. *)
Lemma of_thread_granted i t :
  Forall (fun e => forall r, e.2 <> Mem (Denied r)) t -> granted (of_thread i t).
Proof.
  induction 1 as [|[j e] t He _ IH]; [constructor|]. unfold of_thread. simpl.
  case_decide; [by constructor | done].
Qed.

(** A step on the heap that was not refused is a step of the machine. *)
Lemma heap_step_granted h p (evs : list (HeapEvent Ev)) h' p' :
  HeapStep (h, p) evs (h', p') -> granted evs -> step p (calls evs) p'.
Proof.
  inversion 1 as [? ? evs0 ? _ Hs|? ? ? r evs0 ? _ _ Hs|? ? r _ _]; subst; intros Hg.
  - by rewrite calls_app, calls_os, calls_released, app_nil_r.
  - simpl. by rewrite calls_app, calls_os, calls_released, app_nil_r.
  - apply Forall_cons in Hg as [Hr _]. by destruct (Hr r).
Qed.

(** In any interleaving, a thread none of whose requests was refused has
    made the calls of a run of its own, without a heap and without the
    other threads, and is at the point of that run. *)
Lemma thread_alone c0 (c : pool_config) i p0 :
  pool_reachable c0 c -> c0.2 !! i = Some p0 -> granted (of_thread i c.1) ->
  exists p, c.2.2 !! i = Some p /\ reachable p0 (calls (of_thread i c.1), p).
Proof.
  intros Hc Hp0. unfold pool_reachable in Hc. revert c Hc.
  apply (rtc_ind_r (fun c : pool_config => granted (of_thread i c.1) ->
           exists p, c.2.2 !! i = Some p /\ reachable p0 (calls (of_thread i c.1), p))).
  { intros _. exists p0. split; [done | apply rtc_refl]. }
  intros c c' _ Hadv IH. destruct Hadv as [t ? ? ? [j h h' ps q q' evs Hq Hs]].
  cbn [fst snd] in *. rewrite of_thread_app. intros [Ht Hevs]%Forall_app.
  destruct (IH Ht) as (p & Hp & Hreach). rewrite of_thread_tagged in *.
  destruct (decide (j = i)) as [->|Hne].
  - simplify_eq. exists q'. split; [apply list_lookup_insert_eq; by eapply lookup_lt_Some|].
    rewrite calls_app. eapply rtc_r; [apply Hreach|]. constructor.
    by eapply heap_step_granted.
  - exists p. rewrite list_lookup_insert_ne, app_nil_r by done. by split.
Qed.

(** On a heap that grants every request, nothing is refused. *)
Lemma heap_step_granting {granting : Granting H} h p (evs : list (HeapEvent Ev)) h' p' :
  HeapStep (h, p) evs (h', p') -> granted evs.
Proof.
  inversion 1 as [| |? ? r _ Hr]; subst.
  - apply plain_granted.
  - constructor; [done | apply plain_granted].
  - destruct (granting h r) as [? ?]. congruence.
Qed.

Lemma pool_granting {granting : Granting H} c0 (c : pool_config) i :
  pool_reachable c0 c -> granted (of_thread i c.1).
Proof.
  unfold pool_reachable. revert c.
  apply (rtc_ind_r (fun c : pool_config => granted (of_thread i c.1))); [by constructor|].
  intros c c' _ Hadv IH. destruct Hadv as [t ? ? ? [j h h' ps q q' evs _ Hs]]. cbn [fst] in *.
  rewrite of_thread_app, of_thread_tagged. apply Forall_app. split; [done|].
  case_decide; [by eapply heap_step_granting | by constructor].
Qed.

Lemma finished_lookup ps i p : finished ps = true -> ps !! i = Some p -> final p = true.
Proof.
  induction ps as [|q ps IH] in i |- *; [done|]. simpl. intros [Hq Hps]%andb_prop.
  destruct i as [|i]; simpl; [by intros [= <-] | by apply IH].
Qed.

(** The threads of a pool stay as many as they were, and only they make
    events. *)
Lemma pool_threads c0 (c : pool_config) :
  pool_reachable c0 c ->
  length c.2.2 = length c0.2 /\ Forall (fun e => (e.1 < length c0.2)%nat) c.1.
Proof.
  unfold pool_reachable. revert c.
  apply (rtc_ind_r (fun c : pool_config =>
           length c.2.2 = length c0.2 /\ Forall (fun e => (e.1 < length c0.2)%nat) c.1));
    [by split|].
  intros c c' _ Hadv [Hlen Ht]. destruct Hadv as [t ? ? ? [j h h' ps q q' evs Hq Hs]].
  cbn [fst snd] in *. rewrite length_insert. split; [done|].
  apply Forall_app. split; [done|]. apply Forall_fmap, Forall_true. intros e. simpl.
  rewrite <- Hlen. by eapply lookup_lt_Some.
Qed.

Lemma of_thread_none i n t :
  Forall (fun e => (e.1 < n)%nat) t -> (n <= i)%nat -> of_thread i t = [].
Proof.
  intros Ht Hi. unfold of_thread. induction Ht as [|e t He _ IH]; [done|]. simpl.
  rewrite decide_False by lia. apply IH.
Qed.

End PoolLemmas.

(** ** Schedules that give every thread its turns *)

Section Fairness.
Context {Ev St : Type} {M : Machine Ev St} {A : Allocation M} {H : Heap}.
Context {laws : MachineLaws M} {alaws : AllocationLaws A}.
Implicit Types (c : @pool St H) (ps : list St) (schedule : list nat).

Lemma finished_lookups ps :
  (forall i p, ps !! i = Some p -> final p = true) -> finished ps = true.
Proof.
  induction ps as [|q ps IH]; [done|]. intros Hps. simpl.
  rewrite (Hps 0%nat q eq_refl). apply IH. intros i p. apply (Hps (S i)).
Qed.

Lemma measure_zero_final (p : St) : measure p = 0%nat -> final p = true.
Proof.
  intros Hp. apply bool_decide_eq_true. destruct (exec p) as [[evs q]|] eqn:Hq; [|done].
  apply exec_step, step_decreases in Hq. lia.
Qed.

(** A thread has no step exactly when it has finished. *)
Lemma turn_none i c p : turn i c = None -> c.2 !! i = Some p -> final p = true.
Proof.
  unfold turn. intros Hturn Hp. rewrite Hp in Hturn. rewrite <- (heap_final c.1).
  apply bool_decide_eq_true. cbn [exec on_heap].
  by destruct (heap_exec (c.1, p)) as [[evs [h' p']]|].
Qed.

Lemma turn_final i c p : c.2 !! i = Some p -> final p = true -> turn i c = None.
Proof.
  unfold turn. intros -> Hf. rewrite <- (heap_final c.1) in Hf.
  apply bool_decide_eq_true in Hf. cbn [exec on_heap] in Hf. by rewrite Hf.
Qed.

(** A turn changes the thread that takes it, and no other. *)
Lemma turn_thread i j c evs c' p :
  turn j c = Some (evs, c') -> c.2 !! i = Some p ->
  exists p', c'.2 !! i = Some p' /\
    if decide (j = i) then (measure p' < measure p)%nat else p' = p.
Proof.
  unfold turn. destruct c as [h ps]. cbn [fst snd]. intros Hturn Hp.
  destruct (ps !! j) as [q|] eqn:Hq; [|done].
  destruct (heap_exec (h, q)) as [[evs' [h' q']]|] eqn:Hs; [|done].
  simplify_eq. cbn [snd]. case_decide as Hji; [subst; simplify_eq|].
  - exists q'. split; [apply list_lookup_insert_eq; by eapply lookup_lt_Some|].
    apply (exec_step (M := on_heap M)) in Hs.
    by apply (step_decreases (M := on_heap M)) in Hs.
  - exists p. by rewrite list_lookup_insert_ne.
Qed.

Lemma pool_run_length schedule (c : pool_config) :
  length (pool_run schedule c).2.2 = length c.2.2.
Proof.
  induction schedule as [|j schedule IH] in c |- *; [done|]. simpl.
  destruct (turn j c.2) as [[evs c']|] eqn:Hturn; rewrite IH; [|done]. cbn [snd].
  apply turn_step in Hturn. destruct Hturn. cbn [snd]. apply length_insert.
Qed.

(** A thread that has finished stays where it is. *)
Lemma final_stays schedule (c : pool_config) i p :
  c.2.2 !! i = Some p -> final p = true -> (pool_run schedule c).2.2 !! i = Some p.
Proof.
  induction schedule as [|j schedule IH] in c |- *; [done|]. intros Hp Hf. simpl.
  destruct (turn j c.2) as [[evs c']|] eqn:Hturn; [|by apply IH].
  apply IH; [|done]. cbn [snd]. destruct (turn_thread i j _ _ _ p Hturn Hp) as (p' & Hp' & Hm).
  case_decide; [subst|by subst]. by rewrite (turn_final i c.2 p) in Hturn.
Qed.

(** Every turn of a thread that has not finished uses up one of its
    steps. *)
Lemma thread_turns schedule (c : pool_config) i p :
  c.2.2 !! i = Some p ->
  exists p', (pool_run schedule c).2.2 !! i = Some p' /\
    (final p' = true \/ (measure p' + turns i schedule <= measure p)%nat).
Proof.
  unfold turns. induction schedule as [|j schedule IH] in c, p |- *; intros Hp.
  { exists p. split; [done|]. right. simpl. lia. }
  simpl. destruct (turn j c.2) as [[evs c']|] eqn:Hturn.
  - destruct (turn_thread i j _ _ _ p Hturn Hp) as (p1 & Hp1 & Hm).
    destruct (IH (c.1 ++ evs, c') p1 Hp1) as (p' & Hp' & Hend). exists p'. split; [done|].
    destruct Hend as [?|?]; [by left|right].
    case_decide; [rewrite filter_cons_True by done | rewrite filter_cons_False by done; subst];
      simpl; lia.
  - destruct (decide (j = i)) as [->|Hji].
    + exists p. split; [|left]; [apply final_stays; [done|]|]; by eapply turn_none.
    + destruct (IH c p Hp) as (p' & Hp' & Hend). exists p'. split; [done|].
      by rewrite filter_cons_False.
Qed.

(** A schedule that gives every thread as many turns as it has steps
    runs the pool to the end. *)
Lemma fair_finishes schedule (c : pool_config) :
  (forall i p, c.2.2 !! i = Some p -> (measure p <= turns i schedule)%nat) ->
  finished (pool_run schedule c).2.2 = true.
Proof.
  intros Hfair. apply finished_lookups. intros i p' Hp'.
  destruct (lookup_lt_is_Some_2 c.2.2 i) as [p Hp].
  { rewrite <- (pool_run_length schedule). by eapply lookup_lt_Some. }
  destruct (thread_turns schedule c i p Hp) as (p'' & Hp'' & [Hf|Hm]); simplify_eq; [done|].
  apply measure_zero_final. specialize (Hfair i p Hp). lia.
Qed.

End Fairness.

(** ** Interleavings that differ in the order of the threads only *)

Section SameCalls.
Context {Ev : Type}.
Implicit Types (t u : list (nat * HeapEvent Ev)).

(** Two interleavings are the same to the threads when every thread
    makes the same calls in both. *)
Definition same_calls : relation (list (nat * HeapEvent Ev)) :=
  fun t u => forall i, calls (of_thread i t) = calls (of_thread i u).

#[export] Instance same_calls_equivalence : Equivalence same_calls.
Proof.
  split; [by intros t i | by intros t u Htu i | intros t u v Htu Huv i].
  by rewrite Htu.
Qed.

#[export] Instance same_calls_app : Proper (same_calls ==> same_calls ==> same_calls) app.
Proof.
  intros t t' Ht u u' Hu i. by rewrite !of_thread_app, !calls_app, Ht, Hu.
Qed.

#[export] Instance same_calls_thread i :
  Proper (same_calls ==> eq) (fun t => calls (of_thread i t)).
Proof. intros t u Htu. apply Htu. Qed.

(** Events of two threads commute. *)
Lemma same_calls_swap (i j : nat) (e e' : HeapEvent Ev) :
  i <> j -> same_calls [(i, e); (j, e')] [(j, e'); (i, e)].
Proof.
  intros Hij k. unfold of_thread. simpl. by repeat case_decide; simplify_eq.
Qed.

(** What memory did is not a call. *)
Lemma same_calls_mem (i : nat) (m : MemEvent) : same_calls [(i, Mem m)] [].
Proof. intros k. unfold of_thread. simpl. by case_decide. Qed.

(** Two threads may take their turns in either order. *)
Lemma same_calls_turns (i j : nat) (e e' : HeapEvent Ev) t u :
  i <> j -> same_calls (t ++ [(i, e); (j, e')] ++ u) (t ++ [(j, e'); (i, e)] ++ u).
Proof. intros Hij. by rewrite (same_calls_swap i j e e' Hij). Qed.

End SameCalls.

(** ** A heap with room for all the calls *)

(** What a call owns and what it needs: [within k p] says that [p] is a
    point of the call [k], [owned p] is the number of bytes that the
    thread at [p] has allocated and not released, [need k] the number of
    bytes that the call [k] owns at most, the block it is asking for
    included. *)
Class Budget {Ev St : Type} {M : Machine Ev St} (A : Allocation M) (K : Type) : Type := {
  within : K -> St -> Prop;
  owned : St -> Z;
  need : K -> Z
}.

(** The bytes asked for at a point. *)
Definition asked {Ev St : Type} {M : Machine Ev St} {A : Allocation M}
    (inline : ElementType -> Z) (p : St) : Z :=
  from_option (request_bytes inline) 0 (request p).

Class BudgetLaws {Ev St K : Type} {M : Machine Ev St} {A : Allocation M}
    (inline : ElementType -> Z) (B : Budget A K) : Prop := {
  budget_asked k p : within k p -> 0 <= asked inline p /\ owned p + asked inline p <= need k;
  (** A step changes what the thread owns by what it asked for and what
      it released... *)
  budget_step k p evs q :
    within k p -> step p evs q ->
    within k q /\ owned q = owned p + asked inline p - bytes_of inline (release p q);
  (** ... and a refusal by what the locals held. *)
  budget_refused k p r :
    within k p -> request p = Some r ->
    within k (raise p) /\ owned (raise p) = owned p - bytes_of inline (held p)
}.

Section BudgetedPool.
Context {Ev St K : Type} {M : Machine Ev St} {A : Allocation M} {B : Budget A K}.
Context (inline : ElementType -> Z) (capacity : Z) {blaws : BudgetLaws inline B}.
Context (ks : list K) (used : Z).
Implicit Types (ps : list St) (t : list (nat * HeapEvent Ev)).

#[local] Abbreviation pool_on_counting := (@pool St (counting inline capacity)).

(** The invariant of a pool that runs the calls [ks] on a heap of which
    [used] bytes were in use before: every thread is at a point of its
    call, and the bytes in use are those that the threads own. *)
Definition accounted (c : pool_on_counting) : Prop :=
  Forall2 within ks c.2 /\ c.1 = used + sum_of owned c.2.

(** The invariant of a pool with room for all the calls: moreover,
    nothing was refused. *)
Definition balanced (c : list (nat * HeapEvent Ev) * pool_on_counting) : Prop :=
  accounted c.2 /\ Forall (fun e => forall r, e.2 <> Mem (Denied r)) c.1.

Lemma owned_le_need ps : Forall2 within ks ps -> Forall2 (fun p k => owned p <= need k) ps ks.
Proof.
  induction 1 as [|k p ks' ps' Hkp _ IH]; constructor; [|done].
  destruct (budget_asked k p Hkp). lia.
Qed.

(** With room for all the calls, the request of a thread fits. *)
Lemma request_fits ps i k p :
  Forall2 within ks ps -> used + sum_of need ks <= capacity ->
  ks !! i = Some k -> ps !! i = Some p ->
  used + sum_of owned ps + asked inline p <= capacity.
Proof.
  intros Hps Hcap Hk Hp.
  assert (within k p) as Hkp by by eapply Forall2_lookup_lr.
  destruct (budget_asked k p Hkp).
  pose proof (sum_of_le_at owned need ps ks i p k (asked inline p)
                (owned_le_need ps Hps) Hp Hk). lia.
Qed.

(** The pool after the thread [i] has moved from [p] to [q]. *)
Lemma accounted_after ps i k p q (h : Z) :
  Forall2 within ks ps -> ks !! i = Some k -> ps !! i = Some p -> within k q ->
  h = used + sum_of owned ps - owned p + owned q ->
  accounted (h, <[i:=q]> ps).
Proof.
  intros Hps Hk Hp Hq ->. split; cbn [fst snd].
  - rewrite <- (list_insert_id ks i k Hk). by apply Forall2_insert.
  - rewrite (sum_of_insert owned ps i p q Hp). lia.
Qed.

(** Every step of a pool keeps the account, a refused one included. *)
Lemma accounted_step (c c' : pool_on_counting) evs :
  accounted c -> PoolStep c evs c' -> accounted c'.
Proof.
  intros Hacc Hstep. destruct Hstep as [i h h' ps p p' evs' Hp Hs].
  destruct Hacc as [Hps Hh]. cbn [fst snd] in *. subst h.
  destruct (Forall2_lookup_r _ _ _ _ _ Hps Hp) as (k & Hk & Hkp).
  inversion Hs as [? ? evs0 ? Hr Hstep|? ? ? r evs0 ? Hr Ha Hstep|? ? r Hr Ha]; subst;
    cbn [heap_alloc counting] in *;
    [destruct (budget_step k p evs0 p' Hkp Hstep) as [Hkp' Hown]..
    |destruct (budget_refused k p r Hkp Hr) as [Hkp' Hown]];
    unfold asked in Hown; rewrite ?Hr in Hown; cbn [from_option] in Hown;
    (eapply accounted_after; [done..|]); rewrite free_all_counting;
    repeat case_match; simplify_eq; lia.
Qed.

(** With room for all the calls no step is refused. *)
Lemma fitting_step (c c' : pool_on_counting) evs :
  used + sum_of need ks <= capacity -> accounted c -> PoolStep c evs c' ->
  Forall (fun e => forall r, e.2 <> Mem (Denied r)) evs.
Proof.
  intros Hcap Hacc Hstep. destruct Hstep as [i h h' ps p p' evs' Hp Hs].
  destruct Hacc as [Hps Hh]. cbn [fst snd] in *. subst h.
  destruct (Forall2_lookup_r _ _ _ _ _ Hps Hp) as (k & Hk & _).
  pose proof (request_fits ps i k p Hps Hcap Hk Hp) as Hfit. unfold asked in Hfit.
  apply Forall_fmap.
  inversion Hs as [? ? evs0 ? Hr Hstep|? ? ? r evs0 ? Hr Ha Hstep|? ? r Hr Ha]; subst.
  - apply plain_granted.
  - constructor; [done | apply plain_granted].
  - rewrite Hr in Hfit. cbn [from_option heap_alloc counting] in *. case_match; [done|lia].
Qed.

(** Every interleaving keeps the account. *)
Lemma pool_accounted ps0 (c : list (nat * HeapEvent Ev) * pool_on_counting) :
  Forall2 within ks ps0 -> sum_of owned ps0 = 0 ->
  pool_reachable ((used : @heap (counting inline capacity)), ps0) c ->
  accounted c.2.
Proof.
  intros Hps H0. unfold pool_reachable. revert c.
  apply (rtc_ind_r (fun c : list (nat * HeapEvent Ev) * pool_on_counting => accounted c.2)).
  - split; [done | simpl; lia].
  - intros c c' _ [t ? ? ? Hstep] Hc. by eapply accounted_step.
Qed.

(** With room for all the calls, every interleaving keeps the account
    and nothing is refused. *)
Lemma pool_balanced ps0 (c : list (nat * HeapEvent Ev) * pool_on_counting) :
  Forall2 within ks ps0 -> sum_of owned ps0 = 0 -> used + sum_of need ks <= capacity ->
  pool_reachable ((used : @heap (counting inline capacity)), ps0) c ->
  balanced c.
Proof.
  intros Hps H0 Hcap. unfold pool_reachable. revert c. apply (rtc_ind_r balanced).
  - split; [split; [done | simpl; lia] | done].
  - intros c c' _ [t ? ? ? Hstep] [Hacc Ht]. split; [by eapply accounted_step|].
    apply Forall_app. split; [done | by eapply fitting_step].
Qed.

(** The bytes in use never exceed the capacity. *)
Lemma balanced_capacity (c : list (nat * HeapEvent Ev) * pool_on_counting) :
  used + sum_of need ks <= capacity -> balanced c -> c.2.1 <= capacity.
Proof.
  intros Hcap [[Hps%owned_le_need%sum_of_le ->] _]. lia.
Qed.

End BudgetedPool.

(** ** The calls of the two functions *)

(** A call of a member of the class. *)
Inductive Call : Type :=
| Utf8ToUtf16 (utf8String : list Z)
| Utf16ToUtf8 (utf16String : list Z).

Section Calls.
Context {dm : DataModel} {api : Win32Api}.

#[export] Instance call_machine : Machine Win32Call (Utf8Point + Utf16Point) :=
  sum_machine utf8_machine utf16_machine.

#[export] Instance call_allocation : Allocation call_machine :=
  sum_allocation utf8_allocation utf16_allocation.

(** Where a call starts. *)
Definition entry (k : Call) : Utf8Point + Utf16Point :=
  match k with
  | Utf8ToUtf16 utf8String => inl (U8_entry utf8String)
  | Utf16ToUtf8 utf16String => inr (U16_entry utf16String)
  end.

(** What a call does alone: the calls of the definition, and the point of
    its outcome. *)
Definition alone (k : Call) : list Win32Call * (Utf8Point + Utf16Point) :=
  match k with
  | Utf8ToUtf16 s => (trace (utf8ToUtf16 s), inl (utf8_outcome (result (utf8ToUtf16 s))))
  | Utf16ToUtf8 s => (trace (utf16ToUtf8 s), inr (utf16_outcome (result (utf16ToUtf8 s))))
  end.

(** The steps of a call, at most. *)
Definition call_steps (k : Call) : nat :=
  match k with Utf8ToUtf16 _ => 7 | Utf16ToUtf8 _ => 11 end.

Lemma call_run_from k : run_from (M := call_machine) (entry k) = alone k.
Proof.
  destruct k as [s|s]; unfold run_from, call_machine, entry, alone.
  - rewrite run_inl. exact (f_equal (prod_map id inl) (utf8_run_from s)).
  - rewrite run_inr. exact (f_equal (prod_map id inr) (utf16_run_from s)).
Qed.

Lemma pool_measure_entries {H : Heap} (h : heap) ks :
  pool_measure (M := call_machine) (h, entry <$> ks) = sum_list_with call_steps ks.
Proof.
  unfold pool_measure. cbn [snd]. induction ks as [|k ks IH]; [done|].
  rewrite fmap_cons. cbn [sum_list_with]. rewrite IH. by destruct k.
Qed.

End Calls.

(** ** What a call owns and what it needs *)

(** Evaluate what a point asks for, holds and hands over, leaving the
    sizes and the tests as they are. *)
Ltac at_point :=
  cbn -[request_bytes vector_fill to_size_type string_equals Z.eqb] in *.

Section CallBudget.
Context {dm : DataModel} {api : Win32Api} (inline : ElementType -> Z).

(** The blocks of a thread: what its locals hold, and what it has handed
    to its caller. *)
Definition utf8_owned (p : Utf8Point) : Z :=
  bytes_of inline (utf8_held p ++ utf8_handed p).

Definition utf16_owned (p : Utf16Point) : Z :=
  bytes_of inline (utf16_held p ++ utf16_handed p).

Lemma allocated_buffer converted m buffer :
  allocated converted m -> converted = Some buffer ->
  lengthZ (vector_fill m 0) = lengthZ buffer.
Proof. intros (out & -> & -> & ?) [= ->]. apply vector_fill_length. lia. Qed.

Lemma request_bytes_vector e n : request_bytes inline (VectorOf e n) = n * sizeof e.
Proof. done. Qed.

(** The blocks before and after a step, rule by rule: the tests are
    decided from the hypothesis of the rule, and a buffer that was just
    made has the size that was asked for. *)
Ltac owned_cases :=
  unfold utf8_owned, utf16_owned, bytes_of; at_point;
  rewrite ?vector_fill_length by apply to_size_type_range;
  unfold string_of_range; step_cases; empty_length; at_point; try lia.

(** Every step changes what the thread owns by what it asked for and
    what it released. *)
Lemma utf8_owned_step {laws : ConversionLaws api} s0 p evs q :
  utf8_inv s0 p -> Utf8Step p evs q ->
  utf8_owned q = utf8_owned p + asked inline p - bytes_of inline (release p q).
Proof.
  intros Hinv Hstep. destruct (utf8_inv_step s0 p evs q Hinv Hstep) as [Hq _].
  destruct Hstep; unfold asked, release; rewrite utf8_final; owned_cases.
  destruct Hinv as (_ & Ha & ->), Hq as (Hc & _). rewrite (allocated_buffer _ _ _ Ha Hc). lia.
Qed.

Lemma utf16_owned_step {laws : Win32Laws api} s0 p evs q :
  fits_int s0 = true -> utf16_inv s0 p -> Utf16Step p evs q ->
  utf16_owned q = utf16_owned p + asked inline p - bytes_of inline (release p q).
Proof.
  intros Hfit Hinv Hstep. destruct (utf16_inv_step s0 p evs q Hfit Hinv Hstep) as [Hq _].
  destruct Hstep; unfold asked, release; rewrite utf16_final; owned_cases.
  destruct Hinv as (_ & _ & Ha & ->), Hq as (Hc & _). rewrite (allocated_buffer _ _ _ Ha Hc). lia.
Qed.

(** A refusal leaves the thread with nothing: what it owned was what its
    locals held. *)
Lemma utf8_owned_refused p r :
  utf8_request p = Some r ->
  utf8_owned (U8_throw bad_alloc) = utf8_owned p - bytes_of inline (utf8_held p).
Proof. destruct p; try done; intros _; unfold utf8_owned, bytes_of; at_point; lia. Qed.

Lemma utf16_owned_refused p r :
  utf16_request p = Some r ->
  utf16_owned (U16_throw bad_alloc) = utf16_owned p - bytes_of inline (utf16_held p).
Proof. destruct p; try done; intros _; unfold utf16_owned, bytes_of; at_point; lia. Qed.

(** The sizes of a conversion and of the string that holds it. *)
Lemma utf8_sizes s0 out :
  utf8_to_utf16 true (guarded s0) = Some out ->
  0 <= lengthZ out <= lengthZ s0 /\
  0 <= request_bytes inline (StringOf wchar_t (lengthZ out)) <= (lengthZ out + 1) * 2.
Proof.
  intros [? _]%utf8_to_utf16_length. pose proof (guarded_le s0).
  pose proof (lengthZ_nonneg out).
  pose proof (request_bytes_string inline wchar_t (lengthZ out)). simpl in *. lia.
Qed.

Lemma utf16_sizes {laws : ConversionLaws api} strict s0 out :
  conversion_under strict (guarded s0) = Some out ->
  0 <= lengthZ out <= 3 * lengthZ s0 /\
  0 <= request_bytes inline (StringOf char (lengthZ out)) <= lengthZ out + 1.
Proof.
  intros ?%conversion_under_length. pose proof (guarded_le s0).
  pose proof (lengthZ_nonneg out).
  pose proof (request_bytes_string inline char (lengthZ out)). simpl in *. lia.
Qed.

(** Read the sizes off the invariant at a point. *)
Ltac sizes :=
  repeat match goal with
  | H : _ /\ _ |- _ => destruct H
  | H : allocated _ _ |- _ => destruct H as (? & ? & -> & ?)
  | H : utf8_to_utf16 true (guarded _) = Some _ |- _ => apply utf8_sizes in H
  | H : conversion_under _ (guarded _) = Some _ |- _ => apply utf16_sizes in H
  end; subst.

(** What a point owns and asks for, from the sizes at the point;
    [specified] unfolds what the specification prescribes at a final
    point. *)
Ltac need_cases specified :=
  unfold asked, utf8_owned, utf16_owned, bytes_of; at_point;
  rewrite ?request_bytes_vector; cbn [sizeof] in *;
  rewrite ?specified in *; repeat case_match; simplify_eq; sizes;
  rewrite ?to_size_type_int, ?vector_fill_length by lia; cbn [from_option]; lia.

(** At every point of [utf8ToUtf16] on [n] bytes, what the thread owns
    and what it asks for are [4 * n + 2] bytes at most: the buffer of at
    most [n] code units and the string of as many and a terminator. *)
Lemma utf8_need s0 p :
  utf8_inv s0 p ->
  0 <= asked inline p /\ utf8_owned p + asked inline p <= 4 * lengthZ s0 + 2.
Proof.
  intros Hinv. pose proof (lengthZ_nonneg s0).
  pose proof (request_bytes_string inline wchar_t 0 (Z.le_refl 0)).
  destruct p; need_cases decodeUtf8ToUtf16_unfold.
Qed.

(** For [utf16ToUtf8] on [n] code units, [6 * n + 1] bytes. *)
Lemma utf16_need {laws : Win32Laws api} s0 p :
  utf16_inv s0 p ->
  0 <= asked inline p /\ utf16_owned p + asked inline p <= 6 * lengthZ s0 + 1.
Proof.
  intros Hinv. pose proof (lengthZ_nonneg s0).
  pose proof (request_bytes_string inline char 0 (Z.le_refl 0)).
  destruct p; need_cases encodeUtf16ToUtf8_unfold.
Qed.

(** *** The budget of a call *)

(** The invariant of [Flow] for the function that is called, or the
    point of [std::bad_alloc]; a call of [utf16ToUtf8] is on a string
    whose UTF-8 form an [int] can count. *)
Definition call_within (k : Call) (p : Utf8Point + Utf16Point) : Prop :=
  match k, p with
  | Utf8ToUtf16 s, inl p => utf8_inv s p \/ p = U8_throw bad_alloc
  | Utf16ToUtf8 s, inr p => fits_int s = true /\ (utf16_inv s p \/ p = U16_throw bad_alloc)
  | _, _ => False
  end.

Definition call_owned (p : Utf8Point + Utf16Point) : Z :=
  match p with inl p => utf8_owned p | inr p => utf16_owned p end.

Definition call_need (k : Call) : Z :=
  match k with
  | Utf8ToUtf16 s => 4 * lengthZ s + 2
  | Utf16ToUtf8 s => 6 * lengthZ s + 1
  end.

Definition call_fits (k : Call) : Prop :=
  match k with Utf8ToUtf16 _ => True | Utf16ToUtf8 s => fits_int s = true end.

#[export] Instance call_budget : Budget call_allocation Call :=
  {| within := call_within; owned := call_owned; need := call_need |}.

#[export] Instance call_budget_laws {laws : Win32Laws api} : BudgetLaws inline call_budget.
Proof.
  split.
  - intros [s|s] [p|p]; cbn; try done; pose proof (lengthZ_nonneg s);
      [intros [?| ->] | intros [_ [?| ->]]];
      [by apply utf8_need | cbn; lia | by apply utf16_need | cbn; lia].
  - intros k p evs q Hk Hstep.
    destruct Hstep as [p evs q Hs|p evs q Hs]; destruct k as [s|s]; try done;
      unfold release, call_machine; rewrite ?final_inl, ?final_inr; cbn in *.
    + destruct Hk as [Hk| ->]; [|by inversion Hs].
      split; [left; by eapply utf8_inv_step | by eapply utf8_owned_step].
    + destruct Hk as [Hfit [Hk| ->]]; [|by inversion Hs].
      split; [split; [done|left]; by eapply utf16_inv_step | by eapply utf16_owned_step].
  - intros [s|s] [p|p] r Hk Hr; try done; cbn in *.
    + split; [by right | by apply utf8_owned_refused in Hr].
    + destruct Hk as [Hfit _]. split; [by split; [|right] | by apply utf16_owned_refused in Hr].
Qed.

(** A thread that has finished is at the outcome of its call or at the
    point of [std::bad_alloc]. *)
Lemma final_within {laws : Win32Laws api} k p :
  call_within k p -> final p = true -> p = (alone k).2 \/ p = raise (entry k).
Proof.
  destruct k as [s|s], p as [p|p]; try done; unfold call_machine;
    rewrite ?final_inl, ?final_inr, ?utf8_final, ?utf16_final; cbn.
  - intros [Hinv| ->] Hf; [left|by right]. rewrite utf8ToUtf16_result.
    destruct p; try done; cbn in Hinv; rewrite decodeUtf8ToUtf16_unfold in Hinv;
      case_match; by destruct_and?; simplify_eq.
  - intros [Hfit [Hinv| ->]] Hf; [left|by right]. rewrite utf16ToUtf8_result by done.
    destruct p; try done; cbn in Hinv; rewrite encodeUtf16ToUtf8_unfold in Hinv;
      case_match; by destruct_and?; simplify_eq.
Qed.

(** At the start a call owns nothing. *)
Lemma entries_within ks : Forall call_fits ks -> Forall2 call_within ks (entry <$> ks).
Proof.
  induction 1 as [|[s|s] ks Hk _ IH]; constructor; try done; [by left | by split; [|left]].
Qed.

Lemma entries_owned ks : sum_of call_owned (entry <$> ks) = 0.
Proof.
  induction ks as [|k ks IH]; [done|]. rewrite fmap_cons. unfold sum_of in *.
  cbn [foldr]. rewrite IH. by destruct k.
Qed.

End CallBudget.

(** ** Properties *)

Section PoolProperties.
Context {dm : DataModel} {api : Win32Api}.

#[export] Instance call_machine_laws : MachineLaws call_machine := sum_machine_laws.

#[export] Instance call_allocation_laws : AllocationLaws call_allocation :=
  sum_allocation_laws _ _ _ _.

(** A thread none of whose requests was refused is on the run of its call
    alone, and when it has finished it has made the calls of the
    definition and is at its outcome. *)
Lemma thread_outcome {H : Heap} ks (h : heap) (c : pool_config) i k :
  pool_reachable (M := call_machine) (h, entry <$> ks) c -> ks !! i = Some k ->
  granted (of_thread i c.1) ->
  exists p, c.2.2 !! i = Some p /\
    reachable (M := call_machine) (entry k) (calls (of_thread i c.1), p) /\
    (final p = true -> (calls (of_thread i c.1), p) = alone k).
Proof.
  intros Hc Hk Hg.
  destruct (thread_alone _ c i (entry k) Hc) as (p & Hp & Hr);
    [cbn [snd]; by rewrite list_lookup_fmap, Hk | done |].
  exists p. split_and!; [done..|]. intros Hf. rewrite <- call_run_from.
  apply run_from_spec. split; [done|]. by apply nf_final.
Qed.


(** A pool all of whose threads have finished without a refusal: every
    thread is at the outcome of its call and has made its calls. *)
Lemma finished_pool {H : Heap} ks (h : heap) (c : pool_config) :
  pool_reachable (M := call_machine) (h, entry <$> ks) c ->
  (forall i, granted (of_thread i c.1)) ->
  finished c.2.2 = true ->
  c.2.2 = (snd ∘ alone) <$> ks /\
  forall i, calls (of_thread i c.1) = from_option (fst ∘ alone) [] (ks !! i).
Proof.
  intros Hc Hg Hf. destruct (pool_threads _ c Hc) as [Hlen Ht].
  cbn [snd] in *. rewrite length_fmap in *. split.
  - apply list_eq. intros i. rewrite list_lookup_fmap.
    destruct (ks !! i) as [k|] eqn:Hk; simpl.
    + destruct (thread_outcome ks h c i k Hc Hk (Hg i)) as (p & Hp & _ & Hend).
      rewrite Hp. f_equal. by rewrite <- (Hend (finished_lookup _ _ _ Hf Hp)).
    + apply lookup_ge_None. apply lookup_ge_None in Hk. lia.
  - intros i. destruct (ks !! i) as [k|] eqn:Hk; simpl.
    + destruct (thread_outcome ks h c i k Hc Hk (Hg i)) as (p & Hp & _ & Hend).
      by rewrite <- (Hend (finished_lookup _ _ _ Hf Hp)).
    + rewrite (of_thread_none i (length ks)); [done | done | by apply lookup_ge_None].
Qed.





(** C21. A heap with room for all the calls.  On a host that keeps its
    contract, on a heap of [capacity] bytes of which [used] are in use,
    with room for [4 * n + 2] bytes for each call of [utf8ToUtf16] on
    [n] bytes and [6 * n + 1] for each call of [utf16ToUtf8] on [n] code
    units: in every interleaving no request is refused, the bytes in use
    are at every moment those in use before and those that the threads
    own, within the capacity, and every thread that has finished has
    made the calls of the definition and is at its outcome. *)
Theorem calls_within_budget {laws : Win32Laws api} inline capacity ks (used : Z)
    (c : list (nat * HeapEvent Win32Call) * @pool _ (counting inline capacity)) :
  Forall call_fits ks -> used + sum_of call_need ks <= capacity ->
  pool_reachable (M := call_machine) ((used : @heap (counting inline capacity)),
                                      entry <$> ks) c ->
  Forall (fun e => forall r, e.2 <> Mem (Denied r)) c.1 /\
  c.2.1 = used + sum_of (call_owned inline) c.2.2 /\ c.2.1 <= capacity /\
  forall i k p, ks !! i = Some k -> c.2.2 !! i = Some p -> final p = true ->
    (calls (of_thread i c.1), p) = alone k.
Proof.
  intros Hfits Hcap Hc.
  pose proof (pool_balanced (B := call_budget inline) inline capacity ks used
                (entry <$> ks) c (entries_within ks Hfits) (entries_owned inline ks)
                Hcap Hc) as Hbal.
  pose proof (balanced_capacity (B := call_budget inline) inline capacity ks used c
                Hcap Hbal).
  destruct Hbal as [[_ Hh] Ht]. split_and!; [done..|].
  intros i k p Hk Hp Hf.
  destruct (thread_outcome (H := counting inline capacity) ks used c i k Hc Hk)
    as (p' & Hp' & _ & Hend);
    [by apply of_thread_granted | simplify_eq; by apply Hend].
Qed.

End PoolProperties.

(** ** Witnesses: two calls on one heap *)

Section PoolWitnesses.
#[local] Existing Instance llp64.
#[local] Existing Instance windows_10.

(** Two calls of [utf8ToUtf16] on the six bytes of hello, each of which
    takes ten bytes for its buffer and twelve for its string, on a heap
    of thirty bytes: the call that is scheduled first returns, the other
    one ends with [std::bad_alloc]; when the two take turns, the first
    to ask for its string is refused. *)
Example schedule_matters :
  let start : pool_config (H := counting no_inline 30) :=
    ([], (0, entry <$> [Utf8ToUtf16 hello; Utf8ToUtf16 hello])) in
  (pool_run (replicate 7 0%nat ++ replicate 7 1%nat) start).2
  = (12, [inl (U8_return hello16); inl (U8_throw bad_alloc)]) /\
  (pool_run (replicate 7 1%nat ++ replicate 7 0%nat) start).2
  = (12, [inl (U8_throw bad_alloc); inl (U8_return hello16)]) /\
  (pool_run (mjoin (replicate 7 [0; 1]%nat)) start).2
  = (12, [inl (U8_throw bad_alloc); inl (U8_return hello16)]).
Proof. by vm_compute. Qed.

(** With room for both, the schedule does not matter. *)
Example room_for_both :
  let start : pool_config (H := counting no_inline 52) :=
    ([], (0, entry <$> [Utf8ToUtf16 hello; Utf8ToUtf16 hello])) in
  (pool_run (replicate 7 0%nat ++ replicate 7 1%nat) start).2
  = (24, [inl (U8_return hello16); inl (U8_return hello16)]) /\
  (pool_run (mjoin (replicate 7 [1; 0]%nat)) start).2
  = (24, [inl (U8_return hello16); inl (U8_return hello16)]).
Proof. by vm_compute. Qed.





Lemma calls_within_budget_witness :
  let ks := [Utf8ToUtf16 hello; Utf16ToUtf8 hello16] in
  let c := pool_run (H := counting no_inline 57) (mjoin (replicate 11 [0; 1]%nat))
             ([], (0, entry <$> ks)) in
  Forall (fun e => forall r, e.2 <> Mem (Denied r)) c.1 /\
  c.2.1 = 0 + sum_of (call_owned no_inline) c.2.2 /\ c.2.1 <= 57 /\
  forall i k p, ks !! i = Some k -> c.2.2 !! i = Some p -> final p = true ->
    (calls (of_thread i c.1), p) = alone k.
Proof.
  apply (calls_within_budget no_inline 57 [Utf8ToUtf16 hello; Utf16ToUtf8 hello16] 0);
    [by repeat constructor | by vm_compute | apply pool_run_rtc].
Defined.

End PoolWitnesses.
