(* ===== verification/Hosts.v ===== *)
(** * Hosts: what the program sees of the operating system

    The two functions read two things of an answer of a conversion call:
    the number it returns and the buffer it leaves.  They never ask for
    the error code of a failed call.  Of the version query they read
    whether the major version is 6 or more.  Two hosts that agree on
    these, for the code page and the arguments that the functions pass,
    are the same host to the program.

    [same_answer] and [same_host] are these two equivalences; the
    functions, their machines and their runs on a heap respect them
    ([Proper]), so that a host may be replaced by an equivalent one in
    any statement about the program. *)

From S2P Require Import Prelude Steps Unicode TextCodec Machine LengthGuard Win32.
From S2P Require Import CharacterEncoder Flow.

#[local] Open Scope Z_scope.

(** ** Answers *)

(** The same number returned, the same buffer left. *)
Definition same_answer : relation Answer :=
  fun a b => retval a = retval b /\ written a = written b.

#[export] Instance same_answer_equivalence : Equivalence same_answer.
Proof.
  split; [by intros a | by intros a b [? ?] | intros a b c [? ?] [? ?]].
  split; congruence.
Qed.

#[export] Instance retval_proper : Proper (same_answer ==> eq) retval.
Proof. by intros a b [? ?]. Qed.

#[export] Instance buffer_after_proper : Proper (same_answer ==> eq ==> eq) buffer_after.
Proof. intros a b [_ Hw] buffer ? <-. unfold buffer_after. by rewrite Hw. Qed.

(** The error code is not part of what the program sees. *)
Definition without_error (a : Answer) : Answer :=
  {| retval := retval a; written := written a; last_error := None |}.

Lemma without_error_same a : same_answer (without_error a) a.
Proof. done. Qed.

(** ** Hosts *)

(** Two hosts agree on the size of the version structure, on the test
    that the program makes of the version they report, and on the
    answers of the two conversions for [CP_UTF8], with the flag of
    [utf8ToUtf16] and without a default character. *)
Record same_host (api1 api2 : Win32Api) : Prop := {
  same_size : @sizeof_OSVERSIONINFOEX api1 = @sizeof_OSVERSIONINFOEX api2;
  same_version osvi :
    isWindowsVistaOrGreater (snd (@api_GetVersionEx api1 osvi)) =
    isWindowsVistaOrGreater (snd (@api_GetVersionEx api2 osvi));
  same_MultiByteToWideChar src cb dst cch :
    same_answer
      (@api_MultiByteToWideChar api1 CP_UTF8 MB_ERR_INVALID_CHARS src cb dst cch)
      (@api_MultiByteToWideChar api2 CP_UTF8 MB_ERR_INVALID_CHARS src cb dst cch);
  same_WideCharToMultiByte fl src cch dst cb :
    same_answer
      (@api_WideCharToMultiByte api1 CP_UTF8 fl src cch dst cb None None)
      (@api_WideCharToMultiByte api2 CP_UTF8 fl src cch dst cb None None)
}.

#[export] Instance same_host_equivalence : Equivalence same_host.
Proof.
  split.
  - by intros api.
  - intros api1 api2 [? ? ? ?]. by split.
  - intros api1 api2 api3 [? ? ? ?] [? ? ? ?]. split; intros; etrans; eauto.
Qed.

(** A host that reports no error codes. *)
Definition silent_host (api : Win32Api) : Win32Api := {|
  host_major := @host_major api;
  host_minor := @host_minor api;
  sizeof_OSVERSIONINFOEX := @sizeof_OSVERSIONINFOEX api;
  api_best_effort := @api_best_effort api;
  api_GetVersionEx := @api_GetVersionEx api;
  api_MultiByteToWideChar := fun cp fl src cb dst cch =>
    without_error (@api_MultiByteToWideChar api cp fl src cb dst cch);
  api_WideCharToMultiByte := fun cp fl src cch dst cb dc udc =>
    without_error (@api_WideCharToMultiByte api cp fl src cch dst cb dc udc)
|}.

Lemma silent_host_same api : same_host (silent_host api) api.
Proof. by split. Qed.

(** The version test sees of two versions whether they are 6 or more. *)
Lemma version_test_major (a b m n : Z) :
  (6 <= a <-> 6 <= b) -> 0 <= m -> 0 <= n ->
  (a >? 6) || (a =? 6) && (m >=? 0) = (b >? 6) || (b =? 6) && (n >=? 0).
Proof. intros. apply eq_true_iff_eq. lia. Qed.

(** The hosts of [Win32] from Windows Vista on are one host to the
    program, and so are the older ones. *)
Lemma reference_same (major minor major' minor' : nat) :
  (6 <=? Z.of_nat major) = (6 <=? Z.of_nat major') ->
  same_host (reference_api major minor) (reference_api major' minor').
Proof.
  intros Hv. split; cbn; [done| |done|].
  - intros osvi. unfold reference_GetVersionEx. case_match; [|done].
    unfold isWindowsVistaOrGreater. cbn [snd dwMajorVersion dwMinorVersion].
    apply version_test_major; [by rewrite <- !Z.leb_le, Hv | lia..].
  - intros fl src cch dst cb. unfold reference_WideCharToMultiByte. by rewrite Hv.
Qed.

(** ** The functions respect the equivalence *)

Section Respect.
Context {dm : DataModel}.

#[export] Instance utf8ToUtf16_proper : Proper (same_host ==> eq ==> eq) (@utf8ToUtf16 dm).
Proof.
  intros api1 api2 Hh s ? <-. unfold utf8ToUtf16, MultiByteToWideChar.
  destruct (string_equals s []); [done|]. rewrite !bind_call. cbv zeta.
  by repeat setoid_rewrite (same_MultiByteToWideChar _ _ Hh).
Qed.

#[export] Instance utf16ToUtf8_proper : Proper (same_host ==> eq ==> eq) (@utf16ToUtf8 dm).
Proof.
  intros api1 api2 Hh s ? <-. unfold utf16ToUtf8, GetVersionEx, WideCharToMultiByte.
  destruct (string_equals s []); [done|]. rewrite !bind_call. cbv zeta.
  rewrite (same_size _ _ Hh), (same_version _ _ Hh).
  by repeat setoid_rewrite (same_WideCharToMultiByte _ _ Hh).
Qed.

End Respect.

(** ** Properties *)

Section HostProperties.
Context {dm : DataModel}.

(** The machines of [Flow] run alike on hosts that are the same. *)
Lemma runs_respect api1 api2 s :
  same_host api1 api2 ->
  run_from (M := @utf8_machine dm api1) (U8_entry s)
  = run_from (M := @utf8_machine dm api2) (U8_entry s) /\
  run_from (M := @utf16_machine dm api1) (U16_entry s)
  = run_from (M := @utf16_machine dm api2) (U16_entry s).
Proof. intros Hh. rewrite !utf8_run_from, !utf16_run_from. by rewrite Hh. Qed.


(** The error code of a failed call changes nothing. *)
Corollary error_code_unread api s :
  @utf8ToUtf16 dm (silent_host api) s = @utf8ToUtf16 dm api s /\
  @utf16ToUtf8 dm (silent_host api) s = @utf16ToUtf8 dm api s.
Proof. by rewrite (silent_host_same api). Qed.

(** From Windows Vista on, the version changes nothing. *)
Corollary vista_or_later_alike (major minor major' minor' : nat) s :
  (6 <= major)%nat -> (6 <= major')%nat ->
  @utf16ToUtf8 dm (reference_api major minor) s
  = @utf16ToUtf8 dm (reference_api major' minor') s.
Proof.
  intros Hm Hm'. rewrite (reference_same major minor major' minor'); [done|].
  apply eq_true_iff_eq. rewrite !Z.leb_le. lia.
Qed.

End HostProperties.

(** ** Witnesses *)

