(* ===== verification/Interface.v ===== *)
(** * Interface: the class as src/inc/CharacterEncoder.h declares it

    The header declares a class without data members, with a protected
    constructor, a destructor and two static member functions, and it
    documents each function: what it returns, when it throws, and from
    which size on its argument is truncated.  [CharacterEncoderClass] is
    the declaration; [DocumentedUtf8ToUtf16] and [DocumentedUtf16ToUtf8]
    are the two documentation comments, with the size from which
    truncation starts as a parameter; [implementation] is what
    CharacterEncoder.cpp defines.

    The theorems show that the implementation keeps the documented
    contract when truncation starts one element earlier than documented,
    and not with the documented sizes.  A caller of the class is proved
    correct against the contract alone: [round_trip], the composition of
    the two functions of section 8 of the specification. *)

From S2P Require Import Prelude Unicode TextCodec Machine LengthGuard Win32.
From S2P Require Import CharacterEncoder.

#[local] Open Scope Z_scope.
#[local] Open Scope prog_scope.

(** The two static member functions of the class. *)
Class CharacterEncoderClass : Type := {
  static_utf8ToUtf16 : list Z -> prog Win32Call std_exception (list Z);
  static_utf16ToUtf8 : list Z -> prog Win32Call std_exception (list Z)
}.

(** "If the specified string is greater than the range of int in bytes,
    then the string is truncated": the largest size that is not, in
    elements of the string.  A [wchar_t] takes two bytes. *)
Definition documented_limit_utf8 : Z := INT_MAX.

Definition documented_limit_utf16 : Z := INT_MAX / 2.

(** The size at which the implementation starts to truncate. *)
Definition implemented_limit : Z := INT_MAX - 1.

(** The comment on [utf8ToUtf16]: the argument is a string encoded in
    UTF-8, cut at [limit] bytes; the function returns that string encoded
    in UTF-16.  It throws "if the specified string cannot be processed":
    a string that can be processed is returned converted. *)
Class DocumentedUtf8ToUtf16 (limit : Z) (C : CharacterEncoderClass) : Prop := {
  utf8ToUtf16_returns s us :
    utf8_to_utf16 true (takeZ limit s) = Some us ->
    returns (static_utf8ToUtf16 s) us
}.

(** The comment on [utf16ToUtf8], in the other direction.  A string whose
    UTF-8 form an [int] cannot count is one that cannot be processed. *)
Class DocumentedUtf16ToUtf8 (limit : Z) (C : CharacterEncoderClass) : Prop := {
  utf16ToUtf8_returns s bs :
    utf16_to_utf8 true (takeZ limit s) = Some bs -> lengthZ bs <= INT_MAX ->
    returns (static_utf16ToUtf8 s) bs
}.

(** What CharacterEncoder.cpp defines. *)
#[export] Instance implementation {dm : DataModel} {api : Win32Api}
  : CharacterEncoderClass :=
  {| static_utf8ToUtf16 := utf8ToUtf16; static_utf16ToUtf8 := utf16ToUtf8 |}.

(** A caller: section 8 of the specification composes the two functions. *)
Definition round_trip {C : CharacterEncoderClass} (s : list Z)
  : prog Win32Call std_exception (list Z) :=
  us <- static_utf8ToUtf16 s ;; static_utf16ToUtf8 us.

(** ** The caller, against the documented contract *)

Section Client.
Context {C : CharacterEncoderClass} (limit8 limit16 : Z).
Context {doc8 : DocumentedUtf8ToUtf16 limit8 C} {doc16 : DocumentedUtf16ToUtf8 limit16 C}.

(** "Throws if the specified string cannot be processed". *)
Lemma documented_utf8_throws s e :
  throws (static_utf8ToUtf16 s) e -> utf8_to_utf16 true (takeZ limit8 s) = None.
Proof.
  intros Hthrow. destruct (utf8_to_utf16 true (takeZ limit8 s)) as [us|] eqn:H; [|done].
  apply utf8ToUtf16_returns in H. by apply returns_not_throws with (e := e) in H.
Qed.

Lemma documented_utf16_throws s e bs :
  throws (static_utf16ToUtf8 s) e ->
  utf16_to_utf8 true (takeZ limit16 s) = Some bs -> INT_MAX < lengthZ bs.
Proof.
  intros Hthrow H. destruct (Z.lt_ge_cases INT_MAX (lengthZ bs)); [done|].
  apply utf16ToUtf8_returns in H; [|lia]. by apply returns_not_throws with (e := e) in H.
Qed.

(** A string of [n] letters A, which no proof evaluates, comes back as
    long as the limit allows.  (The letter stands for any ASCII text.) *)
Lemma documented_utf8_letters (n : nat) :
  returns (static_utf8ToUtf16 (replicate n 0x41))
          (replicate (Z.to_nat limit8 `min` n) 0x41).
Proof.
  apply utf8ToUtf16_returns. rewrite takeZ_replicate.
  by apply utf8_to_utf16_ascii_id, ascii_replicate.
Qed.

Lemma documented_utf16_letters (n : nat) :
  Z.of_nat n <= INT_MAX ->
  returns (static_utf16ToUtf8 (replicate n 0x41))
          (replicate (Z.to_nat limit16 `min` n) 0x41).
Proof.
  intros Hn. apply utf16ToUtf8_returns.
  - rewrite takeZ_replicate. by apply utf16_to_utf8_ascii_id, ascii_replicate.
  - rewrite lengthZ_replicate. lia.
Qed.

(** Whatever class keeps the documented contract, the round trip of a
    well-formed string below both limits returns the string. *)
Lemma round_trip_documented s :
  well_formed utf8 s = true ->
  lengthZ s <= limit8 -> lengthZ s <= limit16 -> lengthZ s <= INT_MAX ->
  returns (round_trip s) s.
Proof.
  intros Hwf H8 H16 Hint. apply well_formed_spec in Hwf as [cs Hcs].
  assert (utf8_to_utf16 true s = Some (encode utf16 cs)) as Hconv.
  { unfold utf8_to_utf16, transcode. by rewrite Hcs. }
  apply utf8_to_utf16_length in Hconv as Hlen.
  apply (utf8_to_utf16_roundtrip true) in Hconv as Hback.
  assert (returns (static_utf8ToUtf16 s) (encode utf16 cs)) as Hfirst
    by (apply utf8ToUtf16_returns; by rewrite takeZ_all).
  unfold round_trip, returns. rewrite (result_bind _ _ _ Hfirst).
  apply utf16ToUtf8_returns; [|done]. rewrite takeZ_all by lia. done.
Qed.

End Client.

(** ** The implementation and the documented contract *)

Lemma guarded_limit s : guarded s = takeZ implemented_limit s.
Proof.
  unfold guarded, implemented_limit, length_guard, INT32_MAX, INT_MAX.
  destruct (Z.le_gt_cases (lengthZ s) (2 ^ 31 - 1 - 1)).
  - rewrite Z.min_l by done. rewrite takeZ_lengthZ. symmetry. by apply takeZ_all.
  - by rewrite Z.min_r by lia.
Qed.

Section Implementation.
Context {dm : DataModel} {api : Win32Api} {laws : Win32Laws api}.

#[export] Instance implementation_utf8 :
  DocumentedUtf8ToUtf16 implemented_limit implementation.
Proof.
  split. intros s us. unfold returns. cbn [static_utf8ToUtf16 implementation].
  rewrite utf8ToUtf16_result, <- guarded_limit. by intros ->.
Qed.

#[export] Instance implementation_utf16 :
  DocumentedUtf16ToUtf8 implemented_limit implementation.
Proof.
  split. intros s bs. unfold returns. cbn [static_utf16ToUtf8 implementation].
  rewrite <- guarded_limit. intros Hconv Hlen.
  apply (conversion_under_strict host_is_vista_or_later) in Hconv as Hhost.
  rewrite utf16ToUtf8_result; unfold fits_under; rewrite Hhost; [done | lia].
Qed.

(** A string of [INT_MAX] letters tells the limits apart. *)
Lemma letters_limit limit (a : Z) :
  0 <= limit ->
  replicate (Z.to_nat implemented_limit `min` Z.to_nat INT_MAX) a =
  replicate (Z.to_nat limit `min` Z.to_nat INT_MAX) a ->
  limit = implemented_limit.
Proof.
  intros Hlimit H. apply (f_equal length) in H. rewrite !length_replicate in H.
  unfold implemented_limit, INT_MAX in *. lia.
Qed.

(** The implementation keeps a contract for one limit only. *)
Lemma contract_limit_utf8 limit :
  0 <= limit -> DocumentedUtf8ToUtf16 limit implementation -> limit = implemented_limit.
Proof.
  intros Hlimit Hdoc. apply (letters_limit limit 0x41 Hlimit).
  exact (returns_inj _ _ _ (documented_utf8_letters implemented_limit _)
           (documented_utf8_letters limit _)).
Qed.

Lemma contract_limit_utf16 limit :
  0 <= limit -> DocumentedUtf16ToUtf8 limit implementation -> limit = implemented_limit.
Proof.
  intros Hlimit Hdoc. apply (letters_limit limit 0x41 Hlimit).
  assert (Z.of_nat (Z.to_nat INT_MAX) <= INT_MAX) as Hn by (unfold INT_MAX; lia).
  exact (returns_inj _ _ _ (documented_utf16_letters implemented_limit _ Hn)
           (documented_utf16_letters limit _ Hn)).
Qed.

(** The sizes that the two comments of the header name are not kept. *)
Lemma documented_limits_not_kept :
  ~ DocumentedUtf8ToUtf16 documented_limit_utf8 implementation /\
  ~ DocumentedUtf16ToUtf8 documented_limit_utf16 implementation.
Proof.
  split; intros Hdoc;
    [apply contract_limit_utf8 in Hdoc | apply contract_limit_utf16 in Hdoc]; done.
Qed.

End Implementation.

(** ** Properties *)

Section InterfaceProperties.
Context {dm : DataModel} {api : Win32Api} {laws : Win32Laws api}.

(** C17. The implementation keeps the contract that the header documents
    for both functions when truncation starts at [INT_MAX - 1] elements,
    and for no other size: not for [INT_MAX] bytes, the size the comment
    on [utf8ToUtf16] names, and not for [INT_MAX / 2] code units, the
    size in bytes that the comment on [utf16ToUtf8] names. *)
Theorem documented_limit limit :
  0 <= limit ->
  (DocumentedUtf8ToUtf16 limit implementation <-> limit = implemented_limit) /\
  (DocumentedUtf16ToUtf8 limit implementation <-> limit = implemented_limit).
Proof.
  intros Hlimit. split; (split; [|intros ->; apply _]).
  - by apply contract_limit_utf8.
  - by apply contract_limit_utf16.
Qed.

(** Section 8, the two functions composed by a caller: on a string
    of well-formed UTF-8 that is not empty and not truncated, the round
    trip makes five calls in this order (the two of [utf8ToUtf16], the
    version query, the two of [utf16ToUtf8] on what the first function
    returned) and returns the string it was given. *)
Theorem round_trip_run s us :
  s <> [] -> utf8_to_utf16 true s = Some us -> lengthZ s <= INT_MAX - 1 ->
  round_trip s =
  Run [utf8_probe_call s; utf8_convert_call s us; version_call;
       utf16_probe_call host_flags us; utf16_convert_call host_flags us s]
      (Returned s).
Proof.
  intros Hs Hconv Hlen.
  apply utf8_to_utf16_length in Hconv as Hus. apply lengthZ_pos in Hs as Hpos.
  assert (us <> []) as Hne by (intros ->; rewrite lengthZ_nil in Hus; lia).
  apply (utf8_to_utf16_roundtrip true) in Hconv as Hback.
  apply (conversion_under_strict host_is_vista_or_later) in Hback.
  assert (guarded s = s /\ guarded us = us) as [Hgs Hgus]
    by (split; apply guarded_small; unfold INT32_MAX, INT_MAX in *; lia).
  assert (fits_int us = true) as Hfit
    by (unfold fits_under; rewrite Hgus, Hback; lia).
  unfold round_trip. cbn [static_utf8ToUtf16 static_utf16ToUtf8 implementation].
  rewrite utf8ToUtf16_run, nonempty_string, Hgs, Hconv, bind_run by done.
  by rewrite utf16ToUtf8_run, nonempty_string, Hgus, Hback by done.
Qed.

End InterfaceProperties.

(** ** Witnesses *)

Section InterfaceWitnesses.
#[local] Existing Instance llp64.
#[local] Existing Instance windows_10.

Lemma documented_limit_witness :
  0 <= documented_limit_utf8 /\
  (DocumentedUtf8ToUtf16 documented_limit_utf8 implementation <->
   documented_limit_utf8 = implemented_limit) /\
  (DocumentedUtf16ToUtf8 documented_limit_utf8 implementation <->
   documented_limit_utf8 = implemented_limit).
Proof. split; [done | by apply documented_limit]. Defined.

Lemma round_trip_run_witness :
  round_trip grinning =
  Run [utf8_probe_call grinning; utf8_convert_call grinning [0xD83D; 0xDE00];
       version_call;
       utf16_probe_call host_flags [0xD83D; 0xDE00];
       utf16_convert_call host_flags [0xD83D; 0xDE00] grinning]
      (Returned grinning).
Proof. by apply round_trip_run. Defined.

End InterfaceWitnesses.
