(* ===== verification/Callers.v ===== *)
(** * Callers: the two functions used one after the other

    Section 8 of the specification tests the two functions together:
    [utf16ToUtf8(utf8ToUtf16(s))] gives [s] again.  Section 7 says that a
    caller gains nothing by calling again after an error.  Both are
    programs that call one function and then, depending on how it ended,
    another.  This file gives them as machines on a heap, composed of the
    machines of [Memory] with [seq_machine] of [Steps]:

    - [round_trip_machine] calls [utf8ToUtf16] and hands what it returns
      to [utf16ToUtf8]; an exception of the first call leaves the caller.
      The string that the first call returned stays with the caller
      while the second call runs.
    - [retry_utf8] and [retry_utf16] call a function and call it once
      more with the same argument when it threw.

    The theorems give the end of every run of the round trip on any
    heap, with what the caller holds then; the bytes a round trip needs;
    that on a heap that refuses nothing the round trip is the one of
    [Interface]; and that a second attempt ends as the first did. *)

From S2P Require Import Prelude Steps Unicode TextCodec Machine LengthGuard Win32.
From S2P Require Import CharacterEncoder Flow Memory Interface.

#[local] Open Scope Z_scope.

(** ** The callers *)

Section Callers.
Context {dm : DataModel} {api : Win32Api} {H : Heap}.

(** The second call of the round trip starts when the first has returned,
    with the returned string as its argument, on the heap as the first
    call left it. *)
Definition hand_over (c : heap * Utf8Point) : option (heap * Utf16Point) :=
  match c.2 with
  | U8_return value => Some (c.1, U16_entry value)
  | _ => None
  end.

Definition round_trip_machine
  : Machine (HeapEvent Win32Call) (heap * Utf8Point + heap * Utf16Point) :=
  seq_machine (on_heap utf8_machine) (on_heap utf16_machine) hand_over 11.

(** A caller that calls again after an exception. *)
Definition again_utf8 (s : list Z) (c : heap * Utf8Point) : option (heap * Utf8Point) :=
  match c.2 with
  | U8_throw _ => Some (c.1, U8_entry s)
  | _ => None
  end.

Definition again_utf16 (s : list Z) (c : heap * Utf16Point) : option (heap * Utf16Point) :=
  match c.2 with
  | U16_throw _ => Some (c.1, U16_entry s)
  | _ => None
  end.

Definition retry_utf8 (s : list Z)
  : Machine (HeapEvent Win32Call) (heap * Utf8Point + heap * Utf8Point) :=
  seq_machine (on_heap utf8_machine) (on_heap utf8_machine) (again_utf8 s) 7.

Definition retry_utf16 (s : list Z)
  : Machine (HeapEvent Win32Call) (heap * Utf16Point + heap * Utf16Point) :=
  seq_machine (on_heap utf16_machine) (on_heap utf16_machine) (again_utf16 s) 11.

(** What the caller of the round trip holds at a point: during the
    second call the string that the first call returned, and at the end
    also the string that the second call returned. *)
Definition round_trip_holds (first : list Z) (p : heap * Utf8Point + heap * Utf16Point)
  : list Request :=
  match p with
  | inl c => utf8_handed c.2
  | inr c => utf16_handed c.2 ++ [StringOf wchar_t (lengthZ first)]
  end.

#[export] Instance hand_over_within : Within (on_heap utf16_machine) hand_over 11.
Proof. intros [h p] c. unfold hand_over. destruct p; intros; by simplify_eq/=. Qed.

#[export] Instance again_utf8_within s : Within (on_heap utf8_machine) (again_utf8 s) 7.
Proof. intros [h p] c. unfold again_utf8. destruct p; intros; by simplify_eq/=. Qed.

#[export] Instance again_utf16_within s : Within (on_heap utf16_machine) (again_utf16 s) 11.
Proof. intros [h p] c. unfold again_utf16. destruct p; intros; by simplify_eq/=. Qed.

End Callers.

(** Name the parts of the run that a hypothesis speaks of: its events,
    the heap it leaves and the point it ends at. *)
Ltac run_cases_of Hb t h p Hrun :=
  match type of Hb with
  | context [@run_from ?Ev ?St ?M ?p0] =>
      destruct (@run_from Ev St M p0) as [t [h p]] eqn:Hrun; cbn [fst snd] in *
  end.

(** ** The runs of the round trip *)

Section RoundTripRuns.
Context {dm : DataModel} {api : Win32Api} {H : Heap} {laws : Win32Laws api}.

(** What [utf8ToUtf16] returns is not truncated by [utf16ToUtf8], which
    converts it back, on every version of the host. *)
Lemma decoded_back s value :
  utf8_to_utf16 true (guarded s) = Some value ->
  guarded value = value /\ host_conversion value = Some (guarded s) /\
  fits_int value = true.
Proof.
  intros Hconv. apply utf8_to_utf16_length in Hconv as Hlen.
  pose proof (guarded_length s) as Hg.
  assert (guarded value = value) as Hv by (apply guarded_small; lia).
  apply (utf8_to_utf16_roundtrip true) in Hconv as Hback.
  apply (conversion_under_strict host_is_vista_or_later) in Hback.
  repeat split; [done..|]. unfold fits_under. rewrite Hv, Hback.
  unfold INT32_MAX, INT_MAX in *. lia.
Qed.

(** A run of [utf8ToUtf16] that returns, returns the converted string. *)
Lemma utf8_on_heap_returned (h : heap) s value :
  (utf8_on_heap h s).2.2 = U8_return value ->
  utf8_to_utf16 true (guarded s) = Some value.
Proof.
  unfold utf8_on_heap, empty_on_heap, converted_on_heap.
  destruct (string_equals s []) eqn:He.
  - apply string_equals_spec in He as ->. by destruct (heap_alloc h _); intros [= <-].
  - destruct (utf8_to_utf16 true (guarded s)) as [out|]; [|done].
    repeat case_match; by intros [= <-].
Qed.

(** The round trip from its two calls. *)
Lemma round_trip_of_runs (h : heap) s :
  run_from (M := round_trip_machine) (inl (h, U8_entry s)) =
  let c1 := utf8_on_heap h s in
  match c1.2.2 with
  | U8_return value =>
      let c2 := utf16_on_heap c1.2.1 value in (c1.1 ++ c2.1, inr c2.2)
  | _ => (c1.1, inl c1.2)
  end.
Proof.
  unfold round_trip_machine. rewrite seq_run_from. unfold seq_run, hand_over.
  rewrite utf8_run_on_heap. cbv zeta.
  destruct (utf8_on_heap h s).2.2 eqn:Hend; try done.
  apply utf8_on_heap_returned, decoded_back in Hend as (_ & _ & Hfit).
  by rewrite utf16_run_on_heap.
Qed.

End RoundTripRuns.

(** ** The round trip on every heap *)

Section RoundTripLemmas.
Context {dm : DataModel} {api : Win32Api} {H : Heap} {laws : Win32Laws api}.

(** The point a run of the round trip ends at, without the heap. *)
Definition ended (c : list (HeapEvent Win32Call) * (heap * Utf8Point + heap * Utf16Point))
  : Utf8Point + Utf16Point := sum_map snd snd c.2.

(** A string that does not convert ends the round trip in the first
    call, after its first call of the host; a string that converts comes
    back, unless memory runs out in one of the two calls. *)
Lemma round_trip_ends (h : heap) s :
  let c := run_from (M := round_trip_machine) (inl (h, U8_entry s)) in
  match utf8_to_utf16 true (guarded s) with
  | None => c = ([Os (utf8_probe_call s)], inl (h, U8_throw utf8_error))
  | Some _ =>
      ended c = inr (U16_return (guarded s)) \/
      ended c = inl (U8_throw bad_alloc) \/ ended c = inr (U16_throw bad_alloc)
  end.
Proof.
  cbv zeta. rewrite round_trip_of_runs. cbv zeta. unfold ended.
  destruct (utf8_to_utf16 true (guarded s)) as [value|] eqn:Hconv.
  - destruct (decoded_back s value Hconv) as (Hg & Hback & Hfit).
    pose proof (utf8_on_heap_ends h s) as Hend.
    rewrite utf8ToUtf16_result, Hconv in Hend.
    destruct (utf8_on_heap h s) as [t1 [h1 p1]]. cbn [fst snd utf8_outcome] in *.
    destruct Hend as [-> | ->]; [|right; by left].
    pose proof (utf16_on_heap_ends h1 value Hfit) as Hv.
    rewrite utf16ToUtf8_result, Hg, Hback in Hv by done.
    destruct (utf16_on_heap h1 value) as [t2 [h2 p2]]. cbn [fst snd utf16_outcome] in *.
    destruct Hv as [-> | ->]; [by left | right; by right].
  - unfold utf8_on_heap. rewrite Hconv. destruct (string_equals s []) eqn:He; [|done].
    by apply string_equals_spec in He as ->.
Qed.

(** The ledger of the round trip when it has ended. *)
Lemma round_trip_ledger (h : heap) s :
  let c := run_from (M := round_trip_machine) (inl (h, U8_entry s)) in
  ledger [] c.1 =
  Some (round_trip_holds (default [] (utf8_to_utf16 true (guarded s))) c.2).
Proof.
  cbv zeta. rewrite round_trip_of_runs. cbv zeta.
  pose proof (utf8_on_heap_ledger h s) as H1.
  pose proof (utf8_on_heap_returned h s) as Hback.
  destruct (utf8_on_heap h s) as [t1 [h1 p1]]. cbn [fst snd] in *.
  destruct p1; try done.
  rewrite (Hback _ eq_refl). cbn [fst snd round_trip_holds default].
  rewrite ledger_app, H1. apply (ledger_frame _ []), utf16_on_heap_ledger.
Qed.

End RoundTripLemmas.

(** ** The round trip on a heap that counts its bytes *)

Section RoundTripCounting.
Context {dm : DataModel} {api : Win32Api} {laws : Win32Laws api}.
Context (inline : ElementType -> Z) (capacity : Z).

(** C30. The memory a round trip needs, on a heap of [capacity] bytes of
    which [used] are in use: with [4 * n + 3] bytes free, the round trip
    of a string of [n] bytes that converts is refused nothing and
    returns the string (its first [INT_MAX - 1] bytes), and the caller
    then holds the two strings, of at most [2 * n + 2] and [n + 1]
    bytes: the UTF-16 string stays in use while [utf16ToUtf8] has its
    buffer and its result. *)
Theorem round_trip_memory (used : Z) s value :
  utf8_to_utf16 true (guarded s) = Some value ->
  used + 4 * lengthZ s + 3 <= capacity ->
  let first := request_bytes inline (StringOf wchar_t (lengthZ value)) in
  let second := request_bytes inline (StringOf char (lengthZ (guarded s))) in
  (run_from (M := round_trip_machine (H := counting inline capacity))
     (inl ((used : @heap (counting inline capacity)), U8_entry s))).2 =
  inr (used + first + second, U16_return (guarded s)) /\
  0 <= first <= 2 * lengthZ s + 2 /\ 0 <= second <= lengthZ s + 1.
Proof.
  intros Hconv Hcap. cbv zeta.
  destruct (decoded_back s value Hconv) as (Hg & Hback & _). rewrite <- Hg in Hback.
  apply utf8_to_utf16_length in Hconv as Hlen. pose proof (guarded_le s) as Hle.
  pose proof (request_bytes_string inline wchar_t _ (lengthZ_nonneg value)) as H1.
  pose proof (request_bytes_string inline char _ (lengthZ_nonneg (guarded s))) as H2.
  pose proof (lengthZ_nonneg value). pose proof (lengthZ_nonneg (guarded s)).
  cbn [sizeof] in H1, H2. split; [|lia].
  rewrite (round_trip_of_runs (H := counting inline capacity)). cbv zeta.
  pose proof (utf8_on_heap_counting inline capacity used s value Hconv) as E1.
  cbv zeta in E1. rewrite (proj2 (Z.leb_le _ _)) in E1
    by (change (request_bytes inline (VectorOf wchar_t ?n)) with (n * 2); lia).
  destruct (utf8_on_heap (H := counting inline capacity) used s) as [t1 c1].
  cbn [fst snd] in *. subst c1.
  cbn [fst snd].
  pose proof (utf16_on_heap_counting inline capacity
                (used + request_bytes inline (StringOf wchar_t (lengthZ value)))
                value (guarded s) Hback) as E2.
  cbv zeta in E2. rewrite (proj2 (Z.leb_le _ _)) in E2
    by (change (request_bytes inline (VectorOf char ?n)) with (n * 1); lia).
  by rewrite E2.
Qed.

(** A second attempt after an exception finds the bytes as the first
    attempt found them: it does what the first did. *)
Lemma retry_utf8_again (used : Z) s :
  let first := run_from (M := on_heap (H := counting inline capacity) utf8_machine)
                 ((used : @heap (counting inline capacity)), U8_entry s) in
  run_from (M := retry_utf8 (H := counting inline capacity) s)
    (inl ((used : @heap (counting inline capacity)), U8_entry s)) =
  match first.2.2 with
  | U8_throw _ => (first.1 ++ first.1, inr first.2)
  | _ => (first.1, inl first.2)
  end.
Proof.
  cbv zeta. unfold retry_utf8. rewrite seq_run_from. unfold seq_run, again_utf8.
  pose proof (utf8_on_heap_balance inline capacity used s) as Hb. cbv zeta in Hb.
  rewrite <- (utf8_run_on_heap (H := counting inline capacity)) in Hb.
  run_cases_of Hb t1 h1 p1 Hrun. destruct p1; try done.
  cbn [utf8_handed bytes_of sum_of foldr] in Hb. rewrite Z.add_0_r in Hb. subst h1.
  by rewrite Hrun.
Qed.

Lemma retry_utf16_again (used : Z) s :
  fits_int s = true ->
  let first := run_from (M := on_heap (H := counting inline capacity) utf16_machine)
                 ((used : @heap (counting inline capacity)), U16_entry s) in
  run_from (M := retry_utf16 (H := counting inline capacity) s)
    (inl ((used : @heap (counting inline capacity)), U16_entry s)) =
  match first.2.2 with
  | U16_throw _ => (first.1 ++ first.1, inr first.2)
  | _ => (first.1, inl first.2)
  end.
Proof.
  intros Hfit. cbv zeta. unfold retry_utf16. rewrite seq_run_from.
  unfold seq_run, again_utf16.
  pose proof (utf16_on_heap_balance inline capacity used s) as Hb. cbv zeta in Hb.
  rewrite <- (utf16_run_on_heap (H := counting inline capacity)) in Hb by done.
  run_cases_of Hb t1 h1 p1 Hrun. destruct p1; try done.
  cbn [utf16_handed bytes_of sum_of foldr] in Hb. rewrite Z.add_0_r in Hb. subst h1.
  by rewrite Hrun.
Qed.

End RoundTripCounting.

(** ** The round trip on a heap that refuses nothing *)

Section RoundTripGranting.
Context {dm : DataModel} {api : Win32Api} {H : Heap} {granting : Granting H}.

(** The round trip statement by statement and the round trip of
    [Interface], which composes the two functions as values: on a heap
    that refuses nothing, and on every host, the run of the machine
    makes the calls of [round_trip] in their order, and it ends in
    [utf8ToUtf16] with the exception that [utf8ToUtf16] throws, or in
    [utf16ToUtf8] with its outcome on what [utf8ToUtf16] returned. *)
Theorem round_trip_refines (h : heap) s :
  let c := run_from (M := round_trip_machine) (inl (h, U8_entry s)) in
  calls c.1 = trace (round_trip s) /\
  ended c = match result (utf8ToUtf16 s) with
            | Returned value => inr (utf16_outcome (result (utf16ToUtf8 value)))
            | Thrown e => inl (U8_throw e)
            end.
Proof.
  cbv zeta. unfold round_trip_machine. rewrite seq_run_from.
  unfold seq_run, hand_over, ended.
  pose proof (proj1 (granting_runs h s)) as H8. cbv zeta in H8.
  run_cases_of H8 t1 h1 p1 Hrun1. injection H8 as Ht ->.
  unfold round_trip, bind. cbn [static_utf8ToUtf16 static_utf16ToUtf8 implementation].
  destruct (result (utf8ToUtf16 s)) as [value|e]; cbn [utf8_outcome trace result]; [|done].
  pose proof (proj2 (granting_runs h1 value)) as H16. cbv zeta in H16.
  run_cases_of H16 t2 h2 p2 Hrun2. injection H16 as Hu ->.
  by rewrite calls_app, Ht, Hu.
Qed.

End RoundTripGranting.

(** ** Properties *)

Section CallersProperties.
Context {dm : DataModel} {api : Win32Api} {laws : Win32Laws api}.

(** C28. The round trip of section 8 on any heap, on a host that keeps its
    contract, for every string.  The run ends.  A string that does not
    convert ends it after the first call of the host, with the exception
    of [utf8ToUtf16], and nothing was asked of the heap.  A string that
    converts comes back (its first [INT_MAX - 1] bytes), unless one of
    the two calls ends with [std::bad_alloc]: [utf16ToUtf8] never
    rejects what [utf8ToUtf16] returned, whether the host is older than
    Windows Vista or not.  When the run has ended the live blocks are
    those the caller holds: nothing after an exception of the first
    call, the UTF-16 string after an exception of the second, both
    strings after a return. *)
Theorem round_trip_on_heap {H : Heap} (h : heap) s :
  let c := run_from (M := round_trip_machine) (inl (h, U8_entry s)) in
  (reachable (M := round_trip_machine) (inl (h, U8_entry s)) c /\
   nf (advance (M := round_trip_machine)) c) /\
  match utf8_to_utf16 true (guarded s) with
  | None => c = ([Os (utf8_probe_call s)], inl (h, U8_throw utf8_error))
  | Some value =>
      (ended c = inr (U16_return (guarded s)) \/
       ended c = inl (U8_throw bad_alloc) \/ ended c = inr (U16_throw bad_alloc)) /\
      ledger [] c.1 = Some (round_trip_holds value c.2)
  end.
Proof.
  cbv zeta. split; [by apply (run_from_spec (M := round_trip_machine))|].
  pose proof (round_trip_ends h s) as Hends. pose proof (round_trip_ledger h s) as Hl.
  cbv zeta in Hends, Hl. by destruct (utf8_to_utf16 true (guarded s)).
Qed.

(** Section 7, "no retries": on a heap that counts its bytes, in a
    program of one thread, a caller that calls again after an exception
    gains nothing.  The second attempt makes the calls of the first and
    asks the heap for what the first asked, in the same order, and it
    ends at the same point with the same bytes in use; this holds for
    the exception of the function as for [std::bad_alloc].  After a
    return there is no second attempt. *)
Theorem second_attempt inline capacity (used : Z) s :
  (let first := run_from (M := on_heap (H := counting inline capacity) utf8_machine)
                  ((used : @heap (counting inline capacity)), U8_entry s) in
   run_from (M := retry_utf8 (H := counting inline capacity) s)
     (inl ((used : @heap (counting inline capacity)), U8_entry s)) =
   match first.2.2 with
   | U8_throw _ => (first.1 ++ first.1, inr first.2)
   | _ => (first.1, inl first.2)
   end) /\
  (fits_int s = true ->
   let first := run_from (M := on_heap (H := counting inline capacity) utf16_machine)
                  ((used : @heap (counting inline capacity)), U16_entry s) in
   run_from (M := retry_utf16 (H := counting inline capacity) s)
     (inl ((used : @heap (counting inline capacity)), U16_entry s)) =
   match first.2.2 with
   | U16_throw _ => (first.1 ++ first.1, inr first.2)
   | _ => (first.1, inl first.2)
   end).
Proof.
  split; [apply retry_utf8_again | apply retry_utf16_again].
Qed.

End CallersProperties.

(** ** Witnesses: round trips of hello on heaps of a few bytes *)

Section CallersWitnesses.
#[local] Existing Instance llp64.
#[local] Existing Instance windows_10.

(** The six bytes of hello are five code units.  The first call needs 22
    bytes, of which the string keeps 12; the second call needs 13 more.
    On 24 bytes the round trip ends in [utf16ToUtf8] with
    [std::bad_alloc], and the caller holds the UTF-16 string; on 27 it
    returns hello, and 19 bytes are in use. *)
Example round_trips_of_hello :
  let run capacity :=
    run_from (M := round_trip_machine (H := counting no_inline capacity))
      (inl (0, U8_entry hello)) in
  (run 20).2 = inl (0, U8_throw bad_alloc) /\
  (run 24).2 = inr (12, U16_throw bad_alloc) /\
  (run 25).2 = inr (19, U16_return hello) /\
  ledger [] (run 24).1 = Some [StringOf wchar_t 5] /\
  ledger [] (run 25).1 = Some [StringOf char 6; StringOf wchar_t 5].
Proof. by vm_compute. Qed.

(** For one letter the bound of [round_trip_memory] is the least
    capacity: seven bytes. *)
Example round_trip_of_a_letter :
  let run capacity :=
    run_from (M := round_trip_machine (H := counting no_inline capacity))
      (inl (0, U8_entry [0x41])) in
  (run 6).2 = inr (4, U16_throw bad_alloc) /\ (run 7).2 = inr (6, U16_return [0x41]).
Proof. by vm_compute. Qed.

(** An overlong form ends the round trip in the first call; the second
    attempt of a caller that tries again ends as the first. *)
Example overlong_twice :
  run_from (M := retry_utf8 (H := counting no_inline 100) overlong_nul)
    (inl (0, U8_entry overlong_nul)) =
  ([Os (utf8_probe_call overlong_nul); Os (utf8_probe_call overlong_nul)],
   inr (0, U8_throw utf8_error)).
Proof. by vm_compute. Qed.

Lemma round_trip_on_heap_witness :
  let c := run_from (M := round_trip_machine (H := counting no_inline 24))
             (inl (0, U8_entry hello)) in
  (reachable (M := round_trip_machine (H := counting no_inline 24))
     (inl (0, U8_entry hello)) c /\
   nf (advance (M := round_trip_machine (H := counting no_inline 24))) c) /\
  (ended c = inr (U16_return (guarded hello)) \/
   ended c = inl (U8_throw bad_alloc) \/ ended c = inr (U16_throw bad_alloc)) /\
  ledger [] c.1 = Some (round_trip_holds hello16 c.2).
Proof. exact (round_trip_on_heap (H := counting no_inline 24) 0 hello). Defined.

Lemma round_trip_memory_witness :
  (run_from (M := round_trip_machine (H := counting no_inline 27))
     (inl (0, U8_entry hello))).2 =
  inr (0 + 12 + 7, U16_return (guarded hello)) /\
  0 <= 12 <= 2 * lengthZ hello + 2 /\ 0 <= 7 <= lengthZ hello + 1.
Proof. apply (round_trip_memory no_inline 27 0 hello hello16); by vm_compute. Defined.

Lemma round_trip_refines_witness :
  let c := run_from (M := round_trip_machine (H := unlimited)) (inl (tt, U8_entry grinning)) in
  calls c.1 = trace (round_trip grinning) /\
  ended c = inr (utf16_outcome (result (utf16ToUtf8 [0xD83D; 0xDE00]))).
Proof. exact (round_trip_refines (H := unlimited) tt grinning). Defined.

Lemma second_attempt_witness :
  run_from (M := retry_utf8 (H := counting no_inline 8) hello) (inl (0, U8_entry hello)) =
  ([Os (utf8_probe_call hello); Mem (Denied (VectorOf wchar_t 5));
    Os (utf8_probe_call hello); Mem (Denied (VectorOf wchar_t 5))],
   inr (0, U8_throw bad_alloc)).
Proof. exact (proj1 (second_attempt no_inline 8 0 hello)). Defined.

End CallersWitnesses.
