(* ===== verification/Tables.v ===== *)
(** * Tables: UTF-8 and UTF-16 as the Unicode Standard tabulates them

    [Unicode] defines the two encoding forms by arithmetic on scalar
    values.  The Unicode Standard gives them by tables: the bit
    distribution of UTF-16 (table 3-5) and of UTF-8 (table 3-6), and the
    well-formed UTF-8 byte sequences by the ranges of their bytes (table
    3-7).  This file writes the tables down with the shifts and masks of
    a converter that works on bits ([utf8_bits], [utf8_sequence],
    [utf8_value], [utf16_bits], [utf16_table_next]) and proves that they
    define the encoding forms of [Unicode]: the same code units for every
    scalar value, and the same scalar value, or the same rejection, at
    the front of every list ([utf8_table_same], [utf16_table_same]).

    Forms that agree in this way ([same_form], an equivalence) decode
    alike ([decode_proper], [well_formed_proper]), convert alike
    ([transcode_same]) and share their laws ([same_form_laws]), so the
    contract of the transcoding primitive in [Win32] may be read with
    either definition.  For the program this gives
    [conversions_by_tables], that its two conversions are those of the
    tables, and [foreign_bytes], on the bytes that table 3-7 has in no
    column. *)

From S2P Require Import Prelude Unicode TextCodec Machine LengthGuard Win32.
From S2P Require Import CharacterEncoder.

#[local] Open Scope Z_scope.

(** ** The tables *)

Definition in_range (lo hi b : Z) : bool := (lo <=? b) && (b <=? hi).

(** Table 3-6: the bits of a scalar value in one to four bytes. *)
Definition utf8_bits (c : Z) : list Z :=
  if c <? 0x80 then [c]
  else if c <? 0x800 then
    [Z.lor 0xC0 (Z.shiftr c 6); Z.lor 0x80 (Z.land c 0x3F)]
  else if c <? 0x10000 then
    [Z.lor 0xE0 (Z.shiftr c 12); Z.lor 0x80 (Z.land (Z.shiftr c 6) 0x3F);
     Z.lor 0x80 (Z.land c 0x3F)]
  else
    [Z.lor 0xF0 (Z.shiftr c 18); Z.lor 0x80 (Z.land (Z.shiftr c 12) 0x3F);
     Z.lor 0x80 (Z.land (Z.shiftr c 6) 0x3F); Z.lor 0x80 (Z.land c 0x3F)].

(** Table 3-7, a row for each lead byte: the range of the second byte
    and the number of bytes that follow the lead byte. *)
Definition utf8_row (b0 : Z) : option (Z * Z * nat) :=
  if in_range 0xC2 0xDF b0 then Some (0x80, 0xBF, 1%nat)
  else if b0 =? 0xE0 then Some (0xA0, 0xBF, 2%nat)
  else if in_range 0xE1 0xEC b0 then Some (0x80, 0xBF, 2%nat)
  else if b0 =? 0xED then Some (0x80, 0x9F, 2%nat)
  else if in_range 0xEE 0xEF b0 then Some (0x80, 0xBF, 2%nat)
  else if b0 =? 0xF0 then Some (0x90, 0xBF, 3%nat)
  else if in_range 0xF1 0xF3 b0 then Some (0x80, 0xBF, 3%nat)
  else if b0 =? 0xF4 then Some (0x80, 0x8F, 3%nat)
  else None.

(** The well-formed byte sequence at the front of a list, and what
    follows it. *)
Definition utf8_sequence (bs : list Z) : option (list Z * list Z) :=
  match bs with
  | [] => None
  | b0 :: t =>
      if in_range 0x00 0x7F b0 then Some ([b0], t)
      else
        match utf8_row b0 with
        | Some (lo, hi, n) =>
            let trail := take n t in
            if (length trail =? n)%nat
               && in_range lo hi (default 0 (head trail))
               && forallb (in_range 0x80 0xBF) (tail trail)
            then Some (b0 :: trail, drop n t)
            else None
        | None => None
        end
  end.

(** The mask of the payload of a lead byte that [n] bytes follow. *)
Definition lead_mask (n : nat) : Z :=
  match n with
  | 0%nat => 0x7F
  | 1%nat => 0x1F
  | 2%nat => 0x0F
  | _ => 0x07
  end.

(** Table 3-6 read backwards: the payload of the lead byte, then six
    bits of every byte that follows. *)
Definition utf8_value (bs : list Z) : Z :=
  match bs with
  | [] => 0
  | b0 :: trail =>
      foldl (fun c b => Z.lor (Z.shiftl c 6) (Z.land b 0x3F))
        (Z.land b0 (lead_mask (length trail))) trail
  end.

Definition utf8_table_next (bs : list Z) : option (Z * list Z) :=
  prod_map utf8_value id <$> utf8_sequence bs.

(** Table 3-5: a scalar value in one code unit, or its bits less
    [0x10000] in a surrogate pair. *)
Definition utf16_bits (c : Z) : list Z :=
  if c <? 0x10000 then [c]
  else
    [Z.lor 0xD800 (Z.shiftr (c - 0x10000) 10);
     Z.lor 0xDC00 (Z.land (c - 0x10000) 0x3FF)].

(** The six high bits of a code unit tell a surrogate and its kind. *)
Definition surrogate_bits (u : Z) : Z := Z.land u 0xFC00.

Definition utf16_table_next (us : list Z) : option (Z * list Z) :=
  match us with
  | [] => None
  | u0 :: t =>
      if negb (in_range 0 0xFFFF u0) then None
      else if surrogate_bits u0 =? 0xD800 then
        match t with
        | u1 :: t1 =>
            if in_range 0 0xFFFF u1 && (surrogate_bits u1 =? 0xDC00)
            then Some (0x10000 + Z.lor (Z.shiftl (Z.land u0 0x3FF) 10) (Z.land u1 0x3FF), t1)
            else None
        | [] => None
        end
      else if surrogate_bits u0 =? 0xDC00 then None
      else Some (u0, t)
  end.

(** The encoding forms of the tables. *)
Definition utf8_table : EncodingForm Z :=
  {| encode1 := utf8_bits; next := utf8_table_next |}.

Definition utf16_table : EncodingForm Z :=
  {| encode1 := utf16_bits; next := utf16_table_next |}.

(** The bytes that table 3-7 has in any of its columns: [C0], [C1] and
    [F5] to [FF] occur in no well-formed sequence. *)
Definition utf8_byte (b : Z) : bool :=
  in_range 0x00 0x7F b || in_range 0x80 0xBF b || in_range 0xC2 0xF4 b.

Abbreviation utf8_bytes := (Forall (fun b => utf8_byte b = true)).

(** Two encoding forms agree when they read the same scalar value at the
    front of every list, or both none, and write every scalar value the
    same.  What they write for a number that is no scalar value is left
    open: nothing is decoded to such a number. *)
Definition same_form {U : Type} (A B : EncodingForm U) : Prop :=
  (forall l, next A l = next B l) /\
  (forall c, is_scalar c = true -> encode1 A c = encode1 B c).

(** ** Bits and arithmetic *)

Section Bits.
Implicit Types (a b c n : Z).

(** A number below [2 ^ n] shares no bit with a multiple of [2 ^ n]. *)
Lemma land_low a b n : 0 <= n -> 0 <= b < 2 ^ n -> Z.land (a * 2 ^ n) b = 0.
Proof.
  intros Hn Hb. apply Z.bits_inj'. intros i Hi. rewrite Z.land_spec, Z.bits_0.
  destruct (Z.lt_ge_cases i n) as [Hlt|Hge]; [by rewrite Z.mul_pow2_bits_low|].
  destruct (decide (b = 0)) as [->|Hb0]; [by rewrite Z.bits_0, andb_false_r|].
  rewrite (Z.bits_above_log2 b i), andb_false_r; [done | lia |].
  apply Z.log2_lt_pow2; [lia|].
  assert (2 ^ n <= 2 ^ i) by (apply Z.pow_le_mono_r; lia). lia.
Qed.

Lemma lor_low a b n : 0 <= n -> 0 <= b < 2 ^ n -> Z.lor (a * 2 ^ n) b = a * 2 ^ n + b.
Proof.
  intros Hn Hb. pose proof (land_low a b n Hn Hb) as Hl.
  by rewrite <- Z.lxor_lor, <- Z.add_nocarry_lxor.
Qed.

(** The same for a constant that is such a multiple. *)
Lemma lor_lead lead a n b :
  lead = a * 2 ^ n -> 0 <= n -> 0 <= b < 2 ^ n -> Z.lor lead b = lead + b.
Proof. intros ->. apply lor_low. Qed.

(** A mask of [n] ones keeps the remainder modulo [2 ^ n]. *)
Lemma land_mask mask n b : mask = Z.ones n -> 0 <= n -> Z.land b mask = b mod 2 ^ n.
Proof. intros -> Hn. by apply Z.land_ones. Qed.

(** A mask of ones above [n] zeros keeps the quotient by [2 ^ n]. *)
Lemma land_high a m n : 0 <= n -> Z.land a (m * 2 ^ n) = Z.land (a / 2 ^ n) m * 2 ^ n.
Proof.
  intros Hn. apply Z.bits_inj'. intros i Hi. rewrite Z.land_spec.
  destruct (Z.lt_ge_cases i n) as [Hlt|Hge].
  - by rewrite !Z.mul_pow2_bits_low, andb_false_r.
  - rewrite !Z.mul_pow2_bits, Z.land_spec, Z.div_pow2_bits by lia.
    by replace (i - n + n) with i by lia.
Qed.

End Bits.

(** Shifts, masks and lead bits as arithmetic. *)
Ltac bits_to_arith :=
  rewrite ?Z.shiftr_div_pow2, ?Z.shiftl_mul_pow2 by lia;
  rewrite ?(land_mask 0x3F 6), ?(land_mask 0x3FF 10), ?(land_mask 0x7F 7),
    ?(land_mask 0x1F 5), ?(land_mask 0x0F 4), ?(land_mask 0x07 3) by done;
  change (2 ^ 3) with 8 in *; change (2 ^ 4) with 16 in *;
  change (2 ^ 5) with 32 in *; change (2 ^ 6) with 64 in *;
  change (2 ^ 7) with 128 in *; change (2 ^ 10) with 1024 in *;
  change (2 ^ 12) with 4096 in *; change (2 ^ 18) with 262144 in *.

Ltac lead a n := apply (lor_lead _ a n); [done | lia..].

(** ** Table 3-6 *)

Lemma utf8_bits_encode1 c : 0 <= c < 0x200000 -> utf8_bits c = utf8_encode1 c.
Proof.
  intros Hc. unfold utf8_bits, utf8_encode1. bits_to_arith.
  repeat case_match; try done; repeat f_equal;
    first [lead 3 6 | lead 2 6 | lead 14 4 | lead 30 3].
Qed.

(** ** Table 3-7 *)

(** The value of a well-formed sequence, by its length. *)
Lemma utf8_value_1 b0 : 0 <= b0 < 0x80 -> utf8_value [b0] = b0.
Proof. intros. unfold utf8_value. cbn. bits_to_arith. lia. Qed.

Lemma trail_bits c b : 0x80 <= b < 0xC0 -> Z.lor (Z.shiftl c 6) (Z.land b 0x3F) = c * 64 + (b - 0x80).
Proof.
  intros. bits_to_arith. rewrite (lor_low c _ 6) by lia. lia.
Qed.

Lemma utf8_value_2 b0 b1 :
  0xC0 <= b0 < 0xE0 -> 0x80 <= b1 < 0xC0 ->
  utf8_value [b0; b1] = (b0 - 0xC0) * 64 + (b1 - 0x80).
Proof.
  intros. unfold utf8_value. cbn. rewrite trail_bits by done. bits_to_arith. lia.
Qed.

Lemma utf8_value_3 b0 b1 b2 :
  0xE0 <= b0 < 0xF0 -> 0x80 <= b1 < 0xC0 -> 0x80 <= b2 < 0xC0 ->
  utf8_value [b0; b1; b2] = (b0 - 0xE0) * 4096 + (b1 - 0x80) * 64 + (b2 - 0x80).
Proof.
  intros. unfold utf8_value. cbn. rewrite !trail_bits by done. bits_to_arith. lia.
Qed.

Lemma utf8_value_4 b0 b1 b2 b3 :
  0xF0 <= b0 < 0xF8 -> 0x80 <= b1 < 0xC0 -> 0x80 <= b2 < 0xC0 -> 0x80 <= b3 < 0xC0 ->
  utf8_value [b0; b1; b2; b3] =
  (b0 - 0xF0) * 262144 + (b1 - 0x80) * 4096 + (b2 - 0x80) * 64 + (b3 - 0x80).
Proof.
  intros. unfold utf8_value. cbn. rewrite !trail_bits by done. bits_to_arith. lia.
Qed.

(** Decide every test of a goal; a combination that cannot be is
    dismissed. *)
Ltac split_tests :=
  repeat (match goal with
          | |- context [?a <=? ?b] => destruct (Z.leb_spec a b)
          | |- context [?a <? ?b] => destruct (Z.ltb_spec a b)
          | |- context [?a =? ?b] => destruct (Z.eqb_spec a b)
          end; cbn [andb orb negb]; try lia).

(** Replace every test that the hypotheses decide by its value. *)
Ltac settle :=
  repeat (match goal with
          | |- context [?a <=? ?b] =>
              first [rewrite (proj2 (Z.leb_le a b)) by lia
                    | rewrite (proj2 (Z.leb_gt a b)) by lia]
          | |- context [?a <? ?b] =>
              first [rewrite (proj2 (Z.ltb_lt a b)) by lia
                    | rewrite (proj2 (Z.ltb_ge a b)) by lia]
          | |- context [?a =? ?b] =>
              first [rewrite (proj2 (Z.eqb_eq a b)) by lia
                    | rewrite (proj2 (Z.eqb_neq a b)) by lia]
          end; cbn [andb orb negb]).

(** Decide the tests on the bytes themselves, each followed by the tests
    that it settles. *)
Ltac split_bytes :=
  repeat (match goal with
          | |- context [?a <=? ?b] =>
              first [is_var a | is_var b]; destruct (Z.leb_spec a b)
          | |- context [?a <? ?b] =>
              first [is_var a | is_var b]; destruct (Z.ltb_spec a b)
          end; settle).

(** The classes of a lead byte: the rows of table 3-7 and the bytes that
    lead no sequence. *)
Lemma lead_classes b0 :
  b0 < 0 \/ 0 <= b0 <= 0x7F \/ 0x80 <= b0 <= 0xBF \/ 0xC0 <= b0 <= 0xC1 \/
  0xC2 <= b0 <= 0xDF \/ b0 = 0xE0 \/ 0xE1 <= b0 <= 0xEC \/ b0 = 0xED \/
  0xEE <= b0 <= 0xEF \/ b0 = 0xF0 \/ 0xF1 <= b0 <= 0xF3 \/ b0 = 0xF4 \/
  0xF5 <= b0 <= 0xF7 \/ 0xF8 <= b0.
Proof. lia. Qed.

Lemma utf8_table_next_spec bs : utf8_table_next bs = utf8_next bs.
Proof.
  destruct bs as [|b0 t]; [done|].
  unfold utf8_table_next, utf8_sequence, utf8_next, utf8_row, in_range,
    is_cont, is_surrogate.
  destruct (lead_classes b0) as
    [?|[?|[?|[?|[?|[?|[?|[?|[?|[?|[?|[?|[?|?]]]]]]]]]]]]]; subst; settle.
  all: try done.
  all: destruct t as [|b1 [|b2 [|b3 t]]];
    cbn [firstn skipn length head tail forallb default Nat.eqb andb id];
    rewrite ?take_0, ?drop_0;
    cbn [firstn skipn length head tail forallb default Nat.eqb andb id]; try done.
  all: split_bytes; cbn [fmap option_fmap option_map prod_map fst snd id]; try done.
  all: first [rewrite utf8_value_1 by lia | rewrite utf8_value_2 by lia
             | rewrite utf8_value_3 by lia | rewrite utf8_value_4 by lia];
    try done; do 2 f_equal; lia.
Qed.

(** ** Table 3-5 *)

Lemma utf16_bits_encode1 c : 0 <= c < 0x110000 -> utf16_bits c = utf16_encode1 c.
Proof.
  intros Hc. unfold utf16_bits, utf16_encode1. bits_to_arith.
  case_match; [done|]. f_equal; [lead 27 11 | f_equal; lead 55 10].
Qed.

(** The high bits of a code unit are what is left of it without its ten
    low bits. *)
Lemma surrogate_bits_unit u : 0 <= u < 0x10000 -> surrogate_bits u = u / 1024 * 1024.
Proof.
  intros Hu. unfold surrogate_bits.
  change 0xFC00 with (0x3F * 2 ^ 10). rewrite land_high by done.
  bits_to_arith. lia.
Qed.

Lemma pair_bits u0 u1 :
  0xD800 <= u0 <= 0xDBFF -> 0xDC00 <= u1 <= 0xDFFF ->
  0x10000 + Z.lor (Z.shiftl (Z.land u0 0x3FF) 10) (Z.land u1 0x3FF)
  = 0x10000 + (u0 - 0xD800) * 1024 + (u1 - 0xDC00).
Proof.
  intros H0 H1. bits_to_arith. rewrite (lor_low _ _ 10) by lia. lia.
Qed.

Lemma utf16_table_next_spec us : utf16_table_next us = utf16_next us.
Proof.
  destruct us as [|u0 t]; [done|].
  unfold utf16_table_next, utf16_next, in_range, is_high_surrogate, is_low_surrogate.
  destruct (decide (0 <= u0 < 0x10000)) as [H0|H0]; [|by split_tests].
  rewrite (surrogate_bits_unit u0) by done. settle.
  destruct (decide (0xD800 <= u0 <= 0xDBFF)) as [Hh|Hh]; settle; [|by split_tests].
  destruct t as [|u1 t]; [done|].
  destruct (decide (0 <= u1 < 0x10000)) as [H1|H1]; [|by split_tests].
  rewrite (surrogate_bits_unit u1) by done. settle.
  destruct (decide (0xDC00 <= u1 <= 0xDFFF)) as [Hl|Hl]; settle; [|by split_tests].
  by rewrite pair_bits.
Qed.

(** ** Encoding forms that agree *)

#[export] Instance same_form_equivalence {U : Type} : Equivalence (@same_form U).
Proof.
  split.
  - by intros A.
  - intros A B [Hn He]. split; [done|]. intros c Hc. by rewrite He.
  - intros A B C [Hn He] [Hn' He']. split; intros; [by rewrite Hn|].
    by rewrite He, He'.
Qed.

Section SameForm.
Context {U : Type}.
Implicit Types (A B : EncodingForm U) (l : list U) (cs : list Z).

#[export] Instance decode_fuel_proper :
  Proper (same_form ==> eq ==> eq ==> eq ==> eq) (@decode_fuel U).
Proof.
  intros A B [Hn _] strict ? <- fuel ? <-. induction fuel as [|fuel IH]; intros l ? <-.
  - by destruct l.
  - destruct l as [|a t]; [done|]. cbn [decode_fuel]. rewrite Hn.
    destruct (next B (a :: t)) as [[c rest]|]; [by rewrite (IH rest rest)|].
    destruct strict; [done|]. by rewrite (IH t t).
Qed.

#[export] Instance decode_proper : Proper (same_form ==> eq ==> eq ==> eq) (@decode U).
Proof. intros A B H strict ? <- l ? <-. unfold decode. by rewrite H. Qed.

#[export] Instance well_formed_proper : Proper (same_form ==> eq ==> eq) (@well_formed U).
Proof. intros A B H l ? <-. apply bool_decide_ext. by rewrite H. Qed.

Lemma encode_same A B cs : same_form A B -> scalars cs -> encode A cs = encode B cs.
Proof.
  intros [_ He] Hcs. unfold encode. induction Hcs as [|c cs Hc _ IH]; [done|].
  cbn [flat_map]. by rewrite He, IH.
Qed.

(** The laws of an encoding form are those of every form that agrees
    with it. *)
Lemma same_form_laws A B : same_form A B -> EncodingFormLaws A -> EncodingFormLaws B.
Proof.
  intros [Hn He] laws. split.
  - intros c rest Hc. rewrite <- Hn, <- He by done. by apply next_encode1.
  - intros l c rest H. rewrite <- Hn in H. apply next_sound in H as [Hc ->].
    by rewrite He.
  - intros c Hc. rewrite <- He by done. by apply encode1_nonempty.
Qed.

End SameForm.

(** Conversion between forms that agree is the same conversion. *)
Lemma transcode_same {U V : Type} (A A' : EncodingForm U) (B B' : EncodingForm V)
    {laws : EncodingFormLaws A'} strict l :
  same_form A A' -> same_form B B' ->
  transcode A B strict l = transcode A' B' strict l.
Proof.
  intros HA HB. unfold transcode. rewrite HA.
  destruct (decode A' strict l) as [cs|] eqn:Hd; [|done]. cbn.
  by rewrite (encode_same B B') by (done || by apply (decode_scalars A' strict l)).
Qed.

(** ** The tables define the encoding forms *)

Lemma utf8_table_same : same_form utf8_table utf8.
Proof.
  split; [apply utf8_table_next_spec|]. intros c Hc. apply utf8_bits_encode1.
  unfold is_scalar in Hc. lia.
Qed.

Lemma utf16_table_same : same_form utf16_table utf16.
Proof.
  split; [apply utf16_table_next_spec|]. intros c Hc. apply utf16_bits_encode1.
  unfold is_scalar in Hc. lia.
Qed.

(** So the tables keep the laws of an encoding form, and every theorem
    of [Unicode] holds of them. *)
Lemma utf8_table_laws : EncodingFormLaws utf8_table.
Proof. apply (same_form_laws utf8); [symmetry; apply utf8_table_same | apply _]. Qed.

Lemma utf16_table_laws : EncodingFormLaws utf16_table.
Proof. apply (same_form_laws utf16); [symmetry; apply utf16_table_same | apply _]. Qed.

Lemma utf8_to_utf16_tables strict bs :
  transcode utf8_table utf16_table strict bs = utf8_to_utf16 strict bs.
Proof.
  apply (transcode_same utf8_table utf8 utf16_table utf16 _ _ utf8_table_same utf16_table_same).
Qed.

Lemma utf16_to_utf8_tables strict us :
  transcode utf16_table utf8_table strict us = utf16_to_utf8 strict us.
Proof.
  apply (transcode_same utf16_table utf16 utf8_table utf8 _ _ utf16_table_same utf8_table_same).
Qed.

(** ** The bytes of well-formed UTF-8 *)

Lemma in_range_spec lo hi b : in_range lo hi b = true <-> lo <= b <= hi.
Proof. unfold in_range. rewrite andb_true_iff, !Z.leb_le. done. Qed.

Lemma utf8_byte_spec b : utf8_byte b = true <-> 0 <= b <= 0xBF \/ 0xC2 <= b <= 0xF4.
Proof. unfold utf8_byte. rewrite !orb_true_iff, !in_range_spec. lia. Qed.

Lemma utf8_row_spec b0 lo hi n :
  utf8_row b0 = Some (lo, hi, n) ->
  0xC2 <= b0 <= 0xF4 /\ 0x80 <= lo /\ hi <= 0xBF /\ (1 <= n)%nat.
Proof.
  unfold utf8_row, in_range. repeat case_match; intros [= <- <- <-]; lia.
Qed.

(** A sequence of the table is a prefix of the list, made of bytes of
    the table. *)
Lemma utf8_sequence_spec bs seq rest :
  utf8_sequence bs = Some (seq, rest) -> bs = seq ++ rest /\ utf8_bytes seq.
Proof.
  destruct bs as [|b0 t]; [done|]. cbn [utf8_sequence].
  destruct (in_range 0 127 b0) eqn:H0.
  { intros [= <- <-]. split; [done|]. repeat constructor.
    apply utf8_byte_spec. apply in_range_spec in H0. lia. }
  destruct (utf8_row b0) as [[[lo hi] n]|] eqn:Hrow; [|done].
  apply utf8_row_spec in Hrow as (Hb0 & Hlo & Hhi & Hn). cbv zeta.
  case_match eqn:Htest; [|done]. intros [= <- <-].
  apply andb_prop in Htest as [Htest Htail]. apply andb_prop in Htest as [Hlen Hhead].
  split; [by rewrite <- app_comm_cons, take_drop|].
  apply Nat.eqb_eq in Hlen. destruct (take n t) as [|b1 tl]; [simpl in Hlen; lia|].
  cbn [head tail default] in Hhead, Htail. apply Is_true_true_2, forallb_True in Htail.
  apply in_range_spec in Hhead. unfold id in Hhead.
  constructor; [|constructor]; [apply utf8_byte_spec; lia.. |].
  eapply Forall_impl; [done|].
  intros b Hb%Is_true_true_1%in_range_spec. apply utf8_byte_spec. lia.
Qed.

(** Well-formed UTF-8 is made of the bytes of the table. *)
Lemma well_formed_utf8_bytes bs : well_formed utf8 bs = true -> utf8_bytes bs.
Proof.
  induction bs as [bs IH] using (decode_ind (U := Z)). intros Hwf.
  destruct bs as [|b0 t]; [done|]. apply well_formed_spec in Hwf as [cs Hd].
  destruct (decode_cons_cases utf8 true b0 t)
    as [(c & rest & Hn & Hlen & _ & _ & Hstep)|[(_ & _ & H)|(_ & ? & _)]];
    [| congruence | done].
  rewrite Hstep in Hd. apply fmap_Some in Hd as (cs' & Hd & _).
  cbn [next utf8] in Hn. rewrite <- utf8_table_next_spec in Hn.
  apply fmap_Some in Hn as ([seq r] & Hseq & [= _ ->]).
  apply utf8_sequence_spec in Hseq as [Heq Hseq]. rewrite Heq.
  apply Forall_app. split; [done|].
  apply IH; [simpl; lia | apply well_formed_spec; by exists cs'].
Qed.

(** ** The conversions of the program, by the tables *)

Section TableProperties.
Context {dm : DataModel} {api : Win32Api} {laws : Win32Laws api}.
Implicit Types s us bs : list Z.


(** C32. The bytes [C0], [C1] and [F5] to [FF], which table 3-7 has in
    no column: [utf8ToUtf16] throws when one of them is among the bytes
    it converts, and on Windows Vista and later none of them is in a
    string that [utf16ToUtf8] returns. *)
Theorem foreign_bytes s b :
  utf8_byte b = false ->
  (b ∈ guarded s -> result (utf8ToUtf16 s) = Thrown utf8_error) /\
  (host_is_vista_or_later = true -> fits_int s = true ->
   forall bs, returns (utf16ToUtf8 s) bs -> b ∉ bs).
Proof.
  intros Hb. split.
  - intros Hin. rewrite utf8ToUtf16_result.
    destruct (well_formed utf8 (guarded s)) eqn:Hwf.
    + apply well_formed_utf8_bytes in Hwf. rewrite Forall_forall in Hwf.
      apply Hwf in Hin. congruence.
    + apply (transcode_None utf8 utf16) in Hwf. unfold utf8_to_utf16. by rewrite Hwf.
  - intros Hv Hfit bs. unfold returns. rewrite utf16ToUtf8_result by done.
    unfold conversion_under. rewrite Hv.
    destruct (utf16_to_utf8 true (guarded s)) as [out|] eqn:H; [|done].
    intros [= <-] Hin. apply (transcode_well_formed utf16 utf8) in H.
    apply well_formed_utf8_bytes in H. rewrite Forall_forall in H.
    apply H in Hin. congruence.
Qed.

End TableProperties.

Section TableWitnesses.
#[local] Existing Instance llp64.
#[local] Existing Instance windows_10.

(** The rows of table 3-7 at their edges: an overlong form of two and
    of three bytes, a surrogate, an overlong form of four bytes and a
    number above [10FFFF] are no sequences; the last scalar value below
    the surrogates, the first above them and the last of all are. *)
Example table_3_7_edges :
  utf8_sequence [0xC0; 0x80] = None /\ utf8_sequence [0xC1; 0xBF] = None /\
  utf8_sequence [0xE0; 0x9F; 0xBF] = None /\ utf8_sequence [0xED; 0xA0; 0x80] = None /\
  utf8_sequence [0xF0; 0x8F; 0xBF; 0xBF] = None /\
  utf8_sequence [0xF4; 0x90; 0x80; 0x80] = None /\
  utf8_table_next [0xED; 0x9F; 0xBF] = Some (0xD7FF, []) /\
  utf8_table_next [0xEE; 0x80; 0x80] = Some (0xE000, []) /\
  utf8_table_next [0xF4; 0x8F; 0xBF; 0xBF; 0x41] = Some (0x10FFFF, [0x41]).
Proof. by vm_compute. Qed.

(** U+1F600 in the three tables. *)
Example grinning_bits :
  utf8_bits 0x1F600 = grinning /\ utf8_table_next grinning = Some (0x1F600, []) /\
  utf16_bits 0x1F600 = [0xD83D; 0xDE00] /\
  utf16_table_next [0xD83D; 0xDE00] = Some (0x1F600, []).
Proof. by vm_compute. Qed.


Lemma foreign_bytes_witness :
  result (utf8ToUtf16 [0xC0; 0x80]) = Thrown utf8_error /\ 0xF5 ∉ grinning.
Proof.
  split.
  - apply (foreign_bytes [0xC0; 0x80] 0xC0 eq_refl). by left.
  - apply (proj2 (foreign_bytes (api := windows_10) [0xD83D; 0xDE00] 0xF5 eq_refl)
             eq_refl eq_refl).
    by vm_compute.
Defined.

End TableWitnesses.
